(** * Pixel power HAL and pixelstats: a shallow embedding

    The development follows the C++ sources class by class.  Each class
    becomes a module holding a record for the object state and one Rocq
    function per member function.  Undefined behaviour of the C++ code
    (out-of-range indexing, division by zero, a fatal log) is the [None]
    outcome of an [option]-valued function. *)

From Stdlib Require Import ZArith Zquot Floats Uint63 String Ascii Lia Bool DecimalString.
From stdpp Require Import gmap list.

Set Warnings "-inexact-float,-clear-no-such-hyp".
Local Open Scope Z_scope.

(** ** Fixed-width integers and doubles *)

Module Cxx.

(** Two's complement reading of the low [w] bits of [z]. *)
Definition sint (w : Z) (z : Z) : Z :=
  (z + 2 ^ (w - 1)) mod 2 ^ w - 2 ^ (w - 1).

Definition uint (w : Z) (z : Z) : Z := z mod 2 ^ w.

Definition int16 := sint 16.
Definition int32 := sint 32.
Definition int64 := sint 64.
Definition uint16 := uint 16.
Definition uint32 := uint 32.
Definition uint64 := uint 64.

Definition INT32_MAX : Z := 2 ^ 31 - 1.
Definition INT32_MIN : Z := - 2 ^ 31.
Definition INT64_MAX : Z := 2 ^ 63 - 1.
Definition INT64_MIN : Z := - 2 ^ 63.

Definition in_int32 (z : Z) : Prop := INT32_MIN <= z <= INT32_MAX.
Definition in_int64 (z : Z) : Prop := INT64_MIN <= z <= INT64_MAX.

(** Conversion of a 64-bit signed integer to [double], rounding to
    nearest as the hardware does. *)
Definition double_of_Z (z : Z) : float :=
  if z =? INT64_MIN then (-9223372036854775808)%float
  else if z <? 0 then PrimFloat.opp (PrimFloat.of_uint63 (Uint63.of_Z (- z)))
  else PrimFloat.of_uint63 (Uint63.of_Z z).

(** [a > b] and [a >= b] on doubles. *)
Definition dgt (a b : float) : bool := PrimFloat.ltb b a.
Definition dge (a b : float) : bool := PrimFloat.leb b a.

(** [operator<<] of an integer on a stream in its default state. *)
Definition show_int (z : Z) : string := NilZero.string_of_int (Z.to_int z).

(** [v[i]] on a vector or array, with a signed index. *)
Definition at_ {A} (l : list A) (i : Z) : option A :=
  if i <? 0 then None else l !! Z.to_nat i.

(** [v[i] = x], undefined out of range. *)
Definition store {A} (l : list A) (i : Z) (x : A) : option (list A) :=
  if (0 <=? i) && (i <? Z.of_nat (length l)) then Some (<[Z.to_nat i := x]> l)
  else None.

End Cxx.

Import Cxx.

(** ** perfmgr: FrameBuckets (HintManager.h companion header) *)

Module FrameBuckets.

Local Open Scope string_scope.

Record t := mk {
  totalNumOfFrames : Z;
  numOfFrames17to25ms : Z;
  numOfFrames25to34ms : Z;
  numOfFrames34to67ms : Z;
  numOfFrames67to100ms : Z;
  numOfFramesOver100ms : Z
}.

(** Default member initialisers. *)
Definition init : t := mk 0 0 0 0 0 0.

Definition addUpNewFrames (a newFrames : t) : t :=
  {| totalNumOfFrames := int64 (totalNumOfFrames a + totalNumOfFrames newFrames);
     numOfFrames17to25ms := int64 (numOfFrames17to25ms a + numOfFrames17to25ms newFrames);
     numOfFrames25to34ms := int64 (numOfFrames25to34ms a + numOfFrames25to34ms newFrames);
     numOfFrames34to67ms := int64 (numOfFrames34to67ms a + numOfFrames34to67ms newFrames);
     numOfFrames67to100ms := int64 (numOfFrames67to100ms a + numOfFrames67to100ms newFrames);
     numOfFramesOver100ms := int64 (numOfFramesOver100ms a + numOfFramesOver100ms newFrames) |}.

(** The field-wise sum of two histograms over the integers, to compare
    [addUpNewFrames] with. *)
Definition fieldwise_sum (a b : t) : t :=
  mk (totalNumOfFrames a + totalNumOfFrames b)
     (numOfFrames17to25ms a + numOfFrames17to25ms b)
     (numOfFrames25to34ms a + numOfFrames25to34ms b)
     (numOfFrames34to67ms a + numOfFrames34to67ms b)
     (numOfFrames67to100ms a + numOfFrames67to100ms b)
     (numOfFramesOver100ms a + numOfFramesOver100ms b).

(** Every counter is an [int64_t]. *)
Definition well_typed (b : t) : Prop :=
  in_int64 (totalNumOfFrames b) ∧ in_int64 (numOfFrames17to25ms b) ∧
  in_int64 (numOfFrames25to34ms b) ∧ in_int64 (numOfFrames34to67ms b) ∧
  in_int64 (numOfFrames67to100ms b) ∧ in_int64 (numOfFramesOver100ms b).

Section Rendering.

(** [operator<<] of a [double] on a [std::stringstream] in its default
    state belongs to the C++ library; the rendering is stated for any
    such formatter. *)
Variable show_double : float -> string.

(** [n * 10000 / total / 100.0]: 64-bit product and quotient, then a
    double division. *)
Definition percentage (n total : Z) : float :=
  PrimFloat.div (double_of_Z (int64 (Z.quot (int64 (n * 10000)) total))) 100%float.

Definition bucketCount (n : Z) : string :=
  if (0 <? n)%Z then "(" ++ show_int n ++ ")" else "".

Definition appendSingleBucketStr (singleBucketFrames totalFrames : Z) (ss : string)
  : string :=
  ss ++ "-" ++ show_double (percentage singleBucketFrames totalFrames) ++ "%"
     ++ bucketCount singleBucketFrames.

Definition toString (b : t) : string :=
  let ss := "JankFramesInBuckets: "%string in
  if (totalNumOfFrames b <=? 0)%Z then ss ++ "0%-0%-0%-0%-0%-0"
  else
    let ss := ss ++ show_double (percentage (numOfFrames17to25ms b) (totalNumOfFrames b))
                 ++ "%" ++ bucketCount (numOfFrames17to25ms b) in
    let ss := appendSingleBucketStr (numOfFrames25to34ms b) (totalNumOfFrames b) ss in
    let ss := appendSingleBucketStr (numOfFrames34to67ms b) (totalNumOfFrames b) ss in
    let ss := appendSingleBucketStr (numOfFrames67to100ms b) (totalNumOfFrames b) ss in
    let ss := appendSingleBucketStr (numOfFramesOver100ms b) (totalNumOfFrames b) ss in
    ss ++ "-" ++ show_int (totalNumOfFrames b).

End Rendering.

End FrameBuckets.

(** ** aidl: SessionRecords *)

Module SessionRecords.

Definition kTotalFramesForFPSCheck : Z := 3.

Record CycleRecord := mkCycle {
  startIntervalUs : Z;
  totalDurationUs : Z;
  isMissedCycle : bool;
  isFPSJitter : bool
}.

(** The two fields of the AIDL [WorkDuration] parcelable that
    [addReportedDurations] reads. *)
Record WorkDuration := mkWork {
  timeStampNanos : Z;
  durationNanos : Z
}.

Record t := mk {
  kMaxNumOfRecords : Z;
  kJankCheckTimeFactor : float;
  mRecords : list CycleRecord;
  mRecordsIndQueue : list Z;
  mAvgDurationUs : Z;
  mLastStartTimeNs : Z;
  mLatestRecordIndex : Z;
  mNumOfMissedCycles : Z;
  mNumOfFrames : Z;
  mSumOfDurationsUs : Z;
  mLatestStartIntervalSumUs : Z;
  mNumOfFrameFPSJitters : Z;
  mAddedFramesForFPSCheck : Z
}.

(** Constructor: [mRecords.resize(maxNumOfRecords)] fills the vector
    with default records; a negative size makes [resize] throw. *)
Definition new (maxNumOfRecords : Z) (jankCheckTimeFactor : float) : option t :=
  if maxNumOfRecords <? 0 then None
  else Some {|
    kMaxNumOfRecords := maxNumOfRecords;
    kJankCheckTimeFactor := jankCheckTimeFactor;
    mRecords := replicate (Z.to_nat maxNumOfRecords) (mkCycle 0 0 false false);
    mRecordsIndQueue := [];
    mAvgDurationUs := 0;
    mLastStartTimeNs := 0;
    mLatestRecordIndex := -1;
    mNumOfMissedCycles := 0;
    mNumOfFrames := 0;
    mSumOfDurationsUs := 0;
    mLatestStartIntervalSumUs := 0;
    mNumOfFrameFPSJitters := 0;
    mAddedFramesForFPSCheck := 0 |}.

(** [a % b] on [int32_t]; a zero divisor is undefined. *)
Definition rem32 (a b : Z) : option Z :=
  if b =? 0 then None else Some (Z.rem a b).

Definition updateFrameBuckets (frameDurationUs : Z) (isJankFrame : bool)
    (fb : FrameBuckets.t) : FrameBuckets.t :=
  let fb := FrameBuckets.mk (int64 (FrameBuckets.totalNumOfFrames fb + 1))
              (FrameBuckets.numOfFrames17to25ms fb) (FrameBuckets.numOfFrames25to34ms fb)
              (FrameBuckets.numOfFrames34to67ms fb) (FrameBuckets.numOfFrames67to100ms fb)
              (FrameBuckets.numOfFramesOver100ms fb) in
  if negb isJankFrame || (frameDurationUs <? 17000) then fb
  else if frameDurationUs <? 25000 then
    FrameBuckets.mk (FrameBuckets.totalNumOfFrames fb)
      (int64 (FrameBuckets.numOfFrames17to25ms fb + 1)) (FrameBuckets.numOfFrames25to34ms fb)
      (FrameBuckets.numOfFrames34to67ms fb) (FrameBuckets.numOfFrames67to100ms fb)
      (FrameBuckets.numOfFramesOver100ms fb)
  else if frameDurationUs <? 34000 then
    FrameBuckets.mk (FrameBuckets.totalNumOfFrames fb)
      (FrameBuckets.numOfFrames17to25ms fb) (int64 (FrameBuckets.numOfFrames25to34ms fb + 1))
      (FrameBuckets.numOfFrames34to67ms fb) (FrameBuckets.numOfFrames67to100ms fb)
      (FrameBuckets.numOfFramesOver100ms fb)
  else if frameDurationUs <? 67000 then
    FrameBuckets.mk (FrameBuckets.totalNumOfFrames fb)
      (FrameBuckets.numOfFrames17to25ms fb) (FrameBuckets.numOfFrames25to34ms fb)
      (int64 (FrameBuckets.numOfFrames34to67ms fb + 1)) (FrameBuckets.numOfFrames67to100ms fb)
      (FrameBuckets.numOfFramesOver100ms fb)
  else if frameDurationUs <? 100000 then
    FrameBuckets.mk (FrameBuckets.totalNumOfFrames fb)
      (FrameBuckets.numOfFrames17to25ms fb) (FrameBuckets.numOfFrames25to34ms fb)
      (FrameBuckets.numOfFrames34to67ms fb) (int64 (FrameBuckets.numOfFrames67to100ms fb + 1))
      (FrameBuckets.numOfFramesOver100ms fb)
  else if 100000 <=? frameDurationUs then
    FrameBuckets.mk (FrameBuckets.totalNumOfFrames fb)
      (FrameBuckets.numOfFrames17to25ms fb) (FrameBuckets.numOfFrames25to34ms fb)
      (FrameBuckets.numOfFrames34to67ms fb) (FrameBuckets.numOfFrames67to100ms fb)
      (int64 (FrameBuckets.numOfFramesOver100ms fb + 1))
  else fb.

(** The [while] loop that pops from the back of the index deque, run on
    the deque read back to front. *)
Fixpoint popBackWhile (records : list CycleRecord) (totalDurationUs : Z)
    (revQueue : list Z) : option (list Z) :=
  match revQueue with
  | [] => Some []
  | back :: rest =>
      r ← at_ records back;
      if SessionRecords.totalDurationUs r <=? totalDurationUs
      then popBackWhile records totalDurationUs rest
      else Some (back :: rest)
  end.

(** Eviction of the oldest record, the body of
    [if (mNumOfFrames >= kMaxNumOfRecords)]. *)
Definition evictOldest (s : t) : option t :=
  indexOfRecordToRemove ← rem32 (int32 (mLatestRecordIndex s + 1)) (kMaxNumOfRecords s);
  old ← at_ (mRecords s) indexOfRecordToRemove;
  front ← head (mRecordsIndQueue s);
  Some {|
    kMaxNumOfRecords := kMaxNumOfRecords s;
    kJankCheckTimeFactor := kJankCheckTimeFactor s;
    mRecords := mRecords s;
    mRecordsIndQueue :=
      if front =? indexOfRecordToRemove then tail (mRecordsIndQueue s)
      else mRecordsIndQueue s;
    mAvgDurationUs := mAvgDurationUs s;
    mLastStartTimeNs := mLastStartTimeNs s;
    mLatestRecordIndex := mLatestRecordIndex s;
    mNumOfMissedCycles :=
      if isMissedCycle old then int32 (mNumOfMissedCycles s - 1) else mNumOfMissedCycles s;
    mNumOfFrames := int32 (mNumOfFrames s - 1);
    mSumOfDurationsUs := int64 (mSumOfDurationsUs s - totalDurationUs old);
    mLatestStartIntervalSumUs := mLatestStartIntervalSumUs s;
    mNumOfFrameFPSJitters :=
      if isFPSJitter old then int32 (mNumOfFrameFPSJitters s - 1)
      else mNumOfFrameFPSJitters s;
    mAddedFramesForFPSCheck := mAddedFramesForFPSCheck s |}.

(** One iteration of the [for] loop of [addReportedDurations]. *)
Definition addReportedDuration (targetDurationNs : Z) (computeFPSJitters : bool)
    (acc : t * FrameBuckets.t) (duration : WorkDuration) : option (t * FrameBuckets.t) :=
  let '(s0, newFramesInBuckets) := acc in
  let totalDurationUs := int32 (Z.quot (durationNanos duration) 1000) in
  s ← (if kMaxNumOfRecords s0 <=? mNumOfFrames s0 then evictOldest s0 else Some s0);
  latest ← rem32 (int32 (mLatestRecordIndex s + 1)) (kMaxNumOfRecords s);
  let startTimeNs := int64 (timeStampNanos duration - durationNanos duration) in
  let startIntervalUs :=
    if 0 <? mNumOfFrames s
    then int32 (Z.quot (int64 (startTimeNs - mLastStartTimeNs s)) 1000)
    else 0 in
  '(FPSJitter, sumUs, jitters, added) ←
    (if computeFPSJitters then
       if mAddedFramesForFPSCheck s <? kTotalFramesForFPSCheck then
         if 0 <? startIntervalUs
         then Some (false, int32 (mLatestStartIntervalSumUs s + startIntervalUs),
                    mNumOfFrameFPSJitters s, int32 (mAddedFramesForFPSCheck s + 1))
         else Some (false, mLatestStartIntervalSumUs s,
                    mNumOfFrameFPSJitters s, mAddedFramesForFPSCheck s)
       else
         let jitter :=
           dgt (double_of_Z startIntervalUs)
               (PrimFloat.div
                  (PrimFloat.mul 1.4%float (double_of_Z (mLatestStartIntervalSumUs s)))
                  (double_of_Z kTotalFramesForFPSCheck)) in
         let oldRecordIndex := int32 (latest - kTotalFramesForFPSCheck) in
         let oldRecordIndex :=
           if oldRecordIndex <? 0 then int32 (oldRecordIndex + kMaxNumOfRecords s)
           else oldRecordIndex in
         old ← at_ (mRecords s) oldRecordIndex;
         Some (jitter,
               int32 (mLatestStartIntervalSumUs s
                      + int32 (startIntervalUs - SessionRecords.startIntervalUs old)),
               (if jitter then int32 (mNumOfFrameFPSJitters s + 1)
                else mNumOfFrameFPSJitters s),
               mAddedFramesForFPSCheck s)
     else Some (false, 0, mNumOfFrameFPSJitters s, 0));
  let cycleMissed :=
    dgt (double_of_Z totalDurationUs)
        (PrimFloat.mul (double_of_Z (Z.quot targetDurationNs 1000))
                       (kJankCheckTimeFactor s)) in
  records ← store (mRecords s) latest
              (mkCycle startIntervalUs totalDurationUs cycleMissed FPSJitter);
  let frames := int32 (mNumOfFrames s + 1) in
  queue ← popBackWhile records totalDurationUs (rev (mRecordsIndQueue s));
  let sum := int64 (mSumOfDurationsUs s + totalDurationUs) in
  avg ← (if frames =? 0 then None else Some (int32 (Z.quot sum frames)));
  Some ({|
    kMaxNumOfRecords := kMaxNumOfRecords s;
    kJankCheckTimeFactor := kJankCheckTimeFactor s;
    mRecords := records;
    mRecordsIndQueue := rev queue ++ [latest];
    mAvgDurationUs := avg;
    mLastStartTimeNs := startTimeNs;
    mLatestRecordIndex := latest;
    mNumOfMissedCycles :=
      if cycleMissed then int32 (mNumOfMissedCycles s + 1) else mNumOfMissedCycles s;
    mNumOfFrames := frames;
    mSumOfDurationsUs := sum;
    mLatestStartIntervalSumUs := sumUs;
    mNumOfFrameFPSJitters := jitters;
    mAddedFramesForFPSCheck := added |},
    updateFrameBuckets totalDurationUs cycleMissed newFramesInBuckets).

Fixpoint addReportedDurations (actualDurationsNs : list WorkDuration)
    (targetDurationNs : Z) (computeFPSJitters : bool)
    (acc : t * FrameBuckets.t) : option (t * FrameBuckets.t) :=
  match actualDurationsNs with
  | [] => Some acc
  | duration :: rest =>
      acc' ← addReportedDuration targetDurationNs computeFPSJitters acc duration;
      addReportedDurations rest targetDurationNs computeFPSJitters acc'
  end.

(** [std::optional] results are the inner [option]; the outer one is
    the indexing of [mRecords]. *)
Definition getMaxDuration (s : t) : option (option Z) :=
  match mRecordsIndQueue s with
  | [] => Some None
  | front :: _ => r ← at_ (mRecords s) front; Some (Some (totalDurationUs r))
  end.

Definition getAvgDuration (s : t) : option Z :=
  if mNumOfFrames s <=? 0 then None else Some (mAvgDurationUs s).

Definition getNumOfRecords (s : t) : Z := mNumOfFrames s.

Definition getNumOfMissedCycles (s : t) : Z := mNumOfMissedCycles s.

Definition getNumOfFPSJitters (s : t) : Z := mNumOfFrameFPSJitters s.

(** [1000000.0 / fpsLowRateThreshold]. *)
Definition cycleDurationThresholdUs (fpsLowRateThreshold : Z) : float :=
  PrimFloat.div 1000000%float (double_of_Z fpsLowRateThreshold).

Definition isLowFrameRate (s : t) (fpsLowRateThreshold : Z) : option bool :=
  let threshold := cycleDurationThresholdUs fpsLowRateThreshold in
  if 3 <=? mNumOfFrames s then
    let ind1 := mLatestRecordIndex s in
    let ind2 := if ind1 =? 0 then int32 (kMaxNumOfRecords s - 1) else int32 (ind1 - 1) in
    let ind3 := if ind2 =? 0 then int32 (kMaxNumOfRecords s - 1) else int32 (ind2 - 1) in
    r1 ← at_ (mRecords s) ind1;
    if dge (double_of_Z (startIntervalUs r1)) threshold then
      r2 ← at_ (mRecords s) ind2;
      if dge (double_of_Z (startIntervalUs r2)) threshold then
        r3 ← at_ (mRecords s) ind3;
        Some (dge (double_of_Z (startIntervalUs r3)) threshold)
      else Some false
    else Some false
  else Some false.

Definition resetRecords (s : t) : t :=
  {| kMaxNumOfRecords := kMaxNumOfRecords s;
     kJankCheckTimeFactor := kJankCheckTimeFactor s;
     mRecords := mRecords s;
     mRecordsIndQueue := [];
     mAvgDurationUs := 0;
     mLastStartTimeNs := 0;
     mLatestRecordIndex := -1;
     mNumOfMissedCycles := 0;
     mNumOfFrames := 0;
     mSumOfDurationsUs := 0;
     mLatestStartIntervalSumUs := mLatestStartIntervalSumUs s;
     mNumOfFrameFPSJitters := mNumOfFrameFPSJitters s;
     mAddedFramesForFPSCheck := mAddedFramesForFPSCheck s |}.

(** [1000000 * kTotalFramesForFPSCheck / mLatestStartIntervalSumUs] in
    [int32_t]; [None] is the integer division by zero. *)
Definition getLatestFPS (s : t) : option Z :=
  if mLatestStartIntervalSumUs s =? 0 then None
  else Some (int32 (Z.quot (int32 (1000000 * kTotalFramesForFPSCheck))
                           (mLatestStartIntervalSumUs s))).

(** The test fixture helpers of SessionRecordsTest. *)
Definition MS_TO_NS (x : Z) : Z := x * 1000 * 1000.
Definition MS_TO_US (x : Z) : Z := x * 1000.

Definition fakeWorkDurations (fakedTotalDurationsMs : list Z) : list WorkDuration :=
  map (fun d => mkWork 0 (MS_TO_NS d)) fakedTotalDurationsMs.

Definition fakeWorkDurationsAt (fakedReportedDurationsMs : list (Z * Z))
  : list WorkDuration :=
  map (fun r => mkWork (MS_TO_NS (fst r)) (MS_TO_NS (snd r))) fakedReportedDurationsMs.

(** What the four getters of the test report on a state. *)
Definition observe (s : t) : Z * option (option Z) * option Z * Z :=
  (getNumOfRecords s, getMaxDuration s, getAvgDuration s, getNumOfMissedCycles s).

(** The states a client can bring a [SessionRecords] object into: it
    constructs the object, reports batches of durations and resets. *)
Inductive reachable : t -> Prop :=
| reach_new maxNumOfRecords jankCheckTimeFactor s :
    in_int32 maxNumOfRecords ->
    new maxNumOfRecords jankCheckTimeFactor = Some s ->
    reachable s
| reach_add s buckets durations targetDurationNs computeFPSJitters s' buckets' :
    reachable s ->
    addReportedDurations durations targetDurationNs computeFPSJitters (s, buckets)
      = Some (s', buckets') ->
    reachable s'
| reach_reset s :
    reachable s ->
    reachable (resetRecords s).

(** A session of reporting: batches with their target duration and
    jitter switch, applied in order. *)
Fixpoint addBatches (batches : list (list WorkDuration * Z * bool))
    (acc : t * FrameBuckets.t) : option (t * FrameBuckets.t) :=
  match batches with
  | [] => Some acc
  | (durations, targetDurationNs, computeFPSJitters) :: rest =>
      acc' ← addReportedDurations durations targetDurationNs computeFPSJitters acc;
      addBatches rest acc'
  end.

(** A fresh object put through a session of reporting. *)
Definition session (maxNumOfRecords : Z) (jankCheckTimeFactor : float)
    (batches : list (list WorkDuration * Z * bool)) : option t :=
  s0 ← new maxNumOfRecords jankCheckTimeFactor;
  fst <$> addBatches batches (s0, FrameBuckets.init).

(** The calls of the test checkFPSJitters up to its first
    [getLatestFPS] after a batch reported without jitter tracking. *)
Definition checkFPSJitters_batches : list (list WorkDuration * Z * bool) :=
    [ (fakeWorkDurationsAt [(0, 8); (10, 9); (20, 8); (30, 8)], MS_TO_NS 10, true);
      (fakeWorkDurationsAt [(40, 22); (80, 8)], MS_TO_NS 10, true);
      (fakeWorkDurationsAt [(90, 8); (100, 8); (110, 7)], MS_TO_NS 10, true);
      (fakeWorkDurationsAt [(120, 22); (150, 8)], MS_TO_NS 10, true);
      (fakeWorkDurationsAt [(160, 8); (170, 8)], MS_TO_NS 10, false) ].

(** The calls of the test checkLowFrameRate up to the point where it
    expects a low frame rate. *)
Definition checkLowFrameRate_batches : list (list WorkDuration * Z * bool) :=
    [ (fakeWorkDurationsAt [(0, 8); (10, 9); (20, 8); (30, 8)], MS_TO_NS 10, false);
      (fakeWorkDurationsAt [(130, 8); (230, 9)], MS_TO_NS 10, false);
      (fakeWorkDurationsAt [(330, 8); (430, 9)], MS_TO_NS 10, false) ].

(** The shape every reachable object has: the ring is as long as its
    capacity, and index and count stay within it. *)
Definition wf (s : t) : Prop :=
  0 <= kMaxNumOfRecords s <= INT32_MAX /\
  length (mRecords s) = Z.to_nat (kMaxNumOfRecords s) /\
  -1 <= mLatestRecordIndex s <= kMaxNumOfRecords s - 1 /\
  0 <= mNumOfFrames s <= kMaxNumOfRecords s /\
  (0 < mNumOfFrames s -> 0 <= mLatestRecordIndex s).

(** The record [back] positions behind the latest one on the ring. *)
Definition ringRecord (s : t) (back : Z) : option CycleRecord :=
  at_ (mRecords s) ((mLatestRecordIndex s - back) mod kMaxNumOfRecords s).

(** [startIntervalUs >= 1000000.0 / fpsLowRateThreshold], compared in
    [double] as the code compares. *)
Definition intervalAtLeastCycle (r : CycleRecord) (fpsLowRateThreshold : Z) : bool :=
  dge (double_of_Z (startIntervalUs r)) (cycleDurationThresholdUs fpsLowRateThreshold).

End SessionRecords.

(** ** aidl: SessionChannel, ChannelGroup, ChannelManager *)

Module SessionChannel.

(** The message queue itself is shared memory owned by the FMQ library;
    only whether it constructed successfully is kept. *)
Record t := mk {
  mTgid : Z;
  mUid : Z;
  mId : Z;
  mReadMask : Z;
  mWriteMask : Z;
  mChannelQueueValid : bool
}.

Definition new (tgid uid id offset : Z) (queueValid : bool) : t :=
  {| mTgid := tgid;
     mUid := uid;
     mId := id;
     mReadMask := uint32 (Z.shiftl 1 (offset + 16));
     mWriteMask := uint32 (Z.shiftl 1 offset);
     mChannelQueueValid := queueValid |}.

Definition isValid (c : t) : bool := mChannelQueueValid c.
Definition getTgid (c : t) : Z := mTgid c.
Definition getUid (c : t) : Z := mUid c.
Definition getId (c : t) : Z := mId c.
Definition getReadBitmask (c : t) : Z := mReadMask c.
Definition getWriteBitmask (c : t) : Z := mWriteMask c.

End SessionChannel.

(** The two unions of ChannelManager.h.  Both overlay a pair of
    [int32_t] with one [int64_t]; on the little-endian targets of the HAL
    the first member is the low word. *)
Module ChannelMapKey.

Definition pack (lo hi : Z) : Z := int64 (uint32 lo + 2 ^ 32 * uint32 hi).
Definition low (v : Z) : Z := int32 (v mod 2 ^ 32).
Definition high (v : Z) : Z := int32 (v / 2 ^ 32).

(** [ChannelMapKey{.tgid, .uid}.key] *)
Definition key (tgid uid : Z) : Z := pack tgid uid.

End ChannelMapKey.

Module ChannelMapValue.

(** [ChannelMapValue{.groupId, .offset}.value] and the two projections
    of [ChannelMapValue{.value}]. *)
Definition value (groupId offset : Z) : Z := ChannelMapKey.pack groupId offset.
Definition groupId (v : Z) : Z := ChannelMapKey.low v.
Definition offset (v : Z) : Z := ChannelMapKey.high v.

End ChannelMapValue.

Module ChannelGroup.

(** AdpfTypes.h *)
Definition kMaxChannels : Z := 16.

(** The flag queue and the reader thread of a group take no part in
    the bookkeeping and are left out. *)
Record t := mk {
  mLiveChannels : Z;
  mGroupId : Z;
  mChannels : list (option SessionChannel.t)
}.

Definition new (id : Z) : t :=
  {| mLiveChannels := 0;
     mGroupId := id;
     mChannels := replicate (Z.to_nat kMaxChannels) None |}.

Definition getChannelCount (g : t) : Z := mLiveChannels g.

Definition removeChannel (g : t) (slot : Z) : option (bool * t) :=
  c ← at_ (mChannels g) slot;
  match c with
  | None => Some (false, g)
  | Some _ =>
      channels ← store (mChannels g) slot None;
      Some (true, {| mLiveChannels := int32 (mLiveChannels g - 1);
                     mGroupId := mGroupId g;
                     mChannels := channels |})
  end.

(** [for (slot = 0; slot < kMaxChannels; ++slot) if (!mChannels[slot]) break;]
    started at [slot] with [fuel] iterations left. *)
Fixpoint firstFreeSlot (channels : list (option SessionChannel.t)) (slot : Z)
    (fuel : nat) : option Z :=
  match fuel with
  | O => Some slot
  | S fuel' =>
      if slot <? kMaxChannels then
        c ← at_ channels slot;
        match c with
        | None => Some slot
        | Some _ => firstFreeSlot channels (slot + 1) fuel'
        end
      else Some slot
  end.

(** [None] is [LOG_ALWAYS_FATAL_IF(slot == kMaxChannels, ...)]. *)
Definition createChannel (g : t) (tgid uid : Z) (queueValid : bool)
  : option (SessionChannel.t * t) :=
  slot ← firstFreeSlot (mChannels g) 0 (Z.to_nat kMaxChannels);
  if slot =? kMaxChannels then None
  else
    let channelId := ChannelMapValue.value (int32 (mGroupId g)) slot in
    let channel := SessionChannel.new tgid uid channelId slot queueValid in
    channels ← store (mChannels g) slot (Some channel);
    Some (channel, {| mLiveChannels := int32 (mLiveChannels g + 1);
                      mGroupId := mGroupId g;
                      mChannels := channels |}).

(** [None] is [LOG_ALWAYS_FATAL_IF(!mChannels[slot], ...)]. *)
Definition getChannel (g : t) (slot : Z) : option SessionChannel.t :=
  c ← at_ (mChannels g) slot; c.

End ChannelGroup.

Module ChannelManager.

(** [mChannelGroups] is a [std::map] ordered by group id and
    [mChannelMap] an [std::unordered_map]. *)
Record t := mk {
  mChannelGroups : gmap Z ChannelGroup.t;
  mChannelMap : gmap Z Z
}.

Definition empty : t := mk ∅ ∅.

(** The descriptors of a [ChannelConfig] are handles into the FMQ
    library; the two bit masks are the part the manager computes.  Both
    are [int] fields of the parcelable. *)
Record ChannelConfig := mkConfig {
  readFlagBitmask : Z;
  writeFlagBitmask : Z
}.

(** The least group id whose group has room: the first hit of the
    ascending loop [for (auto &&group : mChannelGroups)]. *)
Definition firstGroupWithRoom (groups : gmap Z ChannelGroup.t) : option Z :=
  map_fold (λ id g acc,
              if ChannelGroup.getChannelCount g <? ChannelGroup.kMaxChannels
              then Some (match acc with Some id' => Z.min id id' | None => id end)
              else acc) None groups.

(** [mChannelGroups.rbegin()->first], the greatest group id. *)
Definition lastGroupId (groups : gmap Z ChannelGroup.t) : option Z :=
  map_fold (λ id _ acc,
              Some (match acc with Some id' => Z.max id id' | None => id end))
           None groups.

(** [emplace] leaves the map alone when the key is taken. *)
Definition emplace (groupId : Z) (groups : gmap Z ChannelGroup.t)
  : gmap Z ChannelGroup.t :=
  match groups !! groupId with
  | Some _ => groups
  | None => <[groupId := ChannelGroup.new groupId]> groups
  end.

(** [std::map::at] throws when the key is absent: the [None] of the
    lookups below. *)
Definition getOrCreateChannel (m : t) (tgid uid : Z) (queueValid : bool)
  : option (SessionChannel.t * t) :=
  let key := ChannelMapKey.key tgid uid in
  match mChannelMap m !! key with
  | Some value =>
      g ← mChannelGroups m !! ChannelMapValue.groupId value;
      channel ← ChannelGroup.getChannel g (ChannelMapValue.offset value);
      Some (channel, m)
  | None =>
      let groupId :=
        match firstGroupWithRoom (mChannelGroups m) with
        | Some id => id
        | None => -1
        end in
      let '(groupId, groups) :=
        if groupId =? -1 then
          let groupId :=
            match lastGroupId (mChannelGroups m) with
            | None => 0
            | Some last => int32 (last + 1)
            end in
          (groupId, emplace groupId (mChannelGroups m))
        else (groupId, mChannelGroups m) in
      g ← groups !! groupId;
      '(channel, g') ← ChannelGroup.createChannel g tgid uid queueValid;
      Some (channel,
            {| mChannelGroups := <[groupId := g']> groups;
               mChannelMap := <[key := SessionChannel.getId channel]> (mChannelMap m) |})
  end.

Definition getChannelConfig (m : t) (tgid uid : Z) (queueValid : bool)
  : option (option ChannelConfig * t) :=
  '(channel, m') ← getOrCreateChannel m tgid uid queueValid;
  if negb (SessionChannel.isValid channel) then Some (None, m')
  else
    _ ← mChannelGroups m' !! ChannelMapValue.groupId (SessionChannel.getId channel);
    Some (Some {| readFlagBitmask := int32 (SessionChannel.getReadBitmask channel);
                  writeFlagBitmask := int32 (SessionChannel.getWriteBitmask channel) |},
          m').

Definition closeChannel (m : t) (tgid uid : Z) : option (bool * t) :=
  let key := ChannelMapKey.key tgid uid in
  match mChannelMap m !! key with
  | None => Some (false, m)
  | Some value =>
      match mChannelGroups m !! ChannelMapValue.groupId value with
      | None => Some (false, m)
      | Some g =>
          '(removed, g') ← ChannelGroup.removeChannel g (ChannelMapValue.offset value);
          if negb removed then Some (false, m)
          else
            let groups :=
              if ChannelGroup.getChannelCount g' =? 0
              then delete (ChannelMapValue.groupId value) (mChannelGroups m)
              else <[ChannelMapValue.groupId value := g']> (mChannelGroups m) in
            Some (true, {| mChannelGroups := groups;
                           mChannelMap := delete key (mChannelMap m) |})
      end
  end.

Definition getGroupCount (m : t) : Z :=
  int32 (Z.of_nat (size (mChannelGroups m))).

(** [out += group.second.getChannelCount()] over all groups, in [int]. *)
Definition getChannelCount (m : t) : Z :=
  map_fold (λ _ g out, int32 (out + ChannelGroup.getChannelCount g)) 0
           (mChannelGroups m).

(** A client of the manager calls one of its two mutating entry points.
    [queueValid] is what the FMQ library answers if the call has to
    build a new channel. *)
Inductive call :=
| GetChannelConfig (tgid uid : Z) (queueValid : bool)
| CloseChannel (tgid uid : Z).

Definition step (m : t) (c : call) : option t :=
  match c with
  | GetChannelConfig tgid uid queueValid =>
      snd <$> getChannelConfig m tgid uid queueValid
  | CloseChannel tgid uid => snd <$> closeChannel m tgid uid
  end.

Fixpoint run (m : t) (calls : list call) : option t :=
  match calls with
  | [] => Some m
  | c :: rest => m' ← step m c; run m' rest
  end.

(** The identities registered and not yet closed after a sequence of
    calls, kept apart from the manager's own tables. *)
Definition track (ids : gset (Z * Z)) (c : call) : gset (Z * Z) :=
  match c with
  | GetChannelConfig tgid uid _ => {[ (tgid, uid) ]} ∪ ids
  | CloseChannel tgid uid => ids ∖ {[ (tgid, uid) ]}
  end.

Definition registered (calls : list call) : gset (Z * Z) :=
  foldl track ∅ calls.

Definition call_in_range (c : call) : Prop :=
  match c with
  | GetChannelConfig tgid uid _ | CloseChannel tgid uid => in_int32 tgid ∧ in_int32 uid
  end.

(** Requests for the channels of a list of identities, one each. *)
Definition requests (queueValid : Z * Z -> bool) (ids : list (Z * Z)) : list call :=
  map (fun id => GetChannelConfig id.1 id.2 (queueValid id)) ids.

(** The identities of ChannelManagerTest: [kTgid + i] and [kUid + i]. *)
Definition spawn (kChannelsToSpawn : nat) : list (Z * Z) :=
  map (fun i => (3000 + Z.of_nat i, 4000 + Z.of_nat i)) (seq 0 kChannelsToSpawn).

(** The number of occupied slots of a group's array. *)
Fixpoint liveSlots (channels : list (option SessionChannel.t)) : Z :=
  match channels with
  | [] => 0
  | Some _ :: rest => 1 + liveSlots rest
  | None :: rest => liveSlots rest
  end.

(** The channels of all groups together, over the integers. *)
Definition totalLive (groups : gmap Z ChannelGroup.t) : Z :=
  map_fold (fun _ g out => out + ChannelGroup.getChannelCount g) 0 groups.

(** What holds of a group kept under [groupId] after [n] calls. *)
Definition group_ok (n groupId : Z) (g : ChannelGroup.t) : Prop :=
  ChannelGroup.mGroupId g = groupId /\
  0 <= groupId < n /\
  length (ChannelGroup.mChannels g) = Z.to_nat ChannelGroup.kMaxChannels /\
  ChannelGroup.mLiveChannels g = liveSlots (ChannelGroup.mChannels g) /\
  0 < ChannelGroup.mLiveChannels g.

(** The invariant of the manager after [n] calls that left the
    identities [ids] registered: every group is well kept, every entry
    of the channel map leads to the live slot that holds the channel of
    its key, the map has an entry for exactly the registered identities,
    and the groups hold as many channels as there are identities. *)
Record inv (n : Z) (ids : gset (Z * Z)) (m : t) : Prop := mkInv {
  inv_groups : forall groupId g,
    mChannelGroups m !! groupId = Some g -> group_ok n groupId g;
  inv_map : forall key value,
    mChannelMap m !! key = Some value ->
    exists g channel,
      mChannelGroups m !! ChannelMapValue.groupId value = Some g /\
      at_ (ChannelGroup.mChannels g) (ChannelMapValue.offset value) = Some (Some channel) /\
      ChannelMapKey.key (SessionChannel.mTgid channel) (SessionChannel.mUid channel) = key /\
      SessionChannel.mId channel = value;
  inv_ids : forall tgid uid,
    in_int32 tgid -> in_int32 uid ->
    ((tgid, uid) ∈ ids <-> is_Some (mChannelMap m !! ChannelMapKey.key tgid uid));
  inv_total : totalLive (mChannelGroups m) = Z.of_nat (size ids);
  inv_bound : Z.of_nat (size ids) <= n
}.

(** The groups after [n] requests for distinct identities: groups
    [0 .. K-1] with [K] the number of sixteens needed, all full but
    possibly the last. *)
Definition packed (n : Z) (m : t) : Prop :=
  let K := (n + 15) / 16 in
  size (mChannelGroups m) = Z.to_nat K /\
  (forall groupId g, mChannelGroups m !! groupId = Some g ->
     0 <= groupId < K /\
     ChannelGroup.getChannelCount g = if groupId <? K - 1 then 16 else n - 16 * (K - 1)) /\
  (forall groupId, 0 <= groupId < K -> is_Some (mChannelGroups m !! groupId)).

End ChannelManager.

(** ** aidl: SupportManager *)

(** The AIDL enumerations of [android.hardware.power], with the
    enumerators that the support tables list, and their generated
    [toString]. *)

Module Mode.
Local Open Scope string_scope.
Inductive t :=
| DOUBLE_TAP_TO_WAKE | LOW_POWER | SUSTAINED_PERFORMANCE | FIXED_PERFORMANCE | VR
| LAUNCH | EXPENSIVE_RENDERING | INTERACTIVE | DEVICE_IDLE | DISPLAY_INACTIVE
| AUDIO_STREAMING_LOW_LATENCY | CAMERA_STREAMING_SECURE | CAMERA_STREAMING_LOW
| CAMERA_STREAMING_MID | CAMERA_STREAMING_HIGH | GAME | GAME_LOADING
| DISPLAY_CHANGE | AUTOMOTIVE_PROJECTION.
#[global] Instance eq_dec : EqDecision t.
Proof. solve_decision. Defined.
Definition toString (m : t) : string :=
  match m with
  | DOUBLE_TAP_TO_WAKE => "DOUBLE_TAP_TO_WAKE" | LOW_POWER => "LOW_POWER"
  | SUSTAINED_PERFORMANCE => "SUSTAINED_PERFORMANCE"
  | FIXED_PERFORMANCE => "FIXED_PERFORMANCE" | VR => "VR" | LAUNCH => "LAUNCH"
  | EXPENSIVE_RENDERING => "EXPENSIVE_RENDERING" | INTERACTIVE => "INTERACTIVE"
  | DEVICE_IDLE => "DEVICE_IDLE" | DISPLAY_INACTIVE => "DISPLAY_INACTIVE"
  | AUDIO_STREAMING_LOW_LATENCY => "AUDIO_STREAMING_LOW_LATENCY"
  | CAMERA_STREAMING_SECURE => "CAMERA_STREAMING_SECURE"
  | CAMERA_STREAMING_LOW => "CAMERA_STREAMING_LOW"
  | CAMERA_STREAMING_MID => "CAMERA_STREAMING_MID"
  | CAMERA_STREAMING_HIGH => "CAMERA_STREAMING_HIGH" | GAME => "GAME"
  | GAME_LOADING => "GAME_LOADING" | DISPLAY_CHANGE => "DISPLAY_CHANGE"
  | AUTOMOTIVE_PROJECTION => "AUTOMOTIVE_PROJECTION"
  end.
End Mode.

Module Boost.
Local Open Scope string_scope.
Inductive t :=
| INTERACTION | DISPLAY_UPDATE_IMMINENT | ML_ACC | AUDIO_LAUNCH | CAMERA_LAUNCH
| CAMERA_SHOT.
#[global] Instance eq_dec : EqDecision t.
Proof. solve_decision. Defined.
Definition toString (b : t) : string :=
  match b with
  | INTERACTION => "INTERACTION"
  | DISPLAY_UPDATE_IMMINENT => "DISPLAY_UPDATE_IMMINENT" | ML_ACC => "ML_ACC"
  | AUDIO_LAUNCH => "AUDIO_LAUNCH" | CAMERA_LAUNCH => "CAMERA_LAUNCH"
  | CAMERA_SHOT => "CAMERA_SHOT"
  end.
End Boost.

Module SessionHint.
Inductive t :=
| CPU_LOAD_UP | CPU_LOAD_DOWN | CPU_LOAD_RESET | CPU_LOAD_RESUME
| POWER_EFFICIENCY | GPU_LOAD_UP | GPU_LOAD_DOWN | GPU_LOAD_RESET
| CPU_LOAD_SPIKE | GPU_LOAD_SPIKE.
#[global] Instance eq_dec : EqDecision t.
Proof. solve_decision. Defined.
End SessionHint.

Module SessionMode.
Inductive t :=
| POWER_EFFICIENCY | GRAPHICS_PIPELINE | AUTO_CPU | AUTO_GPU.
#[global] Instance eq_dec : EqDecision t.
Proof. solve_decision. Defined.
End SessionMode.

Module SessionTag.
Inductive t :=
| OTHER | SURFACEFLINGER | HWUI | GAME | APP | SYSUI.
#[global] Instance eq_dec : EqDecision t.
Proof. solve_decision. Defined.
End SessionTag.

Module SupportManager.

Definition SupportList (E : Type) := list (E * Z).

Definition kModeEarliestVersion : SupportList Mode.t :=
  [ (Mode.DOUBLE_TAP_TO_WAKE, 1); (Mode.LOW_POWER, 1);
    (Mode.SUSTAINED_PERFORMANCE, 1); (Mode.FIXED_PERFORMANCE, 1); (Mode.VR, 1);
    (Mode.LAUNCH, 1); (Mode.EXPENSIVE_RENDERING, 1); (Mode.INTERACTIVE, 1);
    (Mode.DEVICE_IDLE, 1); (Mode.DISPLAY_INACTIVE, 1);
    (Mode.AUDIO_STREAMING_LOW_LATENCY, 1); (Mode.CAMERA_STREAMING_SECURE, 1);
    (Mode.CAMERA_STREAMING_LOW, 1); (Mode.CAMERA_STREAMING_MID, 1);
    (Mode.CAMERA_STREAMING_HIGH, 1); (Mode.GAME, 3); (Mode.GAME_LOADING, 3);
    (Mode.DISPLAY_CHANGE, 5); (Mode.AUTOMOTIVE_PROJECTION, 5) ].

Definition kBoostEarliestVersion : SupportList Boost.t :=
  [ (Boost.INTERACTION, 1); (Boost.DISPLAY_UPDATE_IMMINENT, 1); (Boost.ML_ACC, 1);
    (Boost.AUDIO_LAUNCH, 1); (Boost.CAMERA_LAUNCH, 1); (Boost.CAMERA_SHOT, 1) ].

Definition kSessionHintEarliestVersion : SupportList SessionHint.t :=
  [ (SessionHint.CPU_LOAD_UP, 4); (SessionHint.CPU_LOAD_DOWN, 4);
    (SessionHint.CPU_LOAD_RESET, 4); (SessionHint.CPU_LOAD_RESUME, 4);
    (SessionHint.POWER_EFFICIENCY, 4); (SessionHint.GPU_LOAD_UP, 5);
    (SessionHint.GPU_LOAD_DOWN, 5); (SessionHint.GPU_LOAD_RESET, 5);
    (SessionHint.CPU_LOAD_SPIKE, 6); (SessionHint.GPU_LOAD_SPIKE, 6) ].

Definition kSessionModeEarliestVersion : SupportList SessionMode.t :=
  [ (SessionMode.POWER_EFFICIENCY, 5); (SessionMode.GRAPHICS_PIPELINE, 6);
    (SessionMode.AUTO_CPU, 6); (SessionMode.AUTO_GPU, 6) ].

Definition kSessionTagEarliestVersion : SupportList SessionTag.t :=
  [ (SessionTag.OTHER, 5); (SessionTag.SURFACEFLINGER, 5); (SessionTag.HWUI, 5);
    (SessionTag.GAME, 5); (SessionTag.APP, 5); (SessionTag.SYSUI, 6) ].

(** [std::map::find] on the map built from a support list: the entry of
    the key, if there is one. *)
Fixpoint find {E} `{EqDecision E} (table : SupportList E) (type : E) : option Z :=
  match table with
  | [] => None
  | (e, v) :: rest => if decide (e = type) then Some v else find rest type
  end.

Section Configuration.

(** [IPower::version] of the AIDL interface the HAL is built against,
    and the two queries answered by the [HintManager] singleton from
    the loaded configuration. *)
Variable version : Z.
Variable IsHintSupported : string -> bool.
Variable IsAdpfProfileSupported : string -> bool.

(** [it == map.end() || IPower::version < it->second] *)
Definition tooEarly {E} `{EqDecision E} (table : SupportList E) (type : E) : bool :=
  match find table type with
  | None => true
  | Some earliest => version <? earliest
  end.

Definition modeSupported (type : Mode.t) : bool :=
  if tooEarly kModeEarliestVersion type then false
  else
    let supported := IsHintSupported (Mode.toString type) in
    if decide (type = Mode.LOW_POWER) then true
    else if negb supported && IsAdpfProfileSupported (Mode.toString type) then true
    else supported.

Definition boostSupported (type : Boost.t) : bool :=
  if tooEarly kBoostEarliestVersion type then false
  else
    let supported := IsHintSupported (Boost.toString type) in
    if negb supported && IsAdpfProfileSupported (Boost.toString type) then true
    else supported.

Definition sessionHintSupported (type : SessionHint.t) : bool :=
  if tooEarly kSessionHintEarliestVersion type then false
  else match type with
       | SessionHint.POWER_EFFICIENCY => false
       | _ => true
       end.

Definition sessionModeSupported (type : SessionMode.t) : bool :=
  if tooEarly kSessionModeEarliestVersion type then false
  else match type with
       | SessionMode.POWER_EFFICIENCY => false
       | SessionMode.GRAPHICS_PIPELINE => false
       | _ => true
       end.

Definition sessionTagSupported (type : SessionTag.t) : bool :=
  if tooEarly kSessionTagEarliestVersion type then false else true.

End Configuration.

End SupportManager.

(** ** pixelstats: SysfsCollector, the timer loop of [collect] *)

Module SysfsCollector.

Definition kSecondsPerWake : Z := 5 * 60.
Definition kWakesPer5Min : Z := Z.quot (5 * 60) kSecondsPerWake.
Definition kWakesPerHour : Z := Z.quot (60 * 60) kSecondsPerWake.
Definition kWakesPerDay : Z := Z.quot (24 * 60 * 60) kSecondsPerWake.

(** The three local counters of [collect]. *)
Record counters := mkCounters {
  wake_5min : Z;
  wake_hours : Z;
  wake_days : Z
}.

(** The reporting entry points the loop calls, as observable events. *)
Inductive event :=
| AggregatePer5Min
| LogOnce
| LogPerHour
| LogPerDay.

#[global] Instance event_eq_dec : EqDecision event.
Proof. solve_decision. Defined.

(** [wake += expire.count]: the [int] is converted to [uint64_t], added
    and converted back. *)
Definition addExpirations (wake count : Z) : Z :=
  int32 (uint64 (uint64 wake + count)).

(** One pass through the body of [while (1)] after a successful [read]
    that returned [count] expirations. *)
Definition wake (c : counters) (count : Z) : counters * list event :=
  let w5 := addExpirations (wake_5min c) count in
  let wh := addExpirations (wake_hours c) count in
  let wd := addExpirations (wake_days c) count in
  let '(w5, e5) :=
    if kWakesPer5Min <=? w5 then (Z.rem w5 kWakesPer5Min, [AggregatePer5Min])
    else (w5, []) in
  let '(wh, eh) :=
    if kWakesPerHour <=? wh then (Z.rem wh kWakesPerHour, [LogPerHour])
    else (wh, []) in
  let '(wd, ed) :=
    if kWakesPerDay <=? wd then (Z.rem wd kWakesPerDay, [LogPerDay])
    else (wd, []) in
  (mkCounters w5 wh wd, e5 ++ eh ++ ed).

(** Between passes the counters have been reduced below their periods. *)
Definition reduced (c : counters) : Prop :=
  0 <= wake_5min c < kWakesPer5Min /\
  0 <= wake_hours c < kWakesPerHour /\
  0 <= wake_days c < kWakesPerDay.

(** What [read(timerfd, ...)] yields once interrupted reads have been
    retried: the expiration count, or a failure that ends [collect]. *)
Inductive timer_read :=
| Expired (count : Z)
| ReadError.

(** An expiration count that the [int] counters can absorb. *)
Definition fits (r : timer_read) : Prop :=
  match r with
  | Expired count => 0 <= count <= INT32_MAX - kWakesPerDay
  | ReadError => True
  end.

(** The loop on a finite prefix of timer reads, collecting the events
    of each pass separately. *)
Fixpoint wakeLoop (c : counters) (reads : list timer_read)
  : counters * list (list event) :=
  match reads with
  | [] => (c, [])
  | ReadError :: _ => (c, [])
  | Expired count :: rest =>
      let '(c', evs) := wake c count in
      let '(c'', evss) := wakeLoop c' rest in
      (c'', evs :: evss)
  end.

(** [collect] from the point where the timer has been created and
    armed: the boot-time collection, then the loop. *)
Definition collect (reads : list timer_read) : counters * list (list event) :=
  let boot := [AggregatePer5Min; LogOnce; LogPerHour; LogPerDay] in
  let '(c, evss) := wakeLoop (mkCounters 0 0 0) reads in
  (c, boot :: evss).

End SysfsCollector.

(** ** pixelstats: BatteryFGReporter *)

Module BatteryFGReporter.

Definition kNumMaxEvents : Z := 8.

(** [struct BatteryFGPipeline]: event, state, duration and the sixteen
    register address/data pairs [addr01, data01, ..., addr16, data16]. *)
Record BatteryFGPipeline := mkPipeline {
  event : Z;
  state : Z;
  duration : Z;
  registers : list (Z * Z)
}.

Record t := mk {
  last_ab_check_ : Z;
  ab_trigger_time_ : list Z
}.

Definition new : t := mk 0 (replicate (Z.to_nat kNumMaxEvents) 0).

(** [reportFGEvent] with [now] the value [getTimeSecs()] returns.  The
    result holds the reporter, the record as left in [data], and the
    atom handed to [reportVendorAtom], if any.  The comparison of the
    [int32_t] event with the [unsigned] bound is made in [unsigned]. *)
Definition reportFGEvent (r : t) (data : BatteryFGPipeline) (now : Z)
  : option (t * BatteryFGPipeline * option BatteryFGPipeline) :=
  if kNumMaxEvents <=? uint32 (event data) then Some (r, data, None)
  else
    trigger ← at_ (ab_trigger_time_ r) (event data);
    '(triggers, duration) ←
      (if (state data =? 1) && (trigger =? 0)
       then times ← store (ab_trigger_time_ r) (event data) (uint32 now);
            Some (times, duration data)
       else times ← store (ab_trigger_time_ r) (event data) 0;
            Some (times, int32 (int64 (now - trigger))));
    let data' := mkPipeline (event data) (int32 (state data + 1)) duration
                            (registers data) in
    Some (mk (last_ab_check_ r) triggers, data', Some data').

End BatteryFGReporter.

(** ** pixelstats: BatteryEEPROMReporter *)

Module BatteryEEPROMReporter.

Definition LINESIZE : Z := 31.
Definition kSecondsPerMonth : Z := 60 * 60 * 24 * 30.
Definition BATTERY_CYCLE_COUNT_PATH : string :=
  "/sys/class/power_supply/battery/cycle_count"%string.
Definition kBatteryPairingPath : string :=
  "/sys/class/power_supply/battery/pairing_state"%string.

(** [struct BatteryEEPROMPipelineRawFormat] *)
Module RawFormat.
Record t := mk {
  tempco : Z;
  rcomp0 : Z;
  timer_h : Z;
  fullcapnom : Z;
  fullcaprep : Z;
  mixsoc : Z;
  vfsoc : Z;
  maxvolt : Z;
  minvolt : Z;
  maxtemp : Z;
  mintemp : Z;
  maxchgcurr : Z;
  maxdischgcurr : Z
}.
End RawFormat.

(** [struct BatteryEEPROMPipeline] *)
Module Pipeline.
Record t := mk {
  cycle_cnt : Z;
  full_cap : Z;
  esr : Z;
  rslow : Z;
  soh : Z;
  batt_temp : Z;
  cutoff_soc : Z;
  cc_soc : Z;
  sys_soc : Z;
  msoc : Z;
  batt_soc : Z;
  reserve : Z;
  max_temp : Z;
  min_temp : Z;
  max_vbatt : Z;
  min_vbatt : Z;
  max_ibatt : Z;
  min_ibatt : Z;
  checksum : Z;
  tempco : Z;
  rcomp0 : Z;
  timer_h : Z;
  full_rep : Z;
  battery_pairing : Z
}.
End Pipeline.

(** The reporter object; [checkAndReport] touches no other member. *)
Record t := mk { report_time_ : Z }.

Definition new : t := mk 0.

(** The throttle test at the head of [checkAndReport]. *)
Definition notUploadTime (r : t) (now : Z) : bool :=
  negb (report_time_ r =? 0) && (int64 (now - report_time_ r) <? kSecondsPerMonth).

(** [(int64_t)data[3] << 48 | (int64_t)data[2] << 32 | (int64_t)data[1] << 16 | data[0]]
    stored in a [uint64_t]. *)
Definition packData (d0 d1 d2 d3 : Z) : Z :=
  uint64 (Z.lor (Z.lor (Z.lor (int64 (Z.shiftl d3 48)) (int64 (Z.shiftl d2 32)))
                       (int64 (Z.shiftl d1 16)))
                d0).

(** The chain of [tmp >>= n] that fills the raw fields. *)
Definition extract (tmp : Z) (raw : RawFormat.t) : RawFormat.t :=
  let timer_h := uint 8 (Z.land tmp 255) in
  let tmp := Z.shiftr tmp 8 in
  let fullcapnom := Z.land tmp 1023 in
  let tmp := Z.shiftr tmp 10 in
  let fullcaprep := Z.land tmp 1023 in
  let tmp := Z.shiftr tmp 10 in
  let mixsoc := Z.land tmp 63 in
  let tmp := Z.shiftr tmp 6 in
  let vfsoc := Z.land tmp 63 in
  let tmp := Z.shiftr tmp 6 in
  let maxvolt := Z.land tmp 15 in
  let tmp := Z.shiftr tmp 4 in
  let minvolt := Z.land tmp 15 in
  let tmp := Z.shiftr tmp 4 in
  let maxtemp := Z.land tmp 15 in
  let tmp := Z.shiftr tmp 4 in
  let mintemp := Z.land tmp 15 in
  let tmp := Z.shiftr tmp 4 in
  let maxchgcurr := Z.land tmp 15 in
  let tmp := Z.shiftr tmp 4 in
  let maxdischgcurr := Z.land tmp 15 in
  RawFormat.mk (RawFormat.tempco raw) (RawFormat.rcomp0 raw) timer_h fullcapnom
               fullcaprep mixsoc vfsoc maxvolt minvolt maxtemp mintemp maxchgcurr
               maxdischgcurr.

(** "Mapping to original format": the assignments to [hist], the other
    members keeping what they held.  The members are those of
    [struct BatteryEEPROMPipeline], all [int32_t]; the header of the
    [struct BatteryHistory] of the first [checkAndReport] is not among
    the sources, and a value read from [cycle_cnt] is the one that
    member holds only while the count stays below [2 ^ 15], which it
    does for up to 1638 slots. *)
Definition mapToHistory (raw : RawFormat.t) (i sparse_index_count : Z)
    (hist : Pipeline.t) : Pipeline.t :=
  {| Pipeline.cycle_cnt :=
       if i <? sparse_index_count then int32 ((i + 1) * 20)
       else int32 ((i + sparse_index_count + 1) * 10);
     Pipeline.full_cap := Z.quot (RawFormat.fullcaprep raw * 125) 1000;
     Pipeline.esr := Pipeline.esr hist;
     Pipeline.rslow := Pipeline.rslow hist;
     Pipeline.soh := Pipeline.soh hist;
     Pipeline.batt_temp := Pipeline.batt_temp hist;
     Pipeline.cutoff_soc := Pipeline.cutoff_soc hist;
     Pipeline.cc_soc := Pipeline.cc_soc hist;
     Pipeline.sys_soc := Pipeline.sys_soc hist;
     Pipeline.msoc := RawFormat.mixsoc raw * 2;
     Pipeline.batt_soc := RawFormat.vfsoc raw * 2;
     Pipeline.reserve := Pipeline.reserve hist;
     Pipeline.max_temp := RawFormat.maxtemp raw * 3 + 22;
     Pipeline.min_temp := RawFormat.mintemp raw * 3 - 20;
     Pipeline.max_vbatt := RawFormat.maxvolt raw * 20 + 4200;
     Pipeline.min_vbatt := RawFormat.minvolt raw * 10 + 2500;
     Pipeline.max_ibatt := RawFormat.maxdischgcurr raw * 500;
     Pipeline.min_ibatt := RawFormat.maxchgcurr raw * 500 * (-1);
     Pipeline.checksum := Pipeline.checksum hist;
     Pipeline.tempco := RawFormat.tempco raw;
     Pipeline.rcomp0 := RawFormat.rcomp0 raw;
     Pipeline.timer_h := RawFormat.timer_h raw * 5;
     Pipeline.full_rep := Z.quot (RawFormat.fullcapnom raw * 125) 1000;
     Pipeline.battery_pairing := Pipeline.battery_pairing hist |}.

Definition setPairing (hist : Pipeline.t) (v : Z) : Pipeline.t :=
  {| Pipeline.cycle_cnt := Pipeline.cycle_cnt hist;
     Pipeline.full_cap := Pipeline.full_cap hist;
     Pipeline.esr := Pipeline.esr hist;
     Pipeline.rslow := Pipeline.rslow hist;
     Pipeline.soh := Pipeline.soh hist;
     Pipeline.batt_temp := Pipeline.batt_temp hist;
     Pipeline.cutoff_soc := Pipeline.cutoff_soc hist;
     Pipeline.cc_soc := Pipeline.cc_soc hist;
     Pipeline.sys_soc := Pipeline.sys_soc hist;
     Pipeline.msoc := Pipeline.msoc hist;
     Pipeline.batt_soc := Pipeline.batt_soc hist;
     Pipeline.reserve := Pipeline.reserve hist;
     Pipeline.max_temp := Pipeline.max_temp hist;
     Pipeline.min_temp := Pipeline.min_temp hist;
     Pipeline.max_vbatt := Pipeline.max_vbatt hist;
     Pipeline.min_vbatt := Pipeline.min_vbatt hist;
     Pipeline.max_ibatt := Pipeline.max_ibatt hist;
     Pipeline.min_ibatt := Pipeline.min_ibatt hist;
     Pipeline.checksum := Pipeline.checksum hist;
     Pipeline.tempco := Pipeline.tempco hist;
     Pipeline.rcomp0 := Pipeline.rcomp0 hist;
     Pipeline.timer_h := Pipeline.timer_h hist;
     Pipeline.full_rep := Pipeline.full_rep hist;
     Pipeline.battery_pairing := v |}.

(** The locals and members the history loop reads and writes, the
    number of clock readings taken so far, and the atoms handed to
    [reportEvent], each with the loop index [i] of its record. *)
Record frame := mkFrame {
  self : t;
  clockReads : nat;
  hist_raw : RawFormat.t;
  hist : Pipeline.t;
  reported : list (Z * Pipeline.t)
}.

(** What a run of the history loop adds to the reported atoms: atoms of
    slots that [skip] does not hold of, and if none, the reporter is as
    before. *)
Definition added (skip : Z -> Prop) (f f' : frame) : Prop :=
  exists new,
    reported f' = reported f ++ new /\
    Forall (fun p => -32768 <= p.1 <= 32767 /\ ~ skip p.1) new /\
    (new = [] -> self f' = self f).

(** The sentinel test [tempco == 0xFFFF && rcomp0 == 0xFFFF]. *)
Definition isErased (raw : RawFormat.t) : bool :=
  (RawFormat.tempco raw =? 65535) && (RawFormat.rcomp0 raw =? 65535).

(** Library and platform behaviour the reporter relies on: the file
    system, [android::base::Trim] and [ParseInt], the boot clock
    ([getTimeSecs], by the number of earlier readings), and [sscanf]
    with the history format, which yields the values of the conversions
    it assigned, in order.  The locals of [checkAndReport] start with
    whatever the stack holds.  [BATT_HIST_NUM_MAX] is the constant of the
    legacy header, which is not among the sources. *)
Record env := mkEnv {
  ReadFileToString : string -> option string;
  Trim : string -> string;
  ParseInt : string -> option Z;
  getTimeSecs : nat -> Z;
  sscanf_history : string -> list Z;
  uninit_data : Z -> nat -> Z;
  uninit_raw : RawFormat.t;
  uninit_hist : Pipeline.t;
  BATT_HIST_NUM_MAX : Z
}.

Section Environment.

Variable E : env.

Definition ReadFileToInt (path : string) (hist : Pipeline.t) : Pipeline.t :=
  match ReadFileToString E path with
  | None => hist
  | Some file_contents =>
      match ParseInt E (Trim E file_contents) with
      | None => hist
      | Some v => setPairing hist v
      end
  end.

(** [file_contents.substr(history_offset, LINESIZE)] *)
Definition history_each (file_contents : string) (history_offset : Z) : string :=
  String.substring (Z.to_nat history_offset) (Z.to_nat LINESIZE) file_contents.

(** The two [%4hx] conversions write [hist_raw] when they match. *)
Definition scanInto (vals : list Z) (raw : RawFormat.t) : RawFormat.t :=
  RawFormat.mk (default (RawFormat.tempco raw) (uint16 <$> vals !! 0%nat))
               (default (RawFormat.rcomp0 raw) (uint16 <$> vals !! 1%nat))
               (RawFormat.timer_h raw) (RawFormat.fullcapnom raw)
               (RawFormat.fullcaprep raw) (RawFormat.mixsoc raw) (RawFormat.vfsoc raw)
               (RawFormat.maxvolt raw) (RawFormat.minvolt raw) (RawFormat.maxtemp raw)
               (RawFormat.mintemp raw) (RawFormat.maxchgcurr raw)
               (RawFormat.maxdischgcurr raw).

(** [data[k]] after the scan: the [%x] conversion if it matched, else
    what the fresh array held. *)
Definition scannedData (vals : list Z) (i : Z) (k : nat) : Z :=
  default (uninit_data E i k) (uint32 <$> vals !! (2 + k)%nat).

Definition withRaw (f : frame) (raw : RawFormat.t) : frame :=
  mkFrame (self f) (clockReads f) raw (hist f) (reported f).

(** [tmp] as packed from the scanned [data]. *)
Definition packedData (vals : list Z) (i : Z) : Z :=
  packData (scannedData vals i 0) (scannedData vals i 1)
           (scannedData vals i 2) (scannedData vals i 3).

(** From the sentinel test to the end of the loop body. *)
Definition decodeAndReport (f : frame) (i sparse_index_count : Z) (vals : list Z)
  : frame :=
  let raw := hist_raw f in
  if isErased raw then f
  else
    let tmp := packedData vals i in
    if tmp <=? 0 then f
    else
      let raw := extract tmp raw in
      let h := mapToHistory raw i sparse_index_count (hist f) in
      {| self := mk (getTimeSecs E (clockReads f));
         clockReads := S (clockReads f);
         hist_raw := raw;
         hist := h;
         reported := reported f ++ [(i, h)] |}.

(** The body of the loop of the first [checkAndReport], after the
    [break] test. *)
Definition historyBody (file_contents : string) (sparse_index_count : Z)
    (i : Z) (f : frame) : frame :=
  let vals := sscanf_history E (history_each file_contents (uint64 (i * LINESIZE))) in
  decodeAndReport (withRaw f (scanInto vals (hist_raw f))) i sparse_index_count vals.

(** [for (i = 0; i < BATT_HIST_NUM_MAX; i++)] with an [int16_t]
    counter; [fuel] bounds the number of passes. *)
Fixpoint historyLoop (fuel : nat) (file_contents : string) (sparse_index_count : Z)
    (i : Z) (f : frame) : frame :=
  match fuel with
  | O => f
  | S fuel' =>
      if i <? (BATT_HIST_NUM_MAX E) then
        if Z.of_nat (String.length file_contents) <? uint64 (i * LINESIZE) then f
        else historyLoop fuel' file_contents sparse_index_count (int16 (i + 1))
                         (historyBody file_contents sparse_index_count i f)
      else f
  end.

Definition sparseIndexCount : Z :=
  match ReadFileToString E BATTERY_CYCLE_COUNT_PATH with
  | None => 0
  | Some cycle_count =>
      match ParseInt E (Trim E cycle_count) with
      | None => 0
      | Some cnt =>
          let cnt := Z.quot cnt 10 in
          if (BATT_HIST_NUM_MAX E) <? cnt then Z.rem cnt (BATT_HIST_NUM_MAX E) else 0
      end
  end.

(** The first [checkAndReport] of BatteryEEPROMReporter.cpp.  The
    result carries the reporter, the clock readings consumed and the
    atoms reported by this call. *)
Definition checkAndReport (r : t) (reads : nat) (path : string) : frame :=
  let now := getTimeSecs E reads in
  let f := mkFrame r (S reads) (uninit_raw E) (uninit_hist E) [] in
  if notUploadTime r now then f
  else
    match ReadFileToString E path with
    | None => f
    | Some file_contents =>
        let f := mkFrame r (S reads) (uninit_raw E)
                         (ReadFileToInt kBatteryPairingPath (uninit_hist E)) [] in
        historyLoop (Z.to_nat (BATT_HIST_NUM_MAX E)) file_contents sparseIndexCount 0 f
    end.

(** The body of the loop of the second [checkAndReport] (the pipeline
    format), after the [break] test: a scan that assigned nothing
    skips the record. *)
Definition pipelineBody (file_contents : string) (i : Z) (f : frame) : frame :=
  let vals := sscanf_history E (history_each file_contents (uint64 (i * LINESIZE))) in
  let f := withRaw f (scanInto vals (hist_raw f)) in
  if int16 (Z.of_nat (length vals)) <=? 0 then f
  else decodeAndReport f i 0 vals.

Fixpoint pipelineLoop (fuel : nat) (file_contents : string)
    (kHistTotalLen kHistTotalNum : Z) (i : Z) (f : frame) : frame :=
  match fuel with
  | O => f
  | S fuel' =>
      if i <? kHistTotalNum then
        if uint64 kHistTotalLen <? uint64 (uint64 (i * LINESIZE) + LINESIZE) then f
        else pipelineLoop fuel' file_contents kHistTotalLen kHistTotalNum
                          (int16 (i + 1)) (pipelineBody file_contents i f)
      else f
  end.

(** The second [checkAndReport] of BatteryEEPROMReporter.cpp. *)
Definition checkAndReport_pipeline (r : t) (reads : nat) (path : string) : frame :=
  let now := getTimeSecs E reads in
  let f := mkFrame r (S reads) (uninit_raw E) (uninit_hist E) [] in
  if notUploadTime r now then f
  else
    match ReadFileToString E path with
    | None => f
    | Some file_contents =>
        let kHistTotalLen := int32 (Z.of_nat (String.length file_contents)) in
        let kHistTotalNum := Z.quot kHistTotalLen LINESIZE in
        let f := mkFrame r (S reads) (uninit_raw E)
                         (ReadFileToInt kBatteryPairingPath (uninit_hist E)) [] in
        pipelineLoop (Z.to_nat kHistTotalNum) file_contents kHistTotalLen
                     kHistTotalNum 0 f
    end.

(** What it means for the record of slot [i] to decode to the erased
    pattern: both [%4hx] conversions matched and read [0xFFFF]. *)
Definition decodesErased (file_contents : string) (i : Z) : Prop :=
  let vals := sscanf_history E (history_each file_contents (uint64 (i * LINESIZE))) in
  uint16 <$> vals !! 0%nat = Some 65535 ∧ uint16 <$> vals !! 1%nat = Some 65535.

(** The record of slot [i] is one the loop skips: it decodes to the
    erased pattern, or its packed value is not positive. *)
Definition skipped (file_contents : string) (i : Z) : Prop :=
  decodesErased file_contents i \/
  packedData (sscanf_history E (history_each file_contents (uint64 (i * LINESIZE)))) i <= 0.

(** The pipeline loop also skips a record on which the scan assigned
    nothing. *)
Definition skipped_pipeline (file_contents : string) (i : Z) : Prop :=
  skipped file_contents i \/
  sscanf_history E (history_each file_contents (uint64 (i * LINESIZE))) = [].

(** The record of slot [i] is a written one: both [%4hx] conversions
    matched, not both with [0xFFFF], and the packed value is positive. *)
Definition written (file_contents : string) (i : Z) : Prop :=
  let vals := sscanf_history E (history_each file_contents (uint64 (i * LINESIZE))) in
  (exists tempco rcomp0,
      uint16 <$> vals !! 0%nat = Some tempco /\
      uint16 <$> vals !! 1%nat = Some rcomp0 /\
      ~ (tempco = 65535 /\ rcomp0 = 65535)) /\
  0 < packedData vals i.

(** For the pipeline loop the count of conversions, as the [int16_t]
    [num], is positive as well. *)
Definition written_pipeline (file_contents : string) (i : Z) : Prop :=
  written file_contents i /\
  0 < int16 (Z.of_nat (length (sscanf_history E
                                 (history_each file_contents (uint64 (i * LINESIZE)))))).

End Environment.

(** A scanner for well-formed history lines, to run the reporter on
    sample files: hexadecimal digits only, no sign and no [0x] prefix. *)
Definition hexDigit (c : ascii) : option Z :=
  let n := Z.of_nat (nat_of_ascii c) in
  if (48 <=? n) && (n <=? 57) then Some (n - 48)
  else if (97 <=? n) && (n <=? 102) then Some (n - 87)
  else if (65 <=? n) && (n <=? 70) then Some (n - 55)
  else None.

Fixpoint scanHex (width : nat) (acc : option Z) (s : list ascii)
  : option Z * list ascii :=
  match width, s with
  | S width', c :: rest =>
      match hexDigit c with
      | Some d => scanHex width' (Some (16 * default 0 acc + d)) rest
      | None => (acc, s)
      end
  | _, _ => (acc, s)
  end.

Fixpoint skipSpace (s : list ascii) : list ascii :=
  match s with
  | c :: rest =>
      if (nat_of_ascii c =? 32)%nat || (nat_of_ascii c =? 10)%nat
         || (nat_of_ascii c =? 9)%nat
      then skipSpace rest else s
  | [] => []
  end.

Fixpoint conversions (widths : list nat) (s : list ascii) : list Z :=
  match widths with
  | [] => []
  | width :: widths' =>
      match scanHex width None (skipSpace s) with
      | (Some v, rest) => v :: conversions widths' rest
      | (None, _) => []
      end
  end.

Definition sscanf_reference (line : string) : list Z :=
  let n := String.length line in
  conversions [4; 4; n; n; n; n]%nat (list_ascii_of_string line).

(** A device whose history file at [sample_path] holds an erased record,
    a written record and a record whose data words are all zero.  The
    locals of [checkAndReport] start with the pattern 0x5A, which is
    neither zero nor the erased one. *)
Definition sample_path : string := "/dev/maxfg_history"%string.

Definition sample_history : string :=
  ("FFFFFFFF 0000 0000 0000 0000  " ++ String "010" ""
   ++ "12345678 0a0b 0c0d 0e0f 0102  " ++ String "010" ""
   ++ "11112222 0000 0000 0000 0000  " ++ String "010" "")%string.

Definition sample_env (history : string) : env :=
  {| ReadFileToString := fun path => if String.eqb path sample_path then Some history
                                     else None;
     Trim := fun s => s;
     ParseInt := fun _ => None;
     getTimeSecs := fun n => 3000000 + Z.of_nat n;
     sscanf_history := sscanf_reference;
     uninit_data := fun _ _ => 23130;
     uninit_raw := RawFormat.mk 23130 23130 90 90 90 90 90 90 90 90 90 90 90;
     uninit_hist := Pipeline.mk 90 90 90 90 90 90 90 90 90 90 90 90 90 90 90 90 90 90 90 90
                                90 90 90 90;
     BATT_HIST_NUM_MAX := 33 |}.

End BatteryEEPROMReporter.


(** ** aidl: AdpfTypes.h *)

Module AdpfTypes.

(** The flag word of a group: the low half carries the write bits of
    its sixteen channels and the high half their read bits. *)
Definition kWriteBits : Z := 0x0000ffff.
Definition kReadBits : Z := 0xffff0000.

Definition kFMQQueueSize : Z := 32.

(** [(supportInt >> static_cast<int>(type)) % 2] converted to [bool],
    with [type] the integer the enumerator is cast to; a shift count
    outside [0, 63] is undefined. *)
Definition supportFromBitset (supportInt : Z) (type : Z) : option bool :=
  if (0 <=? type) && (type <? 64)
  then Some (negb (Z.rem (Z.shiftr supportInt type) 2 =? 0))
  else None.

End AdpfTypes.

(** A group as the manager keeps it: sixteen slots, the counter equal
    to the number of occupied slots, and an [int32_t] id. *)
Definition ChannelGroup_kept (g : ChannelGroup.t) : Prop :=
  length (ChannelGroup.mChannels g) = Z.to_nat ChannelGroup.kMaxChannels /\
  ChannelGroup.mLiveChannels g = ChannelManager.liveSlots (ChannelGroup.mChannels g) /\
  in_int32 (ChannelGroup.mGroupId g).


(** Every channel the manager holds is the one built for its slot: its
    id names the group and the slot it sits in, its tgid and uid are
    [int32_t] values, and its masks are the bits of the slot. *)
Definition channels_kept (m : ChannelManager.t) : Prop :=
  forall groupId g slot channel,
    ChannelManager.mChannelGroups m !! groupId = Some g ->
    at_ (ChannelGroup.mChannels g) slot = Some (Some channel) ->
    in_int32 (SessionChannel.mTgid channel) /\
    in_int32 (SessionChannel.mUid channel) /\
    SessionChannel.mId channel = ChannelMapValue.value groupId slot /\
    SessionChannel.mWriteMask channel = 2 ^ slot /\
    SessionChannel.mReadMask channel = 2 ^ (slot + 16).


(** ** aidl: SupportManager::makeSupportInfo *)

(** The AIDL parcelable [SupportInfo] with the members that
    [makeSupportInfo] assigns. *)
Module SupportInfo.

Record CompositionDataSupportInfo := mkComposition {
  isSupported : bool;
  disableGpuFences : bool;
  maxBatchSize : Z;
  alwaysBatch : bool
}.

Record HeadroomSupportInfo := mkHeadroom {
  isCpuSupported : bool;
  isGpuSupported : bool;
  cpuMinIntervalMillis : Z;
  gpuMinIntervalMillis : Z
}.

Record t := mk {
  usesSessions : bool;
  modes : Z;
  boosts : Z;
  sessionHints : Z;
  sessionModes : Z;
  sessionTags : Z;
  compositionData : CompositionDataSupportInfo;
  headroom : HeadroomSupportInfo
}.

End SupportInfo.

Module MakeSupportInfo.

(** [ndk::enum_range<E>()]: the enumerators of [E], which are those
    the support table of [E] lists. *)
Definition enum_range {E} (table : SupportManager.SupportList E) : list E :=
  map fst table.

(** [bits[pos] = b] on a [std::bitset<64>], kept as the number
    [to_ullong] returns; a position outside the set is undefined. *)
Definition setBit (bits pos : Z) (b : bool) : option Z :=
  if (0 <=? pos) && (pos <? 64)
  then Some (if b then Z.setbit bits pos else Z.clearbit bits pos)
  else None.

(** [for (auto &&e : ndk::enum_range<E>()) bits[static_cast<int>(e)] = supported(e);] *)
Fixpoint fillBits {E} (toInt : E -> Z) (supported : E -> bool) (range : list E)
    (bits : Z) : option Z :=
  match range with
  | [] => Some bits
  | e :: rest =>
      bits' ← setBit bits (toInt e) (supported e);
      fillBits toInt supported rest bits'
  end.

Section Configuration.

(** The configuration [SupportManager] reads, the integers the
    enumerators are cast to (their AIDL values), and the
    default-constructed [SupportInfo out]. *)
Variable version : Z.
Variable IsHintSupported : string -> bool.
Variable IsAdpfProfileSupported : string -> bool.
Variable IsAdpfSupported : bool.
Variable modeInt : Mode.t -> Z.
Variable boostInt : Boost.t -> Z.
Variable sessionHintInt : SessionHint.t -> Z.
Variable sessionModeInt : SessionMode.t -> Z.
Variable sessionTagInt : SessionTag.t -> Z.
Variable out0 : SupportInfo.t.

Definition makeSupportInfo : option SupportInfo.t :=
  modeBits ← fillBits modeInt
    (SupportManager.modeSupported version IsHintSupported IsAdpfProfileSupported)
    (enum_range SupportManager.kModeEarliestVersion) 0;
  boostBits ← fillBits boostInt
    (SupportManager.boostSupported version IsHintSupported IsAdpfProfileSupported)
    (enum_range SupportManager.kBoostEarliestVersion) 0;
  if negb IsAdpfSupported then
    Some {| SupportInfo.usesSessions := IsAdpfSupported;
            SupportInfo.modes := int64 modeBits;
            SupportInfo.boosts := int64 boostBits;
            SupportInfo.sessionHints := SupportInfo.sessionHints out0;
            SupportInfo.sessionModes := SupportInfo.sessionModes out0;
            SupportInfo.sessionTags := SupportInfo.sessionTags out0;
            SupportInfo.compositionData := SupportInfo.compositionData out0;
            SupportInfo.headroom := SupportInfo.headroom out0 |}
  else
    sessionHintBits ← fillBits sessionHintInt (SupportManager.sessionHintSupported version)
      (enum_range SupportManager.kSessionHintEarliestVersion) 0;
    sessionModeBits ← fillBits sessionModeInt (SupportManager.sessionModeSupported version)
      (enum_range SupportManager.kSessionModeEarliestVersion) 0;
    sessionTagBits ← fillBits sessionTagInt (SupportManager.sessionTagSupported version)
      (enum_range SupportManager.kSessionTagEarliestVersion) 0;
    Some {| SupportInfo.usesSessions := IsAdpfSupported;
            SupportInfo.modes := int64 modeBits;
            SupportInfo.boosts := int64 boostBits;
            SupportInfo.sessionHints := int64 sessionHintBits;
            SupportInfo.sessionModes := int64 sessionModeBits;
            SupportInfo.sessionTags := int64 sessionTagBits;
            SupportInfo.compositionData := SupportInfo.mkComposition false false 1 false;
            SupportInfo.headroom := SupportInfo.mkHeadroom false false 0 0 |}.

End Configuration.

(** An enumeration cast to distinct bit positions of a 64-bit set. *)
Definition bitPositions {E} (toInt : E -> Z) : Prop :=
  (forall e, 0 <= toInt e < 64) /\ (forall e e', toInt e = toInt e' -> e = e').

(** A cast to run [makeSupportInfo] with: the position of an enumerator
    in its table. *)
Definition tableIndex {E} `{EqDecision E} (table : SupportManager.SupportList E) (e : E)
  : Z :=
  match list_find (fun p => p.1 = e) table with
  | Some (i, _) => Z.of_nat i
  | None => Z.of_nat (length table)
  end.

End MakeSupportInfo.


(** ** SessionRecords: the records an object holds *)

Module RecordWindow.

Import SessionRecords.

(** The ring position of the record [p] places after the oldest one. *)
Definition slotOf (s : t) (p : nat) : Z :=
  (mLatestRecordIndex s - (mNumOfFrames s - 1 - Z.of_nat p)) mod kMaxNumOfRecords s.

(** The records held, oldest first: the [mNumOfFrames] ring positions
    that end at the latest one. *)
Definition window (s : t) : list CycleRecord :=
  omap (fun p : nat => ringRecord s (mNumOfFrames s - 1 - Z.of_nat p))
       (seq 0 (Z.to_nat (mNumOfFrames s))).

(** What [addReportedDurations] stores of one reported duration: the
    duration in microseconds and the jank test against the target. *)
Definition durationUs (d : WorkDuration) : Z := int32 (Z.quot (durationNanos d) 1000).

Definition cycleMissed (jankCheckTimeFactor : float) (targetDurationNs : Z)
    (d : WorkDuration) : bool :=
  dgt (double_of_Z (durationUs d))
      (PrimFloat.mul (double_of_Z (Z.quot targetDurationNs 1000)) jankCheckTimeFactor).

Definition stored (jankCheckTimeFactor : float) (targetDurationNs : Z)
    (d : WorkDuration) : Z * bool :=
  (durationUs d, cycleMissed jankCheckTimeFactor targetDurationNs d).

(** Duration and jank flag of a record. *)
Definition kept (r : CycleRecord) : Z * bool := (totalDurationUs r, isMissedCycle r).

Definition durations (w : list CycleRecord) : list Z := map totalDurationUs w.

Definition sumOf (l : list Z) : Z := foldr Z.add 0 l.

Definition maxOf (l : list Z) : option Z :=
  match l with
  | [] => None
  | x :: rest => Some (foldr Z.max x rest)
  end.

Definition countMissed (w : list CycleRecord) : Z :=
  Z.of_nat (length (filter (fun r => isMissedCycle r = true) w)).

(** Whether the record at position [p] of [w] is longer than [d]. *)
Definition longer (w : list CycleRecord) (d : Z) (p : nat) : Prop :=
  match w !! p with
  | Some r => d < totalDurationUs r
  | None => False
  end.

#[global] Instance longer_dec w d p : Decision (longer w d p).
Proof. unfold longer. destruct (w !! p); apply _. Defined.

(** The last [n] elements of a list. *)
Definition lastN {A} (n : nat) (l : list A) : list A := drop (length l - n) l.

Fixpoint ascending (ps : list nat) : Prop :=
  match ps with
  | [] => True
  | p :: rest => Forall (lt p) rest /\ ascending rest
  end.

(** The deque of indexes, as positions [ps] in the window [w]: in
    ascending order, with strictly descending durations, and every
    record no longer than one of them at or after it. *)
Definition deque_ok (s : t) (w : list CycleRecord) (ps : list nat) : Prop :=
  mRecordsIndQueue s = map (slotOf s) ps /\
  ascending ps /\
  (forall p, p ∈ ps -> (p < length w)%nat) /\
  (forall p q rp rq, p ∈ ps -> q ∈ ps -> (p < q)%nat ->
                     w !! p = Some rp -> w !! q = Some rq ->
                     totalDurationUs rq < totalDurationUs rp) /\
  (forall j r, w !! j = Some r ->
               exists p rp, p ∈ ps /\ (j <= p)%nat /\ w !! p = Some rp /\
                            totalDurationUs r <= totalDurationUs rp).

(** The object [s] holds the records [w]: ring, sum, count of missed
    cycles and deque agree with them. *)
Definition holds (s : t) (w : list CycleRecord) : Prop :=
  wf s /\
  Z.of_nat (length w) = mNumOfFrames s /\
  (forall (p : nat) r, w !! p = Some r -> at_ (mRecords s) (slotOf s p) = Some r) /\
  Forall (fun r => in_int32 (totalDurationUs r)) w /\
  mSumOfDurationsUs s = sumOf (durations w) /\
  mNumOfMissedCycles s = countMissed w /\
  exists ps, deque_ok s w ps.

(** The truncated mean the code keeps in [mAvgDurationUs]. *)
Definition averageOf (l : list Z) : option Z :=
  match l with
  | [] => None
  | _ => Some (Z.quot (sumOf l) (Z.of_nat (length l)))
  end.

(** What the four getters should report of a list of durations with
    their jank flags. *)
Definition summary (l : list (Z * bool)) : Z * option (option Z) * option Z * Z :=
  (Z.of_nat (length l),
   Some (maxOf (map fst l)),
   averageOf (map fst l),
   Z.of_nat (length (filter (fun x : Z * bool => x.2 = true) l))).

(** [holds], with the average up to date. *)
Definition tracked (s : t) (w : list CycleRecord) : Prop :=
  holds s w /\
  (w <> [] ->
   mAvgDurationUs s = Z.quot (sumOf (durations w)) (Z.of_nat (length w))).

(** The calls of [updateFrameBuckets] a batch makes. *)
Definition bucketed (jankCheckTimeFactor : float) (targetDurationNs : Z)
    (ds : list WorkDuration) (fb : FrameBuckets.t) : FrameBuckets.t :=
  foldl (fun fb d =>
           updateFrameBuckets (durationUs d)
             (cycleMissed jankCheckTimeFactor targetDurationNs d) fb)
        fb ds.

(** The number of reported durations that miss the cycle and last at
    least [lo] and, when [hi] is given, less than [hi] microseconds. *)
Definition jankIn (jankCheckTimeFactor : float) (targetDurationNs : Z)
    (lo : Z) (hi : option Z) (ds : list WorkDuration) : Z :=
  Z.of_nat (length (filter
    (fun d => cycleMissed jankCheckTimeFactor targetDurationNs d
              && (lo <=? durationUs d)
              && match hi with Some h => durationUs d <? h | None => true end = true)
    ds)).

(** The histogram of a batch, every counter an [int64_t]. *)
Definition histogram (jankCheckTimeFactor : float) (targetDurationNs : Z)
    (ds : list WorkDuration) : FrameBuckets.t :=
  let count := jankIn jankCheckTimeFactor targetDurationNs in
  FrameBuckets.mk (int64 (Z.of_nat (length ds)))
    (int64 (count 17000 (Some 25000) ds)) (int64 (count 25000 (Some 34000) ds))
    (int64 (count 34000 (Some 67000) ds)) (int64 (count 67000 (Some 100000) ds))
    (int64 (count 100000 None ds)).

End RecordWindow.


(** ** BatteryEEPROMReporter: the history record format *)

Module BatteryHistoryFormat.

Import BatteryEEPROMReporter.

(** The 64-bit word that holds the eleven packed fields at the places
    the chain of shifts reads them from. *)
Definition compose (raw : RawFormat.t) : Z :=
  RawFormat.timer_h raw
  + 2 ^ 8 * RawFormat.fullcapnom raw
  + 2 ^ 18 * RawFormat.fullcaprep raw
  + 2 ^ 28 * RawFormat.mixsoc raw
  + 2 ^ 34 * RawFormat.vfsoc raw
  + 2 ^ 40 * RawFormat.maxvolt raw
  + 2 ^ 44 * RawFormat.minvolt raw
  + 2 ^ 48 * RawFormat.maxtemp raw
  + 2 ^ 52 * RawFormat.mintemp raw
  + 2 ^ 56 * RawFormat.maxchgcurr raw
  + 2 ^ 60 * RawFormat.maxdischgcurr raw.

(** The widths of the packed fields: 8, 10, 10, 6, 6 and six times 4
    bits. *)
Definition in_width (raw : RawFormat.t) : Prop :=
  0 <= RawFormat.timer_h raw < 2 ^ 8 /\
  0 <= RawFormat.fullcapnom raw < 2 ^ 10 /\
  0 <= RawFormat.fullcaprep raw < 2 ^ 10 /\
  0 <= RawFormat.mixsoc raw < 2 ^ 6 /\
  0 <= RawFormat.vfsoc raw < 2 ^ 6 /\
  0 <= RawFormat.maxvolt raw < 2 ^ 4 /\
  0 <= RawFormat.minvolt raw < 2 ^ 4 /\
  0 <= RawFormat.maxtemp raw < 2 ^ 4 /\
  0 <= RawFormat.mintemp raw < 2 ^ 4 /\
  0 <= RawFormat.maxchgcurr raw < 2 ^ 4 /\
  0 <= RawFormat.maxdischgcurr raw < 2 ^ 4.

(** The values the mapping of a history record can give. *)
Definition in_units (h : Pipeline.t) : Prop :=
  0 <= Pipeline.timer_h h <= 1275 /\
  22 <= Pipeline.max_temp h <= 67 /\
  -20 <= Pipeline.min_temp h <= 25 /\
  -7500 <= Pipeline.min_ibatt h <= 0 /\
  0 <= Pipeline.max_ibatt h <= 7500 /\
  2500 <= Pipeline.min_vbatt h <= 2650 /\
  4200 <= Pipeline.max_vbatt h <= 4500 /\
  0 <= Pipeline.batt_soc h <= 126 /\
  0 <= Pipeline.msoc h <= 126 /\
  0 <= Pipeline.full_cap h <= 127 /\
  0 <= Pipeline.full_rep h <= 127.

(** The cycle count the first [checkAndReport] gives the record of
    slot [i]. *)
Definition cycleOf (sparse_index_count i : Z) : Z :=
  if i <? sparse_index_count then (i + 1) * 20 else (i + sparse_index_count + 1) * 10.

Fixpoint rising (l : list Z) : Prop :=
  match l with
  | [] => True
  | x :: rest => Forall (Z.lt x) rest /\ rising rest
  end.

(** A history file with three written records and an erased one at its
    end. *)
Definition written_history : string :=
  ("12345678 0a0b 0c0d 0e0f 0102  " ++ String "010" ""
   ++ "23456789 0001 0002 0003 0004  " ++ String "010" ""
   ++ "3456789a 1111 2222 3333 4444  " ++ String "010" ""
   ++ "FFFFFFFF 0000 0000 0000 0000  " ++ String "010" "")%string.

End BatteryHistoryFormat.


(** ** ChannelGroup: one pass of the group thread *)

Module ChannelGroupLoop.

(** [std::countr_zero] of a [uint32_t]: the number of zero bits below
    the lowest set one, 32 when there is none. *)
Fixpoint countr_zero_from (fuel : nat) (x k : Z) : Z :=
  match fuel with
  | O => k
  | S fuel' => if Z.testbit x k then k else countr_zero_from fuel' x (k + 1)
  end.

Definition countr_zero (x : Z) : Z := countr_zero_from 32 x 0.

Section Scan.

Context {State : Type}.

(** What the body of the loop does for a channel number; it does not
    read [flagState]. *)
Variable body : Z -> State -> State.

(** [for (channelNum = countr_zero(flagState); channelNum < kMaxChannels;
    channelNum = countr_zero(flagState)) { flagState &= (flagState - 1); ... }]
    of a group that is not being destructed; [fuel] bounds the number of
    passes. *)
Fixpoint forEachFlag (fuel : nat) (flagState : Z) (s : State) : State :=
  match fuel with
  | O => s
  | S fuel' =>
      let channelNum := countr_zero flagState in
      if channelNum <? ChannelGroup.kMaxChannels
      then forEachFlag fuel' (Z.land flagState (uint32 (flagState - 1))) (body channelNum s)
      else s
  end.

End Scan.

(** The channel numbers whose write bit is set, in ascending order. *)
Definition writeBits (flagState : Z) : list Z :=
  filter (fun channelNum => Z.testbit flagState channelNum = true)
         (seqZ 0 ChannelGroup.kMaxChannels).

(** The AIDL parcelables of a channel message, with the fields the loop
    reads. *)
Module WorkDurationFixedV1.
Record t := mk {
  durationNanos : Z;
  workPeriodStartTimestampNanos : Z;
  cpuDurationNanos : Z;
  gpuDurationNanos : Z
}.
End WorkDurationFixedV1.

Module WorkDuration.
Record t := mk {
  timeStampNanos : Z;
  durationNanos : Z;
  cpuDurationNanos : Z;
  gpuDurationNanos : Z;
  workPeriodStartTimestampNanos : Z
}.
End WorkDuration.

Inductive ChannelMessageContents :=
| hint (sessionHint : Z)
| targetDuration (targetNanos : Z)
| workDuration (durationData : WorkDurationFixedV1.t)
| mode (modeInt : Z) (enabled : bool)
| otherTag (tag : Z).

Module ChannelMessage.
Record t := mk {
  sessionID : Z;
  timeStampNanos : Z;
  data : ChannelMessageContents
}.
End ChannelMessage.

(** The calls the loop makes on sessions, each with the id of the
    session it is made on. *)
Inductive Call :=
| sendHint (sessionID : Z) (sessionHint : Z)
| updateTargetWorkDuration (sessionID : Z) (targetNanos : Z)
| reportActualWorkDuration (sessionID : Z) (durations : list WorkDuration.t)
| setMode (sessionID : Z) (modeInt : Z) (enabled : bool).

(** The element [durations.emplace_back] appends. *)
Definition asWorkDuration (currentMessage : ChannelMessage.t)
    (durationData : WorkDurationFixedV1.t) : WorkDuration.t :=
  {| WorkDuration.timeStampNanos := ChannelMessage.timeStampNanos currentMessage;
     WorkDuration.durationNanos := WorkDurationFixedV1.durationNanos durationData;
     WorkDuration.cpuDurationNanos := WorkDurationFixedV1.cpuDurationNanos durationData;
     WorkDuration.gpuDurationNanos := WorkDurationFixedV1.gpuDurationNanos durationData;
     WorkDuration.workPeriodStartTimestampNanos :=
       WorkDurationFixedV1.workPeriodStartTimestampNanos durationData |}.

(** The inner [for] of the [workDuration] case: it advances
    [messageIndex] over the work durations of the session and returns it
    with the durations gathered. *)
Fixpoint collectDurations (fuel : nat) (messages : list ChannelMessage.t) (sessionID : Z)
    (messageIndex : nat) (durations : list WorkDuration.t) : nat * list WorkDuration.t :=
  match fuel with
  | O => (messageIndex, durations)
  | S fuel' =>
      match messages !! messageIndex with
      | Some currentMessage =>
          match ChannelMessage.data currentMessage with
          | workDuration durationData =>
              if ChannelMessage.sessionID currentMessage =? sessionID
              then collectDurations fuel' messages sessionID (S messageIndex)
                     (durations ++ [asWorkDuration currentMessage durationData])
              else (messageIndex, durations)
          | _ => (messageIndex, durations)
          end
      | None => (messageIndex, durations)
      end
  end.

Section Dispatch.

(** Whether [getSession] finds a session of that id; the set of sessions
    is taken not to change during the pass. *)
Variable getSession : Z -> bool.

(** [for (messageIndex = 0; messageIndex < messages.size(); ++messageIndex)]
    of a group that is not being destructed, from [messageIndex] on. *)
Fixpoint dispatchFrom (fuel : nat) (messages : list ChannelMessage.t) (messageIndex : nat)
  : list Call :=
  match fuel with
  | O => []
  | S fuel' =>
      match messages !! messageIndex with
      | None => []
      | Some message =>
          let sessionID := ChannelMessage.sessionID message in
          if negb (getSession sessionID)
          then dispatchFrom fuel' messages (S messageIndex)
          else
            match ChannelMessage.data message with
            | hint h => sendHint sessionID h :: dispatchFrom fuel' messages (S messageIndex)
            | targetDuration t =>
                updateTargetWorkDuration sessionID t
                  :: dispatchFrom fuel' messages (S messageIndex)
            | workDuration _ =>
                let '(messageIndex, durations) :=
                  collectDurations (length messages) messages sessionID messageIndex [] in
                reportActualWorkDuration sessionID durations
                  :: dispatchFrom fuel' messages (S messageIndex)
            | mode modeInt enabled =>
                setMode sessionID modeInt enabled
                  :: dispatchFrom fuel' messages (S messageIndex)
            | otherTag _ => dispatchFrom fuel' messages (S messageIndex)
            end
      end
  end.

Definition dispatch (messages : list ChannelMessage.t) : list Call :=
  dispatchFrom (length messages) messages 0.

(** Whether a message is a work duration of the session. *)
Definition isWorkOf (sessionID : Z) (m : ChannelMessage.t) : bool :=
  match ChannelMessage.data m with
  | workDuration _ => ChannelMessage.sessionID m =? sessionID
  | _ => false
  end.

Definition durationOf (m : ChannelMessage.t) : option WorkDuration.t :=
  match ChannelMessage.data m with
  | workDuration durationData => Some (asWorkDuration m durationData)
  | _ => None
  end.

(** The loop read as a machine that takes the messages one at a time:
    it is idle, or gathering the work durations of a session; the
    message that ends a gathering is consumed without a call. *)
Inductive phase :=
| Idle
| Gathering (sessionID : Z) (durations : list WorkDuration.t).

Fixpoint machine (ph : phase) (messages : list ChannelMessage.t) : list Call :=
  match messages with
  | [] =>
      match ph with
      | Idle => []
      | Gathering sessionID durations => [reportActualWorkDuration sessionID durations]
      end
  | m :: rest =>
      match ph with
      | Gathering sessionID durations =>
          if isWorkOf sessionID m
          then machine (Gathering sessionID (durations ++ option_list (durationOf m))) rest
          else reportActualWorkDuration sessionID durations :: machine Idle rest
      | Idle =>
          let sessionID := ChannelMessage.sessionID m in
          if negb (getSession sessionID) then machine Idle rest
          else
            match ChannelMessage.data m with
            | hint h => sendHint sessionID h :: machine Idle rest
            | targetDuration t => updateTargetWorkDuration sessionID t :: machine Idle rest
            | workDuration durationData =>
                machine (Gathering sessionID [asWorkDuration m durationData]) rest
            | mode modeInt enabled => setMode sessionID modeInt enabled :: machine Idle rest
            | otherTag _ => machine Idle rest
            end
      end
  end.

End Dispatch.

End ChannelGroupLoop.


(** ** ThermalPredictionsHelper *)

Module ThermalPredictionsHelper.

Definition kToleranceIntervalMs : Z := 1000.

(** [boot_clock::time_point] as its count of nanoseconds; the predicted
    values are [float]s that the helper stores and returns without
    computing with them, held here in doubles, which represent every
    [float]. *)
Module PredictionSample.
Record t := mk {
  timestamp : Z;
  values : list float
}.

(** [PredictionSample(num_out_samples)]; [time_point::min()] is the
    least [int64_t]. *)
Definition new (num_out_samples : Z) : t :=
  {| timestamp := INT64_MIN;
     values := replicate (Z.to_nat num_out_samples) PrimFloat.nan |}.
End PredictionSample.

Module PredictorSensorInfo.
Record t := mk {
  sensor_name : string;
  sample_duration : Z;
  num_out_samples : Z;
  samples : list PredictionSample.t;
  cur_index : Z
}.
End PredictorSensorInfo.

Module PredictedSensorInfo.
Record t := mk {
  sensor_name : string;
  linked_sensor : string;
  duration : Z;
  prediction_index : Z
}.
End PredictedSensorInfo.

Record t := mk {
  predictor_sensors_ : gmap string PredictorSensorInfo.t;
  predicted_sensors_ : gmap string PredictedSensorInfo.t
}.

Definition new : t := mk ∅ ∅.

Inductive SensorReadStatus := ERROR | OKAY (temp : float) | UNDER_COLLECTING.

Definition registerPredictorSensor (h : t) (sensor_name : string)
    (sample_duration num_out_samples : Z) : t * bool :=
  if (sample_duration <=? 0) || (num_out_samples <=? 0) then (h, false)
  else if bool_decide (is_Some (predictor_sensors_ h !! sensor_name)) then (h, false)
  else
    (mk (<[sensor_name :=
             PredictorSensorInfo.mk sensor_name sample_duration num_out_samples
               (replicate (Z.to_nat num_out_samples)
                          (PredictionSample.new num_out_samples))
               0]> (predictor_sensors_ h))
        (predicted_sensors_ h),
     true).

Definition registerPredictedSensor (h : t) (sensor_name linked_sensor : string)
    (duration : Z) : t * bool :=
  if duration <? 0 then (h, false)
  else if bool_decide (is_Some (predicted_sensors_ h !! sensor_name)) then (h, false)
  else
    match predictor_sensors_ h !! linked_sensor with
    | None => (h, false)
    | Some predictor_sensor_info =>
        let max_prediction_duration :=
          int32 ((PredictorSensorInfo.num_out_samples predictor_sensor_info - 1)
                 * PredictorSensorInfo.sample_duration predictor_sensor_info) in
        if max_prediction_duration <? duration then (h, false)
        else
          let prediction_index :=
            Z.quot duration (PredictorSensorInfo.sample_duration predictor_sensor_info) in
          (mk (predictor_sensors_ h)
              (<[sensor_name :=
                   PredictedSensorInfo.mk sensor_name linked_sensor duration
                                          prediction_index]> (predicted_sensors_ h)),
           true)
    end.

(** [updateSensor] at the time [now] that [boot_clock::now()] returns;
    [None] is an index out of range. *)
Definition updateSensor (h : t) (sensor_name : string) (values : list float) (now : Z)
  : option (t * bool) :=
  match predictor_sensors_ h !! sensor_name with
  | None => Some (h, false)
  | Some predictor_sensor_info =>
      if negb (Z.of_nat (length values)
               =? uint64 (PredictorSensorInfo.num_out_samples predictor_sensor_info))
      then Some (h, false)
      else
        samples ← store (PredictorSensorInfo.samples predictor_sensor_info)
                        (PredictorSensorInfo.cur_index predictor_sensor_info)
                        (PredictionSample.mk now values);
        cur_index ← SessionRecords.rem32 (int32 (PredictorSensorInfo.cur_index predictor_sensor_info + 1))
                          (PredictorSensorInfo.num_out_samples predictor_sensor_info);
        Some (mk (<[sensor_name :=
                      PredictorSensorInfo.mk
                        (PredictorSensorInfo.sensor_name predictor_sensor_info)
                        (PredictorSensorInfo.sample_duration predictor_sensor_info)
                        (PredictorSensorInfo.num_out_samples predictor_sensor_info)
                        samples cur_index]> (predictor_sensors_ h))
                 (predicted_sensors_ h),
              true)
  end.

(** The [do ... while (loop_count < num_out_samples)] of [readSensor];
    [duration_cast<milliseconds>] truncates the nanoseconds. *)
Fixpoint readLoop (fuel : nat) (predictor_sensor_info : PredictorSensorInfo.t)
    (prediction_index min_time_elapsed_ms max_time_elapsed_ms now : Z) (loop_count : Z)
  : option SensorReadStatus :=
  match fuel with
  | O => None
  | S fuel' =>
      let index := int32 (PredictorSensorInfo.cur_index predictor_sensor_info
                          - loop_count - 1) in
      let index :=
        if index <? 0
        then int32 (index + PredictorSensorInfo.num_out_samples predictor_sensor_info)
        else index in
      sample ← at_ (PredictorSensorInfo.samples predictor_sensor_info) index;
      let time_elapsed :=
        Z.quot (int64 (now - PredictionSample.timestamp sample)) 1000000 in
      if (time_elapsed <=? max_time_elapsed_ms) && (min_time_elapsed_ms <=? time_elapsed)
      then temp ← at_ (PredictionSample.values sample) prediction_index; Some (OKAY temp)
      else
        let loop_count := int32 (loop_count + 1) in
        if loop_count <? PredictorSensorInfo.num_out_samples predictor_sensor_info
        then readLoop fuel' predictor_sensor_info prediction_index min_time_elapsed_ms
                      max_time_elapsed_ms now loop_count
        else Some UNDER_COLLECTING
  end.

Definition readSensor (h : t) (sensor_name : string) (now : Z) : option SensorReadStatus :=
  match predicted_sensors_ h !! sensor_name with
  | None => Some ERROR
  | Some predicted_sensor_info =>
      match predictor_sensors_ h !! PredictedSensorInfo.linked_sensor predicted_sensor_info with
      | None => Some ERROR
      | Some predictor_sensor_info =>
          readLoop (S (Z.to_nat (PredictorSensorInfo.num_out_samples predictor_sensor_info)))
            predictor_sensor_info
            (PredictedSensorInfo.prediction_index predicted_sensor_info)
            (int32 (PredictedSensorInfo.duration predicted_sensor_info - kToleranceIntervalMs))
            (int32 (PredictedSensorInfo.duration predicted_sensor_info + kToleranceIntervalMs))
            now 0
      end
  end.

(** The helpers a client can have: sensors registered and updated, in
    any order, with [int] arguments. *)
Inductive reachable : t -> Prop :=
| reach_new : reachable new
| reach_predictor h sensor_name sample_duration num_out_samples :
    reachable h -> in_int32 sample_duration -> in_int32 num_out_samples ->
    reachable (registerPredictorSensor h sensor_name sample_duration num_out_samples).1
| reach_predicted h sensor_name linked_sensor duration :
    reachable h -> in_int32 duration ->
    reachable (registerPredictedSensor h sensor_name linked_sensor duration).1
| reach_update h sensor_name values now h' ok :
    reachable h -> updateSensor h sensor_name values now = Some (h', ok) ->
    reachable h'.

(** What every reachable helper satisfies: a predictor has its
    [num_out_samples] samples of [num_out_samples] values each and its
    index within them; a predicted sensor is linked to a predictor and
    its prediction index is within the values of a sample. *)
Definition predictor_ok (p : PredictorSensorInfo.t) : Prop :=
  0 < PredictorSensorInfo.sample_duration p <= INT32_MAX /\
  0 < PredictorSensorInfo.num_out_samples p <= INT32_MAX /\
  length (PredictorSensorInfo.samples p)
  = Z.to_nat (PredictorSensorInfo.num_out_samples p) /\
  Forall (fun sample => length (PredictionSample.values sample)
                        = Z.to_nat (PredictorSensorInfo.num_out_samples p))
         (PredictorSensorInfo.samples p) /\
  0 <= PredictorSensorInfo.cur_index p < PredictorSensorInfo.num_out_samples p.

Definition consistent (h : t) : Prop :=
  (forall name p, predictor_sensors_ h !! name = Some p -> predictor_ok p) /\
  (forall name q, predicted_sensors_ h !! name = Some q ->
     in_int32 (PredictedSensorInfo.duration q) /\
     0 <= PredictedSensorInfo.duration q /\
     exists p,
       predictor_sensors_ h !! PredictedSensorInfo.linked_sensor q = Some p /\
       0 <= PredictedSensorInfo.prediction_index q < PredictorSensorInfo.num_out_samples p).

(** A helper with the predictor "skin_predictor" (five samples, one
    second apart) and the sensor "skin_2s" predicted from it two
    seconds ahead. *)
Definition sample_helper : t :=
  (registerPredictedSensor
     (registerPredictorSensor new "skin_predictor" 1000 5).1
     "skin_2s" "skin_predictor" 2000).1.

End ThermalPredictionsHelper.


(** ** SysfsCollector: the interrupt statistics *)

Module IrqStats.

Section Scan.

(** [sscanf(data + offset, "%d %" PRId64 "\n%n", &irq_num, &irq_data, &bytes_read)]
    belongs to the C library: at an offset it assigns both numbers and
    the count of bytes read, or returns something other than 2. *)
Variable sscanf_pair : Z -> option (Z * Z * Z).

(** The [while] loop that fills [irq_pair]; [fuel] bounds the number of
    lines. *)
Fixpoint scanPairs (fuel : nat) (offset : Z) (irq_pair : list (Z * Z))
  : Z * list (Z * Z) :=
  match fuel with
  | O => (offset, irq_pair)
  | S fuel' =>
      match sscanf_pair offset with
      | Some (irq_num, irq_data, bytes_read) =>
          scanPairs fuel' (int32 (offset + bytes_read)) (irq_pair ++ [(irq_num, irq_data)])
      | None => (offset, irq_pair)
      end
  end.

(** One pass of [for (int i = 0; i < 5; i++)]; [None] is [irq_pair[i]]
    out of range. *)
Definition pushPair (irq_pair : list (Z * Z)) (values : list Z) (i : Z)
  : option (list Z) :=
  let irq_stats_size := int32 (Z.of_nat (length irq_pair)) in
  if (irq_stats_size <? 5) && (irq_stats_size <=? i)
  then Some (values ++ [-1; 0])
  else p ← at_ irq_pair i; Some (values ++ [p.1; p.2]).

Definition pushFive (irq_pair : list (Z * Z)) (values : list Z) : option (list Z) :=
  values ← pushPair irq_pair values 0;
  values ← pushPair irq_pair values 1;
  values ← pushPair irq_pair values 2;
  values ← pushPair irq_pair values 3;
  pushPair irq_pair values 4.

(** [process_irqatom_values]: the offset and the values it leaves. *)
Definition process_irqatom_values (fuel : nat) (offset : Z) (values : list Z)
  : option (Z * list Z) :=
  let '(offset, irq_pair) := scanPairs fuel offset [] in
  values ← pushFive irq_pair values;
  Some (offset, values).

End Scan.

(** The first five pairs, with (-1, 0) for each one that is missing,
    as the values of an atom. *)
Definition firstFive (irq_pair : list (Z * Z)) : list Z :=
  flat_map (fun p : Z * Z => [p.1; p.2]) (take 5 (irq_pair ++ replicate 5 (-1, 0))).

(** A scanner that finds the given pairs on lines of eight bytes. *)
Definition sample_scan (pairs : list (Z * Z)) (offset : Z) : option (Z * Z * Z) :=
  if Z.rem offset 8 =? 0
  then p ← at_ pairs (Z.quot offset 8); Some (p.1, p.2, 8)
  else None.

End IrqStats.


(** * Properties *)

(** ** Fixed-width integers and arrays *)

Module CxxFacts.

(** Closes range side conditions. *)
Ltac range :=
  unfold in_int32, in_int64, INT32_MIN, INT32_MAX, INT64_MIN, INT64_MAX in *; lia.

Lemma int32_id z : in_int32 z -> int32 z = z.
Proof.
  unfold in_int32, INT32_MIN, INT32_MAX, int32, sint. intros H.
  rewrite Z.mod_small; lia.
Qed.

Lemma int64_id z : in_int64 z -> int64 z = z.
Proof.
  unfold in_int64, INT64_MIN, INT64_MAX, int64, sint. intros H.
  rewrite Z.mod_small; lia.
Qed.

Lemma int32_uint32 z : in_int32 z -> int32 (uint32 z) = z.
Proof.
  unfold in_int32, INT32_MIN, INT32_MAX, int32, uint32, sint, uint.
  change (2 ^ 32) with 4294967296. change (2 ^ (32 - 1)) with 2147483648.
  intros H. rewrite Zplus_mod_idemp_l. rewrite Z.mod_small; lia.
Qed.

Lemma store_length {A} (l l' : list A) i x : store l i x = Some l' -> length l' = length l.
Proof.
  unfold store. destruct (_ && _); [|discriminate].
  intros [= <-]. apply length_insert.
Qed.

Lemma store_Some {A} (l : list A) i x :
  0 <= i < Z.of_nat (length l) -> store l i x = Some (<[Z.to_nat i := x]> l).
Proof.
  unfold store. intros H.
  destruct (0 <=? i) eqn:E1; [|lia]. destruct (i <? Z.of_nat (length l)) eqn:E2; [|lia].
  reflexivity.
Qed.

Lemma at_is_Some {A} (l : list A) i :
  0 <= i < Z.of_nat (length l) -> exists x, at_ l i = Some x.
Proof.
  intros H. unfold at_. destruct (i <? 0) eqn:E; [lia|].
  apply lookup_lt_is_Some. lia.
Qed.

Lemma at_nat {A} (l : list A) i : 0 <= i -> at_ l i = l !! Z.to_nat i.
Proof. unfold at_. intros H. destruct (i <? 0) eqn:E; [lia|done]. Qed.

Lemma at_Some_range {A} (l : list A) i x :
  at_ l i = Some x -> 0 <= i < Z.of_nat (length l) /\ l !! Z.to_nat i = Some x.
Proof.
  unfold at_. destruct (i <? 0) eqn:E; [done|]. intros H.
  split; [|done]. apply lookup_lt_Some in H. lia.
Qed.

Lemma int32_add_idemp a c : int32 (int32 a + c) = int32 (a + c).
Proof.
  unfold int32, sint.
  replace (((a + 2 ^ (32 - 1)) mod 2 ^ 32 - 2 ^ (32 - 1) + c + 2 ^ (32 - 1)))
    with ((a + 2 ^ (32 - 1)) mod 2 ^ 32 + c) by lia.
  rewrite Zplus_mod_idemp_l. f_equal. f_equal. lia.
Qed.

End CxxFacts.

(** ** SessionRecords *)

Module SessionRecordsFacts.

Import CxxFacts SessionRecords.

(** C1. With five slots and jank factor 1.5, the batches {3,4,3,2},
    {2,1,2} and {10,2,9,8,4,5,7,6} ms against a 3 ms target leave the
    getters at (4, 4000, 3000, 0), then (5, 3000, 2000, 0), then
    (5, 8000, 6000, 4): records, maximum, average, missed cycles. *)
Theorem addReportedDurations_ring_scenario :
  (s0 ← new 5 1.5%float;
   a ← addReportedDurations (fakeWorkDurations [3; 4; 3; 2]) (MS_TO_NS 3) false
         (s0, FrameBuckets.init);
   b ← addReportedDurations (fakeWorkDurations [2; 1; 2]) (MS_TO_NS 3) false a;
   c ← addReportedDurations (fakeWorkDurations [10; 2; 9; 8; 4; 5; 7; 6])
         (MS_TO_NS 3) false b;
   Some (observe a.1, observe b.1, observe c.1))
  = Some ((4, Some (Some (MS_TO_US 4)), Some (MS_TO_US 3), 0),
          (5, Some (Some (MS_TO_US 3)), Some (MS_TO_US 2), 0),
          (5, Some (Some (MS_TO_US 8)), Some (MS_TO_US 6), 4)).
Proof. vm_compute. reflexivity. Qed.

Lemma new_sum_zero n f s : new n f = Some s -> mLatestStartIntervalSumUs s = 0.
Proof.
  unfold new. destruct (n <? 0); [discriminate|].
  intros [= <-]. reflexivity.
Qed.

(** A duration added without jitter tracking zeroes the rolling sum. *)
Lemma addReportedDuration_resets tgt acc d s' fb' :
  addReportedDuration tgt false acc d = Some (s', fb') ->
  mLatestStartIntervalSumUs s' = 0.
Proof.
  destruct acc as [s0 fb]. unfold addReportedDuration.
  intros H. repeat (simplify_option_eq; try done).
  all: repeat case_match; simplify_option_eq; done.
Qed.

Lemma addReportedDurations_resets ds : forall tgt acc s' fb',
  ds <> [] ->
  addReportedDurations ds tgt false acc = Some (s', fb') ->
  mLatestStartIntervalSumUs s' = 0.
Proof.
  induction ds as [|d ds IH]; intros tgt acc s' fb' Hne H; [done|].
  simpl in H.
  destruct (addReportedDuration tgt false acc d) as [[s1 fb1]|] eqn:E;
    simpl in H; [|discriminate].
  destruct ds as [|d' ds'].
  - injection H as <- <-. eapply addReportedDuration_resets; eauto.
  - eapply IH; [discriminate | exact H].
Qed.

Lemma getLatestFPS_zero_sum s : mLatestStartIntervalSumUs s = 0 -> getLatestFPS s = None.
Proof. unfold getLatestFPS. intros ->. reflexivity. Qed.

Lemma reachable_addBatches batches : forall s fb s' fb',
  reachable s -> addBatches batches (s, fb) = Some (s', fb') -> reachable s'.
Proof.
  induction batches as [|[[ds tgt] c] rest IH]; intros s fb s' fb' Hr H; simpl in H.
  - injection H as <- <-. exact Hr.
  - destruct (addReportedDurations ds tgt c (s, fb)) as [[s1 fb1]|] eqn:E;
      simpl in H; [|discriminate].
    eapply IH; [|exact H]. eapply reach_add; eauto.
Qed.

Lemma reachable_session n f batches s :
  in_int32 n -> session n f batches = Some s -> reachable s.
Proof.
  unfold session. intros Hn H.
  destruct (new n f) as [s0|] eqn:E0; simpl in H; [|discriminate].
  destruct (addBatches batches (s0, FrameBuckets.init)) as [[s1 fb1]|] eqn:E;
    simpl in H; [|discriminate].
  injection H as <-.
  eapply reachable_addBatches; [|exact E].
  eapply reach_new; eauto.
Qed.

Lemma checkFPSJitters_sum :
  (s ← session 5 1.5%float checkFPSJitters_batches;
   Some (mLatestStartIntervalSumUs s)) = Some 0.
Proof. vm_compute. reflexivity. Qed.

Lemma getLatestFPS_quotient s :
  mLatestStartIntervalSumUs s <> 0 ->
  getLatestFPS s = Some (Z.quot (1000000 * 3) (mLatestStartIntervalSumUs s)).
Proof.
  unfold getLatestFPS. intros Hne.
  destruct (mLatestStartIntervalSumUs s =? 0) eqn:E0; [lia|].
  change (int32 (1000000 * kTotalFramesForFPSCheck)) with 3000000.
  change (1000000 * 3) with 3000000.
  f_equal. apply int32_id.
  set (d := mLatestStartIntervalSumUs s) in *.
  assert (Habs : Z.abs (Z.quot 3000000 d) <= 3000000).
  { rewrite <- Z.quot_abs by lia. change (Z.abs 3000000) with 3000000.
    rewrite Z.quot_div_nonneg by lia.
    apply Z.div_le_upper_bound; nia. }
  range.
Qed.

(** C5, as the claim states when the sum is reset: it fails for an
    empty batch.  After the first batch of the test checkFPSJitters the
    sum is 30000; a call of [addReportedDurations] with no durations
    and without jitter tracking leaves the object as it is, and
    [getLatestFPS] still answers 100. *)
Lemma empty_batch_keeps_sum_counterexample :
  exists s,
    session 5 1.5%float (take 1 checkFPSJitters_batches) = Some s /\
    reachable s /\
    addReportedDurations [] (MS_TO_NS 10) false (s, FrameBuckets.init)
      = Some (s, FrameBuckets.init) /\
    mLatestStartIntervalSumUs s = 30000 /\
    mLatestStartIntervalSumUs s <> 0 /\
    getLatestFPS s = Some 100.
Proof.
  destruct (session 5 1.5%float (take 1 checkFPSJitters_batches)) as [s|] eqn:E;
    [|vm_compute in E; discriminate E].
  exists s. split; [reflexivity|].
  split; [apply reachable_session in E; [exact E|range]|].
  split; [reflexivity|].
  vm_compute in E. injection E as <-.
  split; [reflexivity|]. split; [discriminate|]. vm_compute. reflexivity.
Qed.

(** C5, amended. [getLatestFPS] computes [1000000 * 3] divided by the
    rolling start-interval sum with no guard: it gives that quotient
    when the sum is not zero and divides by zero exactly when it is.
    The sum is zero in reachable states: in a fresh object, after
    every non-empty batch reported without jitter tracking, and at the
    point of the test checkFPSJitters where the test reads the FPS
    after such a batch. *)
Theorem getLatestFPS_divides_by_zero :
  (forall s, mLatestStartIntervalSumUs s <> 0 ->
             getLatestFPS s = Some (Z.quot (1000000 * 3) (mLatestStartIntervalSumUs s))) /\
  (forall s, getLatestFPS s = None <-> mLatestStartIntervalSumUs s = 0) /\
  (forall n f s, new n f = Some s ->
                 mLatestStartIntervalSumUs s = 0 /\ getLatestFPS s = None) /\
  (forall ds tgt acc s' fb',
      ds <> [] ->
      addReportedDurations ds tgt false acc = Some (s', fb') ->
      mLatestStartIntervalSumUs s' = 0 /\ getLatestFPS s' = None) /\
  (exists s, session 5 1.5%float checkFPSJitters_batches = Some s /\ reachable s /\
             mLatestStartIntervalSumUs s = 0 /\ getLatestFPS s = None).
Proof.
  split; [|split; [|split; [|split]]].
  - exact getLatestFPS_quotient.
  - intros s. split; [|apply getLatestFPS_zero_sum].
    intros Hnone. destruct (Z.eq_dec (mLatestStartIntervalSumUs s) 0) as [|Hne]; [done|].
    rewrite (getLatestFPS_quotient s Hne) in Hnone. discriminate Hnone.
  - intros n f s H.
    assert (mLatestStartIntervalSumUs s = 0) by (eapply new_sum_zero; eauto).
    split; [done|]. by apply getLatestFPS_zero_sum.
  - intros ds tgt acc s' fb' Hne H.
    assert (mLatestStartIntervalSumUs s' = 0)
      by (eapply addReportedDurations_resets; eauto).
    split; [done|]. by apply getLatestFPS_zero_sum.
  - pose proof checkFPSJitters_sum as Hsum.
    destruct (session 5 1.5%float checkFPSJitters_batches) as [s|] eqn:E;
      [|discriminate Hsum].
    injection Hsum as Hsum.
    exists s. split; [reflexivity|]. split.
    + apply reachable_session in E; [exact E|range].
    + split; [exact Hsum|]. by apply getLatestFPS_zero_sum.
Qed.

(** The hypotheses of C5 discharged on a fresh five-slot object, on the
    first batch of the test addReportedDurations, and on the first
    batch of the test checkFPSJitters, after which the quotient is
    [3000000 / 30000]. *)
Lemma getLatestFPS_divides_by_zero_witness :
  match new 5 1.5%float with
  | Some s0 =>
      match addReportedDurations (fakeWorkDurations [3; 4; 3; 2]) (MS_TO_NS 3) false
              (s0, FrameBuckets.init),
            addReportedDurations (fakeWorkDurationsAt [(0, 8); (10, 9); (20, 8); (30, 8)])
              (MS_TO_NS 10) true (s0, FrameBuckets.init) with
      | Some (s, _), Some (s1, _) =>
          getLatestFPS s0 = None /\ getLatestFPS s = None /\
          mLatestStartIntervalSumUs s1 = 30000 /\ getLatestFPS s1 = Some 100
      | _, _ => False
      end
  | None => False
  end.
Proof.
  destruct getLatestFPS_divides_by_zero as (Hquot & _ & Hnew & Hbatch & _).
  destruct (new 5 1.5%float) as [s0|] eqn:E0; [|vm_compute in E0; discriminate E0].
  destruct (addReportedDurations (fakeWorkDurations [3; 4; 3; 2]) (MS_TO_NS 3) false
              (s0, FrameBuckets.init)) as [[s fb]|] eqn:E1;
    [|vm_compute in E0; injection E0 as <-; vm_compute in E1; discriminate E1].
  destruct (addReportedDurations (fakeWorkDurationsAt [(0, 8); (10, 9); (20, 8); (30, 8)])
              (MS_TO_NS 10) true (s0, FrameBuckets.init)) as [[s1 fb1]|] eqn:E2;
    [|vm_compute in E0; injection E0 as <-; vm_compute in E2; discriminate E2].
  assert (Hsum : mLatestStartIntervalSumUs s1 = 30000).
  { vm_compute in E0. injection E0 as <-. vm_compute in E2. injection E2 as <- _.
    reflexivity. }
  split; [exact (proj2 (Hnew _ _ _ E0))|].
  split; [refine (proj2 (Hbatch _ _ _ _ _ _ E1)); discriminate|].
  split; [exact Hsum|].
  rewrite (Hquot s1) by (rewrite Hsum; discriminate). rewrite Hsum. reflexivity.
Defined.

Lemma evictOldest_inv s s' :
  evictOldest s = Some s' ->
  kMaxNumOfRecords s' = kMaxNumOfRecords s /\
  mRecords s' = mRecords s /\
  mLatestRecordIndex s' = mLatestRecordIndex s /\
  mNumOfFrames s' = int32 (mNumOfFrames s - 1).
Proof.
  unfold evictOldest. intros H.
  destruct (rem32 _ _) as [idx|]; simpl in H; [|discriminate].
  destruct (at_ _ _) as [old|]; simpl in H; [|discriminate].
  destruct (head _) as [front|]; simpl in H; [|discriminate].
  injection H as <-. simpl. done.
Qed.

(** What one reported duration does to capacity, ring, index and count. *)
Lemma addReportedDuration_inv tgt c s0 fb d s' fb' :
  addReportedDuration tgt c (s0, fb) d = Some (s', fb') ->
  exists s,
    (if kMaxNumOfRecords s0 <=? mNumOfFrames s0 then evictOldest s0 else Some s0) = Some s /\
    kMaxNumOfRecords s' = kMaxNumOfRecords s /\
    kMaxNumOfRecords s <> 0 /\
    mLatestRecordIndex s' = Z.rem (int32 (mLatestRecordIndex s + 1)) (kMaxNumOfRecords s) /\
    length (mRecords s') = length (mRecords s) /\
    mNumOfFrames s' = int32 (mNumOfFrames s + 1).
Proof.
  unfold addReportedDuration. intros H.
  destruct (if kMaxNumOfRecords s0 <=? mNumOfFrames s0 then _ else _) as [s|] eqn:Es;
    cbn [mbind option_bind] in H; [|discriminate].
  destruct (rem32 _ _) as [latest|] eqn:El; cbn [mbind option_bind] in H; [|discriminate].
  match type of H with
  | (?x ≫= _) = _ => destruct x as [[[[j su] ji] ad]|]
  end; cbn [mbind option_bind] in H; [|discriminate].
  destruct (store _ _ _) as [records|] eqn:Er; cbn [mbind option_bind] in H; [|discriminate].
  destruct (popBackWhile _ _ _) as [queue|]; cbn [mbind option_bind] in H; [|discriminate].
  match type of H with
  | ((if ?b then None else _) ≫= _) = _ => destruct b
  end; cbn [mbind option_bind] in H; [discriminate|].
  injection H as <- <-. exists s. cbn.
  unfold rem32 in El. destruct (kMaxNumOfRecords s =? 0) eqn:E0; [discriminate|].
  injection El as <-.
  repeat split; try done; [lia|]. eapply store_length; eauto.
Qed.

Lemma addReportedDuration_wf tgt c s0 fb d s' fb' :
  wf s0 -> addReportedDuration tgt c (s0, fb) d = Some (s', fb') -> wf s'.
Proof.
  intros (Hk & Hl & Hi & Hn & Hp) H.
  apply addReportedDuration_inv in H as (s & Es & Hk' & Hnz & Hi' & Hl' & Hn').
  assert (kMaxNumOfRecords s = kMaxNumOfRecords s0 /\ mRecords s = mRecords s0 /\
          mLatestRecordIndex s = mLatestRecordIndex s0 /\
          0 <= mNumOfFrames s <= kMaxNumOfRecords s0 - 1) as (Ek & Er & Ei & En).
  { destruct (kMaxNumOfRecords s0 <=? mNumOfFrames s0) eqn:E.
    - apply evictOldest_inv in Es as (Ek & Er & Ei & En).
      rewrite Ek in Hnz. rewrite En.
      rewrite int32_id by (unfold in_int32, INT32_MIN, INT32_MAX in *; lia).
      repeat split; try done; lia.
    - injection Es as <-. repeat split; try done; lia. }
  unfold wf. rewrite Hk', Hl', Hi', Hn', Ek, Er, Ei.
  rewrite Ek in Hnz.
  rewrite !int32_id by (unfold in_int32, INT32_MIN, INT32_MAX in *; lia).
  pose proof (Z.rem_bound_pos (mLatestRecordIndex s0 + 1) (kMaxNumOfRecords s0)).
  repeat split; try lia.
Qed.

Lemma addReportedDurations_wf ds : forall tgt c acc acc',
  wf acc.1 -> addReportedDurations ds tgt c acc = Some acc' -> wf acc'.1.
Proof.
  induction ds as [|d ds IH]; intros tgt c acc acc' Hwf H; simpl in H.
  - by injection H as <-.
  - destruct (addReportedDuration tgt c acc d) as [acc1|] eqn:E;
      simpl in H; [|discriminate].
    eapply IH; [|exact H].
    destruct acc as [s0 fb], acc1 as [s1 fb1].
    eapply addReportedDuration_wf; eauto.
Qed.

Lemma new_wf n f s : in_int32 n -> new n f = Some s -> wf s.
Proof.
  unfold new, in_int32, INT32_MIN. intros Hn H.
  destruct (n <? 0) eqn:E; [discriminate|]. injection H as <-.
  unfold wf. cbn. rewrite length_replicate. repeat split; lia.
Qed.

Lemma resetRecords_wf s : wf s -> wf (resetRecords s).
Proof. unfold wf. cbn. intros (? & ? & ? & ? & ?). repeat split; lia. Qed.

Lemma reachable_wf s : reachable s -> wf s.
Proof.
  induction 1 as [n f s Hn H | s fb ds tgt c s' fb' _ IH H | s _ IH].
  - eapply new_wf; eauto.
  - eapply (addReportedDurations_wf _ _ _ (s, fb) (s', fb')); eauto.
  - by apply resetRecords_wf.
Qed.

Lemma ring_prev k i :
  0 < k -> 0 <= i < k -> (if i =? 0 then k - 1 else i - 1) = (i - 1) mod k.
Proof.
  intros Hk Hi. destruct (i =? 0) eqn:E.
  - assert (i = 0) as -> by lia.
    replace (0 - 1) with (k - 1 + (-1) * k) by lia.
    rewrite Z_mod_plus_full. by rewrite Z.mod_small by lia.
  - rewrite Z.mod_small; lia.
Qed.

(** C6. In every reachable state that holds at least three records the
    last three ring positions are filled, and [isLowFrameRate] answers
    whether all three start intervals are at least
    1,000,000/thresholdFps, so it is true when they are; with fewer than
    three records it answers false whatever the intervals are. *)
Theorem isLowFrameRate_last_three s fpsLowRateThreshold :
  reachable s ->
  (3 <= getNumOfRecords s ->
   exists r1 r2 r3,
     ringRecord s 0 = Some r1 /\ ringRecord s 1 = Some r2 /\ ringRecord s 2 = Some r3 /\
     isLowFrameRate s fpsLowRateThreshold
     = Some (intervalAtLeastCycle r1 fpsLowRateThreshold
             && intervalAtLeastCycle r2 fpsLowRateThreshold
             && intervalAtLeastCycle r3 fpsLowRateThreshold) /\
     (intervalAtLeastCycle r1 fpsLowRateThreshold = true ->
      intervalAtLeastCycle r2 fpsLowRateThreshold = true ->
      intervalAtLeastCycle r3 fpsLowRateThreshold = true ->
      isLowFrameRate s fpsLowRateThreshold = Some true)) /\
  (getNumOfRecords s < 3 -> isLowFrameRate s fpsLowRateThreshold = Some false).
Proof.
  intros Hr. apply reachable_wf in Hr as (Hk & Hl & Hi & Hn & Hp).
  unfold getNumOfRecords. split.
  - intros H3.
    assert (Hlat : 0 <= mLatestRecordIndex s) by (apply Hp; lia).
    set (k := kMaxNumOfRecords s) in *. set (i := mLatestRecordIndex s) in *.
    assert (Hlen : Z.of_nat (length (mRecords s)) = k) by lia.
    assert (E1 : (i - 0) mod k = i) by (rewrite Z.sub_0_r; apply Z.mod_small; lia).
    assert (B2 : 0 <= (i - 1) mod k < k) by (apply Z.mod_pos_bound; lia).
    assert (E2 : (i - 1) mod k = if i =? 0 then int32 (k - 1) else int32 (i - 1)).
    { rewrite <- (ring_prev k i) by lia.
      destruct (i =? 0); rewrite int32_id; try done;
        unfold in_int32, INT32_MIN, INT32_MAX in *; lia. }
    assert (E3 : (i - 2) mod k
                 = if (i - 1) mod k =? 0 then int32 (k - 1) else int32 ((i - 1) mod k - 1)).
    { replace (i - 2) with (i - 1 - 1) by lia.
      rewrite <- Zminus_mod_idemp_l.
      rewrite <- (ring_prev k ((i - 1) mod k)) by lia.
      destruct ((i - 1) mod k =? 0); rewrite int32_id; try done;
        unfold in_int32, INT32_MIN, INT32_MAX in *; lia. }
    assert (B3 : 0 <= (i - 2) mod k < k) by (apply Z.mod_pos_bound; lia).
    destruct (at_is_Some (mRecords s) i) as [r1 Hr1]; [lia|].
    destruct (at_is_Some (mRecords s) ((i - 1) mod k)) as [r2 Hr2]; [lia|].
    destruct (at_is_Some (mRecords s) ((i - 2) mod k)) as [r3 Hr3]; [lia|].
    assert (Hres : isLowFrameRate s fpsLowRateThreshold
                   = Some (intervalAtLeastCycle r1 fpsLowRateThreshold
                           && intervalAtLeastCycle r2 fpsLowRateThreshold
                           && intervalAtLeastCycle r3 fpsLowRateThreshold)).
    { unfold isLowFrameRate, intervalAtLeastCycle.
      fold k. fold i.
      destruct (3 <=? mNumOfFrames s) eqn:E; [|lia].
      rewrite <- E2. rewrite <- E3. rewrite Hr1. cbn [mbind option_bind].
      destruct (dge (double_of_Z (startIntervalUs r1)) _); [|reflexivity].
      rewrite Hr2. cbn [mbind option_bind].
      destruct (dge (double_of_Z (startIntervalUs r2)) _); [|reflexivity].
      rewrite Hr3. reflexivity. }
    exists r1, r2, r3. unfold ringRecord. fold k. fold i. rewrite E1.
    repeat split; try done.
    intros H1 H2 H3'. rewrite Hres, H1, H2, H3'. reflexivity.
  - intros Hlt. unfold isLowFrameRate.
    destruct (3 <=? mNumOfFrames s) eqn:E; [lia|reflexivity].
Qed.

(** The hypotheses of C6 discharged at the point of the test
    checkLowFrameRate where the last three intervals are 100 ms, and on a
    fresh object. *)
Lemma isLowFrameRate_last_three_witness :
  match session 5 1.5%float checkLowFrameRate_batches with
  | Some s => isLowFrameRate s 25 = Some true
  | None => False
  end /\
  match new 5 1.5%float with
  | Some s0 => isLowFrameRate s0 25 = Some false
  | None => False
  end.
Proof.
  split.
  - destruct (session 5 1.5%float checkLowFrameRate_batches) as [s|] eqn:E;
      [|vm_compute in E; discriminate E].
    assert (Hr : reachable s) by (eapply reachable_session; [|exact E]; range).
    vm_compute in E. injection E as <-.
    destruct (isLowFrameRate_last_three _ 25 Hr) as [H _].
    destruct H as (r1 & r2 & r3 & E1 & E2 & E3 & _ & Himp).
    { vm_compute. intros H. discriminate H. }
    vm_compute in E1. injection E1 as <-.
    vm_compute in E2. injection E2 as <-.
    vm_compute in E3. injection E3 as <-.
    apply Himp; vm_compute; reflexivity.
  - destruct (new 5 1.5%float) as [s0|] eqn:E; [|vm_compute in E; discriminate E].
    assert (Hr : reachable s0) by (eapply reach_new; [|exact E]; range).
    vm_compute in E. injection E as <-.
    apply (isLowFrameRate_last_three _ 25 Hr). vm_compute. reflexivity.
Defined.

End SessionRecordsFacts.

(** ** SupportManager *)

Module SupportManagerFacts.

Import SupportManager.

Lemma tooEarly_gate {E} `{EqDecision E} version (table : SupportList E) type earliest :
  find table type = Some earliest -> version < earliest ->
  tooEarly version table type = true.
Proof. unfold tooEarly. intros -> Hlt. lia. Qed.

(** C3. Whatever the interface version and the hint configuration,
    a value of [Mode], [Boost], [SessionHint], [SessionMode] or
    [SessionTag] whose table entry is later than the version is reported
    unsupported, [LOW_POWER] included; and every value has a table
    entry. *)
Theorem version_gate_rejects
    (version : Z) (IsHintSupported IsAdpfProfileSupported : string -> bool) :
  (forall type, exists earliest,
      find kModeEarliestVersion type = Some earliest /\
      (version < earliest ->
       modeSupported version IsHintSupported IsAdpfProfileSupported type = false)) /\
  (forall type, exists earliest,
      find kBoostEarliestVersion type = Some earliest /\
      (version < earliest ->
       boostSupported version IsHintSupported IsAdpfProfileSupported type = false)) /\
  (forall type, exists earliest,
      find kSessionHintEarliestVersion type = Some earliest /\
      (version < earliest -> sessionHintSupported version type = false)) /\
  (forall type, exists earliest,
      find kSessionModeEarliestVersion type = Some earliest /\
      (version < earliest -> sessionModeSupported version type = false)) /\
  (forall type, exists earliest,
      find kSessionTagEarliestVersion type = Some earliest /\
      (version < earliest -> sessionTagSupported version type = false)).
Proof.
  repeat split.
  - intros type.
    assert (exists e, find kModeEarliestVersion type = Some e) as [e He]
      by (destruct type; eexists; reflexivity).
    exists e. split; [exact He|]. intros Hlt.
    unfold modeSupported. by rewrite (tooEarly_gate _ _ _ _ He Hlt).
  - intros type.
    assert (exists e, find kBoostEarliestVersion type = Some e) as [e He]
      by (destruct type; eexists; reflexivity).
    exists e. split; [exact He|]. intros Hlt.
    unfold boostSupported. by rewrite (tooEarly_gate _ _ _ _ He Hlt).
  - intros type.
    assert (exists e, find kSessionHintEarliestVersion type = Some e) as [e He]
      by (destruct type; eexists; reflexivity).
    exists e. split; [exact He|]. intros Hlt.
    unfold sessionHintSupported. by rewrite (tooEarly_gate _ _ _ _ He Hlt).
  - intros type.
    assert (exists e, find kSessionModeEarliestVersion type = Some e) as [e He]
      by (destruct type; eexists; reflexivity).
    exists e. split; [exact He|]. intros Hlt.
    unfold sessionModeSupported. by rewrite (tooEarly_gate _ _ _ _ He Hlt).
  - intros type.
    assert (exists e, find kSessionTagEarliestVersion type = Some e) as [e He]
      by (destruct type; eexists; reflexivity).
    exists e. split; [exact He|]. intros Hlt.
    unfold sessionTagSupported. by rewrite (tooEarly_gate _ _ _ _ He Hlt).
Qed.

(** The hypothesis of C3 discharged for [LOW_POWER] on an interface
    older than version 1 and for [GAME] on version 2, with every hint
    configured. *)
Lemma version_gate_rejects_witness :
  modeSupported 0 (fun _ => true) (fun _ => true) Mode.LOW_POWER = false /\
  modeSupported 2 (fun _ => true) (fun _ => true) Mode.GAME = false /\
  sessionTagSupported 5 SessionTag.SYSUI = false.
Proof.
  split; [|split].
  - destruct (proj1 (version_gate_rejects 0 (fun _ => true) (fun _ => true))
                Mode.LOW_POWER) as (e & He & H).
    apply H. vm_compute in He. injection He as <-. lia.
  - destruct (proj1 (version_gate_rejects 2 (fun _ => true) (fun _ => true))
                Mode.GAME) as (e & He & H).
    apply H. vm_compute in He. injection He as <-. lia.
  - destruct (proj2 (proj2 (proj2 (proj2
                (version_gate_rejects 5 (fun _ => true) (fun _ => true)))))
                SessionTag.SYSUI) as (e & He & H).
    apply H. vm_compute in He. injection He as <-. lia.
Defined.

End SupportManagerFacts.

(** ** FrameBuckets *)

Module FrameBucketsFacts.

Import CxxFacts FrameBuckets.

(** C4, as the claim states the rendering of an empty histogram: it
    fails, the stream starts with the label. *)
Lemma toString_empty_counterexample :
  totalNumOfFrames init <= 0 /\
  toString (fun _ => "0"%string) init = "JankFramesInBuckets: 0%-0%-0%-0%-0%-0"%string /\
  toString (fun _ => "0"%string) init <> "0%-0%-0%-0%-0%-0"%string.
Proof.
  split; [vm_compute; discriminate|].
  split; [reflexivity|]. intros H. vm_compute in H. discriminate H.
Qed.

(** C4, amended. When the six sums fit [int64_t], [addUpNewFrames] leaves
    in A the field-wise sum of A and B, [toString] then renders that sum,
    and a histogram whose total is not positive renders as
    "JankFramesInBuckets: 0%-0%-0%-0%-0%-0". *)
Theorem addUpNewFrames_fieldwise (show_double : float -> string) (a b : t) :
  well_typed (fieldwise_sum a b) ->
  addUpNewFrames a b = fieldwise_sum a b /\
  toString show_double (addUpNewFrames a b) = toString show_double (fieldwise_sum a b) /\
  (forall z, totalNumOfFrames z <= 0 ->
             toString show_double z = "JankFramesInBuckets: 0%-0%-0%-0%-0%-0"%string).
Proof.
  intros (H1 & H2 & H3 & H4 & H5 & H6). cbn in *.
  assert (E : addUpNewFrames a b = fieldwise_sum a b).
  { unfold addUpNewFrames, fieldwise_sum. by rewrite !int64_id. }
  split; [exact E|]. split; [by rewrite E|].
  intros z Hz. unfold toString.
  destruct (totalNumOfFrames z <=? 0) eqn:Ez; [reflexivity|lia].
Qed.

(** The hypotheses of C4 discharged on the histograms of the test
    updateFrameBuckets. *)
Lemma addUpNewFrames_fieldwise_witness :
  addUpNewFrames (mk 8 1 1 1 1 1) (mk 2 1 1 1 1 0) = mk 10 2 2 2 2 1 /\
  toString (fun _ => "0"%string) init = "JankFramesInBuckets: 0%-0%-0%-0%-0%-0"%string.
Proof.
  assert (W : well_typed (fieldwise_sum (mk 8 1 1 1 1 1) (mk 2 1 1 1 1 0))).
  { unfold well_typed, in_int64, INT64_MIN, INT64_MAX. cbn. lia. }
  destruct (addUpNewFrames_fieldwise (fun _ => "0"%string) _ _ W) as (E & _ & Z0).
  split.
  - exact E.
  - apply Z0. cbn. lia.
Defined.

End FrameBucketsFacts.

(** ** SysfsCollector *)

Module SysfsCollectorFacts.

Import SysfsCollector.

Lemma periods : kWakesPer5Min = 1 /\ kWakesPerHour = 12 /\ kWakesPerDay = 288.
Proof. repeat split; reflexivity. Qed.

Lemma addExpirations_exact w count :
  0 <= w -> 0 <= count -> w + count <= INT32_MAX -> addExpirations w count = w + count.
Proof.
  unfold addExpirations, int32, uint64, sint, uint, INT32_MAX. intros Hw Hc Hs.
  rewrite (Z.mod_small w) by lia.
  rewrite (Z.mod_small (w + count)) by lia.
  rewrite Z.mod_small; lia.
Qed.

(** One pass of the loop: which reports fire, and what is left in the
    counters. *)
Lemma wake_pass c count :
  reduced c -> 0 <= count <= INT32_MAX - kWakesPerDay ->
  reduced (wake c count).1 /\
  wake_hours (wake c count).1 = (wake_hours c + count) mod kWakesPerHour /\
  wake_days (wake c count).1 = (wake_days c + count) mod kWakesPerDay /\
  (LogPerHour ∈ (wake c count).2 <-> kWakesPerHour <= wake_hours c + count) /\
  (LogPerDay ∈ (wake c count).2 <-> kWakesPerDay <= wake_days c + count).
Proof.
  destruct periods as (P5 & Ph & Pd).
  unfold reduced, wake. rewrite P5, Ph, Pd. unfold INT32_MAX.
  intros (H5 & Hh & Hd) Hc.
  rewrite !addExpirations_exact by (unfold INT32_MAX; lia).
  destruct (1 <=? wake_5min c + count) eqn:E5;
    destruct (12 <=? wake_hours c + count) eqn:Eh;
    destruct (288 <=? wake_days c + count) eqn:Ed; cbn;
    rewrite ?Z.rem_mod_nonneg by lia;
    repeat split;
    try (apply Z.mod_pos_bound; lia);
    try (symmetry; apply Z.mod_small; lia);
    try lia;
    rewrite list_elem_of_In; cbn; intuition (discriminate || lia).
Qed.

Lemma unit_tick_fires p m :
  0 < p -> 0 <= m -> (p <= m mod p + 1 <-> (m + 1) mod p = 0).
Proof.
  intros Hp Hm. pose proof (Z.mod_pos_bound m p Hp) as Hb.
  rewrite <- (Zplus_mod_idemp_l m 1 p).
  destruct (Z.eq_dec (m mod p) (p - 1)) as [E|E].
  - rewrite E. replace (p - 1 + 1) with p by lia. rewrite Z_mod_same_full. lia.
  - rewrite (Z.mod_small (m mod p + 1)) by lia. lia.
Qed.

(** The loop fed one expiration per read, started after [m] ticks. *)
Lemma wakeLoop_unit_ticks n : forall m c,
  0 <= m -> reduced c ->
  wake_hours c = m mod kWakesPerHour -> wake_days c = m mod kWakesPerDay ->
  let r := wakeLoop c (replicate n (Expired 1)) in
  wake_hours r.1 = (m + Z.of_nat n) mod kWakesPerHour /\
  wake_days r.1 = (m + Z.of_nat n) mod kWakesPerDay /\
  length r.2 = n /\
  forall (k : nat) evs, r.2 !! k = Some evs ->
    (LogPerHour ∈ evs <-> (m + Z.of_nat k + 1) mod kWakesPerHour = 0) /\
    (LogPerDay ∈ evs <-> (m + Z.of_nat k + 1) mod kWakesPerDay = 0).
Proof.
  destruct periods as (P5 & Ph & Pd).
  induction n as [|n IH]; intros m c Hm Hc Eh Ed; cbn [replicate wakeLoop].
  - cbn. rewrite Z.add_0_r. repeat split; try done.
  - assert (Hcount : 0 <= 1 <= INT32_MAX - kWakesPerDay)
      by (rewrite Pd; unfold INT32_MAX; lia).
    destruct (wake_pass c 1 Hc Hcount) as (Hc' & Eh' & Ed' & Fh & Fd).
    destruct (wake c 1) as [c' evs0] eqn:Ew. cbn [fst snd] in *.
    assert (Eh1 : wake_hours c' = (m + 1) mod kWakesPerHour).
    { rewrite Eh', Eh. rewrite Ph. apply Zplus_mod_idemp_l. }
    assert (Ed1 : wake_days c' = (m + 1) mod kWakesPerDay).
    { rewrite Ed', Ed. rewrite Pd. apply Zplus_mod_idemp_l. }
    specialize (IH (m + 1) c' ltac:(lia) Hc' Eh1 Ed1).
    destruct (wakeLoop c' (replicate n (Expired 1))) as [c'' evss] eqn:El.
    cbn [fst snd] in *. destruct IH as (IH1 & IH2 & IH3 & IH4).
    replace (m + Z.of_nat (S n)) with (m + 1 + Z.of_nat n) by lia.
    split; [done|]. split; [done|]. split; [cbn; lia|].
    intros k evs H. split.
    + destruct k as [|k]; cbn in H.
      * injection H as <-. rewrite Fh, Eh, Ph.
        replace (m + Z.of_nat 0 + 1) with (m + 1) by lia.
        apply unit_tick_fires; lia.
      * replace (m + Z.of_nat (S k) + 1) with (m + 1 + Z.of_nat k + 1) by lia.
        by apply IH4.
    + destruct k as [|k]; cbn in H.
      * injection H as <-. rewrite Fd, Ed, Pd.
        replace (m + Z.of_nat 0 + 1) with (m + 1) by lia.
        apply unit_tick_fires; lia.
      * replace (m + Z.of_nat (S k) + 1) with (m + 1 + Z.of_nat k + 1) by lia.
        by apply IH4.
Qed.

Lemma wakeLoop_reduced reads : forall c,
  reduced c -> Forall fits reads -> reduced (wakeLoop c reads).1.
Proof.
  induction reads as [|r reads IH]; intros c Hc Hall; cbn [wakeLoop]; [done|].
  destruct r as [count|]; [|done].
  apply Forall_cons in Hall as [Hcount Hall].
  destruct (wake_pass c count Hc Hcount) as (Hc' & _).
  destruct (wake c count) as [c' evs]. cbn [fst] in Hc'.
  specialize (IH c' Hc' Hall).
  destruct (wakeLoop c' reads) as [c'' evss]. exact IH.
Qed.

(** C8. In a pass of the timer loop [logPerHour] is called exactly when
    the hourly counter has reached 12 and [logPerDay] exactly when the
    daily counter has reached 288, and the pass leaves every counter
    below its period; so the counters are below their periods after any
    sequence of reads.  With one expiration per read, [logPerHour] is
    called on exactly every 12th tick and [logPerDay] on exactly every
    288th, and after [n] ticks the counters hold [n mod 12] and
    [n mod 288]. *)
Theorem collect_cadence :
  (forall c count,
      reduced c -> fits (Expired count) ->
      (LogPerHour ∈ (wake c count).2 <-> kWakesPerHour <= wake_hours c + count) /\
      (LogPerDay ∈ (wake c count).2 <-> kWakesPerDay <= wake_days c + count) /\
      reduced (wake c count).1) /\
  (forall reads, Forall fits reads -> reduced (collect reads).1) /\
  (forall n : nat,
      wake_hours (collect (replicate n (Expired 1))).1 = Z.of_nat n mod 12 /\
      wake_days (collect (replicate n (Expired 1))).1 = Z.of_nat n mod 288 /\
      forall (k : nat) evs,
        (1 <= k)%nat ->
        (collect (replicate n (Expired 1))).2 !! k = Some evs ->
        (LogPerHour ∈ evs <-> Z.of_nat k mod 12 = 0) /\
        (LogPerDay ∈ evs <-> Z.of_nat k mod 288 = 0)).
Proof.
  assert (H0 : reduced (mkCounters 0 0 0)).
  { unfold reduced. destruct periods as (-> & -> & ->). cbn. lia. }
  split; [|split].
  - intros c count Hc Hcount.
    destruct (wake_pass c count Hc Hcount) as (? & _ & _ & ? & ?). done.
  - intros reads Hall. unfold collect.
    pose proof (wakeLoop_reduced reads _ H0 Hall) as H.
    destruct (wakeLoop (mkCounters 0 0 0) reads) as [c evss]. exact H.
  - intros n. unfold collect.
    pose proof (wakeLoop_unit_ticks n 0 (mkCounters 0 0 0) ltac:(lia) H0
                  eq_refl eq_refl) as H.
    destruct (wakeLoop (mkCounters 0 0 0) (replicate n (Expired 1))) as [c evss].
    cbn [fst snd] in *. destruct H as (Eh & Ed & _ & Hk).
    destruct periods as (_ & Ph & Pd). rewrite Ph in *. rewrite Pd in *.
    split; [exact Eh|]. split; [exact Ed|].
    intros k evs Hpos Hlook. destruct k as [|k]; [lia|]. cbn in Hlook.
    specialize (Hk k evs Hlook).
    replace (Z.of_nat (S k)) with (0 + Z.of_nat k + 1) by lia. exact Hk.
Qed.

(** The hypotheses of C8 discharged on the pass that completes the
    first hour, and on the twelfth of twenty-four unit ticks. *)
Lemma collect_cadence_witness :
  LogPerHour ∈ (wake (mkCounters 0 11 11) 1).2 /\
  reduced (collect [Expired 3; Expired 20; Expired 300]).1 /\
  LogPerHour ∈ [AggregatePer5Min; LogPerHour].
Proof.
  destruct collect_cadence as (Hpass & Hred & Hunit).
  assert (Hc : reduced (mkCounters 0 11 11)) by (vm_compute; intuition discriminate).
  assert (Hf : fits (Expired 1)) by (vm_compute; intuition discriminate).
  split; [|split].
  - apply (Hpass _ _ Hc Hf). vm_compute. discriminate.
  - apply Hred. repeat constructor; vm_compute; intuition discriminate.
  - destruct (Hunit 24%nat) as (_ & _ & Hk).
    apply (Hk 12%nat); [lia | reflexivity | reflexivity].
Defined.

End SysfsCollectorFacts.

(** ** BatteryFGReporter *)

Module BatteryFGReporterFacts.

Import BatteryFGReporter.

(** C9. An event index of 8 or more, or a negative one (which the
    unsigned comparison reads as a large number), makes [reportFGEvent]
    return with the reporter, its trigger-time watermarks included, and
    the record untouched and no atom reported; an atom is reported only
    for an index from 0 to 7, and carries that index. *)
Theorem reportFGEvent_guard (r : t) (data : BatteryFGPipeline) (now : Z) :
  in_int32 (event data) ->
  (kNumMaxEvents <= event data \/ event data < 0 ->
   reportFGEvent r data now = Some (r, data, None)) /\
  (forall r' data' atom,
      reportFGEvent r data now = Some (r', data', Some atom) ->
      0 <= event data < kNumMaxEvents /\ event atom = event data).
Proof.
  unfold in_int32, INT32_MIN, INT32_MAX, kNumMaxEvents. intros Hr.
  assert (Hu : 8 <= event data \/ event data < 0 -> 8 <= uint32 (event data)).
  { unfold uint32, uint. intros [H|H].
    - rewrite Z.mod_small; lia.
    - replace (event data) with (event data + 2 ^ 32 + (-1) * 2 ^ 32) by lia.
      rewrite Z_mod_plus_full, Z.mod_small; lia. }
  assert (Hs : uint32 (event data) < 8 -> 0 <= event data < 8).
  { intros H. destruct (Z_lt_le_dec (event data) 0) as [Hn|Hn]; [|lia].
    specialize (Hu (or_intror Hn)). lia. }
  unfold reportFGEvent, kNumMaxEvents. split.
  - intros H. specialize (Hu H).
    destruct (8 <=? uint32 (event data)) eqn:E; [reflexivity|lia].
  - intros r' data' atom H.
    destruct (8 <=? uint32 (event data)) eqn:E; [discriminate|].
    split; [apply Hs; lia|].
    destruct (at_ _ _) as [trigger|]; cbn [mbind option_bind] in H; [|discriminate].
    destruct ((state data =? 1) && (trigger =? 0));
      destruct (store _ _ _) as [times|]; cbn [mbind option_bind] in H;
      try discriminate; by injection H as _ _ <-.
Qed.

(** The hypotheses of C9 discharged on event 8 and event -1, and on the
    trigger of event 3 at boot second 100. *)
Lemma reportFGEvent_guard_witness :
  reportFGEvent new (mkPipeline 8 1 0 []) 100 = Some (new, mkPipeline 8 1 0 [], None) /\
  reportFGEvent new (mkPipeline (-1) 1 0 []) 100
  = Some (new, mkPipeline (-1) 1 0 [], None) /\
  0 <= 3 < kNumMaxEvents.
Proof.
  split; [|split].
  - apply (reportFGEvent_guard new (mkPipeline 8 1 0 []) 100).
    + vm_compute. intuition discriminate.
    + left. vm_compute. discriminate.
  - apply (reportFGEvent_guard new (mkPipeline (-1) 1 0 []) 100).
    + vm_compute. intuition discriminate.
    + right. reflexivity.
  - eapply (reportFGEvent_guard new (mkPipeline 3 1 0 []) 100).
    + vm_compute. intuition discriminate.
    + vm_compute. reflexivity.
Defined.

End BatteryFGReporterFacts.

(** ** BatteryEEPROMReporter *)

Module BatteryEEPROMReporterFacts.

Import BatteryEEPROMReporter.

Section Loops.

Variable E : env.

Lemma scanInto_erased file_contents i raw :
  decodesErased E file_contents i ->
  isErased (scanInto (sscanf_history E (history_each file_contents (uint64 (i * LINESIZE))))
                     raw) = true.
Proof.
  unfold decodesErased, isErased, scanInto. cbn. intros [-> ->]. reflexivity.
Qed.

(** The tail of the loop body either leaves the frame alone or reports
    one atom for slot [i] and reads the clock. *)
Lemma decodeAndReport_cases f i sparse vals :
  decodeAndReport E f i sparse vals = f \/
  (isErased (hist_raw f) = false /\ 0 < packedData E vals i /\
   exists h, reported (decodeAndReport E f i sparse vals) = reported f ++ [(i, h)]).
Proof.
  unfold decodeAndReport.
  destruct (isErased (hist_raw f)) eqn:Ee; [by left|].
  destruct (packedData E vals i <=? 0) eqn:Ep; [by left|].
  right. split; [done|]. split; [lia|]. eexists. reflexivity.
Qed.

(** A pass of either loop: nothing reported and the reporter untouched,
    or one atom for a slot that is not a skipped one. *)
Lemma historyBody_cases file_contents sparse i f :
  (self (historyBody E file_contents sparse i f) = self f /\
   reported (historyBody E file_contents sparse i f) = reported f) \/
  (~ skipped E file_contents i /\
   exists h, reported (historyBody E file_contents sparse i f) = reported f ++ [(i, h)]).
Proof.
  unfold historyBody.
  set (vals := sscanf_history E (history_each file_contents (uint64 (i * LINESIZE)))).
  destruct (decodeAndReport_cases (withRaw f (scanInto vals (hist_raw f))) i sparse vals)
    as [-> | (He & Hp & h & Hh)].
  - left. done.
  - right. split.
    + intros [Her | Hle].
      * cbn in He. pose proof (scanInto_erased file_contents i (hist_raw f) Her) as H.
        fold vals in H. congruence.
      * fold vals in Hle. lia.
    + exists h. exact Hh.
Qed.

Lemma pipelineBody_cases file_contents i f :
  (self (pipelineBody E file_contents i f) = self f /\
   reported (pipelineBody E file_contents i f) = reported f) \/
  (~ skipped_pipeline E file_contents i /\
   exists h, reported (pipelineBody E file_contents i f) = reported f ++ [(i, h)]).
Proof.
  unfold pipelineBody.
  set (vals := sscanf_history E (history_each file_contents (uint64 (i * LINESIZE)))).
  destruct (int16 (Z.of_nat (length vals)) <=? 0) eqn:En; [by left|].
  destruct (decodeAndReport_cases (withRaw f (scanInto vals (hist_raw f))) i 0 vals)
    as [-> | (He & Hp & h & Hh)].
  - left. done.
  - right. split.
    + intros [[Her | Hle] | Hnil].
      * cbn in He. pose proof (scanInto_erased file_contents i (hist_raw f) Her) as H.
        fold vals in H. congruence.
      * fold vals in Hle. lia.
      * fold vals in Hnil. rewrite Hnil in En. vm_compute in En. discriminate En.
    + exists h. exact Hh.
Qed.

Lemma int16_range z : -32768 <= int16 z <= 32767.
Proof.
  unfold int16, sint. pose proof (Z.mod_pos_bound (z + 2 ^ (16 - 1)) (2 ^ 16)).
  change (2 ^ 16) with 65536 in *. change (2 ^ (16 - 1)) with 32768 in *. lia.
Qed.

Lemma added_refl skip f : added skip f f.
Proof. exists []. rewrite app_nil_r. repeat split; done. Qed.

Lemma added_step skip i f f1 f2 :
  -32768 <= i <= 32767 ->
  (self f1 = self f /\ reported f1 = reported f) \/
  (~ skip i /\ exists h, reported f1 = reported f ++ [(i, h)]) ->
  added skip f1 f2 -> added skip f f2.
Proof.
  intros Hi Hstep (new & Hrep & Hall & Hself).
  destruct Hstep as [[Es Er] | (Hns & h & Er)].
  - exists new. rewrite Hrep, Er. split; [done|]. split; [done|].
    intros Hn. rewrite Hself by done. exact Es.
  - exists ((i, h) :: new). rewrite Hrep, Er, <- app_assoc. split; [done|].
    split; [|discriminate]. constructor; [|done]. cbn. done.
Qed.

Lemma historyLoop_added fuel file_contents sparse : forall i f,
  -32768 <= i <= 32767 ->
  added (skipped E file_contents) f (historyLoop E fuel file_contents sparse i f).
Proof.
  induction fuel as [|fuel IH]; intros i f Hi; cbn [historyLoop].
  - apply added_refl.
  - destruct (i <? BATT_HIST_NUM_MAX E); [|apply added_refl].
    destruct (_ <? uint64 (i * LINESIZE)); [apply added_refl|].
    eapply added_step; [exact Hi | apply historyBody_cases |].
    apply IH. apply int16_range.
Qed.

Lemma pipelineLoop_added fuel file_contents len num : forall i f,
  -32768 <= i <= 32767 ->
  added (skipped_pipeline E file_contents) f
        (pipelineLoop E fuel file_contents len num i f).
Proof.
  induction fuel as [|fuel IH]; intros i f Hi; cbn [pipelineLoop].
  - apply added_refl.
  - destruct (i <? num); [|apply added_refl].
    destruct (_ <? _); [apply added_refl|].
    eapply added_step; [exact Hi | apply pipelineBody_cases |].
    apply IH. apply int16_range.
Qed.

(** Both entry points: without a readable history file nothing happens,
    with one the loop runs from an empty list of atoms. *)
Lemma checkAndReport_added r reads path :
  (reported (checkAndReport E r reads path) = [] /\
   self (checkAndReport E r reads path) = r) \/
  exists file_contents f0,
    ReadFileToString E path = Some file_contents /\
    reported f0 = [] /\ self f0 = r /\
    added (skipped E file_contents) f0 (checkAndReport E r reads path).
Proof.
  unfold checkAndReport.
  destruct (notUploadTime r _); [by left|].
  destruct (ReadFileToString E path) as [file_contents|] eqn:Ef; [|by left].
  right. eexists _, _. split; [reflexivity|].
  split; [|split]; [| |apply historyLoop_added; lia]; reflexivity.
Qed.

Lemma checkAndReport_pipeline_added r reads path :
  (reported (checkAndReport_pipeline E r reads path) = [] /\
   self (checkAndReport_pipeline E r reads path) = r) \/
  exists file_contents f0,
    ReadFileToString E path = Some file_contents /\
    reported f0 = [] /\ self f0 = r /\
    added (skipped_pipeline E file_contents) f0 (checkAndReport_pipeline E r reads path).
Proof.
  unfold checkAndReport_pipeline.
  destruct (notUploadTime r _); [by left|].
  destruct (ReadFileToString E path) as [file_contents|] eqn:Ef; [|by left].
  right. eexists _, _. split; [reflexivity|].
  split; [|split]; [| |apply pipelineLoop_added; lia]; reflexivity.
Qed.

End Loops.

Section Reached.

Variable E : env.

Lemma offset_in_file (i : Z) :
  0 <= i <= 32767 -> uint64 (i * LINESIZE) = i * LINESIZE.
Proof. unfold LINESIZE, uint64, uint. intros Hi. apply Z.mod_small. lia. Qed.

Lemma int16_next i : 0 <= i < 32767 -> int16 (i + 1) = i + 1.
Proof.
  intros Hi. unfold int16, sint. change (2 ^ (16 - 1)) with 32768.
  change (2 ^ 16) with 65536. rewrite Z.mod_small; lia.
Qed.

Lemma scanInto_written vals raw tempco rcomp0 :
  uint16 <$> vals !! 0%nat = Some tempco ->
  uint16 <$> vals !! 1%nat = Some rcomp0 ->
  ~ (tempco = 65535 /\ rcomp0 = 65535) ->
  isErased (scanInto vals raw) = false.
Proof.
  intros Ht Hr Hne. unfold isErased, scanInto.
  cbn [RawFormat.tempco RawFormat.rcomp0]. rewrite Ht, Hr. simpl.
  destruct (tempco =? 65535) eqn:E1; [|done].
  destruct (rcomp0 =? 65535) eqn:E2; [|done]. destruct Hne. lia.
Qed.

(** A written record makes the loop body report the atom of its slot. *)
Lemma historyBody_written file_contents sparse i f :
  written E file_contents i ->
  exists h, reported (historyBody E file_contents sparse i f) = reported f ++ [(i, h)].
Proof.
  unfold written, historyBody, decodeAndReport. cbn zeta.
  intros [(tempco & rcomp0 & Ht & Hr & Hne) Hpos].
  set (vals := sscanf_history E (history_each file_contents (uint64 (i * LINESIZE)))) in *.
  cbn [hist_raw withRaw].
  rewrite (scanInto_written vals (hist_raw f) tempco rcomp0 Ht Hr Hne).
  destruct (packedData E vals i <=? 0) eqn:Ep; [lia|].
  eexists. reflexivity.
Qed.

Lemma pipelineBody_written file_contents i f :
  written_pipeline E file_contents i ->
  exists h, reported (pipelineBody E file_contents i f) = reported f ++ [(i, h)].
Proof.
  unfold written_pipeline, written, pipelineBody, decodeAndReport. cbn zeta.
  intros [[(tempco & rcomp0 & Ht & Hr & Hne) Hpos] Hnum].
  set (vals := sscanf_history E (history_each file_contents (uint64 (i * LINESIZE)))) in *.
  destruct (int16 (Z.of_nat (length vals)) <=? 0) eqn:En; [lia|].
  cbn [hist_raw withRaw].
  rewrite (scanInto_written vals (hist_raw f) tempco rcomp0 Ht Hr Hne).
  destruct (packedData E vals i <=? 0) eqn:Ep; [lia|].
  eexists. reflexivity.
Qed.

Lemma added_keeps (skip : Z -> Prop) f f' atom :
  added skip f f' -> atom ∈ reported f -> atom ∈ reported f'.
Proof. intros (new & -> & _) Hin. apply elem_of_app. by left. Qed.

(** The history loop started at or before a written slot that lies
    within the file and the counter's range reaches it and reports it,
    whatever the records before it are. *)
Lemma historyLoop_reaches fuel file_contents sparse j : forall i f,
  0 <= i <= j -> j < BATT_HIST_NUM_MAX E -> j <= 32767 ->
  j * LINESIZE <= Z.of_nat (String.length file_contents) ->
  written E file_contents j ->
  j - i < Z.of_nat fuel ->
  exists h, (j, h) ∈ reported (historyLoop E fuel file_contents sparse i f).
Proof.
  induction fuel as [|fuel IH]; intros i f Hi Hmax Hj Hin Hw Hfuel; [lia|].
  cbn [historyLoop].
  destruct (i <? BATT_HIST_NUM_MAX E) eqn:Elt; [|lia].
  rewrite (offset_in_file i) by lia.
  destruct (Z.of_nat (String.length file_contents) <? i * LINESIZE) eqn:Eb;
    [unfold LINESIZE in *; lia|].
  destruct (Z.eq_dec i j) as [->|Hne].
  - destruct (historyBody_written file_contents sparse j f Hw) as [h Hh].
    exists h. eapply added_keeps; [apply historyLoop_added; apply int16_range|].
    rewrite Hh. apply elem_of_app. right. left.
  - rewrite int16_next by lia. apply IH; try done; lia.
Qed.

Lemma pipelineLoop_reaches fuel file_contents len num j : forall i f,
  0 <= i <= j -> j < num -> j <= 32767 ->
  (j + 1) * LINESIZE <= len -> len < 2 ^ 63 ->
  written_pipeline E file_contents j ->
  j - i < Z.of_nat fuel ->
  exists h, (j, h) ∈ reported (pipelineLoop E fuel file_contents len num i f).
Proof.
  induction fuel as [|fuel IH]; intros i f Hi Hnum Hj Hin Hlen Hw Hfuel; [lia|].
  cbn [pipelineLoop].
  destruct (i <? num) eqn:Elt; [|lia].
  assert (Hoff : uint64 (uint64 (i * LINESIZE) + LINESIZE) = i * LINESIZE + LINESIZE).
  { rewrite (offset_in_file i) by lia.
    unfold uint64, uint, LINESIZE in *. apply Z.mod_small. lia. }
  assert (Hl : uint64 len = len).
  { unfold uint64, uint, LINESIZE in *. apply Z.mod_small. lia. }
  rewrite Hoff, Hl.
  destruct (len <? i * LINESIZE + LINESIZE) eqn:Eb; [unfold LINESIZE in *; lia|].
  destruct (Z.eq_dec i j) as [->|Hne].
  - destruct (pipelineBody_written file_contents j f Hw) as [h Hh].
    exists h. eapply added_keeps; [apply pipelineLoop_added; apply int16_range|].
    rewrite Hh. apply elem_of_app. right. left.
  - rewrite int16_next by lia. apply IH; try done; lia.
Qed.

End Reached.

(** C7. A history record whose [tempco] and [rcomp0] both decode to
    0xFFFF is not reported: neither [checkAndReport] reports an atom for
    its slot.  The record is skipped and the loop goes on: when the
    call is not throttled, every written record at a slot the loop can
    reach is reported, the slots after an erased record included. *)
Theorem erased_record_not_reported
    (E : env) (r : t) (reads : nat) (path file_contents : string) (i : Z) :
  ReadFileToString E path = Some file_contents ->
  decodesErased E file_contents i ->
  (forall h,
      ((i, h) ∉ reported (checkAndReport E r reads path)) /\
      ((i, h) ∉ reported (checkAndReport_pipeline E r reads path))) /\
  (notUploadTime r (getTimeSecs E reads) = false ->
   (forall j,
       0 <= j < BATT_HIST_NUM_MAX E -> j <= 32767 ->
       j * LINESIZE <= Z.of_nat (String.length file_contents) ->
       written E file_contents j ->
       exists h, (j, h) ∈ reported (checkAndReport E r reads path)) /\
   (Z.of_nat (String.length file_contents) <= INT32_MAX ->
    forall j,
      0 <= j <= 32767 ->
      (j + 1) * LINESIZE <= Z.of_nat (String.length file_contents) ->
      written_pipeline E file_contents j ->
      exists h, (j, h) ∈ reported (checkAndReport_pipeline E r reads path))).
Proof.
  intros Hfile Her. split; [intros h; split|].
  - destruct (checkAndReport_added E r reads path)
      as [[-> _] | (fc & f0 & Hfc & Hr0 & _ & new & Hrep & Hall & _)].
    + apply not_elem_of_nil.
    + rewrite Hfile in Hfc. injection Hfc as <-.
      rewrite Hrep, Hr0. cbn. intros Hin.
      rewrite Forall_forall in Hall. destruct (Hall _ Hin) as [_ Hns].
      apply Hns. by left.
  - destruct (checkAndReport_pipeline_added E r reads path)
      as [[-> _] | (fc & f0 & Hfc & Hr0 & _ & new & Hrep & Hall & _)].
    + apply not_elem_of_nil.
    + rewrite Hfile in Hfc. injection Hfc as <-.
      rewrite Hrep, Hr0. cbn. intros Hin.
      rewrite Forall_forall in Hall. destruct (Hall _ Hin) as [_ Hns].
      apply Hns. left. by left.
  - intros Hdue. split.
    + intros j Hj Hj16 Hin Hw. unfold checkAndReport. cbn zeta.
      rewrite Hdue, Hfile. apply historyLoop_reaches; try done; lia.
    + intros Hlen j Hj Hin Hw. unfold checkAndReport_pipeline. cbn zeta.
      rewrite Hdue, Hfile.
      assert (Hk : int32 (Z.of_nat (String.length file_contents))
                   = Z.of_nat (String.length file_contents))
        by (apply CxxFacts.int32_id; unfold in_int32, INT32_MIN, INT32_MAX in *; lia).
      rewrite Hk.
      assert (Hnum : j < Z.quot (Z.of_nat (String.length file_contents)) LINESIZE).
      { unfold LINESIZE in *. rewrite Z.quot_div_nonneg by lia.
        assert (j + 1 <= Z.of_nat (String.length file_contents) / 31)
          by (apply Z.div_le_lower_bound; lia).
        lia. }
      apply pipelineLoop_reaches; try done; try lia.
      unfold INT32_MAX in Hlen. lia.
Qed.

(** The hypotheses of C7 discharged on the sample file, whose first
    record is erased and whose second is written: no atom for slot 0,
    an atom for slot 1. *)
Lemma erased_record_not_reported_witness :
  Forall (fun atom => atom.1 <> 0)
         (reported (checkAndReport (sample_env sample_history) new 0 sample_path)) /\
  Forall (fun atom => atom.1 <> 0)
         (reported (checkAndReport_pipeline (sample_env sample_history) new 0
                                            sample_path)) /\
  Exists (fun atom => atom.1 = 1)
         (reported (checkAndReport (sample_env sample_history) new 0 sample_path)) /\
  Exists (fun atom => atom.1 = 1)
         (reported (checkAndReport_pipeline (sample_env sample_history) new 0
                                            sample_path)).
Proof.
  assert (Hfile : ReadFileToString (sample_env sample_history) sample_path
                  = Some sample_history) by (vm_compute; reflexivity).
  assert (Her : decodesErased (sample_env sample_history) sample_history 0)
    by (vm_compute; split; reflexivity).
  destruct (erased_record_not_reported (sample_env sample_history) new 0 sample_path
              sample_history 0 Hfile Her) as [H Hgo].
  destruct (Hgo eq_refl) as [Hl Hp].
  assert (Hw : written (sample_env sample_history) sample_history 1).
  { split; [exists 4660, 22136|]; vm_compute; [|reflexivity].
    split; [reflexivity|]. split; [reflexivity|]. intros [H1 _]. discriminate H1. }
  split; [|split; [|split]].
  - apply Forall_forall. intros [i h] Hin Hi. cbn [fst] in Hi. subst i.
    destruct (H h) as [H1 _]. exact (H1 Hin).
  - apply Forall_forall. intros [i h] Hin Hi. cbn [fst] in Hi. subst i.
    destruct (H h) as [_ H2]. exact (H2 Hin).
  - destruct (Hl 1) as [h Hh]; [vm_compute; split; [discriminate|reflexivity]
                               |lia|vm_compute; discriminate|exact Hw|].
    apply Exists_exists. exists (1, h). by split.
  - destruct (Hp ltac:(vm_compute; discriminate) 1) as [h Hh];
      [lia|vm_compute; discriminate| |].
    + split; [exact Hw|]. vm_compute. reflexivity.
    + apply Exists_exists. exists (1, h). by split.
Defined.

(** [report_time_] moves only when a record is reported.  A call of
    either [checkAndReport] that reports no atom leaves it as it was, so
    the throttle test of the next call answers as before; and the
    pipeline loop reports nothing when every record it can reach is a
    skipped one. *)
Lemma report_time_unchanged_without_report
    (E : env) (r : t) (reads : nat) (path : string) :
  (reported (checkAndReport E r reads path) = [] ->
   self (checkAndReport E r reads path) = r /\
   forall now, notUploadTime (self (checkAndReport E r reads path)) now
               = notUploadTime r now) /\
  (reported (checkAndReport_pipeline E r reads path) = [] ->
   self (checkAndReport_pipeline E r reads path) = r /\
   forall now, notUploadTime (self (checkAndReport_pipeline E r reads path)) now
               = notUploadTime r now) /\
  (forall file_contents,
      ReadFileToString E path = Some file_contents ->
      (forall i, -32768 <= i <= 32767 -> skipped_pipeline E file_contents i) ->
      reported (checkAndReport_pipeline E r reads path) = [] /\
      self (checkAndReport_pipeline E r reads path) = r).
Proof.
  assert (Hnil : forall (skip : Z -> Prop) f0 f,
             reported f0 = [] -> added skip f0 f -> reported f = [] -> self f = self f0).
  { intros skip f0 f H0 (new & Hrep & _ & Hself) Hf. apply Hself.
    rewrite H0 in Hrep. cbn in Hrep. congruence. }
  assert (Hskip : forall (skip : Z -> Prop) f0 f,
             reported f0 = [] -> added skip f0 f ->
             (forall i, -32768 <= i <= 32767 -> skip i) -> reported f = []).
  { intros skip f0 f H0 (new & Hrep & Hall & _) Hs.
    rewrite Hrep, H0. cbn. destruct new as [|p new]; [done|].
    apply Forall_cons in Hall as [[Hi Hns] _]. destruct (Hns (Hs _ Hi)). }
  split; [|split].
  - intros Hrep.
    assert (self (checkAndReport E r reads path) = r) as ->; [|done].
    destruct (checkAndReport_added E r reads path)
      as [[_ Hs] | (fc & f0 & _ & Hr0 & Hs0 & Hadd)]; [done|].
    rewrite (Hnil _ _ _ Hr0 Hadd Hrep). exact Hs0.
  - intros Hrep.
    assert (self (checkAndReport_pipeline E r reads path) = r) as ->; [|done].
    destruct (checkAndReport_pipeline_added E r reads path)
      as [[_ Hs] | (fc & f0 & _ & Hr0 & Hs0 & Hadd)]; [done|].
    rewrite (Hnil _ _ _ Hr0 Hadd Hrep). exact Hs0.
  - intros file_contents Hfile Hall.
    destruct (checkAndReport_pipeline_added E r reads path)
      as [[Hr Hs] | (fc & f0 & Hfc & Hr0 & Hs0 & Hadd)]; [by split|].
    rewrite Hfile in Hfc. injection Hfc as <-.
    assert (Hrep : reported (checkAndReport_pipeline E r reads path) = [])
      by (eapply Hskip; eauto).
    split; [exact Hrep|]. rewrite (Hnil _ _ _ Hr0 Hadd Hrep). exact Hs0.
Qed.



End BatteryEEPROMReporterFacts.

(** ** ChannelManager *)

Module ChannelManagerFacts.

Import CxxFacts ChannelManager.

Lemma unpack_words x y :
  0 <= x < 4294967296 -> 0 <= y < 4294967296 ->
  ChannelMapKey.low (int64 (x + 2 ^ 32 * y)) = int32 x /\
  ChannelMapKey.high (int64 (x + 2 ^ 32 * y)) = int32 y.
Proof.
  intros Bx By. unfold ChannelMapKey.low, ChannelMapKey.high, int64, sint.
  change (2 ^ 64) with 18446744073709551616.
  change (2 ^ (64 - 1)) with 9223372036854775808.
  change (2 ^ 32) with 4294967296.
  destruct (Z_lt_le_dec y 2147483648) as [Hy|Hy].
  - rewrite (Z.mod_small (x + 4294967296 * y + 9223372036854775808)) by lia.
    replace (x + 4294967296 * y + 9223372036854775808 - 9223372036854775808)
      with (x + y * 4294967296) by lia.
    rewrite Z_mod_plus_full, Z_div_plus_full by lia.
    rewrite (Z.mod_small x), (Z.div_small x) by lia. by rewrite Z.add_0_l.
  - replace (x + 4294967296 * y + 9223372036854775808)
      with (x + 4294967296 * y - 9223372036854775808 + 1 * 18446744073709551616) by lia.
    rewrite Z_mod_plus_full.
    rewrite (Z.mod_small (x + 4294967296 * y - 9223372036854775808)) by lia.
    replace (x + 4294967296 * y - 9223372036854775808 - 9223372036854775808)
      with (x + (y - 4294967296) * 4294967296) by lia.
    rewrite Z_mod_plus_full, Z_div_plus_full by lia.
    rewrite (Z.mod_small x), (Z.div_small x) by lia. rewrite Z.add_0_l.
    split; [done|].
    unfold int32, sint. change (2 ^ 32) with 4294967296.
    change (2 ^ (32 - 1)) with 2147483648.
    replace (y - 4294967296 + 2147483648)
      with (y + 2147483648 + (-1) * 4294967296) by lia.
    by rewrite Z_mod_plus_full.
Qed.

(** The two halves of a packed value are the words that were packed. *)
Lemma unpack_pack lo hi :
  in_int32 lo -> in_int32 hi ->
  ChannelMapKey.low (ChannelMapKey.pack lo hi) = lo /\
  ChannelMapKey.high (ChannelMapKey.pack lo hi) = hi.
Proof.
  intros Hlo Hhi. unfold ChannelMapKey.pack.
  destruct (unpack_words (uint32 lo) (uint32 hi)) as [El Eh].
  - unfold uint32, uint. change (2 ^ 32) with 4294967296. apply Z.mod_pos_bound. lia.
  - unfold uint32, uint. change (2 ^ 32) with 4294967296. apply Z.mod_pos_bound. lia.
  - rewrite El, Eh. by rewrite !int32_uint32.
Qed.

Lemma key_inj tgid uid tgid' uid' :
  in_int32 tgid -> in_int32 uid -> in_int32 tgid' -> in_int32 uid' ->
  ChannelMapKey.key tgid uid = ChannelMapKey.key tgid' uid' -> (tgid, uid) = (tgid', uid').
Proof.
  unfold ChannelMapKey.key. intros H1 H2 H3 H4 E.
  destruct (unpack_pack tgid uid H1 H2) as [El Eh].
  destruct (unpack_pack tgid' uid' H3 H4) as [El' Eh'].
  rewrite E in El, Eh. congruence.
Qed.

Lemma value_fields groupId offset :
  in_int32 groupId -> in_int32 offset ->
  ChannelMapValue.groupId (ChannelMapValue.value groupId offset) = groupId /\
  ChannelMapValue.offset (ChannelMapValue.value groupId offset) = offset.
Proof. apply unpack_pack. Qed.

(** *** Slots of a group *)

Lemma liveSlots_bounds l : 0 <= liveSlots l <= Z.of_nat (length l).
Proof. induction l as [|[c|] l IH]; cbn [liveSlots length]; lia. Qed.

Lemma liveSlots_fill l : forall (i : nat) c,
  l !! i = Some None -> liveSlots (<[i := Some c]> l) = liveSlots l + 1.
Proof.
  induction l as [|d l IH]; intros i c Hi; [done|].
  destruct i as [|i]; cbn in Hi.
  - injection Hi as ->. cbn. lia.
  - change (<[S i:=Some c]> (d :: l)) with (d :: <[i:=Some c]> l).
    specialize (IH i c Hi). destruct d; cbn [liveSlots]; lia.
Qed.

Lemma liveSlots_clear l : forall (i : nat) c,
  l !! i = Some (Some c) -> liveSlots (<[i := None]> l) = liveSlots l - 1.
Proof.
  induction l as [|d l IH]; intros i c Hi; [done|].
  destruct i as [|i]; cbn in Hi.
  - injection Hi as ->. cbn. lia.
  - change (<[S i:=None]> (d :: l)) with (d :: <[i:=None]> l).
    specialize (IH i c Hi). destruct d; cbn [liveSlots]; lia.
Qed.

Lemma liveSlots_occupied l (i : nat) c : l !! i = Some (Some c) -> 1 <= liveSlots l.
Proof.
  revert i. induction l as [|d l IH]; intros i Hi; [done|].
  pose proof (liveSlots_bounds l).
  destruct i as [|i]; cbn in Hi.
  - injection Hi as ->. cbn. lia.
  - specialize (IH i Hi). destruct d; cbn; lia.
Qed.

Lemma liveSlots_full l :
  (forall i : nat, (i < length l)%nat -> exists c, l !! i = Some (Some c)) ->
  liveSlots l = Z.of_nat (length l).
Proof.
  induction l as [|d l IH]; intros H; [done|].
  destruct (H 0%nat ltac:(cbn; lia)) as [c Hc]. cbn in Hc. injection Hc as ->.
  cbn [liveSlots length]. rewrite IH; [lia|].
  intros i Hi. apply (H (S i)). cbn. lia.
Qed.

(** The slot search stops at the first empty slot, or at the end of a
    full array. *)
Lemma firstFreeSlot_spec l : forall fuel slot0,
  length l = 16%nat -> 0 <= slot0 -> slot0 + Z.of_nat fuel = 16 ->
  exists slot,
    ChannelGroup.firstFreeSlot l slot0 fuel = Some slot /\
    slot0 <= slot <= 16 /\
    (forall j, slot0 <= j < slot -> exists c, at_ l j = Some (Some c)) /\
    (slot < 16 -> at_ l slot = Some None).
Proof.
  induction fuel as [|fuel IH]; intros slot0 Hl H0 Hf; cbn [ChannelGroup.firstFreeSlot].
  - exists slot0. split; [done|]. split; [lia|]. split; [intros j Hj|]; lia.
  - unfold ChannelGroup.kMaxChannels.
    destruct (slot0 <? 16) eqn:E; [|lia].
    destruct (at_is_Some l slot0) as [c Hc]; [lia|]. rewrite Hc. cbn [mbind option_bind].
    destruct c as [c|].
    + destruct (IH (slot0 + 1) Hl ltac:(lia) ltac:(lia)) as (slot & Hs & Hr & Hall & Hnone).
      exists slot. split; [exact Hs|]. split; [lia|]. split; [|exact Hnone].
      intros j Hj. destruct (Z.eq_dec j slot0) as [->|Hne]; [eauto|].
      apply Hall. lia.
    + exists slot0. split; [done|]. split; [lia|]. split; [intros j Hj; lia|done].
Qed.

(** A group with a free slot takes the new channel into its first free
    slot. *)
Lemma createChannel_spec g tgid uid queueValid :
  length (ChannelGroup.mChannels g) = 16%nat ->
  liveSlots (ChannelGroup.mChannels g) < 16 ->
  exists slot,
    0 <= slot < 16 /\
    at_ (ChannelGroup.mChannels g) slot = Some None /\
    let channel :=
      SessionChannel.new tgid uid
        (ChannelMapValue.value (int32 (ChannelGroup.mGroupId g)) slot) slot queueValid in
    ChannelGroup.createChannel g tgid uid queueValid
    = Some (channel,
            {| ChannelGroup.mLiveChannels := int32 (ChannelGroup.mLiveChannels g + 1);
               ChannelGroup.mGroupId := ChannelGroup.mGroupId g;
               ChannelGroup.mChannels :=
                 <[Z.to_nat slot := Some channel]> (ChannelGroup.mChannels g) |}).
Proof.
  intros Hl Hlive. unfold ChannelGroup.createChannel.
  destruct (firstFreeSlot_spec (ChannelGroup.mChannels g) 16 0 Hl ltac:(lia) ltac:(lia))
    as (slot & Hs & Hr & Hall & Hnone).
  change (Z.to_nat ChannelGroup.kMaxChannels) with 16%nat. rewrite Hs.
  cbn [mbind option_bind]. unfold ChannelGroup.kMaxChannels.
  destruct (Z.eq_dec slot 16) as [->|Hne].
  - exfalso. rewrite (liveSlots_full (ChannelGroup.mChannels g)) in Hlive; [lia|].
    intros i Hi. destruct (Hall (Z.of_nat i) ltac:(lia)) as [c Hc].
    exists c. rewrite at_nat in Hc by lia. by rewrite Nat2Z.id in Hc.
  - exists slot. split; [lia|]. split; [apply Hnone; lia|].
    destruct (slot =? 16) eqn:E; [lia|]. cbn zeta.
    rewrite store_Some by lia. reflexivity.
Qed.

Lemma removeChannel_spec g slot channel :
  at_ (ChannelGroup.mChannels g) slot = Some (Some channel) ->
  ChannelGroup.removeChannel g slot
  = Some (true,
          {| ChannelGroup.mLiveChannels := int32 (ChannelGroup.mLiveChannels g - 1);
             ChannelGroup.mGroupId := ChannelGroup.mGroupId g;
             ChannelGroup.mChannels := <[Z.to_nat slot := None]> (ChannelGroup.mChannels g) |}).
Proof.
  intros H. unfold ChannelGroup.removeChannel. rewrite H. cbn [mbind option_bind].
  apply at_Some_range in H as [Hr _]. rewrite store_Some by lia. reflexivity.
Qed.

(** *** Folds over the groups *)

Lemma firstGroupWithRoom_spec groups :
  match firstGroupWithRoom groups with
  | Some id => exists g, groups !! id = Some g /\ ChannelGroup.getChannelCount g < 16
  | None => forall id g, groups !! id = Some g -> 16 <= ChannelGroup.getChannelCount g
  end.
Proof.
  unfold firstGroupWithRoom.
  apply (map_fold_weak_ind (fun r (m : gmap Z ChannelGroup.t) =>
    match r with
    | Some id => exists g, m !! id = Some g /\ ChannelGroup.getChannelCount g < 16
    | None => forall id g, m !! id = Some g -> 16 <= ChannelGroup.getChannelCount g
    end)).
  - intros id g H. by rewrite lookup_empty in H.
  - intros i x m r Hi IH. unfold ChannelGroup.kMaxChannels.
    destruct (ChannelGroup.getChannelCount x <? 16) eqn:E.
    + destruct r as [id'|].
      * destruct (Z.min_spec i id') as [[_ ->] | [_ ->]].
        -- exists x. rewrite lookup_insert_eq. split; [done|lia].
        -- destruct IH as (g & Hg & Hc). exists g. split; [|done].
           rewrite lookup_insert_ne; [done|]. intros ->. congruence.
      * exists x. rewrite lookup_insert_eq. split; [done|lia].
    + destruct r as [id'|].
      * destruct IH as (g & Hg & Hc). exists g. split; [|done].
        rewrite lookup_insert_ne; [done|]. intros ->. congruence.
      * intros id g Hg. destruct (Z.eq_dec i id) as [->|Hne].
        -- rewrite lookup_insert_eq in Hg. injection Hg as <-. lia.
        -- rewrite lookup_insert_ne in Hg by done. eauto.
Qed.

Lemma lastGroupId_spec groups :
  match lastGroupId groups with
  | Some last => is_Some (groups !! last) /\
                 forall id, is_Some (groups !! id) -> id <= last
  | None => groups = ∅
  end.
Proof.
  unfold lastGroupId.
  apply (map_fold_weak_ind (fun r (m : gmap Z ChannelGroup.t) =>
    match r with
    | Some last => is_Some (m !! last) /\ forall id, is_Some (m !! id) -> id <= last
    | None => m = ∅
    end)).
  - done.
  - intros i x m r Hi IH. destruct r as [last|].
    + destruct IH as [Hlast Hmax]. split.
      * destruct (Z.max_spec i last) as [[_ ->] | [_ ->]].
        -- rewrite lookup_insert_ne; [done|]. intros ->.
           rewrite Hi in Hlast. by destruct Hlast.
        -- rewrite lookup_insert_eq. eauto.
      * intros id Hid. destruct (Z.eq_dec i id) as [->|Hne]; [lia|].
        rewrite lookup_insert_ne in Hid by done. specialize (Hmax id Hid). lia.
    + subst m. split.
      * rewrite lookup_insert_eq. eauto.
      * intros id Hid. destruct (Z.eq_dec i id) as [->|Hne]; [lia|].
        rewrite lookup_insert_ne, lookup_empty in Hid by done. by destruct Hid.
Qed.

Lemma totalLive_insert_fresh groups id g :
  groups !! id = None ->
  totalLive (<[id := g]> groups) = totalLive groups + ChannelGroup.getChannelCount g.
Proof.
  intros H. unfold totalLive. rewrite map_fold_insert_L; [done| |done].
  intros. lia.
Qed.

Lemma totalLive_delete groups id g :
  groups !! id = Some g ->
  totalLive (delete id groups) = totalLive groups - ChannelGroup.getChannelCount g.
Proof.
  intros H. unfold totalLive.
  rewrite (map_fold_delete_L _ _ id g groups); [lia| |done].
  intros. lia.
Qed.

Lemma totalLive_update groups id g g' :
  groups !! id = Some g ->
  totalLive (<[id := g']> groups)
  = totalLive groups - ChannelGroup.getChannelCount g + ChannelGroup.getChannelCount g'.
Proof.
  intros H. rewrite <- insert_delete_eq.
  rewrite totalLive_insert_fresh by apply lookup_delete_eq.
  rewrite (totalLive_delete _ _ _ H). lia.
Qed.

(** [getChannelCount] is the total of the groups, reduced to [int]. *)
Lemma getChannelCount_total m : getChannelCount m = int32 (totalLive (mChannelGroups m)).
Proof.
  unfold getChannelCount, totalLive.
  induction (mChannelGroups m) as [|id g groups Hid IH] using map_ind.
  - by rewrite !map_fold_empty.
  - rewrite !map_fold_insert_L; try done.
    + rewrite IH. apply int32_add_idemp.
    + intros. lia.
    + intros. rewrite !int32_add_idemp. f_equal. lia.
Qed.

(** *** The calls *)

Lemma inv_weaken n ids m : inv n ids m -> inv (n + 1) ids m.
Proof.
  intros [HG HM HD HT HB]. split; try done; [|lia].
  intros groupId g Hg. destruct (HG _ _ Hg) as (? & ? & ? & ? & ?).
  repeat split; try done; lia.
Qed.

(** A request for an identity that has a channel returns that channel
    and changes nothing. *)
Lemma getOrCreateChannel_existing n ids m tgid uid queueValid value :
  inv n ids m ->
  mChannelMap m !! ChannelMapKey.key tgid uid = Some value ->
  exists channel,
    getOrCreateChannel m tgid uid queueValid = Some (channel, m) /\
    is_Some (mChannelGroups m
               !! ChannelMapValue.groupId (SessionChannel.getId channel)).
Proof.
  intros [HG HM HD HT HB] Hv. unfold getOrCreateChannel. rewrite Hv.
  destruct (HM _ _ Hv) as (g & channel & Hg & Hat & Hk & Hid).
  exists channel. rewrite Hg. cbn [mbind option_bind].
  unfold ChannelGroup.getChannel. rewrite Hat. cbn [mbind option_bind].
  split; [done|]. unfold SessionChannel.getId. rewrite Hid. eauto.
Qed.

(** The group a new channel goes to, the slot it takes there, and the
    state the manager is left in. *)
Lemma getOrCreateChannel_new n ids m tgid uid queueValid :
  inv n ids m -> n <= INT32_MAX ->
  mChannelMap m !! ChannelMapKey.key tgid uid = None ->
  exists groupId g0 slot,
    ((firstGroupWithRoom (mChannelGroups m) = Some groupId /\
      mChannelGroups m !! groupId = Some g0) \/
     (firstGroupWithRoom (mChannelGroups m) = None /\
      mChannelGroups m !! groupId = None /\
      g0 = ChannelGroup.new groupId /\
      groupId = match lastGroupId (mChannelGroups m) with
                | None => 0
                | Some last => last + 1
                end)) /\
    0 <= groupId <= n /\
    ChannelGroup.mGroupId g0 = groupId /\
    length (ChannelGroup.mChannels g0) = 16%nat /\
    ChannelGroup.mLiveChannels g0 = liveSlots (ChannelGroup.mChannels g0) /\
    ChannelGroup.mLiveChannels g0 < 16 /\
    0 <= slot < 16 /\
    at_ (ChannelGroup.mChannels g0) slot = Some None /\
    let channel :=
      SessionChannel.new tgid uid (ChannelMapValue.value groupId slot) slot queueValid in
    getOrCreateChannel m tgid uid queueValid
    = Some (channel,
            {| mChannelGroups :=
                 <[groupId :=
                     {| ChannelGroup.mLiveChannels := ChannelGroup.mLiveChannels g0 + 1;
                        ChannelGroup.mGroupId := groupId;
                        ChannelGroup.mChannels :=
                          <[Z.to_nat slot := Some channel]> (ChannelGroup.mChannels g0) |}]>
                   (mChannelGroups m);
               mChannelMap :=
                 <[ChannelMapKey.key tgid uid := ChannelMapValue.value groupId slot]>
                   (mChannelMap m) |}).
Proof.
  intros [HG HM HD HT HB] Hn Hnone. unfold getOrCreateChannel. rewrite Hnone.
  pose proof (firstGroupWithRoom_spec (mChannelGroups m)) as Hfirst.
  destruct (firstGroupWithRoom (mChannelGroups m)) as [groupId|].
  - destruct Hfirst as (g & Hg & Hroom).
    destruct (HG _ _ Hg) as (Hid & Hr & Hl & Hlive & Hpos).
    unfold ChannelGroup.getChannelCount in Hroom.
    destruct (groupId =? -1) eqn:E; [lia|]. rewrite Hg. cbn [mbind option_bind].
    destruct (createChannel_spec g tgid uid queueValid Hl ltac:(lia))
      as (slot & Hslot & Hat & Hcreate).
    cbn zeta in Hcreate. rewrite Hcreate. cbn [mbind option_bind].
    rewrite Hid in *. rewrite !int32_id by range.
    exists groupId, g, slot. split; [left; done|].
    repeat split; try done; lia.
  - assert (Hemp : liveSlots (replicate 16 None) = 0) by reflexivity.
    change (-1 =? -1) with true. cbn iota.
    pose proof (lastGroupId_spec (mChannelGroups m)) as Hlast.
    set (groupId := match lastGroupId (mChannelGroups m) with
                    | None => 0
                    | Some last => int32 (last + 1)
                    end).
    assert (Hfresh : mChannelGroups m !! groupId = None /\ 0 <= groupId <= n /\
                     groupId = match lastGroupId (mChannelGroups m) with
                               | None => 0
                               | Some last => last + 1
                               end).
    { subst groupId. destruct (lastGroupId (mChannelGroups m)) as [last|].
      - destruct Hlast as [[g Hg] Hmax].
        destruct (HG _ _ Hg) as (_ & Hr & _).
        rewrite int32_id by range. split; [|split; [lia|done]].
        destruct (mChannelGroups m !! (last + 1)) eqn:E; [|done].
        specialize (Hmax (last + 1) ltac:(eauto)). lia.
      - rewrite Hlast. split; [apply lookup_empty|]. split; [|done].
        pose proof (Nat2Z.is_nonneg (size ids)). lia. }
    clearbody groupId. destruct Hfresh as (Hnew & Hr & Heq).
    unfold emplace. rewrite Hnew. rewrite lookup_insert_eq. cbn [mbind option_bind].
    destruct (createChannel_spec (ChannelGroup.new groupId) tgid uid queueValid)
      as (slot & Hslot & Hat & Hcreate);
      [reflexivity | change (liveSlots (replicate 16 None) < 16); rewrite Hemp; lia |].
    cbn zeta in Hcreate. rewrite Hcreate. cbn [mbind option_bind].
    cbn [ChannelGroup.new ChannelGroup.mGroupId ChannelGroup.mLiveChannels
         ChannelGroup.mChannels] in *.
    rewrite !int32_id by range. rewrite insert_insert_eq.
    exists groupId, (ChannelGroup.new groupId), slot. split; [right; done|].
    cbn [ChannelGroup.new ChannelGroup.mGroupId ChannelGroup.mLiveChannels
         ChannelGroup.mChannels].
    repeat split; try done; lia.
Qed.

Lemma not_registered n ids m tgid uid :
  inv n ids m -> in_int32 tgid -> in_int32 uid ->
  mChannelMap m !! ChannelMapKey.key tgid uid = None -> (tgid, uid) ∉ ids.
Proof.
  intros Hinv Ht Hu Hnone Hin. apply (inv_ids _ _ _ Hinv) in Hin; [|done..].
  rewrite Hnone in Hin. by destruct Hin.
Qed.

Lemma is_registered n ids m tgid uid value :
  inv n ids m -> in_int32 tgid -> in_int32 uid ->
  mChannelMap m !! ChannelMapKey.key tgid uid = Some value -> (tgid, uid) ∈ ids.
Proof.
  intros Hinv Ht Hu Hv. apply (inv_ids _ _ _ Hinv); [done..|]. rewrite Hv. eauto.
Qed.

(** The invariant after a channel was created in slot [slot] of group
    [groupId], which was [g0] before: a group of the manager, or a new
    one. *)
Lemma inv_create n ids m tgid uid queueValid groupId g0 slot :
  inv n ids m -> n <= INT32_MAX -> in_int32 tgid -> in_int32 uid ->
  mChannelMap m !! ChannelMapKey.key tgid uid = None ->
  (mChannelGroups m !! groupId = Some g0 \/
   (mChannelGroups m !! groupId = None /\ ChannelGroup.mLiveChannels g0 = 0)) ->
  0 <= groupId <= n ->
  length (ChannelGroup.mChannels g0) = 16%nat ->
  ChannelGroup.mLiveChannels g0 = liveSlots (ChannelGroup.mChannels g0) ->
  0 <= slot < 16 ->
  at_ (ChannelGroup.mChannels g0) slot = Some None ->
  let channel :=
    SessionChannel.new tgid uid (ChannelMapValue.value groupId slot) slot queueValid in
  inv (n + 1) ({[ (tgid, uid) ]} ∪ ids)
      {| mChannelGroups :=
           <[groupId :=
               {| ChannelGroup.mLiveChannels := ChannelGroup.mLiveChannels g0 + 1;
                  ChannelGroup.mGroupId := groupId;
                  ChannelGroup.mChannels :=
                    <[Z.to_nat slot := Some channel]> (ChannelGroup.mChannels g0) |}]>
             (mChannelGroups m);
         mChannelMap :=
           <[ChannelMapKey.key tgid uid := ChannelMapValue.value groupId slot]>
             (mChannelMap m) |}.
Proof.
  intros Hinv Hn Ht Hu Hnone Hg0 Hgid Hlen Hlive Hslot Hat channel.
  pose proof (not_registered _ _ _ _ _ Hinv Ht Hu Hnone) as Hnotin.
  destruct Hinv as [HG HM HD HT HB].
  apply at_Some_range in Hat as [_ Hat].
  pose proof (liveSlots_bounds (ChannelGroup.mChannels g0)) as Hlb.
  destruct (value_fields groupId slot ltac:(range) ltac:(range)) as [Evg Evo].
  assert (Hsize : size ({[ (tgid, uid) ]} ∪ ids) = S (size ids)).
  { rewrite size_union by set_solver. by rewrite size_singleton. }
  split; cbn [mChannelGroups mChannelMap].
  - intros gid g Hg. destruct (Z.eq_dec groupId gid) as [->|Hne].
    + rewrite lookup_insert_eq in Hg. injection Hg as <-.
      unfold group_ok. cbn [ChannelGroup.mGroupId ChannelGroup.mChannels
                            ChannelGroup.mLiveChannels].
      rewrite length_insert, (liveSlots_fill _ _ _ Hat).
      change (Z.to_nat ChannelGroup.kMaxChannels) with 16%nat.
      repeat split; try done; lia.
    + rewrite lookup_insert_ne in Hg by done.
      destruct (HG _ _ Hg) as (? & ? & ? & ? & ?). repeat split; try done; lia.
  - intros k v Hv. destruct (Z.eq_dec (ChannelMapKey.key tgid uid) k) as [<-|Hne].
    + rewrite lookup_insert_eq in Hv. injection Hv as <-.
      rewrite Evg, Evo. eexists _, channel. rewrite lookup_insert_eq.
      split; [reflexivity|]. cbn [ChannelGroup.mChannels].
      rewrite at_nat by lia. split; [|done].
      apply list_lookup_insert_eq. lia.
    + rewrite lookup_insert_ne in Hv by done.
      destruct (HM _ _ Hv) as (g & ch & Hg & Hch & Hk & Hid).
      destruct (Z.eq_dec groupId (ChannelMapValue.groupId v)) as [Eg|Eg].
      * rewrite <- Eg in *. destruct Hg0 as [Hg0 | [Hg0 _]]; [|congruence].
        assert (g = g0) as -> by congruence.
        eexists _, ch. rewrite lookup_insert_eq. split; [reflexivity|].
        cbn [ChannelGroup.mChannels]. split; [|done].
        apply at_Some_range in Hch as [Hr Hch]. rewrite at_nat by lia.
        rewrite list_lookup_insert_ne; [done|].
        intros Heq. rewrite Heq in Hat. congruence.
      * exists g, ch. rewrite lookup_insert_ne by done. done.
  - intros t u Ht' Hu'.
    destruct (Z.eq_dec (ChannelMapKey.key tgid uid) (ChannelMapKey.key t u)) as [Ek|Ek].
    + rewrite <- Ek, lookup_insert_eq.
      apply key_inj in Ek; [|done..]. injection Ek as <- <-.
      split; [eauto|]. intros _. set_solver.
    + rewrite lookup_insert_ne by done. rewrite <- (HD t u Ht' Hu').
      assert ((tgid, uid) <> (t, u)) by congruence. set_solver.
  - rewrite Hsize. destruct Hg0 as [Hg0 | [Hg0 Hzero]].
    + rewrite (totalLive_update _ _ _ _ Hg0). unfold ChannelGroup.getChannelCount.
      cbn [ChannelGroup.mLiveChannels]. lia.
    + rewrite (totalLive_insert_fresh _ _ _ Hg0). unfold ChannelGroup.getChannelCount.
      cbn [ChannelGroup.mLiveChannels]. lia.
  - rewrite Hsize. lia.
Qed.

(** Closing a registered identity frees its slot, drops the group if
    that was its last channel, and keeps the invariant. *)
Lemma closeChannel_existing n ids m tgid uid value :
  inv n ids m -> in_int32 tgid -> in_int32 uid ->
  mChannelMap m !! ChannelMapKey.key tgid uid = Some value ->
  exists m',
    closeChannel m tgid uid = Some (true, m') /\
    inv (n + 1) (ids ∖ {[ (tgid, uid) ]}) m'.
Proof.
  intros Hinv Ht Hu Hv.
  pose proof (is_registered _ _ _ _ _ _ Hinv Ht Hu Hv) as Hin.
  destruct Hinv as [HG HM HD HT HB].
  destruct (HM _ _ Hv) as (g & ch & Hg & Hat & Hk & Hid).
  destruct (HG _ _ Hg) as (Hgid & Hr & Hlen & Hlive & Hpos).
  pose proof (liveSlots_bounds (ChannelGroup.mChannels g)) as Hlb.
  change (Z.to_nat ChannelGroup.kMaxChannels) with 16%nat in Hlen.
  unfold closeChannel. rewrite Hv, Hg, (removeChannel_spec _ _ _ Hat).
  cbn [mbind option_bind negb]. unfold ChannelGroup.getChannelCount.
  cbn [ChannelGroup.mLiveChannels]. rewrite int32_id by range.
  set (gid := ChannelMapValue.groupId value) in *.
  set (off := ChannelMapValue.offset value) in *.
  set (g' := {| ChannelGroup.mLiveChannels := ChannelGroup.mLiveChannels g - 1;
                ChannelGroup.mGroupId := ChannelGroup.mGroupId g;
                ChannelGroup.mChannels := <[Z.to_nat off := None]> (ChannelGroup.mChannels g) |}).
  destruct (at_Some_range _ _ _ Hat) as [Hoff Hat'].
  pose proof (liveSlots_clear _ _ _ Hat') as Hclear.
  pose proof (liveSlots_bounds (<[Z.to_nat off := None]> (ChannelGroup.mChannels g))) as Hlb'.
  assert (Hsize : Z.of_nat (size (ids ∖ {[ (tgid, uid) ]})) = Z.of_nat (size ids) - 1).
  { rewrite size_difference by set_solver. rewrite size_singleton.
    assert (size ids <> 0%nat); [|lia].
    intros H0. apply size_empty_inv in H0. set_solver. }
  eexists. split; [reflexivity|].
  (* the entries of the other identities lead to other slots *)
  assert (Hother : forall k v,
             k <> ChannelMapKey.key tgid uid -> mChannelMap m !! k = Some v ->
             ChannelMapValue.groupId v = gid ->
             exists c,
               at_ (<[Z.to_nat off := None]> (ChannelGroup.mChannels g))
                   (ChannelMapValue.offset v) = Some (Some c) /\
               at_ (ChannelGroup.mChannels g) (ChannelMapValue.offset v) = Some (Some c) /\
               ChannelMapKey.key (SessionChannel.mTgid c) (SessionChannel.mUid c) = k /\
               SessionChannel.mId c = v).
  { intros k v Hne Hkv Hgv.
    destruct (HM _ _ Hkv) as (g1 & c & Hg1 & Hc & Hck & Hcid).
    rewrite Hgv in Hg1. assert (g1 = g) as -> by congruence.
    exists c. split; [|done].
    destruct (at_Some_range _ _ _ Hc) as [Hr1 Hc'].
    rewrite at_nat by lia. rewrite list_lookup_insert_ne; [done|].
    intros Heq. assert (ChannelMapValue.offset v = off) as Ho by lia.
    rewrite Ho in Hc. congruence. }
  split; cbn [mChannelGroups mChannelMap].
  - intros gid1 g1 Hg1.
    destruct (ChannelGroup.mLiveChannels g - 1 =? 0) eqn:E0.
    + destruct (Z.eq_dec gid gid1) as [<-|Hne].
      * by rewrite lookup_delete_eq in Hg1.
      * rewrite lookup_delete_ne in Hg1 by done.
        destruct (HG _ _ Hg1) as (? & ? & ? & ? & ?). repeat split; try done; lia.
    + destruct (Z.eq_dec gid gid1) as [<-|Hne].
      * rewrite lookup_insert_eq in Hg1. injection Hg1 as <-.
        unfold group_ok, g'. cbn [ChannelGroup.mGroupId ChannelGroup.mChannels
                                   ChannelGroup.mLiveChannels].
        rewrite length_insert. change (Z.to_nat ChannelGroup.kMaxChannels) with 16%nat.
        repeat split; try done; lia.
      * rewrite lookup_insert_ne in Hg1 by done.
        destruct (HG _ _ Hg1) as (? & ? & ? & ? & ?). repeat split; try done; lia.
  - intros k v Hkv.
    destruct (Z.eq_dec (ChannelMapKey.key tgid uid) k) as [<-|Hne].
    { by rewrite lookup_delete_eq in Hkv. }
    rewrite lookup_delete_ne in Hkv by done.
    destruct (Z.eq_dec (ChannelMapValue.groupId v) gid) as [Eg|Eg].
    + destruct (Hother k v ltac:(done) Hkv Eg) as (c & Hc' & _ & Hck & Hcid).
      destruct (at_Some_range _ _ _ Hc') as [_ Hc''].
      pose proof (liveSlots_occupied _ _ _ Hc'') as Hocc.
      destruct (ChannelGroup.mLiveChannels g - 1 =? 0) eqn:E0; [lia|].
      exists g', c. rewrite Eg, lookup_insert_eq. done.
    + destruct (HM _ _ Hkv) as (g1 & c & Hg1 & Hc & Hck & Hcid).
      exists g1, c. split; [|done].
      destruct (ChannelGroup.mLiveChannels g - 1 =? 0).
      * by rewrite lookup_delete_ne.
      * by rewrite lookup_insert_ne.
  - intros t u Ht' Hu'.
    destruct (Z.eq_dec (ChannelMapKey.key tgid uid) (ChannelMapKey.key t u)) as [Ek|Ek].
    + rewrite <- Ek, lookup_delete_eq.
      apply key_inj in Ek; [|done..]. injection Ek as <- <-.
      split; [set_solver|]. intros [? ?]. done.
    + rewrite lookup_delete_ne by done. rewrite <- (HD t u Ht' Hu').
      assert ((tgid, uid) <> (t, u)) by congruence. set_solver.
  - rewrite Hsize, <- HT.
    destruct (ChannelGroup.mLiveChannels g - 1 =? 0) eqn:E0.
    + rewrite (totalLive_delete _ _ _ Hg). unfold ChannelGroup.getChannelCount. lia.
    + rewrite (totalLive_update _ _ _ _ Hg). unfold ChannelGroup.getChannelCount, g'.
      cbn [ChannelGroup.mLiveChannels]. lia.
  - lia.
Qed.

Lemma closeChannel_missing m tgid uid :
  mChannelMap m !! ChannelMapKey.key tgid uid = None ->
  closeChannel m tgid uid = Some (false, m).
Proof. intros H. unfold closeChannel. by rewrite H. Qed.

(** Every call goes through and keeps the invariant. *)
Lemma step_inv n ids m c :
  inv n ids m -> n <= INT32_MAX -> call_in_range c ->
  exists m', step m c = Some m' /\ inv (n + 1) (track ids c) m'.
Proof.
  intros Hinv Hn Hc. destruct c as [tgid uid queueValid | tgid uid];
    destruct Hc as [Ht Hu]; cbn [step track].
  - unfold getChannelConfig.
    destruct (mChannelMap m !! ChannelMapKey.key tgid uid) as [value|] eqn:Hv.
    + destruct (getOrCreateChannel_existing _ _ _ _ _ queueValid _ Hinv Hv)
        as (channel & -> & [g Hg]).
      pose proof (is_registered _ _ _ _ _ _ Hinv Ht Hu Hv) as Hin.
      assert ({[ (tgid, uid) ]} ∪ ids = ids) as -> by set_solver.
      exists m. split; [|by apply inv_weaken].
      cbn [mbind option_bind]. destruct (negb _); [done|]. by rewrite Hg.
    + destruct (getOrCreateChannel_new _ _ _ tgid uid queueValid Hinv Hn Hv)
        as (groupId & g0 & slot & Hchoice & Hgid & Hid & Hlen & Hlive & Hroom
            & Hslot & Hat & Hres).
      cbn zeta in Hres. rewrite Hres. cbn [mbind option_bind].
      eexists. split.
      * destruct (negb _); [reflexivity|].
        cbn [SessionChannel.getId SessionChannel.new SessionChannel.mId mChannelGroups].
        destruct (value_fields groupId slot ltac:(range) ltac:(range)) as [-> _].
        rewrite lookup_insert_eq. reflexivity.
      * apply inv_create; try done.
        destruct Hchoice as [[_ Hg] | (_ & Hg & -> & _)]; [by left|by right].
  - destruct (mChannelMap m !! ChannelMapKey.key tgid uid) as [value|] eqn:Hv.
    + destruct (closeChannel_existing _ _ _ _ _ _ Hinv Ht Hu Hv) as (m' & -> & Hinv').
      by exists m'.
    + rewrite (closeChannel_missing _ _ _ Hv).
      pose proof (not_registered _ _ _ _ _ Hinv Ht Hu Hv) as Hnotin.
      assert (ids ∖ {[ (tgid, uid) ]} = ids) as -> by set_solver.
      exists m. split; [done|by apply inv_weaken].
Qed.

Lemma run_inv calls : forall n ids m,
  inv n ids m -> Forall call_in_range calls ->
  n + Z.of_nat (length calls) <= INT32_MAX ->
  exists m', run m calls = Some m' /\
             inv (n + Z.of_nat (length calls)) (foldl track ids calls) m'.
Proof.
  induction calls as [|c calls IH]; intros n ids m Hinv Hall Hlen; cbn [run foldl length].
  - exists m. split; [done|]. by rewrite Z.add_0_r.
  - apply Forall_cons in Hall as [Hc Hall]. cbn [length] in Hlen.
    destruct (step_inv _ _ _ c Hinv ltac:(lia) Hc) as (m1 & -> & Hinv1).
    cbn [mbind option_bind].
    destruct (IH _ _ _ Hinv1 Hall ltac:(lia)) as (m' & Hrun & Hinv').
    exists m'. split; [done|].
    replace (n + Z.of_nat (S (length calls))) with (n + 1 + Z.of_nat (length calls)) by lia.
    done.
Qed.

Lemma inv_empty : inv 0 ∅ empty.
Proof.
  split; cbn [empty mChannelGroups mChannelMap].
  - intros groupId g H. by rewrite lookup_empty in H.
  - intros key value H. by rewrite lookup_empty in H.
  - intros tgid uid _ _. rewrite lookup_empty. split; [set_solver|]. by intros [? ?].
  - reflexivity.
  - reflexivity.
Qed.

(** [getChannelCount] under the invariant. *)
Lemma inv_getChannelCount n ids m :
  inv n ids m -> n <= INT32_MAX -> getChannelCount m = Z.of_nat (size ids).
Proof.
  intros [HG HM HD HT HB] Hn. rewrite getChannelCount_total, HT.
  apply int32_id. range.
Qed.

(** *** Requests for distinct identities *)

Lemma sixteens n : 16 * ((n + 15) / 16) <= n + 15 < 16 * ((n + 15) / 16) + 16.
Proof.
  pose proof (Z.mod_pos_bound (n + 15) 16 ltac:(lia)).
  pose proof (Z.div_mod (n + 15) 16 ltac:(lia)). lia.
Qed.

Lemma packed_empty : packed 0 empty.
Proof.
  unfold packed. cbn [empty mChannelGroups]. change ((0 + 15) / 16) with 0.
  split; [by rewrite map_size_empty|]. split.
  - intros groupId g H. by rewrite lookup_empty in H.
  - intros groupId H. lia.
Qed.

(** A new channel goes to the last group while that has room, else to a
    new group with the next id. *)
Lemma packed_create n ids m groupId g0 g' channelMap :
  inv n ids m -> packed n m ->
  ((firstGroupWithRoom (mChannelGroups m) = Some groupId /\
    mChannelGroups m !! groupId = Some g0) \/
   (firstGroupWithRoom (mChannelGroups m) = None /\
    mChannelGroups m !! groupId = None /\
    g0 = ChannelGroup.new groupId /\
    groupId = match lastGroupId (mChannelGroups m) with
              | None => 0
              | Some last => last + 1
              end)) ->
  ChannelGroup.mLiveChannels g0 < 16 ->
  ChannelGroup.getChannelCount g' = ChannelGroup.mLiveChannels g0 + 1 ->
  packed (n + 1)
         {| mChannelGroups := <[groupId := g']> (mChannelGroups m);
            mChannelMap := channelMap |}.
Proof.
  intros Hinv (Hsize & Hcount & Hdom) Hchoice Hroom Hg'.
  pose proof (sixteens n) as HK. pose proof (sixteens (n + 1)) as HK'.
  replace (n + 1 + 15) with (n + 16) in HK' by lia.
  unfold packed. cbn [mChannelGroups]. replace (n + 1 + 15) with (n + 16) by lia.
  set (K := (n + 15) / 16) in *. set (K' := (n + 16) / 16) in *.
  assert (Hn : 0 <= n) by (pose proof (inv_bound _ _ _ Hinv); lia).
  destruct Hchoice as [[_ Hg0] | (Hfull & Hfresh & -> & Hnext)].
  - destruct (Hcount _ _ Hg0) as [Hr Hc].
    destruct (inv_groups _ _ _ Hinv _ _ Hg0) as (_ & _ & _ & _ & Hpos).
    unfold ChannelGroup.getChannelCount in *.
    destruct (groupId <? K - 1) eqn:E; [lia|].
    assert (K' = K) as HKK by lia.
    assert (groupId = K - 1) as -> by lia.
    rewrite HKK. split; [|split].
    + rewrite map_size_insert_Some by eauto. done.
    + intros gid g Hg. destruct (Z.eq_dec (K - 1) gid) as [<-|Hne].
      * rewrite lookup_insert_eq in Hg. injection Hg as <-.
        split; [lia|]. rewrite E. lia.
      * rewrite lookup_insert_ne in Hg by done.
        destruct (Hcount _ _ Hg) as [Hr1 Hc1]. split; [done|].
        destruct (gid <? K - 1) eqn:E1; [done|lia].
    + intros gid Hgid. destruct (Z.eq_dec (K - 1) gid) as [<-|Hne].
      * rewrite lookup_insert_eq. eauto.
      * rewrite lookup_insert_ne by done. by apply Hdom.
  - pose proof (firstGroupWithRoom_spec (mChannelGroups m)) as Hall.
    rewrite Hfull in Hall.
    pose proof (lastGroupId_spec (mChannelGroups m)) as Hlast.
    cbn [ChannelGroup.new ChannelGroup.mLiveChannels] in Hg'.
    assert (Hshape : groupId = K /\ n = 16 * K).
    { destruct (Z.eq_dec K 0) as [HK0|HK0].
      - rewrite HK0 in Hsize. apply map_size_empty_inv in Hsize.
        rewrite Hsize in Hnext. split; [rewrite HK0; exact Hnext|lia].
      - assert (Hkpos : 0 <= K - 1 < K) by lia.
        destruct (Hdom _ Hkpos) as [g Hg].
        destruct (Hcount _ _ Hg) as [_ Hc].
        destruct (K - 1 <? K - 1) eqn:E; [lia|].
        pose proof (Hall _ _ Hg) as Hge.
        destruct (inv_groups _ _ _ Hinv _ _ Hg) as (_ & _ & Hlen & Hlive & _).
        pose proof (liveSlots_bounds (ChannelGroup.mChannels g)) as Hlb.
        change (Z.to_nat ChannelGroup.kMaxChannels) with 16%nat in Hlen.
        unfold ChannelGroup.getChannelCount in *.
        split; [|lia].
        destruct (lastGroupId (mChannelGroups m)) as [last|].
        + destruct Hlast as [[gl Hgl] Hmax].
          destruct (Hcount _ _ Hgl) as [Hrl _].
          specialize (Hmax (K - 1) ltac:(eauto)). lia.
        + rewrite Hlast in Hg. by rewrite lookup_empty in Hg. }
    destruct Hshape as [-> Hn16].
    assert (K' = K + 1) as -> by lia.
    split; [|split].
    + rewrite map_size_insert_None by done. lia.
    + intros gid g Hg. destruct (Z.eq_dec K gid) as [<-|Hne].
      * rewrite lookup_insert_eq in Hg. injection Hg as <-.
        split; [lia|]. destruct (K <? K + 1 - 1) eqn:E; lia.
      * rewrite lookup_insert_ne in Hg by done.
        destruct (Hcount _ _ Hg) as [Hr1 Hc1]. split; [lia|].
        destruct (gid <? K + 1 - 1) eqn:E1; [|lia].
        destruct (gid <? K - 1) eqn:E2; lia.
    + intros gid Hgid. destruct (Z.eq_dec K gid) as [<-|Hne].
      * rewrite lookup_insert_eq. eauto.
      * rewrite lookup_insert_ne by done. apply Hdom. lia.
Qed.

(** Requests for identities that are new keep the groups packed. *)
Lemma run_requests queueValid l : forall n ids m,
  inv n ids m -> packed n m ->
  NoDup l -> (forall id, id ∈ l -> (id ∉ ids) /\ in_int32 id.1 /\ in_int32 id.2) ->
  n + Z.of_nat (length l) <= INT32_MAX ->
  exists m', run m (requests queueValid l) = Some m' /\
             inv (n + Z.of_nat (length l)) (list_to_set l ∪ ids) m' /\
             packed (n + Z.of_nat (length l)) m'.
Proof.
  induction l as [|[tgid uid] l IH]; intros n ids m Hinv Hpacked Hnd Hnew Hlen;
    cbn [requests map run length list_to_set].
  - exists m. rewrite Z.add_0_r. assert (∅ ∪ ids = ids) as -> by set_solver. done.
  - apply NoDup_cons in Hnd as [Hnotin Hnd]. cbn [length] in Hlen.
    destruct (Hnew (tgid, uid) ltac:(set_solver)) as (Hfresh & Ht & Hu).
    cbn [fst snd] in Ht, Hu.
    assert (Hv : mChannelMap m !! ChannelMapKey.key tgid uid = None).
    { destruct (mChannelMap m !! ChannelMapKey.key tgid uid) eqn:E; [|done].
      destruct Hfresh. eapply is_registered; eauto. }
    destruct (getOrCreateChannel_new _ _ _ tgid uid (queueValid (tgid, uid)) Hinv
                ltac:(lia) Hv)
      as (groupId & g0 & slot & Hchoice & Hgid & Hid & Hl & Hlive & Hroom
          & Hslot & Hat & Hres).
    cbn zeta in Hres.
    assert (Hstep : step m (GetChannelConfig tgid uid (queueValid (tgid, uid)))
                    = Some {| mChannelGroups :=
                                <[groupId :=
                                    {| ChannelGroup.mLiveChannels :=
                                         ChannelGroup.mLiveChannels g0 + 1;
                                       ChannelGroup.mGroupId := groupId;
                                       ChannelGroup.mChannels :=
                                         <[Z.to_nat slot :=
                                             Some (SessionChannel.new tgid uid
                                                     (ChannelMapValue.value groupId slot)
                                                     slot (queueValid (tgid, uid)))]>
                                           (ChannelGroup.mChannels g0) |}]>
                                  (mChannelGroups m);
                              mChannelMap :=
                                <[ChannelMapKey.key tgid uid :=
                                    ChannelMapValue.value groupId slot]> (mChannelMap m) |}).
    { cbn [step]. unfold getChannelConfig. rewrite Hres. cbn [mbind option_bind].
      destruct (negb _); [reflexivity|].
      cbn [SessionChannel.getId SessionChannel.new SessionChannel.mId mChannelGroups].
      destruct (value_fields groupId slot ltac:(range) ltac:(range)) as [-> _].
      rewrite lookup_insert_eq. reflexivity. }
    cbn [fst snd]. rewrite Hstep. cbn [mbind option_bind].
    match goal with
    | |- context [run ?m1 _] => set (m1' := m1)
    end.
    assert (Hinv1 : inv (n + 1) ({[ (tgid, uid) ]} ∪ ids) m1').
    { apply inv_create; try done; [lia|].
      destruct Hchoice as [[_ Hg] | (_ & Hg & -> & _)]; [by left|by right]. }
    assert (Hpacked1 : packed (n + 1) m1')
      by (eapply packed_create; eauto).
    destruct (IH (n + 1) ({[ (tgid, uid) ]} ∪ ids) m1' Hinv1 Hpacked1 Hnd)
      as (m' & Hrun & Hinv' & Hpacked'); [|lia|].
    { intros id Hin. destruct (Hnew id ltac:(set_solver)) as (? & ? & ?).
      split; [|done]. assert (id <> (tgid, uid)) by (intros ->; done). set_solver. }
    exists m'. split; [done|].
    replace (n + Z.of_nat (S (length l))) with (n + 1 + Z.of_nat (length l)) by lia.
    assert ({[ (tgid, uid) ]} ∪ list_to_set l ∪ ids
            = list_to_set l ∪ ({[ (tgid, uid) ]} ∪ ids)) as -> by set_solver.
    done.
Qed.

(** C2.  Channel and group counts of the ChannelManager.  Identities
    are pairs of [int32_t] values and a run has at most [INT32_MAX]
    calls (group ids are [int]s counted up from the last one).

    - Requests of [getChannelConfig] for pairwise distinct identities,
      made of a fresh manager, all go through, and leave
      [ceil (k / 16)] groups after [k] of them: one group for the first
      16 identities, and more than one from the 17th on; the channel
      count is [k].
    - After every sequence of [getChannelConfig] and [closeChannel]
      calls, hence at every point of one, [getChannelCount] is the
      number of identities registered and not closed since. *)
Theorem channel_manager_counts :
  (forall queueValid ids,
     NoDup ids ->
     (forall id, id ∈ ids -> in_int32 id.1 /\ in_int32 id.2) ->
     Z.of_nat (length ids) <= INT32_MAX ->
     exists m,
       run empty (requests queueValid ids) = Some m /\
       getGroupCount m = (Z.of_nat (length ids) + 15) / 16 /\
       (1 <= Z.of_nat (length ids) <= 16 -> getGroupCount m = 1) /\
       (17 <= Z.of_nat (length ids) -> 1 < getGroupCount m) /\
       getChannelCount m = Z.of_nat (length ids)) /\
  (forall calls,
     Forall call_in_range calls ->
     Z.of_nat (length calls) <= INT32_MAX ->
     exists m,
       run empty calls = Some m /\
       getChannelCount m = Z.of_nat (size (registered calls))).
Proof.
  split.
  - intros queueValid ids Hnd Hrange Hlen.
    destruct (run_requests queueValid ids 0 ∅ empty inv_empty packed_empty Hnd)
      as (m & Hrun & Hinv & Hsize & _); [|lia|].
    { intros id Hin. split; [set_solver|by apply Hrange]. }
    rewrite Z.add_0_l in Hinv, Hsize.
    pose proof (sixteens (Z.of_nat (length ids))) as HK.
    set (K := (Z.of_nat (length ids) + 15) / 16) in *.
    assert (Hgroups : getGroupCount m = K).
    { unfold getGroupCount. rewrite Hsize, Z2Nat.id by lia.
      apply int32_id. range. }
    exists m. rewrite Hgroups.
    split; [done|]. split; [done|]. split; [lia|]. split; [lia|].
    rewrite (inv_getChannelCount _ _ _ Hinv) by lia.
    assert (list_to_set ids ∪ ∅ = (list_to_set ids : gset (Z * Z))) as ->
        by set_solver.
    by rewrite size_list_to_set.
  - intros calls Hrange Hlen.
    destruct (run_inv calls 0 ∅ empty inv_empty Hrange ltac:(lia))
      as (m & Hrun & Hinv).
    rewrite Z.add_0_l in Hinv.
    exists m. split; [done|].
    by rewrite (inv_getChannelCount _ _ _ Hinv) by lia.
Qed.

Lemma spawn_distinct k : NoDup (spawn k).
Proof.
  unfold spawn. apply NoDup_fmap_2; [|apply NoDup_seq].
  intros i j H. injection H as H _. lia.
Qed.

Lemma spawn_in_range k id :
  (k <= 1000)%nat -> id ∈ spawn k -> in_int32 id.1 /\ in_int32 id.2.
Proof.
  intros Hk Hin. apply list_elem_of_fmap in Hin as (i & -> & Hi).
  apply elem_of_seq in Hi. cbn [fst snd]. split; range.
Qed.

Lemma channel_manager_counts_witness :
  match run empty (requests (fun _ => true) (spawn 17)) with
  | Some m => 1 < getGroupCount m /\ getChannelCount m = 17
  | None => False
  end /\
  match run empty (requests (fun _ => true) (spawn 16)) with
  | Some m => getGroupCount m = 1 /\ getChannelCount m = 16
  | None => False
  end /\
  match run empty [GetChannelConfig 3000 4000 true;
                   GetChannelConfig 3001 4001 true;
                   CloseChannel 3001 4001;
                   GetChannelConfig 3000 4000 true] with
  | Some m => getChannelCount m = 1
  | None => False
  end.
Proof.
  destruct channel_manager_counts as [Hdistinct Hany].
  split; [|split].
  - destruct (Hdistinct (fun _ => true) (spawn 17)) as (m & -> & _ & _ & Hgt & Hc).
    + apply spawn_distinct.
    + intros id. apply spawn_in_range. lia.
    + vm_compute. intros H. discriminate H.
    + split; [apply Hgt; vm_compute; intros H; discriminate H | exact Hc].
  - destruct (Hdistinct (fun _ => true) (spawn 16)) as (m & -> & _ & Hone & _ & Hc).
    + apply spawn_distinct.
    + intros id. apply spawn_in_range. lia.
    + vm_compute. intros H. discriminate H.
    + split; [apply Hone; vm_compute; split; intros H; discriminate H | exact Hc].
  - destruct (Hany [GetChannelConfig 3000 4000 true;
                    GetChannelConfig 3001 4001 true;
                    CloseChannel 3001 4001;
                    GetChannelConfig 3000 4000 true]) as (m & -> & Hc).
    + repeat constructor; vm_compute; intros H; discriminate H.
    + vm_compute. intros H. discriminate H.
    + rewrite Hc. vm_compute. reflexivity.
Defined.

End ChannelManagerFacts.

(** ** ChannelGroup and SessionChannel on their own *)

Module ChannelGroupFacts.

Import CxxFacts ChannelManager ChannelManagerFacts.

(** X1.  The two halves of a channel id are the group id and the slot
    it was made of, and two ids made of [int32_t] pairs are equal only
    if the pairs are; the same holds of the keys made of tgid and uid. *)
Theorem channel_id_round_trip (groupId offset : Z) :
  in_int32 groupId -> in_int32 offset ->
  ChannelMapValue.groupId (ChannelMapValue.value groupId offset) = groupId /\
  ChannelMapValue.offset (ChannelMapValue.value groupId offset) = offset /\
  in_int64 (ChannelMapValue.value groupId offset) /\
  (forall groupId' offset',
      in_int32 groupId' -> in_int32 offset' ->
      ChannelMapValue.value groupId offset = ChannelMapValue.value groupId' offset' ->
      groupId = groupId' /\ offset = offset') /\
  (forall tgid' uid',
      in_int32 tgid' -> in_int32 uid' ->
      ChannelMapKey.key groupId offset = ChannelMapKey.key tgid' uid' ->
      groupId = tgid' /\ offset = uid').
Proof.
  intros Hg Ho. destruct (value_fields groupId offset Hg Ho) as [E1 E2].
  split; [exact E1|]. split; [exact E2|]. split.
  - unfold ChannelMapValue.value, ChannelMapKey.pack, int64, sint, in_int64,
      INT64_MIN, INT64_MAX.
    match goal with |- context [?a mod ?b] =>
      pose proof (Z.mod_pos_bound a b ltac:(lia)) end.
    lia.
  - split.
    + intros g' o' Hg' Ho' E.
      assert (H := key_inj groupId offset g' o' Hg Ho Hg' Ho' E).
      by injection H.
    + intros t' u' Ht' Hu' E.
      assert (H := key_inj groupId offset t' u' Hg Ho Ht' Hu' E).
      by injection H.
Qed.

Lemma channel_id_round_trip_witness :
  ChannelMapValue.groupId (ChannelMapValue.value 2 15) = 2 /\
  ChannelMapValue.offset (ChannelMapValue.value (-1) 7) = 7.
Proof.
  split.
  - apply (channel_id_round_trip 2 15); vm_compute; split; intros H; discriminate H.
  - apply (channel_id_round_trip (-1) 7); vm_compute; split; intros H; discriminate H.
Defined.

Lemma slot_cases (slot : Z) :
  0 <= slot < 16 -> In slot (map Z.of_nat (seq 0 16)).
Proof.
  intros H. apply in_map_iff. exists (Z.to_nat slot). split; [lia|].
  apply in_seq. lia.
Qed.

Lemma mask_bit k : 0 <= k < 32 -> uint32 (Z.shiftl 1 k) = 2 ^ k.
Proof.
  intros Hk. rewrite Z.shiftl_1_l. unfold uint32, uint.
  apply Z.mod_small. split; [apply Z.pow_nonneg; lia|].
  apply Z.pow_lt_mono_r; lia.
Qed.

Lemma pow2_land_disjoint a b : 0 <= a -> 0 <= b -> a <> b -> Z.land (2 ^ a) (2 ^ b) = 0.
Proof.
  intros Ha Hb Hne. apply Z.bits_inj'. intros n Hn.
  rewrite Z.land_spec, !Z.pow2_bits_eqb, Z.bits_0 by lia.
  destruct (Z.eqb_spec a n), (Z.eqb_spec b n); try reflexivity. lia.
Qed.

(** X2.  The channel in slot [i] of a group writes on bit [i] of the
    flag word and reads on bit [i + 16]: one bit each, the write bit
    among [kWriteBits] and the read bit among [kReadBits], and the bits
    of two different slots are different. *)
Theorem channel_masks_disjoint (tgid uid id tgid' uid' id' : Z) (valid valid' : bool)
    (slot slot' : Z) :
  0 <= slot < 16 -> 0 <= slot' < 16 ->
  let c := SessionChannel.new tgid uid id slot valid in
  let c' := SessionChannel.new tgid' uid' id' slot' valid' in
  SessionChannel.getWriteBitmask c = 2 ^ slot /\
  SessionChannel.getReadBitmask c = 2 ^ (slot + 16) /\
  Z.land (SessionChannel.getWriteBitmask c) AdpfTypes.kWriteBits
  = SessionChannel.getWriteBitmask c /\
  Z.land (SessionChannel.getReadBitmask c) AdpfTypes.kReadBits
  = SessionChannel.getReadBitmask c /\
  Z.land (SessionChannel.getWriteBitmask c) AdpfTypes.kReadBits = 0 /\
  Z.land (SessionChannel.getReadBitmask c) AdpfTypes.kWriteBits = 0 /\
  (slot <> slot' ->
   Z.land (SessionChannel.getWriteBitmask c) (SessionChannel.getWriteBitmask c') = 0 /\
   Z.land (SessionChannel.getReadBitmask c) (SessionChannel.getReadBitmask c') = 0).
Proof.
  intros Hs Hs'. cbn zeta.
  unfold SessionChannel.getWriteBitmask, SessionChannel.getReadBitmask,
    SessionChannel.new, SessionChannel.mWriteMask, SessionChannel.mReadMask.
  rewrite !mask_bit by lia.
  split; [reflexivity|]. split; [reflexivity|].
  assert (Hland : Z.land (2 ^ slot) AdpfTypes.kWriteBits = 2 ^ slot /\
                  Z.land (2 ^ (slot + 16)) AdpfTypes.kReadBits = 2 ^ (slot + 16) /\
                  Z.land (2 ^ slot) AdpfTypes.kReadBits = 0 /\
                  Z.land (2 ^ (slot + 16)) AdpfTypes.kWriteBits = 0).
  { apply slot_cases in Hs. cbn in Hs.
    repeat (destruct Hs as [<-|Hs]; [vm_compute; auto|]). destruct Hs. }
  destruct Hland as (H1 & H2 & H3 & H4).
  split; [exact H1|]. split; [exact H2|]. split; [exact H3|]. split; [exact H4|].
  intros Hne. split; apply pow2_land_disjoint; lia.
Qed.

Lemma channel_masks_disjoint_witness :
  SessionChannel.getWriteBitmask (SessionChannel.new 123 234 0 15 true) = 32768 /\
  SessionChannel.getReadBitmask (SessionChannel.new 123 234 0 15 true) = 2147483648.
Proof.
  destruct (channel_masks_disjoint 123 234 0 1 2 3 true true 15 0) as (Hw & Hr & _).
  - lia.
  - lia.
  - split; [exact Hw | exact Hr].
Defined.

Lemma liveSlots_no_gap l (i : nat) :
  liveSlots l = Z.of_nat (length l) -> l !! i = Some None -> False.
Proof.
  revert i. induction l as [|d l IH]; intros i Hfull Hi; [done|].
  pose proof (liveSlots_bounds l) as Hb.
  destruct d as [c|]; cbn [liveSlots length] in Hfull; [|lia].
  destruct i as [|i]; cbn in Hi; [discriminate Hi|].
  apply (IH i); [lia|exact Hi].
Qed.

Lemma kept_new id : in_int32 id -> ChannelGroup_kept (ChannelGroup.new id).
Proof. intros Hid. repeat split; try apply Hid. Qed.

(** X3.  [createChannel] on a kept group with room puts the channel
    into the lowest free slot and leaves the other slots alone: the id
    of the channel names the group and that slot, [getChannel] of the
    slot returns the channel, and the count goes up by one.  On a full
    group it is fatal. *)
Theorem createChannel_getChannel (g : ChannelGroup.t) (tgid uid : Z) (queueValid : bool) :
  ChannelGroup_kept g ->
  (ChannelGroup.getChannelCount g < 16 ->
   exists channel g',
     ChannelGroup.createChannel g tgid uid queueValid = Some (channel, g') /\
     let slot := ChannelMapValue.offset (SessionChannel.getId channel) in
     0 <= slot < 16 /\
     ChannelMapValue.groupId (SessionChannel.getId channel) = ChannelGroup.mGroupId g /\
     SessionChannel.getTgid channel = tgid /\
     SessionChannel.getUid channel = uid /\
     SessionChannel.isValid channel = queueValid /\
     at_ (ChannelGroup.mChannels g) slot = Some None /\
     (forall j, 0 <= j < slot -> exists c, at_ (ChannelGroup.mChannels g) j = Some (Some c)) /\
     ChannelGroup.getChannel g' slot = Some channel /\
     (forall j, j <> slot ->
                at_ (ChannelGroup.mChannels g') j = at_ (ChannelGroup.mChannels g) j) /\
     ChannelGroup.getChannelCount g' = ChannelGroup.getChannelCount g + 1 /\
     ChannelGroup_kept g') /\
  (16 <= ChannelGroup.getChannelCount g ->
   ChannelGroup.createChannel g tgid uid queueValid = None).
Proof.
  intros (Hl & Hlive & Hid).
  change (Z.to_nat ChannelGroup.kMaxChannels) with 16%nat in Hl.
  unfold ChannelGroup.getChannelCount.
  destruct (firstFreeSlot_spec (ChannelGroup.mChannels g) 16 0 Hl ltac:(lia) ltac:(lia))
    as (slot & Hs & Hr & Hall & Hnone).
  pose proof (liveSlots_bounds (ChannelGroup.mChannels g)) as Hb.
  split.
  - intros Hroom.
    assert (Hlt : slot < 16).
    { destruct (Z.eq_dec slot 16) as [->|Hne]; [|lia]. exfalso.
      rewrite (liveSlots_full (ChannelGroup.mChannels g)) in Hlive; [lia|].
      intros i Hi. destruct (Hall (Z.of_nat i) ltac:(lia)) as [c Hc].
      exists c. rewrite at_nat in Hc by lia. by rewrite Nat2Z.id in Hc. }
    specialize (Hnone Hlt).
    unfold ChannelGroup.createChannel.
    change (Z.to_nat ChannelGroup.kMaxChannels) with 16%nat. rewrite Hs.
    cbn [mbind option_bind]. unfold ChannelGroup.kMaxChannels.
    destruct (slot =? 16) eqn:E; [lia|].
    rewrite store_Some by lia. cbn [mbind option_bind].
    eexists _, _. split; [reflexivity|].
    cbn [SessionChannel.getId SessionChannel.new SessionChannel.mId
         SessionChannel.getTgid SessionChannel.mTgid SessionChannel.getUid
         SessionChannel.mUid SessionChannel.isValid SessionChannel.mChannelQueueValid
         ChannelGroup.mChannels ChannelGroup.mLiveChannels ChannelGroup.mGroupId].
    rewrite (int32_id (ChannelGroup.mGroupId g)) by exact Hid.
    destruct (value_fields (ChannelGroup.mGroupId g) slot Hid ltac:(range)) as [-> ->].
    cbn zeta.
    assert (Hnat : (Z.to_nat slot < length (ChannelGroup.mChannels g))%nat) by lia.
    split; [lia|]. split; [reflexivity|]. split; [reflexivity|].
    split; [reflexivity|]. split; [reflexivity|]. split; [exact Hnone|].
    split; [intros j Hj; apply Hall; lia|].
    split.
    { unfold ChannelGroup.getChannel. cbn [ChannelGroup.mChannels].
      rewrite at_nat by lia. rewrite list_lookup_insert_eq by lia. reflexivity. }
    split.
    { intros j Hj. unfold at_. destruct (j <? 0) eqn:Ej; [reflexivity|].
      rewrite list_lookup_insert_ne by lia. reflexivity. }
    split.
    { apply int32_id. range. }
    unfold ChannelGroup_kept.
    cbn [ChannelGroup.mChannels ChannelGroup.mLiveChannels ChannelGroup.mGroupId].
    split; [by rewrite length_insert|]. split; [|exact Hid].
    rewrite int32_id by range. rewrite Hlive.
    symmetry. apply liveSlots_fill. rewrite at_nat in Hnone by lia. exact Hnone.
  - intros Hfull.
    assert (slot = 16) as ->.
    { destruct (Z.eq_dec slot 16) as [->|Hne]; [reflexivity|]. exfalso.
      specialize (Hnone ltac:(lia)). rewrite at_nat in Hnone by lia.
      eapply liveSlots_no_gap; [|exact Hnone]. lia. }
    unfold ChannelGroup.createChannel.
    change (Z.to_nat ChannelGroup.kMaxChannels) with 16%nat. rewrite Hs. reflexivity.
Qed.

Lemma createChannel_getChannel_witness :
  match ChannelGroup.createChannel (ChannelGroup.new 1) 234 123 true with
  | Some (channel, g') =>
      ChannelGroup.getChannel g' 0 = Some channel /\ ChannelGroup.getChannelCount g' = 1
  | None => False
  end.
Proof.
  destruct (createChannel_getChannel (ChannelGroup.new 1) 234 123 true) as [H _].
  - apply kept_new. range.
  - destruct H as (channel & g' & E & H); [vm_compute; reflexivity|].
    rewrite E. cbn zeta in H.
    destruct H as (_ & _ & _ & _ & _ & _ & _ & Hget & _ & Hcount & _).
    vm_compute in E. injection E as <- <-.
    split; [exact Hget | exact Hcount].
Defined.

(** X4.  [removeChannel] undoes [createChannel]: removing the channel
    just created gives back the group as it was.  Removing from an empty
    slot answers [false] and changes nothing; removing from an occupied
    slot empties it, takes one off the count, and a later [getChannel]
    of that slot is fatal. *)
Theorem removeChannel_undoes_createChannel (g : ChannelGroup.t) :
  ChannelGroup_kept g ->
  (forall tgid uid queueValid channel g',
      ChannelGroup.createChannel g tgid uid queueValid = Some (channel, g') ->
      ChannelGroup.removeChannel g' (ChannelMapValue.offset (SessionChannel.getId channel))
      = Some (true, g)) /\
  (forall slot,
      at_ (ChannelGroup.mChannels g) slot = Some None ->
      ChannelGroup.removeChannel g slot = Some (false, g)) /\
  (forall slot channel,
      at_ (ChannelGroup.mChannels g) slot = Some (Some channel) ->
      exists g',
        ChannelGroup.removeChannel g slot = Some (true, g') /\
        ChannelGroup.getChannelCount g' = ChannelGroup.getChannelCount g - 1 /\
        ChannelGroup.getChannel g' slot = None /\
        ChannelGroup.removeChannel g' slot = Some (false, g') /\
        ChannelGroup_kept g').
Proof.
  intros Hkept. pose proof Hkept as (Hl & Hlive & Hid).
  change (Z.to_nat ChannelGroup.kMaxChannels) with 16%nat in Hl.
  pose proof (liveSlots_bounds (ChannelGroup.mChannels g)) as Hb.
  split; [|split].
  - intros tgid uid queueValid channel g' Hc.
    destruct (createChannel_spec g tgid uid queueValid Hl) as (slot & Hr & Hnone & E).
    { destruct (Z_lt_le_dec (liveSlots (ChannelGroup.mChannels g)) 16) as [H|H]; [exact H|].
      exfalso. unfold ChannelGroup.createChannel in Hc.
      destruct (firstFreeSlot_spec (ChannelGroup.mChannels g) 16 0 Hl ltac:(lia) ltac:(lia))
        as (slot & Hs & Hsr & _ & Hsn).
      change (Z.to_nat ChannelGroup.kMaxChannels) with 16%nat in Hc. rewrite Hs in Hc.
      cbn [mbind option_bind] in Hc. unfold ChannelGroup.kMaxChannels in Hc.
      destruct (slot =? 16) eqn:E; [discriminate Hc|].
      specialize (Hsn ltac:(lia)). rewrite at_nat in Hsn by lia.
      eapply liveSlots_no_gap; [|exact Hsn]. lia. }
    cbn zeta in E. rewrite E in Hc. injection Hc as <- <-.
    cbn [SessionChannel.getId SessionChannel.new SessionChannel.mId].
    rewrite (int32_id (ChannelGroup.mGroupId g)) by exact Hid.
    destruct (value_fields (ChannelGroup.mGroupId g) slot Hid ltac:(range)) as [_ ->].
    rewrite at_nat in Hnone by lia.
    erewrite removeChannel_spec.
    2:{ cbn [ChannelGroup.mChannels]. rewrite at_nat by lia.
        rewrite list_lookup_insert_eq by lia. reflexivity. }
    cbn [ChannelGroup.mChannels ChannelGroup.mLiveChannels ChannelGroup.mGroupId].
    rewrite list_insert_insert_eq, (list_insert_id _ _ _ Hnone).
    rewrite (int32_id (ChannelGroup.mLiveChannels g + 1)) by range.
    replace (ChannelGroup.mLiveChannels g + 1 - 1) with (ChannelGroup.mLiveChannels g) by lia.
    rewrite int32_id by range. by destruct g.
  - intros slot Hnone. unfold ChannelGroup.removeChannel. rewrite Hnone. reflexivity.
  - intros slot channel Hsome.
    pose proof (at_Some_range _ _ _ Hsome) as [Hr _].
    rewrite (removeChannel_spec _ _ _ Hsome). eexists. split; [reflexivity|].
    unfold ChannelGroup.getChannelCount, ChannelGroup.getChannel, ChannelGroup.removeChannel.
    cbn [ChannelGroup.mChannels ChannelGroup.mLiveChannels ChannelGroup.mGroupId].
    assert (Hins : at_ (<[Z.to_nat slot := None]> (ChannelGroup.mChannels g)) slot
                   = Some None).
    { rewrite at_nat by lia. rewrite list_lookup_insert_eq by lia. reflexivity. }
    rewrite at_nat in Hsome by lia.
    pose proof (liveSlots_occupied _ _ _ Hsome) as Hocc.
    rewrite Hins. cbn [mbind option_bind].
    split; [apply int32_id; range|]. split; [reflexivity|]. split; [reflexivity|].
    unfold ChannelGroup_kept.
    cbn [ChannelGroup.mChannels ChannelGroup.mLiveChannels ChannelGroup.mGroupId].
    split; [by rewrite length_insert|]. split; [|exact Hid].
    rewrite int32_id by range. rewrite Hlive. symmetry.
    eapply liveSlots_clear. exact Hsome.
Qed.

Lemma removeChannel_undoes_createChannel_witness :
  match ChannelGroup.createChannel (ChannelGroup.new 1) 234 123 true with
  | Some (channel, g') =>
      ChannelGroup.removeChannel g' (ChannelMapValue.offset (SessionChannel.getId channel))
      = Some (true, ChannelGroup.new 1)
  | None => False
  end.
Proof.
  destruct (ChannelGroup.createChannel (ChannelGroup.new 1) 234 123 true)
    as [[channel g']|] eqn:E; [|vm_compute in E; discriminate E].
  destruct (removeChannel_undoes_createChannel (ChannelGroup.new 1)) as [H _].
  - apply kept_new. range.
  - apply (H 234 123 true channel g' E).
Defined.

End ChannelGroupFacts.

(** ** ChannelManager: requests, closes and lookups *)

Module ChannelManagerCalls.

Import CxxFacts ChannelManager ChannelManagerFacts.

(** The manager after a sequence of calls, with its invariant. *)
Lemma run_reaches calls :
  Forall call_in_range calls -> Z.of_nat (length calls) <= INT32_MAX ->
  exists m, run empty calls = Some m /\
            inv (Z.of_nat (length calls)) (registered calls) m.
Proof.
  intros Hr Hl.
  destruct (run_inv calls 0 ∅ empty inv_empty Hr ltac:(lia)) as (m & Hrun & Hinv).
  rewrite Z.add_0_l in Hinv. by exists m.
Qed.

(** A request finds the channel of its identity again. *)
Lemma getOrCreateChannel_again n ids m tgid uid queueValid channel m1 :
  inv n ids m -> n <= INT32_MAX -> in_int32 tgid -> in_int32 uid ->
  getOrCreateChannel m tgid uid queueValid = Some (channel, m1) ->
  is_Some (mChannelGroups m1 !! ChannelMapValue.groupId (SessionChannel.getId channel)) /\
  forall queueValid', getOrCreateChannel m1 tgid uid queueValid' = Some (channel, m1).
Proof.
  intros Hinv Hn Ht Hu Hget.
  destruct (mChannelMap m !! ChannelMapKey.key tgid uid) as [value|] eqn:Hlook.
  - destruct (getOrCreateChannel_existing _ _ _ tgid uid queueValid value Hinv Hlook)
      as (channel' & Hget' & Hgroup).
    rewrite Hget in Hget'. injection Hget' as <- <-.
    split; [exact Hgroup|]. intros queueValid'.
    unfold getOrCreateChannel in *. cbn zeta in *. rewrite Hlook in *. exact Hget.
  - destruct (getOrCreateChannel_new _ _ _ tgid uid queueValid Hinv Hn Hlook)
      as (groupId & g0 & slot & _ & Hgid & _ & Hl & _ & _ & Hslot & _ & Hres).
    cbn zeta in Hres. rewrite Hres in Hget. injection Hget as <- <-.
    destruct (value_fields groupId slot ltac:(range) ltac:(range)) as [Eg Eo].
    cbn [SessionChannel.getId SessionChannel.new SessionChannel.mId mChannelGroups].
    rewrite Eg. split; [rewrite lookup_insert_eq; eauto|].
    intros queueValid'. unfold getOrCreateChannel. cbn zeta.
    cbn [mChannelMap mChannelGroups]. rewrite lookup_insert_eq, Eg, Eo.
    rewrite lookup_insert_eq. cbn [mbind option_bind].
    unfold ChannelGroup.getChannel. cbn [ChannelGroup.mChannels].
    rewrite at_nat by lia. rewrite list_lookup_insert_eq by lia. reflexivity.
Qed.

(** X5.  After any sequence of calls, asking twice for the channel of
    an identity gives the same answer twice and the second request
    changes nothing, whatever the queue library would then answer; for
    a new identity the answer is a configuration exactly when its queue
    was built valid, so an identity whose queue failed stays registered
    and keeps failing. *)
Theorem getChannelConfig_repeat (calls : list call) (tgid uid : Z)
    (queueValid queueValid' : bool) :
  Forall call_in_range calls -> in_int32 tgid -> in_int32 uid ->
  Z.of_nat (length calls) < INT32_MAX ->
  exists m config m1,
    run empty calls = Some m /\
    getChannelConfig m tgid uid queueValid = Some (config, m1) /\
    getChannelConfig m1 tgid uid queueValid' = Some (config, m1) /\
    ((tgid, uid) ∉ registered calls -> (is_Some config <-> queueValid = true)).
Proof.
  intros Hr Ht Hu Hl.
  destruct (run_reaches calls Hr ltac:(lia)) as (m & Hrun & Hinv).
  destruct (step_inv _ _ m (GetChannelConfig tgid uid queueValid) Hinv ltac:(lia)
              ltac:(by split)) as (m1 & Hstep & _).
  cbn [step] in Hstep.
  destruct (getChannelConfig m tgid uid queueValid) as [[config m1']|] eqn:Hcfg;
    [|discriminate Hstep].
  cbn in Hstep. injection Hstep as ->.
  exists m, config, m1. split; [exact Hrun|]. split; [exact Hcfg|].
  unfold getChannelConfig in Hcfg.
  destruct (getOrCreateChannel m tgid uid queueValid) as [[channel m1']|] eqn:Hget;
    [|discriminate Hcfg].
  cbn [mbind option_bind] in Hcfg.
  destruct (getOrCreateChannel_again _ _ _ _ _ _ _ _ Hinv ltac:(lia) Ht Hu Hget)
    as [[g Hg] Hagain].
  assert (m1' = m1 /\
          config = if negb (SessionChannel.isValid channel) then None
                   else Some {| readFlagBitmask :=
                                  int32 (SessionChannel.getReadBitmask channel);
                                writeFlagBitmask :=
                                  int32 (SessionChannel.getWriteBitmask channel) |})
    as [-> Hconfig].
  { destruct (negb (SessionChannel.isValid channel)).
    - by injection Hcfg as <- <-.
    - rewrite Hg in Hcfg. cbn [mbind option_bind] in Hcfg. by injection Hcfg as <- <-. }
  split.
  - unfold getChannelConfig. rewrite Hagain. cbn [mbind option_bind].
    rewrite Hconfig. destruct (negb (SessionChannel.isValid channel)); [reflexivity|].
    rewrite Hg. reflexivity.
  - intros Hnew.
    assert (Hlook : mChannelMap m !! ChannelMapKey.key tgid uid = None).
    { destruct (mChannelMap m !! ChannelMapKey.key tgid uid) eqn:E; [|reflexivity].
      destruct Hnew. eapply is_registered; eauto. }
    destruct (getOrCreateChannel_new _ _ _ tgid uid queueValid Hinv ltac:(lia) Hlook)
      as (groupId & g0 & slot & _ & _ & _ & _ & _ & _ & _ & _ & Hres).
    cbn zeta in Hres. rewrite Hres in Hget. injection Hget as <- _.
    rewrite Hconfig. cbn [SessionChannel.isValid SessionChannel.new
                          SessionChannel.mChannelQueueValid].
    destruct queueValid; cbn [negb]; split; intros H; try done; try eauto.
Qed.

Lemma getChannelConfig_repeat_witness :
  match getChannelConfig empty 3000 4000 false with
  | Some (config, m1) =>
      config = None /\ getChannelConfig m1 3000 4000 true = Some (None, m1)
  | None => False
  end.
Proof.
  destruct (getChannelConfig_repeat [] 3000 4000 false true)
    as (m & config & m1 & Hrun & Hfirst & Hsecond & Hvalid).
  - constructor.
  - range.
  - range.
  - vm_compute. reflexivity.
  - injection Hrun as <-. rewrite Hfirst.
    assert (config = None) as ->.
    { destruct config as [c|]; [|reflexivity].
      assert (false = true); [|discriminate]. apply Hvalid; [|eauto].
      vm_compute. intros H. destruct (elem_of_empty (C := gset (Z * Z)) (3000, 4000)) as [H0 _].
      apply H0. exact H. }
    split; [reflexivity | exact Hsecond].
Defined.

(** X6.  After any sequence of calls [closeChannel] answers [true]
    exactly for an identity that is registered; it answers [false] for
    any other and then changes nothing.  Either way the identity is
    not registered afterwards: the channel count is that of the other
    identities, and closing once more answers [false]. *)
Theorem closeChannel_registered (calls : list call) (tgid uid : Z) :
  Forall call_in_range calls -> in_int32 tgid -> in_int32 uid ->
  Z.of_nat (length calls) < INT32_MAX ->
  exists m closed m',
    run empty calls = Some m /\
    closeChannel m tgid uid = Some (closed, m') /\
    (closed = true <-> (tgid, uid) ∈ registered calls) /\
    (closed = false -> m' = m) /\
    getChannelCount m' = Z.of_nat (size (registered calls ∖ {[ (tgid, uid) ]})) /\
    closeChannel m' tgid uid = Some (false, m').
Proof.
  intros Hr Ht Hu Hl.
  destruct (run_reaches calls Hr ltac:(lia)) as (m & Hrun & Hinv).
  destruct (mChannelMap m !! ChannelMapKey.key tgid uid) as [value|] eqn:Hlook.
  - destruct (closeChannel_existing _ _ _ tgid uid value Hinv Ht Hu Hlook)
      as (m' & Hclose & Hinv').
    exists m, true, m'. split; [exact Hrun|]. split; [exact Hclose|].
    split; [split; [intros _; eapply is_registered; eauto | done]|].
    split; [done|].
    split; [apply (inv_getChannelCount _ _ _ Hinv'); lia|].
    apply closeChannel_missing.
    destruct (mChannelMap m' !! ChannelMapKey.key tgid uid) eqn:E; [|reflexivity].
    exfalso. assert ((tgid, uid) ∈ registered calls ∖ {[ (tgid, uid) ]})
      by (eapply is_registered; eauto).
    set_solver.
  - exists m, false, m. rewrite (closeChannel_missing _ _ _ Hlook).
    pose proof (not_registered _ _ _ tgid uid Hinv Ht Hu Hlook) as Hnot.
    split; [exact Hrun|]. split; [reflexivity|].
    split; [split; [done | intros H; by destruct Hnot]|].
    split; [done|]. split; [|reflexivity].
    assert (registered calls ∖ {[ (tgid, uid) ]} = registered calls) as -> by set_solver.
    apply (inv_getChannelCount _ _ _ Hinv). lia.
Qed.

Lemma closeChannel_registered_witness :
  match run empty [GetChannelConfig 3000 4000 true] with
  | Some m =>
      match closeChannel m 3000 4000 with
      | Some (closed, m') => closed = true /\ getChannelCount m' = 0
      | None => False
      end
  | None => False
  end.
Proof.
  destruct (closeChannel_registered [GetChannelConfig 3000 4000 true] 3000 4000)
    as (m & closed & m' & -> & -> & Hclosed & _ & Hcount & _).
  - repeat constructor; range.
  - range.
  - range.
  - vm_compute. reflexivity.
  - split; [apply Hclosed; vm_compute; set_solver|].
    rewrite Hcount. vm_compute. reflexivity.
Defined.

Lemma totalLive_bounds (groups : gmap Z ChannelGroup.t) :
  (forall id g, groups !! id = Some g -> 1 <= ChannelGroup.getChannelCount g <= 16) ->
  Z.of_nat (size groups) <= totalLive groups <= 16 * Z.of_nat (size groups).
Proof.
  induction groups as [|id g groups Hfresh IH] using map_ind; intros Hall.
  - rewrite map_size_empty. unfold totalLive. rewrite map_fold_empty. lia.
  - rewrite totalLive_insert_fresh by done. rewrite map_size_insert_None by done.
    pose proof (Hall id g ltac:(by rewrite lookup_insert_eq)) as Hg.
    assert (Hrest : forall id' g', groups !! id' = Some g' ->
                                   1 <= ChannelGroup.getChannelCount g' <= 16).
    { intros id' g' H'. apply (Hall id'). rewrite lookup_insert_ne; [done|].
      intros ->. congruence. }
    specialize (IH Hrest). lia.
Qed.

(** X7.  After any sequence of calls every group holds between one and
    sixteen channels, so there are no more groups than channels and no
    more channels than sixteen per group; once every identity has been
    closed no group is left. *)
Theorem group_count_bounds (calls : list call) :
  Forall call_in_range calls -> Z.of_nat (length calls) <= INT32_MAX ->
  exists m,
    run empty calls = Some m /\
    (forall groupId g, mChannelGroups m !! groupId = Some g ->
                       1 <= ChannelGroup.getChannelCount g <= 16) /\
    getGroupCount m <= getChannelCount m <= 16 * getGroupCount m /\
    (registered calls = ∅ -> getGroupCount m = 0 /\ getChannelCount m = 0).
Proof.
  intros Hr Hl.
  destruct (run_reaches calls Hr Hl) as (m & Hrun & Hinv).
  exists m. split; [exact Hrun|].
  assert (Hall : forall groupId g, mChannelGroups m !! groupId = Some g ->
                                   1 <= ChannelGroup.getChannelCount g <= 16).
  { intros groupId g Hg.
    destruct (inv_groups _ _ _ Hinv _ _ Hg) as (_ & _ & Hlen & Hlive & Hpos).
    pose proof (liveSlots_bounds (ChannelGroup.mChannels g)) as Hb.
    change (Z.to_nat ChannelGroup.kMaxChannels) with 16%nat in Hlen.
    unfold ChannelGroup.getChannelCount. lia. }
  split; [exact Hall|].
  pose proof (totalLive_bounds _ Hall) as Hb.
  pose proof (inv_total _ _ _ Hinv) as Htotal.
  pose proof (inv_bound _ _ _ Hinv) as Hbound.
  rewrite (inv_getChannelCount _ _ _ Hinv Hl).
  assert (Hg : getGroupCount m = Z.of_nat (size (mChannelGroups m))).
  { unfold getGroupCount. apply int32_id. range. }
  rewrite Hg. split; [lia|].
  intros Hempty. rewrite Hempty in *. rewrite size_empty in *. lia.
Qed.

Lemma group_count_bounds_witness :
  match run empty (requests (fun _ => true) (spawn 40)
                   ++ map (fun id => CloseChannel id.1 id.2) (spawn 40)) with
  | Some m => getGroupCount m = 0 /\ getChannelCount m = 0
  | None => False
  end.
Proof.
  destruct (group_count_bounds
              (requests (fun _ => true) (spawn 40)
               ++ map (fun id => CloseChannel id.1 id.2) (spawn 40)))
    as (m & -> & _ & _ & Hzero).
  - apply Forall_forall. intros c Hc. vm_compute in Hc.
    repeat (apply elem_of_cons in Hc as [->|Hc]; [split; range|]).
    by apply elem_of_nil in Hc.
  - vm_compute. intros H. discriminate H.
  - apply Hzero. vm_compute. reflexivity.
Defined.

(** [closeChannel] only takes channels away. *)
Lemma closeChannel_stored m tgid uid closed m' groupId g' slot channel :
  closeChannel m tgid uid = Some (closed, m') ->
  mChannelGroups m' !! groupId = Some g' ->
  at_ (ChannelGroup.mChannels g') slot = Some (Some channel) ->
  exists g, mChannelGroups m !! groupId = Some g /\
            at_ (ChannelGroup.mChannels g) slot = Some (Some channel).
Proof.
  unfold closeChannel. cbn zeta. intros Hclose Hg' Hat.
  destruct (mChannelMap m !! ChannelMapKey.key tgid uid) as [value|];
    [|injection Hclose as <- <-; eauto].
  destruct (mChannelGroups m !! ChannelMapValue.groupId value) as [g|] eqn:Hg;
    [|injection Hclose as <- <-; eauto].
  unfold ChannelGroup.removeChannel in Hclose.
  destruct (at_ (ChannelGroup.mChannels g) (ChannelMapValue.offset value))
    as [[c|]|] eqn:Hslot; cbn [mbind option_bind] in Hclose;
    [| injection Hclose as <- <-; eauto | discriminate Hclose].
  pose proof (at_Some_range _ _ _ Hslot) as [Hr _].
  rewrite store_Some in Hclose by lia. cbn [mbind option_bind negb] in Hclose.
  injection Hclose as <- <-. cbn [mChannelGroups] in Hg'.
  destruct (Z.eq_dec (ChannelMapValue.groupId value) groupId) as [<-|Hne].
  - destruct (_ =? 0).
    + by rewrite lookup_delete_eq in Hg'.
    + rewrite lookup_insert_eq in Hg'. injection Hg' as <-.
      cbn [ChannelGroup.mChannels] in Hat. exists g. split; [done|].
      pose proof (at_Some_range _ _ _ Hat) as [Hr' Hat'].
      rewrite length_insert in Hr'.
      destruct (Z.eq_dec slot (ChannelMapValue.offset value)) as [->|Hs].
      * rewrite list_lookup_insert_eq in Hat' by lia. discriminate Hat'.
      * rewrite list_lookup_insert_ne in Hat' by lia. by rewrite at_nat by lia.
  - destruct (_ =? 0).
    + rewrite lookup_delete_ne in Hg' by done. eauto.
    + rewrite lookup_insert_ne in Hg' by done. eauto.
Qed.

Lemma step_channels_kept n ids m c m' :
  inv n ids m -> n <= INT32_MAX -> call_in_range c ->
  channels_kept m -> step m c = Some m' -> channels_kept m'.
Proof.
  intros Hinv Hn Hc Hkept Hstep. destruct c as [tgid uid queueValid | tgid uid].
  - destruct Hc as [Ht Hu]. cbn [step] in Hstep.
    assert (exists channel, getOrCreateChannel m tgid uid queueValid = Some (channel, m'))
      as [channel Hget].
    { unfold getChannelConfig in Hstep.
      destruct (getOrCreateChannel m tgid uid queueValid) as [[channel m1]|];
        [|discriminate Hstep].
      cbn [mbind option_bind] in Hstep. exists channel.
      destruct (negb _); [by injection Hstep as <-|].
      destruct (mChannelGroups m1 !! _); [|discriminate Hstep].
      by injection Hstep as <-. }
    destruct (mChannelMap m !! ChannelMapKey.key tgid uid) as [value|] eqn:Hlook.
    + destruct (getOrCreateChannel_existing _ _ _ tgid uid queueValid value Hinv Hlook)
        as (channel' & Hget' & _).
      rewrite Hget in Hget'. by injection Hget' as _ <-.
    + destruct (getOrCreateChannel_new _ _ _ tgid uid queueValid Hinv Hn Hlook)
        as (groupId & g0 & slot & Hchoice & Hgid & _ & Hl & _ & _ & Hslot & Hfree & Hres).
      cbn zeta in Hres. rewrite Hres in Hget. injection Hget as _ <-.
      intros groupId' g' slot' channel' Hg' Hat. cbn [mChannelGroups] in Hg'.
      destruct (Z.eq_dec groupId groupId') as [<-|Hne].
      * rewrite lookup_insert_eq in Hg'. injection Hg' as <-.
        cbn [ChannelGroup.mChannels] in Hat.
        pose proof (at_Some_range _ _ _ Hat) as [Hr' Hat'].
        rewrite length_insert in Hr'.
        destruct (Z.eq_dec slot' slot) as [->|Hs].
        -- rewrite list_lookup_insert_eq in Hat' by lia. injection Hat' as <-.
           cbn [SessionChannel.new SessionChannel.mTgid SessionChannel.mUid
                SessionChannel.mId SessionChannel.mWriteMask SessionChannel.mReadMask].
           unfold uint32, uint. rewrite !Z.shiftl_1_l.
           split; [exact Ht|]. split; [exact Hu|]. split; [reflexivity|].
           split; apply Z.mod_small; (split; [apply Z.pow_nonneg; lia|]);
             apply Z.pow_lt_mono_r; lia.
        -- rewrite list_lookup_insert_ne in Hat' by lia.
           destruct Hchoice as [[_ Hg0] | (_ & _ & -> & _)].
           ++ apply (Hkept groupId g0); [exact Hg0|]. by rewrite at_nat by lia.
           ++ cbn [ChannelGroup.new ChannelGroup.mChannels] in Hat'.
              apply lookup_replicate in Hat' as [Hat' _]. discriminate Hat'.
      * rewrite lookup_insert_ne in Hg' by done. by apply (Hkept groupId' g').
  - cbn [step] in Hstep.
    destruct (closeChannel m tgid uid) as [[closed m1]|] eqn:Hclose; [|discriminate Hstep].
    cbn in Hstep. injection Hstep as <-.
    intros groupId g' slot channel Hg' Hat.
    destruct (closeChannel_stored _ _ _ _ _ _ _ _ _ Hclose Hg' Hat) as (g & Hg & Hat0).
    by apply (Hkept groupId g).
Qed.

Lemma run_channels_kept calls : forall n ids m m',
  inv n ids m -> Forall call_in_range calls ->
  n + Z.of_nat (length calls) <= INT32_MAX ->
  channels_kept m -> run m calls = Some m' -> channels_kept m'.
Proof.
  induction calls as [|c calls IH]; intros n ids m m' Hinv Hr Hl Hkept Hrun;
    cbn [run length] in *.
  - by injection Hrun as <-.
  - apply Forall_cons in Hr as [Hc Hr].
    destruct (step_inv _ _ m c Hinv ltac:(lia) Hc) as (m1 & Hstep & Hinv1).
    rewrite Hstep in Hrun. cbn [mbind option_bind] in Hrun.
    apply (IH (n + 1) (track ids c) m1 m' Hinv1 Hr ltac:(lia)); [|exact Hrun].
    apply (step_channels_kept n ids m c m1 Hinv ltac:(lia) Hc Hkept Hstep).
Qed.

(** X8.  After any sequence of calls, the channel found for a registered
    identity is the one built for that identity: it carries its tgid
    and uid, sits in a slot from 0 to 15 of a group the manager holds,
    and has the masks of that slot.  No other identity is given a
    channel with the same id, whether its channel exists already or is
    created by the request. *)
Theorem registered_channel_lookup (calls : list call) (tgid uid : Z) :
  Forall call_in_range calls -> in_int32 tgid -> in_int32 uid ->
  Z.of_nat (length calls) < INT32_MAX ->
  (tgid, uid) ∈ registered calls ->
  exists m channel,
    run empty calls = Some m /\
    (forall queueValid, getOrCreateChannel m tgid uid queueValid = Some (channel, m)) /\
    SessionChannel.getTgid channel = tgid /\
    SessionChannel.getUid channel = uid /\
    is_Some (mChannelGroups m !! ChannelMapValue.groupId (SessionChannel.getId channel)) /\
    (let slot := ChannelMapValue.offset (SessionChannel.getId channel) in
     0 <= slot < 16 /\
     SessionChannel.getWriteBitmask channel = 2 ^ slot /\
     SessionChannel.getReadBitmask channel = 2 ^ (slot + 16)) /\
    (forall tgid' uid' queueValid' channel' m',
        in_int32 tgid' -> in_int32 uid' ->
        getOrCreateChannel m tgid' uid' queueValid' = Some (channel', m') ->
        SessionChannel.getId channel' = SessionChannel.getId channel ->
        (tgid', uid') = (tgid, uid)).
Proof.
  intros Hr Ht Hu Hl Hreg.
  destruct (run_reaches calls Hr ltac:(lia)) as (m & Hrun & Hinv).
  assert (Hkept : channels_kept m).
  { apply (run_channels_kept calls 0 ∅ empty m inv_empty Hr ltac:(lia)); [|exact Hrun].
    intros groupId g slot channel Hg. cbn [empty mChannelGroups] in Hg.
    by rewrite lookup_empty in Hg. }
  destruct (proj1 (inv_ids _ _ _ Hinv tgid uid Ht Hu) Hreg) as [value Hlook].
  destruct (inv_map _ _ _ Hinv _ _ Hlook) as (g & channel & Hg & Hat & Hkey & Hid).
  destruct (Hkept _ _ _ _ Hg Hat) as (Hct & Hcu & Hcid & Hw & Hrd).
  pose proof (at_Some_range _ _ _ Hat) as [Hslot _].
  destruct (inv_groups _ _ _ Hinv _ _ Hg) as (_ & Hgr & Hlen & _ & _).
  change (Z.to_nat ChannelGroup.kMaxChannels) with 16%nat in Hlen.
  assert (Hv : value = ChannelMapValue.value (ChannelMapValue.groupId value)
                                            (ChannelMapValue.offset value))
    by congruence.
  assert (Hget : forall queueValid,
             getOrCreateChannel m tgid uid queueValid = Some (channel, m)).
  { intros queueValid. unfold getOrCreateChannel. cbn zeta. rewrite Hlook, Hg.
    cbn [mbind option_bind]. unfold ChannelGroup.getChannel. rewrite Hat. reflexivity. }
  pose proof (key_inj _ _ _ _ Hct Hcu Ht Hu Hkey) as Hsame. injection Hsame as Hst Hsu.
  exists m, channel. split; [exact Hrun|]. split; [exact Hget|].
  unfold SessionChannel.getTgid, SessionChannel.getUid, SessionChannel.getId,
    SessionChannel.getWriteBitmask, SessionChannel.getReadBitmask.
  split; [exact Hst|]. split; [exact Hsu|].
  rewrite Hid. split; [eauto|]. split; [cbn zeta; split; [lia|by split]|].
  intros tgid' uid' queueValid' channel' m' Ht' Hu' Hget' Hsameid.
  destruct (mChannelMap m !! ChannelMapKey.key tgid' uid') as [value'|] eqn:Hlook'.
  - destruct (inv_map _ _ _ Hinv _ _ Hlook') as (g2 & channel2 & Hg2 & Hat2 & Hkey2 & Hid2).
    assert (channel' = channel2) as ->.
    { unfold getOrCreateChannel in Hget'. cbn zeta in Hget'. rewrite Hlook', Hg2 in Hget'.
      cbn [mbind option_bind] in Hget'. unfold ChannelGroup.getChannel in Hget'.
      rewrite Hat2 in Hget'. cbn in Hget'. by injection Hget' as <- _. }
    rewrite Hid2 in Hsameid. subst value'.
    rewrite Hg in Hg2. injection Hg2 as <-. rewrite Hat in Hat2. injection Hat2 as <-.
    rewrite Hkey in Hkey2.
    symmetry. apply key_inj; try done.
  - exfalso.
    destruct (getOrCreateChannel_new _ _ _ tgid' uid' queueValid' Hinv ltac:(lia) Hlook')
      as (groupId & g0 & slot & Hchoice & Hgid & _ & _ & _ & _ & Hslot' & Hfree & Hres).
    cbn zeta in Hres. rewrite Hres in Hget'. injection Hget' as <- _.
    cbn [SessionChannel.getId SessionChannel.new SessionChannel.mId] in Hsameid.
    rewrite Hv in Hsameid.
    assert (Hrange : in_int32 (ChannelMapValue.groupId value)) by range.
    assert (Hrange' : in_int32 (ChannelMapValue.offset value)) by range.
    pose proof (key_inj groupId slot _ _ ltac:(range) ltac:(range) Hrange Hrange' Hsameid)
      as Heq.
    injection Heq as -> ->.
    destruct Hchoice as [[_ Hg0] | (_ & Hg0 & _)]; rewrite Hg in Hg0; [|discriminate Hg0].
    injection Hg0 as <-. rewrite Hat in Hfree. discriminate Hfree.
Qed.

Lemma registered_channel_lookup_witness :
  match run empty (requests (fun _ => true) (spawn 17)) with
  | Some m =>
      exists channel,
        getOrCreateChannel m 3016 4016 true = Some (channel, m) /\
        SessionChannel.getTgid channel = 3016 /\ SessionChannel.getUid channel = 4016
  | None => False
  end.
Proof.
  destruct (registered_channel_lookup (requests (fun _ => true) (spawn 17)) 3016 4016)
    as (m & channel & -> & Hget & Htgid & Huid & _).
  - apply Forall_forall. intros c Hc. vm_compute in Hc.
    repeat (apply elem_of_cons in Hc as [->|Hc]; [split; range|]).
    by apply elem_of_nil in Hc.
  - range.
  - range.
  - vm_compute. reflexivity.
  - vm_compute. set_solver.
  - exists channel. split; [apply Hget|]. split; [exact Htgid | exact Huid].
Defined.

End ChannelManagerCalls.

(** ** SupportManager: the support bit sets and the version gate *)

Module MakeSupportInfoFacts.

Import CxxFacts SupportManager MakeSupportInfo.

Lemma supportFromBitset_testbit v k :
  0 <= k < 64 -> AdpfTypes.supportFromBitset v k = Some (Z.testbit v k).
Proof.
  intros Hk. unfold AdpfTypes.supportFromBitset.
  destruct (0 <=? k) eqn:E1; [|lia]. destruct (k <? 64) eqn:E2; [|lia].
  cbn [andb]. by rewrite <- Zodd_rem, <- Z.testbit_odd.
Qed.

Lemma int64_testbit v k : 0 <= k < 64 -> Z.testbit (int64 v) k = Z.testbit v k.
Proof.
  intros Hk.
  rewrite <- (Z.mod_pow2_bits_low (int64 v) 64 k) by lia.
  rewrite <- (Z.mod_pow2_bits_low v 64 k) by lia.
  f_equal. unfold int64, sint.
  rewrite Zminus_mod_idemp_l. f_equal. lia.
Qed.

(** What the filling loop leaves in the set. *)
Lemma fillBits_spec {E} (toInt : E -> Z) (supported : E -> bool) (range : list E) :
  forall bits,
    (forall e, e ∈ range -> 0 <= toInt e < 64) ->
    (forall e e', e ∈ range -> e' ∈ range -> toInt e = toInt e' -> e = e') ->
    NoDup range ->
    exists bits',
      fillBits toInt supported range bits = Some bits' /\
      (forall e, e ∈ range -> Z.testbit bits' (toInt e) = supported e) /\
      (forall k, (forall e, e ∈ range -> toInt e <> k) ->
                 Z.testbit bits' k = Z.testbit bits k).
Proof.
  induction range as [|e range IH]; intros bits Hpos Hinj Hnd; cbn [fillBits].
  - exists bits. split; [done|]. split; [|done]. intros e He. by apply elem_of_nil in He.
  - apply NoDup_cons in Hnd as [Hfresh Hnd].
    pose proof (Hpos e ltac:(left)) as He.
    unfold setBit at 1. destruct (0 <=? toInt e) eqn:E1; [|lia].
    destruct (toInt e <? 64) eqn:E2; [|lia]. cbn [andb mbind option_bind].
    destruct (IH (if supported e then Z.setbit bits (toInt e)
                  else Z.clearbit bits (toInt e)))
      as (bits' & Hfill & Hin & Hout).
    { intros e' He'. apply Hpos. by right. }
    { intros e1 e2 H1 H2. apply Hinj; by right. }
    { exact Hnd. }
    exists bits'. split; [exact Hfill|]. split.
    + intros e' He'. apply elem_of_cons in He' as [->|He']; [|by apply Hin].
      rewrite Hout.
      * destruct (supported e); [apply Z.setbit_eq; lia | apply Z.clearbit_eq].
      * intros e' He' Heq. apply Hfresh.
        rewrite (Hinj e e'); [done|by left|by right|done].
    + intros k Hk. rewrite Hout by (intros e' He'; apply Hk; by right).
      pose proof (Hk e ltac:(left)) as Hne.
      destruct (supported e); [apply Z.setbit_neq; lia | by apply Z.clearbit_neq].
Qed.

Lemma fillBits_table {E} `{EqDecision E} (table : SupportList E) toInt supported :
  bitPositions toInt -> NoDup (enum_range table) ->
  (forall e, e ∈ enum_range table) ->
  exists bits,
    fillBits toInt supported (enum_range table) 0 = Some bits /\
    (forall e, AdpfTypes.supportFromBitset (int64 bits) (toInt e) = Some (supported e)) /\
    (forall k, 0 <= k < 64 -> (forall e, toInt e <> k) ->
               AdpfTypes.supportFromBitset (int64 bits) k = Some false).
Proof.
  intros [Hpos Hinj] Hnd Hall.
  destruct (fillBits_spec toInt supported (enum_range table) 0) as (bits & Hfill & Hin & Hout).
  { intros e _. apply Hpos. }
  { intros e e' _ _. apply Hinj. }
  { exact Hnd. }
  exists bits. split; [exact Hfill|]. split.
  - intros e. rewrite supportFromBitset_testbit by apply Hpos.
    rewrite int64_testbit by apply Hpos. f_equal. apply Hin, Hall.
  - intros k Hk Hne. rewrite supportFromBitset_testbit by lia.
    rewrite int64_testbit by lia. f_equal. rewrite Hout by (intros e _; apply Hne).
    apply Z.bits_0.
Qed.

Ltac enumerated :=
  first [ apply NoDup_ListNoDup; repeat constructor; cbn; intuition discriminate
        | let e := fresh "e" in intros e; destruct e; cbn; set_solver ].

(** X9.  [makeSupportInfo] and [supportFromBitset] agree: when the
    enumerators of each enumeration are cast to distinct positions
    below 64, bit [static_cast<int>(e)] of [modes] (of [boosts]) reads
    back as [modeSupported(e)] ([boostSupported(e)]) and every other bit
    as unsupported; with ADPF supported the same holds of the three
    session sets, the bits of an enumerator and the other bits alike,
    and without it the session members are left as
    default-constructed. *)
Theorem makeSupportInfo_bits (version : Z)
    (IsHintSupported IsAdpfProfileSupported : string -> bool) (IsAdpfSupported : bool)
    (modeInt : Mode.t -> Z) (boostInt : Boost.t -> Z) (sessionHintInt : SessionHint.t -> Z)
    (sessionModeInt : SessionMode.t -> Z) (sessionTagInt : SessionTag.t -> Z)
    (out0 : SupportInfo.t) :
  bitPositions modeInt -> bitPositions boostInt -> bitPositions sessionHintInt ->
  bitPositions sessionModeInt -> bitPositions sessionTagInt ->
  exists out,
    makeSupportInfo version IsHintSupported IsAdpfProfileSupported IsAdpfSupported
                    modeInt boostInt sessionHintInt sessionModeInt sessionTagInt out0
    = Some out /\
    SupportInfo.usesSessions out = IsAdpfSupported /\
    (forall type,
        AdpfTypes.supportFromBitset (SupportInfo.modes out) (modeInt type)
        = Some (modeSupported version IsHintSupported IsAdpfProfileSupported type)) /\
    (forall k, 0 <= k < 64 -> (forall type, modeInt type <> k) ->
               AdpfTypes.supportFromBitset (SupportInfo.modes out) k = Some false) /\
    (forall type,
        AdpfTypes.supportFromBitset (SupportInfo.boosts out) (boostInt type)
        = Some (boostSupported version IsHintSupported IsAdpfProfileSupported type)) /\
    (forall k, 0 <= k < 64 -> (forall type, boostInt type <> k) ->
               AdpfTypes.supportFromBitset (SupportInfo.boosts out) k = Some false) /\
    (IsAdpfSupported = true ->
     (forall type,
         AdpfTypes.supportFromBitset (SupportInfo.sessionHints out) (sessionHintInt type)
         = Some (sessionHintSupported version type)) /\
     (forall k, 0 <= k < 64 -> (forall type, sessionHintInt type <> k) ->
                AdpfTypes.supportFromBitset (SupportInfo.sessionHints out) k = Some false) /\
     (forall type,
         AdpfTypes.supportFromBitset (SupportInfo.sessionModes out) (sessionModeInt type)
         = Some (sessionModeSupported version type)) /\
     (forall k, 0 <= k < 64 -> (forall type, sessionModeInt type <> k) ->
                AdpfTypes.supportFromBitset (SupportInfo.sessionModes out) k = Some false) /\
     (forall type,
         AdpfTypes.supportFromBitset (SupportInfo.sessionTags out) (sessionTagInt type)
         = Some (sessionTagSupported version type)) /\
     (forall k, 0 <= k < 64 -> (forall type, sessionTagInt type <> k) ->
                AdpfTypes.supportFromBitset (SupportInfo.sessionTags out) k = Some false)) /\
    (IsAdpfSupported = false ->
     SupportInfo.sessionHints out = SupportInfo.sessionHints out0 /\
     SupportInfo.sessionModes out = SupportInfo.sessionModes out0 /\
     SupportInfo.sessionTags out = SupportInfo.sessionTags out0 /\
     SupportInfo.compositionData out = SupportInfo.compositionData out0 /\
     SupportInfo.headroom out = SupportInfo.headroom out0).
Proof.
  intros Hmode Hboost Hhint Hsmode Htag.
  destruct (fillBits_table kModeEarliestVersion modeInt
              (modeSupported version IsHintSupported IsAdpfProfileSupported) Hmode)
    as (modeBits & Em & Hm & Hm0); [enumerated|enumerated|].
  destruct (fillBits_table kBoostEarliestVersion boostInt
              (boostSupported version IsHintSupported IsAdpfProfileSupported) Hboost)
    as (boostBits & Eb & Hb & Hb0); [enumerated|enumerated|].
  destruct (fillBits_table kSessionHintEarliestVersion sessionHintInt
              (sessionHintSupported version) Hhint)
    as (hintBits & Eh & Hh & Hh0); [enumerated|enumerated|].
  destruct (fillBits_table kSessionModeEarliestVersion sessionModeInt
              (sessionModeSupported version) Hsmode)
    as (smodeBits & Es & Hs & Hs0); [enumerated|enumerated|].
  destruct (fillBits_table kSessionTagEarliestVersion sessionTagInt
              (sessionTagSupported version) Htag)
    as (tagBits & Et & Ht & Ht0); [enumerated|enumerated|].
  unfold makeSupportInfo. rewrite Em, Eb. cbn [mbind option_bind].
  destruct IsAdpfSupported; cbn [negb].
  - rewrite Eh, Es, Et. cbn [mbind option_bind].
    eexists. split; [reflexivity|]. cbn.
    repeat split; try done.
  - eexists. split; [reflexivity|]. cbn.
    repeat split; try done.
Qed.

Lemma tableIndex_positions :
  bitPositions (tableIndex kModeEarliestVersion) /\
  bitPositions (tableIndex kBoostEarliestVersion) /\
  bitPositions (tableIndex kSessionHintEarliestVersion) /\
  bitPositions (tableIndex kSessionModeEarliestVersion) /\
  bitPositions (tableIndex kSessionTagEarliestVersion).
Proof.
  unfold bitPositions.
  split; [|split; [|split; [|split]]];
    (split;
     [ intros e; destruct e; (vm_compute; split; [intros H; discriminate H | reflexivity])
     | intros e e'; destruct e, e'; vm_compute; intros H;
       first [reflexivity | discriminate H] ]).
Qed.

Lemma makeSupportInfo_bits_witness :
  let out0 := SupportInfo.mk false 0 0 0 0 0 (SupportInfo.mkComposition false false 0 false)
                             (SupportInfo.mkHeadroom false false 0 0) in
  match makeSupportInfo 5 (fun _ => false) (fun _ => false) true
          (tableIndex kModeEarliestVersion) (tableIndex kBoostEarliestVersion)
          (tableIndex kSessionHintEarliestVersion)
          (tableIndex kSessionModeEarliestVersion)
          (tableIndex kSessionTagEarliestVersion) out0 with
  | Some out =>
      AdpfTypes.supportFromBitset (SupportInfo.modes out)
                                  (tableIndex kModeEarliestVersion Mode.LOW_POWER)
      = Some true /\
      AdpfTypes.supportFromBitset (SupportInfo.sessionTags out)
                                  (tableIndex kSessionTagEarliestVersion SessionTag.SYSUI)
      = Some false /\
      AdpfTypes.supportFromBitset (SupportInfo.sessionHints out) 63 = Some false /\
      AdpfTypes.supportFromBitset (SupportInfo.sessionModes out) 63 = Some false /\
      AdpfTypes.supportFromBitset (SupportInfo.sessionTags out) 63 = Some false
  | None => False
  end.
Proof.
  cbn zeta.
  destruct tableIndex_positions as (H1 & H2 & H3 & H4 & H5).
  destruct (makeSupportInfo_bits 5 (fun _ => false) (fun _ => false) true
              (tableIndex kModeEarliestVersion) (tableIndex kBoostEarliestVersion)
              (tableIndex kSessionHintEarliestVersion)
              (tableIndex kSessionModeEarliestVersion)
              (tableIndex kSessionTagEarliestVersion)
              (SupportInfo.mk false 0 0 0 0 0 (SupportInfo.mkComposition false false 0 false)
                              (SupportInfo.mkHeadroom false false 0 0))
              H1 H2 H3 H4 H5)
    as (out & -> & _ & Hm & _ & _ & _ & Hs & _).
  destruct (Hs eq_refl) as (_ & Hh0 & _ & Hs0 & Ht & Ht0).
  split; [rewrite Hm; reflexivity|]. split; [rewrite Ht; reflexivity|].
  split; [|split]; [apply Hh0|apply Hs0|apply Ht0];
    first [lia | intros e; destruct e; vm_compute; discriminate].
Defined.

Lemma tooEarly_mono {E} `{EqDecision E} version version' (table : SupportList E) type :
  version <= version' ->
  tooEarly version table type = false -> tooEarly version' table type = false.
Proof.
  unfold tooEarly. intros Hle. destruct (find table type); [|done]. lia.
Qed.

(** X10.  Support is never withdrawn by a newer interface: with the
    same hint configuration, whatever one of the five predicates
    accepts at one [IPower::version] it accepts at every later one. *)
Theorem support_monotone (version version' : Z)
    (IsHintSupported IsAdpfProfileSupported : string -> bool) :
  version <= version' ->
  (forall type,
      modeSupported version IsHintSupported IsAdpfProfileSupported type = true ->
      modeSupported version' IsHintSupported IsAdpfProfileSupported type = true) /\
  (forall type,
      boostSupported version IsHintSupported IsAdpfProfileSupported type = true ->
      boostSupported version' IsHintSupported IsAdpfProfileSupported type = true) /\
  (forall type,
      sessionHintSupported version type = true ->
      sessionHintSupported version' type = true) /\
  (forall type,
      sessionModeSupported version type = true ->
      sessionModeSupported version' type = true) /\
  (forall type,
      sessionTagSupported version type = true ->
      sessionTagSupported version' type = true).
Proof.
  intros Hle.
  repeat split; intros type;
    unfold modeSupported, boostSupported, sessionHintSupported, sessionModeSupported,
      sessionTagSupported;
    match goal with
    | |- context [tooEarly version ?table type] =>
        destruct (tooEarly version table type) eqn:E; [intros H; discriminate H|];
        rewrite (tooEarly_mono version version' table type Hle E)
    end; done.
Qed.

Lemma support_monotone_witness :
  modeSupported 7 (fun _ => false) (fun _ => false) Mode.LOW_POWER = true /\
  sessionTagSupported 7 SessionTag.SYSUI = true.
Proof.
  destruct (support_monotone 6 7 (fun _ => false) (fun _ => false)) as (Hm & _ & _ & _ & Ht).
  - lia.
  - split; [apply Hm | apply Ht]; reflexivity.
Defined.

(** X11.  What decides support once the version is known.  A mode or
    boost that the interface is new enough for is supported exactly
    when its hint or its ADPF profile is configured, and [LOW_POWER]
    whatever is configured.  Session hints, modes and tags depend on
    the version alone: the [POWER_EFFICIENCY] hint and the
    [POWER_EFFICIENCY] and [GRAPHICS_PIPELINE] modes are supported at no
    version, every other value from its table version on. *)
Theorem support_decided_by (version : Z)
    (IsHintSupported IsAdpfProfileSupported : string -> bool) :
  (forall type earliest,
      find kModeEarliestVersion type = Some earliest ->
      modeSupported version IsHintSupported IsAdpfProfileSupported type
      = (earliest <=? version)
        && (bool_decide (type = Mode.LOW_POWER)
            || IsHintSupported (Mode.toString type)
            || IsAdpfProfileSupported (Mode.toString type))) /\
  (forall type earliest,
      find kBoostEarliestVersion type = Some earliest ->
      boostSupported version IsHintSupported IsAdpfProfileSupported type
      = (earliest <=? version)
        && (IsHintSupported (Boost.toString type)
            || IsAdpfProfileSupported (Boost.toString type))) /\
  (forall type earliest,
      find kSessionHintEarliestVersion type = Some earliest ->
      sessionHintSupported version type
      = (earliest <=? version) && negb (bool_decide (type = SessionHint.POWER_EFFICIENCY))) /\
  (forall type earliest,
      find kSessionModeEarliestVersion type = Some earliest ->
      sessionModeSupported version type
      = (earliest <=? version)
        && negb (bool_decide (type = SessionMode.POWER_EFFICIENCY))
        && negb (bool_decide (type = SessionMode.GRAPHICS_PIPELINE))) /\
  (forall type earliest,
      find kSessionTagEarliestVersion type = Some earliest ->
      sessionTagSupported version type = (earliest <=? version)).
Proof.
  assert (Hgate : forall {E} `{EqDecision E} (table : SupportList E) type earliest,
             find table type = Some earliest ->
             tooEarly version table type = negb (earliest <=? version)).
  { intros E ? table type earliest Hf. unfold tooEarly. rewrite Hf.
    destruct (earliest <=? version) eqn:E1; cbn; lia. }
  split; [|split; [|split; [|split]]]; intros type earliest Hf.
  - unfold modeSupported. rewrite (Hgate _ _ _ _ _ Hf).
    destruct (earliest <=? version); cbn [negb andb]; [|reflexivity].
    destruct (decide (type = Mode.LOW_POWER)) as [->|Hne].
    + by rewrite bool_decide_eq_true_2.
    + rewrite bool_decide_eq_false_2 by done.
      destruct (IsHintSupported _), (IsAdpfProfileSupported _); reflexivity.
  - unfold boostSupported. rewrite (Hgate _ _ _ _ _ Hf).
    destruct (earliest <=? version); cbn [negb andb]; [|reflexivity].
    destruct (IsHintSupported _), (IsAdpfProfileSupported _); reflexivity.
  - unfold sessionHintSupported. rewrite (Hgate _ _ _ _ _ Hf).
    destruct (earliest <=? version); cbn [negb andb]; [|reflexivity].
    destruct type; reflexivity.
  - unfold sessionModeSupported. rewrite (Hgate _ _ _ _ _ Hf).
    destruct (earliest <=? version); cbn [negb andb]; [|reflexivity].
    destruct type; reflexivity.
  - unfold sessionTagSupported. rewrite (Hgate _ _ _ _ _ Hf).
    destruct (earliest <=? version); reflexivity.
Qed.

Lemma support_decided_by_witness :
  modeSupported 4 (fun _ => false) (fun _ => false) Mode.LOW_POWER = true /\
  modeSupported 4 (fun _ => false) (fun _ => false) Mode.GAME = false /\
  sessionHintSupported 9 SessionHint.POWER_EFFICIENCY = false.
Proof.
  destruct (support_decided_by 4 (fun _ => false) (fun _ => false)) as (Hm & _).
  destruct (support_decided_by 9 (fun _ => false) (fun _ => false)) as (_ & _ & Hh & _).
  split; [|split].
  - rewrite (Hm Mode.LOW_POWER 1); reflexivity.
  - rewrite (Hm Mode.GAME 3); reflexivity.
  - rewrite (Hh SessionHint.POWER_EFFICIENCY 4); reflexivity.
Defined.

End MakeSupportInfoFacts.

(** ** SessionRecords: the sliding window *)

Module RecordWindowFacts.

Import CxxFacts SessionRecords SessionRecordsFacts RecordWindow.

Lemma window_holds s w : holds s w -> window s = w.
Proof.
  intros (Hwf & Hlen & Hring0 & _). unfold window. rewrite <- Hlen, Nat2Z.id.
  assert (Hring : forall (p : nat) r, w !! p = Some r ->
             ringRecord s (Z.of_nat (length w) - 1 - Z.of_nat p) = Some r).
  { intros p r H. rewrite Hlen. exact (Hring0 p r H). }
  clear Hwf Hring0 Hlen. revert Hring.
  assert (forall (l : list nat),
             (forall p, p ∈ l -> (p < length w)%nat) ->
             (forall (p : nat) r, w !! p = Some r ->
                ringRecord s (Z.of_nat (length w) - 1 - Z.of_nat p) = Some r) ->
             omap (fun p : nat => ringRecord s (Z.of_nat (length w) - 1 - Z.of_nat p)) l
             = omap (fun p => w !! p) l) as Hmap.
  { induction l as [|p l IH]; intros Hall Hring; [reflexivity|].
    cbn [omap list_omap].
    destruct (lookup_lt_is_Some_2 w p (Hall p ltac:(left))) as [r Hr].
    rewrite (Hring p r Hr), Hr. rewrite IH; [reflexivity| |exact Hring].
    intros q Hq. apply Hall. by right. }
  intros Hring. rewrite Hmap.
  - clear. induction w as [|r w IH] using rev_ind; [reflexivity|].
    rewrite length_app. cbn [length]. rewrite Nat.add_1_r, seq_S. cbn [plus].
    rewrite omap_app. cbn [omap list_omap].
    rewrite lookup_app_r, Nat.sub_diag by lia. cbn.
    f_equal. rewrite <- IH at 2. apply list_omap_ext.
    apply Forall2_same_length_lookup_2; [done|]. intros i x y Hx Hy.
    rewrite Hx in Hy. injection Hy as <-.
    apply lookup_seq in Hx as [-> Hi]. by rewrite lookup_app_l by lia.
  - intros p Hp. apply elem_of_seq in Hp. lia.
  - intros p r Hr. exact (Hring p r Hr).
Qed.

(** *** Ring positions *)

Lemma mod_eq_small a b K : 0 < K -> a mod K = b mod K -> -K < a - b < K -> a = b.
Proof.
  intros HK E Hd.
  pose proof (Z.div_mod a K ltac:(lia)) as Ha.
  pose proof (Z.div_mod b K ltac:(lia)) as Hb.
  assert (a - b = K * (a / K - b / K)) as Hk by lia.
  assert (a / K - b / K = 0) by nia. lia.
Qed.

Lemma slotOf_range s p : 0 < kMaxNumOfRecords s -> 0 <= slotOf s p < kMaxNumOfRecords s.
Proof. intros HK. unfold slotOf. by apply Z.mod_pos_bound. Qed.

Lemma slotOf_inj s (p q : nat) :
  0 < kMaxNumOfRecords s ->
  Z.of_nat p < kMaxNumOfRecords s -> Z.of_nat q < kMaxNumOfRecords s ->
  slotOf s p = slotOf s q -> p = q.
Proof.
  unfold slotOf. intros HK Hp Hq E.
  apply mod_eq_small in E; lia.
Qed.

Lemma rem_mod_nonneg a K : 0 <= a -> 0 < K -> Z.rem a K = a mod K.
Proof. intros. apply Z.rem_mod_nonneg; lia. Qed.

(** *** Sums, counts and maxima *)

Lemma sumOf_app l x : sumOf (l ++ [x]) = sumOf l + x.
Proof. unfold sumOf. induction l as [|y l IH]; cbn; lia. Qed.

Lemma sumOf_bound w :
  Forall (fun r => in_int32 (totalDurationUs r)) w ->
  - 2 ^ 31 * Z.of_nat (length w) <= sumOf (durations w)
  <= (2 ^ 31 - 1) * Z.of_nat (length w).
Proof.
  induction 1 as [|r w Hr _ IH]; cbn [durations map sumOf foldr length]; [lia|].
  unfold durations, sumOf in IH. unfold in_int32, INT32_MIN, INT32_MAX in Hr. lia.
Qed.

Lemma countMissed_bound w : 0 <= countMissed w <= Z.of_nat (length w).
Proof. unfold countMissed. pose proof (length_filter (fun r => isMissedCycle r = true) w). lia. Qed.

Lemma countMissed_cons r w :
  countMissed (r :: w) = (if isMissedCycle r then 1 else 0) + countMissed w.
Proof.
  unfold countMissed. rewrite filter_cons.
  destruct (decide (isMissedCycle r = true)) as [E|E].
  - rewrite E. cbn [length]. lia.
  - destruct (isMissedCycle r); [done|]. lia.
Qed.

Lemma countMissed_app w r :
  countMissed (w ++ [r]) = countMissed w + (if isMissedCycle r then 1 else 0).
Proof.
  induction w as [|x w IH]; [rewrite app_nil_l, countMissed_cons; unfold countMissed; cbn; lia|].
  rewrite <- app_comm_cons, !countMissed_cons, IH. lia.
Qed.

Lemma int32_range z : in_int32 (int32 z).
Proof.
  unfold in_int32, INT32_MIN, INT32_MAX, int32, sint.
  pose proof (Z.mod_pos_bound (z + 2 ^ (32 - 1)) (2 ^ 32) ltac:(lia)).
  change (2 ^ (32 - 1)) with (2 ^ 31) in *. change (2 ^ 32) with (2 * 2 ^ 31) in *. lia.
Qed.

(** *** Eviction of the oldest record *)

Lemma ascending_tail p ps : ascending (p :: ps) -> ascending ps.
Proof. by intros [_ H]. Qed.

Lemma ascending_head p ps q : ascending (p :: ps) -> q ∈ ps -> (p < q)%nat.
Proof. intros [H _] Hq. rewrite Forall_forall in H. by apply H. Qed.

Lemma ascending_pred ps :
  ascending ps -> (forall p, p ∈ ps -> (0 < p)%nat) -> ascending (map pred ps).
Proof.
  induction ps as [|p ps IH]; intros Hasc Hpos; [done|].
  destruct Hasc as [Hall Hasc]. cbn [map ascending]. split.
  - apply Forall_fmap. rewrite Forall_forall in Hall |- *. intros q Hq. cbn.
    specialize (Hall q Hq). specialize (Hpos p ltac:(left)). lia.
  - apply IH; [done|]. intros q Hq. apply Hpos. by right.
Qed.

Lemma ascending_snoc ps n :
  ascending ps -> Forall (fun p => (p < n)%nat) ps -> ascending (ps ++ [n]).
Proof.
  induction ps as [|p ps IH]; intros Hasc Hlt; [cbn; by split|].
  destruct Hasc as [Hall Hasc]. apply Forall_cons in Hlt as [Hp Hlt].
  cbn [app ascending]. split; [|by apply IH].
  apply Forall_app. split; [done|]. by apply Forall_singleton.
Qed.

Lemma ascending_snoc_inv ps n :
  ascending (ps ++ [n]) -> ascending ps /\ Forall (fun p => (p < n)%nat) ps.
Proof.
  induction ps as [|p ps IH]; intros Hasc; [done|].
  cbn [app ascending] in Hasc. destruct Hasc as [Hall Hasc].
  apply Forall_app in Hall as [Hall Hn]. rewrite Forall_singleton in Hn.
  destruct (IH Hasc) as [Hasc' Hlt].
  split; [by split|]. apply Forall_cons. split; [exact Hn | exact Hlt].
Qed.

Lemma ascending_filter (P : nat -> Prop) `{forall p, Decision (P p)} ps :
  ascending ps -> ascending (filter P ps).
Proof.
  induction ps as [|p ps IH]; intros Hasc; [done|].
  destruct Hasc as [Hall Hasc]. rewrite filter_cons.
  destruct (decide (P p)); [|by apply IH].
  split; [|by apply IH].
  rewrite Forall_forall in Hall |- *. intros q Hq. apply Hall.
  by apply list_elem_of_filter in Hq as [_ ?].
Qed.

Lemma evict_holds s w s1 :
  holds s w -> kMaxNumOfRecords s <= mNumOfFrames s -> evictOldest s = Some s1 ->
  holds s1 (tail w) /\
  kMaxNumOfRecords s1 = kMaxNumOfRecords s /\
  kJankCheckTimeFactor s1 = kJankCheckTimeFactor s /\
  mNumOfFrames s1 = mNumOfFrames s - 1.
Proof.
  intros (Hwf & Hlen & Hring & Hall & Hsum & Hmiss & ps & Hq & Hasc & Hbnd & Hdec & Hdom)
         Hfull Hev.
  destruct Hwf as (Hk & Hl & Hi & Hn & Hlatest).
  unfold evictOldest, rem32 in Hev.
  destruct (kMaxNumOfRecords s =? 0) eqn:EK; [discriminate Hev|].
  cbn [mbind option_bind] in Hev.
  assert (HK : 0 < kMaxNumOfRecords s) by lia.
  assert (HnK : mNumOfFrames s = kMaxNumOfRecords s) by lia.
  rewrite int32_id in Hev by range.
  destruct w as [|r0 w']; [cbn in Hlen; lia|].
  assert (Hslot0 : slotOf s 0 = Z.rem (mLatestRecordIndex s + 1) (kMaxNumOfRecords s)).
  { unfold slotOf. rewrite rem_mod_nonneg by lia. rewrite HnK.
    replace (mLatestRecordIndex s - (kMaxNumOfRecords s - 1 - Z.of_nat 0))
      with (mLatestRecordIndex s + 1 + (-1) * kMaxNumOfRecords s) by lia.
    apply Z_mod_plus_full. }
  rewrite <- Hslot0 in Hev. rewrite (Hring 0%nat r0 eq_refl) in Hev.
  cbn [mbind option_bind] in Hev.
  destruct (Hdom 0%nat r0 eq_refl) as (pd & rpd & Hpd & _).
  destruct ps as [|p0 ps']; [by apply elem_of_nil in Hpd|].
  rewrite Hq in Hev. cbn [map head mbind option_bind] in Hev.
  injection Hev as Hs1. cbn [tail].
  assert (HK1 : kMaxNumOfRecords s1 = kMaxNumOfRecords s) by (by rewrite <- Hs1).
  assert (Hf1 : kJankCheckTimeFactor s1 = kJankCheckTimeFactor s) by (by rewrite <- Hs1).
  assert (Hrec1 : mRecords s1 = mRecords s) by (by rewrite <- Hs1).
  assert (Hlat1 : mLatestRecordIndex s1 = mLatestRecordIndex s) by (by rewrite <- Hs1).
  assert (Hn1 : mNumOfFrames s1 = mNumOfFrames s - 1).
  { rewrite <- Hs1. cbn. apply int32_id. range. }
  assert (Hsum1 : mSumOfDurationsUs s1
                  = int64 (mSumOfDurationsUs s - totalDurationUs r0))
    by (by rewrite <- Hs1).
  assert (Hmiss1 : mNumOfMissedCycles s1
                   = if isMissedCycle r0 then int32 (mNumOfMissedCycles s - 1)
                     else mNumOfMissedCycles s) by (by rewrite <- Hs1).
  assert (Hq1 : mRecordsIndQueue s1
                = if slotOf s p0 =? slotOf s 0 then map (slotOf s) ps'
                  else slotOf s p0 :: map (slotOf s) ps') by (by rewrite <- Hs1).
  clear Hs1.
  cbn [length] in Hlen. apply Forall_cons in Hall as [Hr0 Hall].
  pose proof (sumOf_bound w' Hall) as Hsb.
  pose proof (countMissed_bound w') as Hcb.
  assert (Hshift : forall p : nat, slotOf s1 p = slotOf s (S p)).
  { intros p. unfold slotOf. rewrite HK1, Hlat1, Hn1. f_equal. lia. }
  split; [|done].
  set (X := if (p0 =? 0)%nat then ps' else p0 :: ps').
  assert (HX : forall p, p ∈ X <-> p ∈ p0 :: ps' /\ (0 < p)%nat).
  { intros p. unfold X. destruct (Nat.eqb_spec p0 0) as [->|Hne].
    - split.
      + intros Hin. split; [by right|]. apply (ascending_head _ _ _ Hasc) in Hin. lia.
      + intros [Hin Hpos]. apply elem_of_cons in Hin as [->|Hin]; [lia|done].
    - split; [|by intros [? _]]. intros Hin. split; [done|].
      apply elem_of_cons in Hin as [->|Hin]; [lia|].
      apply (ascending_head _ _ _ Hasc) in Hin. lia. }
  assert (HXasc : ascending X).
  { unfold X. destruct (p0 =? 0)%nat; [by apply ascending_tail in Hasc|done]. }
  unfold holds, wf. rewrite HK1, Hrec1, Hlat1, Hn1, Hsum1, Hmiss1.
  split; [repeat split; lia|]. split; [lia|]. split.
  { intros p r Hr. rewrite Hshift. exact (Hring (S p) r Hr). }
  split; [exact Hall|]. split.
  { rewrite Hsum.
    replace (sumOf (durations (r0 :: w')) - totalDurationUs r0)
      with (sumOf (durations w')) by (unfold sumOf, durations; cbn; lia).
    apply int64_id. range. }
  split.
  { rewrite Hmiss, countMissed_cons.
    destruct (isMissedCycle r0); [rewrite int32_id by range|]; lia. }
  exists (map pred X). unfold deque_ok. split; [|split; [|split; [|split]]].
  - rewrite Hq1. transitivity (map (slotOf s) X).
    + unfold X. destruct (Nat.eqb_spec p0 0) as [->|Hne].
      * rewrite Z.eqb_refl. reflexivity.
      * destruct (slotOf s p0 =? slotOf s 0) eqn:E; [|reflexivity].
        exfalso. apply Hne. apply (slotOf_inj s); [lia| |lia|lia].
        specialize (Hbnd p0 ltac:(left)). cbn [length] in Hbnd. lia.
    + rewrite map_map. apply map_ext_in. intros p Hp. rewrite Hshift. f_equal.
      apply list_elem_of_In, HX in Hp as [_ Hpos]. lia.
  - apply ascending_pred; [exact HXasc|]. intros p Hp. by apply HX in Hp as [_ ?].
  - intros p Hp. apply list_elem_of_fmap in Hp as (q & -> & Hq').
    apply HX in Hq' as [Hq' Hpos]. specialize (Hbnd q Hq'). cbn [length] in Hbnd. lia.
  - intros p q rp rq Hp Hq' Hlt Hrp Hrq.
    apply list_elem_of_fmap in Hp as (p' & -> & Hp').
    apply list_elem_of_fmap in Hq' as (q' & -> & Hq').
    apply HX in Hp' as [Hp' Hpos]. apply HX in Hq' as [Hq' Hqos].
    apply (Hdec p' q' rp rq Hp' Hq'); [lia| |].
    + destruct p'; [lia|exact Hrp].
    + destruct q'; [lia|exact Hrq].
  - intros j r Hr. destruct (Hdom (S j) r Hr) as (p & rp & Hp & Hle & Hrp & Hd).
    exists (pred p), rp. split.
    + apply list_elem_of_fmap. exists p. split; [done|]. apply HX. split; [done|lia].
    + split; [lia|]. split; [|done]. destruct p; [lia|exact Hrp].
Qed.

(** *** A new record *)

Lemma filter_all {A} (P : A -> Prop) `{forall x, Decision (P x)} (l : list A) :
  (forall x, x ∈ l -> P x) -> filter P l = l.
Proof.
  induction l as [|x l IH]; intros Hall; [reflexivity|].
  rewrite filter_cons_True by (apply Hall; left). f_equal.
  apply IH. intros y Hy. apply Hall. by right.
Qed.

(** The loop at the back of the deque removes the positions whose
    records are not longer than the new one. *)
Lemma popBack_spec records d (w : list CycleRecord) (f : nat -> Z) (ps : list nat) :
  (forall p, p ∈ ps -> exists r, w !! p = Some r /\ at_ records (f p) = Some r) ->
  ascending ps ->
  (forall p q rp rq, p ∈ ps -> q ∈ ps -> (p < q)%nat ->
                     w !! p = Some rp -> w !! q = Some rq ->
                     totalDurationUs rq < totalDurationUs rp) ->
  popBackWhile records d (rev (map f ps)) = Some (rev (map f (filter (longer w d) ps))).
Proof.
  induction ps as [|p ps IH] using rev_ind; intros Hat Hasc Hdec; [reflexivity|].
  rewrite map_app, rev_app_distr. cbn [map rev app popBackWhile].
  destruct (Hat p ltac:(apply elem_of_app; right; left)) as (r & Hr & Hrec).
  rewrite Hrec. cbn [mbind option_bind].
  apply ascending_snoc_inv in Hasc as [Hasc Hlt]. rewrite Forall_forall in Hlt.
  rewrite filter_app, filter_cons, filter_nil.
  destruct (totalDurationUs r <=? d) eqn:E.
  - rewrite IH; [| |done|].
    + destruct (decide (longer w d p)) as [Hl|Hl]; [|by rewrite app_nil_r].
      unfold longer in Hl. rewrite Hr in Hl. lia.
    + intros q Hq. apply Hat. apply elem_of_app. by left.
    + intros q1 q2 r1 r2 H1 H2. apply Hdec; apply elem_of_app; by left.
  - destruct (decide (longer w d p)) as [Hl|Hl].
    2:{ exfalso. apply Hl. unfold longer. rewrite Hr. lia. }
    rewrite filter_all.
    + rewrite map_app, rev_app_distr. reflexivity.
    + intros q Hq.
      destruct (Hat q ltac:(apply elem_of_app; by left)) as (rq & Hrq & _).
      unfold longer. rewrite Hrq.
      assert (totalDurationUs r < totalDurationUs rq); [|lia].
      apply (Hdec q p rq r); try done.
      * apply elem_of_app. by left.
      * apply elem_of_app. right. left.
      * by apply Hlt.
Qed.

(** What one reported duration writes when no record has to leave. *)
Lemma addReportedDuration_parts tgt c s fb d s' fb' :
  wf s -> mNumOfFrames s < kMaxNumOfRecords s ->
  addReportedDuration tgt c (s, fb) d = Some (s', fb') ->
  let latest := (mLatestRecordIndex s + 1) mod kMaxNumOfRecords s in
  exists r queue,
    kept r = stored (kJankCheckTimeFactor s) tgt d /\
    store (mRecords s) latest r = Some (mRecords s') /\
    popBackWhile (mRecords s') (durationUs d) (rev (mRecordsIndQueue s)) = Some queue /\
    mRecordsIndQueue s' = rev queue ++ [latest] /\
    kMaxNumOfRecords s' = kMaxNumOfRecords s /\
    kJankCheckTimeFactor s' = kJankCheckTimeFactor s /\
    mLatestRecordIndex s' = latest /\
    mNumOfFrames s' = mNumOfFrames s + 1 /\
    mSumOfDurationsUs s' = int64 (mSumOfDurationsUs s + durationUs d) /\
    mNumOfMissedCycles s'
    = (if isMissedCycle r then int32 (mNumOfMissedCycles s + 1) else mNumOfMissedCycles s) /\
    mAvgDurationUs s' = int32 (Z.quot (mSumOfDurationsUs s') (mNumOfFrames s')) /\
    fb' = updateFrameBuckets (durationUs d) (cycleMissed (kJankCheckTimeFactor s) tgt d) fb.
Proof.
  intros (Hk & Hl & Hi & Hn & Hlatest) Hroom H. unfold addReportedDuration in H.
  destruct (kMaxNumOfRecords s <=? mNumOfFrames s) eqn:E; [lia|].
  cbn [mbind option_bind] in H. unfold rem32 in H.
  destruct (kMaxNumOfRecords s =? 0) eqn:E0; [lia|]. cbn [mbind option_bind] in H.
  rewrite (int32_id (mLatestRecordIndex s + 1)) in H by range.
  rewrite rem_mod_nonneg in H by lia.
  rewrite (int32_id (mNumOfFrames s + 1)) in H by range.
  match type of H with
  | (?x ≫= _) = _ => destruct x as [[[[j su] ji] ad]|]
  end; cbn [mbind option_bind] in H; [|discriminate].
  destruct (store _ _ _) as [records|] eqn:Er; cbn [mbind option_bind] in H; [|discriminate].
  destruct (popBackWhile _ _ _) as [queue|] eqn:Eq; cbn [mbind option_bind] in H;
    [|discriminate].
  destruct (mNumOfFrames s + 1 =? 0) eqn:Ez; [lia|]. cbn [mbind option_bind] in H.
  injection H as <- <-. cbn.
  eexists _, queue. split; [|split; [exact Er|]]; [reflexivity|].
  split; [exact Eq|]. done.
Qed.

Lemma slotOf_push s s' (p : nat) :
  kMaxNumOfRecords s' = kMaxNumOfRecords s ->
  mLatestRecordIndex s' = (mLatestRecordIndex s + 1) mod kMaxNumOfRecords s ->
  mNumOfFrames s' = mNumOfFrames s + 1 ->
  slotOf s' p = slotOf s p.
Proof.
  intros HK Hl Hn. unfold slotOf. rewrite HK, Hl, Hn, Zminus_mod_idemp_l. f_equal. lia.
Qed.

Lemma avg_range sum n :
  0 < n -> - 2 ^ 31 * n <= sum <= (2 ^ 31 - 1) * n -> in_int32 (Z.quot sum n).
Proof.
  intros Hn Hs. unfold in_int32, INT32_MIN, INT32_MAX.
  pose proof (Z.quot_rem' sum n) as E.
  pose proof (Z.rem_bound_abs sum n ltac:(lia)) as Hr.
  destruct (Z_le_gt_dec 0 sum) as [Hpos|Hneg].
  - pose proof (Z.quot_pos sum n Hpos Hn).
    pose proof (Z.rem_nonneg sum n ltac:(lia) Hpos). nia.
  - pose proof (Z.rem_nonpos sum n ltac:(lia) ltac:(lia)).
    pose proof (Z.quot_le_mono sum 0 n Hn ltac:(lia)) as Hq. rewrite Z.quot_0_l in Hq by lia.
    nia.
Qed.

(** A report into a window with room appends one record. *)
Lemma push_holds tgt c s w fb d s' fb' :
  holds s w -> mNumOfFrames s < kMaxNumOfRecords s ->
  addReportedDuration tgt c (s, fb) d = Some (s', fb') ->
  exists r,
    holds s' (w ++ [r]) /\
    kept r = stored (kJankCheckTimeFactor s) tgt d /\
    kMaxNumOfRecords s' = kMaxNumOfRecords s /\
    kJankCheckTimeFactor s' = kJankCheckTimeFactor s /\
    mAvgDurationUs s'
    = Z.quot (sumOf (durations (w ++ [r]))) (Z.of_nat (length (w ++ [r]))) /\
    fb' = updateFrameBuckets (durationUs d) (cycleMissed (kJankCheckTimeFactor s) tgt d) fb.
Proof.
  intros (Hwf & Hlen & Hring & Hall & Hsum & Hmiss & ps & Hq & Hasc & Hbnd & Hdec & Hdom)
         Hroom H.
  pose proof (addReportedDuration_wf _ _ _ _ _ _ _ Hwf H) as Hwf'.
  destruct (addReportedDuration_parts _ _ _ _ _ _ _ Hwf Hroom H)
    as (r & queue & Hkept & Hst & Hpop & Hq' & HK' & Hf' & Hl' & Hn' & Hsum' & Hmiss'
        & Havg' & Hfb).
  destruct Hwf as (Hk & Hl & Hi & Hn & Hlatest).
  assert (HK : 0 < kMaxNumOfRecords s) by lia.
  set (latest := (mLatestRecordIndex s + 1) mod kMaxNumOfRecords s) in *.
  assert (Hlb : 0 <= latest < kMaxNumOfRecords s) by (apply Z.mod_pos_bound; lia).
  unfold kept, stored in Hkept. injection Hkept as Hdur Hmc.
  assert (Hslot : forall p : nat, slotOf s' p = slotOf s p).
  { intros p. by apply slotOf_push. }
  assert (Hslotn : slotOf s' (length w) = latest).
  { unfold slotOf. rewrite Hn', Hl', HK', <- Hlen.
    replace (latest - (Z.of_nat (length w) + 1 - 1 - Z.of_nat (length w)))
      with latest by lia.
    apply Z.mod_small. lia. }
  unfold store in Hst.
  destruct ((0 <=? latest) && (latest <? Z.of_nat (length (mRecords s)))) eqn:Eb;
    [|discriminate Hst].
  injection Hst as Hrec'.
  assert (Hat_new : at_ (mRecords s') latest = Some r).
  { rewrite at_nat by lia. rewrite <- Hrec'. apply list_lookup_insert_eq. lia. }
  assert (Hat_old : forall i, 0 <= i -> i <> latest ->
                              at_ (mRecords s') i = at_ (mRecords s) i).
  { intros i Hi0 Hne. rewrite !at_nat by lia. rewrite <- Hrec'.
    apply list_lookup_insert_ne. lia. }
  assert (Hne : forall p : nat, (p < length w)%nat -> slotOf s p <> latest).
  { intros p Hp E. rewrite <- Hslot, <- Hslotn in E.
    apply slotOf_inj in E; lia. }
  assert (Hring' : forall (p : nat) r0, w !! p = Some r0 ->
                     at_ (mRecords s') (slotOf s p) = Some r0).
  { intros p r0 Hr0. rewrite Hat_old.
    - by apply Hring.
    - apply slotOf_range. lia.
    - apply Hne. by apply lookup_lt_Some in Hr0. }
  rewrite Hq in Hpop.
  rewrite (popBack_spec _ _ w) in Hpop; [|..|exact Hasc|exact Hdec].
  2:{ intros p Hp. destruct (lookup_lt_is_Some_2 w p (Hbnd p Hp)) as [rp Hrp].
      exists rp. split; [done|]. by apply Hring'. }
  injection Hpop as <-. rewrite rev_involutive in Hq'.
  pose proof (sumOf_bound w Hall) as Hsb.
  pose proof (countMissed_bound w) as Hcb.
  assert (Hr32 : in_int32 (totalDurationUs r)).
  { rewrite Hdur. apply int32_range. }
  assert (Hsum2 : mSumOfDurationsUs s' = sumOf (durations (w ++ [r]))).
  { rewrite Hsum', Hsum. unfold durations. rewrite map_app. cbn [map]. rewrite sumOf_app.
    rewrite <- Hdur. apply int64_id. unfold durations in Hsb. range. }
  assert (Hall2 : Forall (fun r => in_int32 (totalDurationUs r)) (w ++ [r])).
  { apply Forall_app. split; [done|]. by apply Forall_singleton. }
  exists r. split; [|split; [by unfold kept, stored; rewrite Hdur, Hmc|]].
  2:{ split; [done|]. split; [done|]. split; [|done].
      rewrite Havg', Hsum2, Hn', <- Hlen. rewrite length_app. cbn [length].
      replace (Z.of_nat (length w + 1)) with (Z.of_nat (length w) + 1) by lia.
      apply int32_id. apply avg_range; [lia|].
      pose proof (sumOf_bound _ Hall2) as Hb. rewrite length_app in Hb. cbn [length] in Hb.
      lia. }
  unfold holds. split; [exact Hwf'|]. split.
  { rewrite length_app, Hn'. cbn [length]. lia. }
  split.
  { intros p r0 Hr0. rewrite Hslot.
    destruct (decide (p < length w)%nat) as [Hlt|Hge].
    - rewrite lookup_app_l in Hr0 by done. by apply Hring'.
    - pose proof (lookup_lt_Some _ _ _ Hr0) as Hp. rewrite length_app in Hp.
      cbn [length] in Hp. assert (p = length w) as -> by lia.
      rewrite lookup_app_r, Nat.sub_diag in Hr0 by lia. injection Hr0 as <-.
      rewrite <- Hslot, Hslotn. exact Hat_new. }
  split; [exact Hall2|]. split; [exact Hsum2|]. split.
  { rewrite Hmiss', Hmiss, countMissed_app.
    destruct (isMissedCycle r); [rewrite int32_id by range|]; lia. }
  exists (filter (longer w (durationUs d)) ps ++ [length w]).
  unfold deque_ok. split; [|split; [|split; [|split]]].
  - rewrite Hq', map_app. cbn [map]. rewrite Hslotn. f_equal.
    apply map_ext. intros p. by rewrite Hslot.
  - apply ascending_snoc; [by apply ascending_filter|].
    apply Forall_forall. intros p Hp. apply list_elem_of_filter in Hp as [_ Hp].
    by apply Hbnd.
  - intros p Hp. rewrite length_app. cbn [length].
    apply elem_of_app in Hp as [Hp|Hp].
    + apply list_elem_of_filter in Hp as [_ Hp]. specialize (Hbnd p Hp). lia.
    + apply list_elem_of_singleton in Hp as ->. lia.
  - intros p q rp rq Hp Hq0 Hlt Hrp Hrq.
    apply elem_of_app in Hp as [Hp|Hp]; apply elem_of_app in Hq0 as [Hq0|Hq0].
    + apply list_elem_of_filter in Hp as [_ Hp]. apply list_elem_of_filter in Hq0 as [_ Hq0].
      rewrite lookup_app_l in Hrp by (by apply Hbnd).
      rewrite lookup_app_l in Hrq by (by apply Hbnd).
      by apply (Hdec p q).
    + apply list_elem_of_filter in Hp as [Hlong Hp].
      apply list_elem_of_singleton in Hq0 as ->.
      rewrite lookup_app_l in Hrp by (by apply Hbnd).
      rewrite lookup_app_r, Nat.sub_diag in Hrq by lia. injection Hrq as <-.
      unfold longer in Hlong. rewrite Hrp in Hlong. lia.
    + apply list_elem_of_singleton in Hp as ->.
      apply list_elem_of_filter in Hq0 as [_ Hq0]. specialize (Hbnd q Hq0). lia.
    + apply list_elem_of_singleton in Hp as ->. apply list_elem_of_singleton in Hq0 as ->. lia.
  - intros j r0 Hr0.
    destruct (decide (j < length w)%nat) as [Hlt|Hge].
    + rewrite lookup_app_l in Hr0 by done.
      destruct (Hdom j r0 Hr0) as (p & rp & Hp & Hle & Hrp & Hd).
      destruct (decide (longer w (durationUs d) p)) as [Hlong|Hshort].
      * exists p, rp. split; [apply elem_of_app; left; by apply list_elem_of_filter|].
        split; [done|]. split; [|done]. rewrite lookup_app_l; [done|by apply Hbnd].
      * exists (length w), r. split; [apply elem_of_app; right; by left|].
        split; [lia|]. split; [by rewrite lookup_app_r, Nat.sub_diag by lia|].
        unfold longer in Hshort. rewrite Hrp in Hshort. lia.
    + pose proof (lookup_lt_Some _ _ _ Hr0) as Hp. rewrite length_app in Hp.
      cbn [length] in Hp. assert (j = length w) as -> by lia.
      exists (length w), r0. split; [apply elem_of_app; right; by left|].
      split; [lia|]. split; [done|lia].
Qed.

(** *** One report, a batch, every reachable object *)

Lemma lastN_all {A} n (l : list A) : (length l <= n)%nat -> lastN n l = l.
Proof. intros H. unfold lastN. by replace (length l - n)%nat with 0%nat by lia. Qed.

Lemma lastN_map {A B} (f : A -> B) n (l : list A) : map f (lastN n l) = lastN n (map f l).
Proof. unfold lastN. by rewrite length_map, skipn_map. Qed.

Lemma lastN_length {A} n (l : list A) : length (lastN n l) = Nat.min n (length l).
Proof. unfold lastN. rewrite length_drop. lia. Qed.

Lemma lastN_app {A} n (l k : list A) : lastN n (lastN n l ++ k) = lastN n (l ++ k).
Proof.
  destruct (decide (length l <= n)%nat) as [Hle|Hgt]; [by rewrite (lastN_all n l)|].
  unfold lastN. rewrite !length_app, length_drop, !drop_app, drop_drop, length_drop.
  f_equal; f_equal; lia.
Qed.

Lemma addReportedDuration_evicted tgt c s fb d s1 :
  kMaxNumOfRecords s <= mNumOfFrames s -> evictOldest s = Some s1 ->
  mNumOfFrames s1 < kMaxNumOfRecords s1 ->
  addReportedDuration tgt c (s, fb) d = addReportedDuration tgt c (s1, fb) d.
Proof.
  intros Hfull Hev Hroom. unfold addReportedDuration.
  destruct (kMaxNumOfRecords s <=? mNumOfFrames s) eqn:E; [|lia].
  destruct (kMaxNumOfRecords s1 <=? mNumOfFrames s1) eqn:E1; [lia|].
  rewrite Hev. reflexivity.
Qed.

(** One reported duration: the oldest record leaves when the window is
    full, and the new one is appended. *)
Lemma step_tracked tgt c s w fb d s' fb' :
  holds s w -> addReportedDuration tgt c (s, fb) d = Some (s', fb') ->
  exists r,
    tracked s' (lastN (Z.to_nat (kMaxNumOfRecords s)) (w ++ [r])) /\
    kept r = stored (kJankCheckTimeFactor s) tgt d /\
    kMaxNumOfRecords s' = kMaxNumOfRecords s /\
    kJankCheckTimeFactor s' = kJankCheckTimeFactor s /\
    fb' = updateFrameBuckets (durationUs d) (cycleMissed (kJankCheckTimeFactor s) tgt d) fb.
Proof.
  intros Hh H. pose proof Hh as (Hwf & Hlen & _). destruct Hwf as (Hk & Hl & Hi & Hn & _).
  destruct (Z_lt_le_dec (mNumOfFrames s) (kMaxNumOfRecords s)) as [Hroom|Hfull].
  - destruct (push_holds _ _ _ _ _ _ _ _ Hh Hroom H) as (r & Hh' & Hk' & HK' & Hf' & Havg & Hfb).
    exists r. rewrite lastN_all by (rewrite length_app; cbn [length]; lia).
    split; [split; [done|by intros _]|done].
  - destruct (evictOldest s) as [s1|] eqn:Hev.
    2:{ unfold addReportedDuration in H.
        destruct (kMaxNumOfRecords s <=? mNumOfFrames s) eqn:E; [|lia].
        rewrite Hev in H. discriminate H. }
    assert (HK0 : kMaxNumOfRecords s <> 0).
    { intros E0. unfold evictOldest, rem32 in Hev.
      destruct (kMaxNumOfRecords s =? 0) eqn:E; [discriminate Hev|lia]. }
    destruct (evict_holds _ _ _ Hh Hfull Hev) as (Hh1 & HK1 & Hf1 & Hn1).
    rewrite (addReportedDuration_evicted _ _ _ _ _ s1) in H by (done || lia).
    destruct (push_holds _ _ _ _ _ _ _ _ Hh1 ltac:(lia) H)
      as (r & Hh' & Hk' & HK' & Hf' & Havg & Hfb).
    exists r. rewrite Hf1 in Hk', Hfb.
    assert (lastN (Z.to_nat (kMaxNumOfRecords s)) (w ++ [r]) = tail w ++ [r]) as ->.
    { unfold lastN. rewrite length_app. cbn [length].
      replace (length w + 1 - Z.to_nat (kMaxNumOfRecords s))%nat with 1%nat by lia.
      destruct w as [|r0 w]; [cbn [length] in Hlen; lia|reflexivity]. }
    split; [split; [done|by intros _]|].
    split; [done|]. split; [congruence|]. split; [congruence|done].
Qed.

Lemma batch_tracked ds : forall tgt c s w fb s' fb',
  tracked s w -> addReportedDurations ds tgt c (s, fb) = Some (s', fb') ->
  exists w',
    tracked s' w' /\
    map kept w' = lastN (Z.to_nat (kMaxNumOfRecords s))
                        (map kept w ++ map (stored (kJankCheckTimeFactor s) tgt) ds) /\
    kMaxNumOfRecords s' = kMaxNumOfRecords s /\
    kJankCheckTimeFactor s' = kJankCheckTimeFactor s /\
    fb' = bucketed (kJankCheckTimeFactor s) tgt ds fb.
Proof.
  induction ds as [|d ds IH]; intros tgt c s w fb s' fb' Ht H; cbn [addReportedDurations] in H.
  - injection H as <- <-. exists w. split; [done|].
    rewrite app_nil_r, lastN_all; [done|].
    destruct Ht as [(Hwf & Hlen & _) _]. destruct Hwf as (_ & _ & _ & Hn & _).
    rewrite length_map. lia.
  - destruct (addReportedDuration tgt c (s, fb) d) as [[s1 fb1]|] eqn:E;
      cbn [mbind option_bind] in H; [|discriminate H].
    destruct (step_tracked _ _ _ _ _ _ _ _ (proj1 Ht) E) as (r & Ht1 & Hr & HK1 & Hf1 & Hfb1).
    destruct (IH _ _ _ _ _ _ _ Ht1 H) as (w' & Ht' & Hw' & HK' & Hf' & Hfb').
    exists w'. split; [done|]. rewrite HK1, Hf1 in *.
    split; [|split; [done|split; [done|by rewrite Hfb', Hfb1]]].
    rewrite Hw', lastN_map, lastN_app, map_app. cbn [map]. rewrite Hr, <- app_assoc.
    reflexivity.
Qed.

Lemma holds_empty s :
  wf s -> mNumOfFrames s = 0 -> mRecordsIndQueue s = [] ->
  mSumOfDurationsUs s = 0 -> mNumOfMissedCycles s = 0 -> tracked s [].
Proof.
  intros Hwf Hn Hq Hsum Hmiss. split; [|done].
  unfold holds. split; [done|]. rewrite Hn, Hsum, Hmiss.
  split; [done|]. split; [by intros p r Hr|]. split; [by apply Forall_nil|].
  split; [done|]. split; [done|]. exists []. unfold deque_ok. rewrite Hq.
  split; [done|]. split; [done|]. split; [by intros p Hp; apply elem_of_nil in Hp|].
  split; [by intros p q rp rq Hp; apply elem_of_nil in Hp|by intros j r Hr].
Qed.

Lemma reachable_tracked s : reachable s -> exists w, tracked s w.
Proof.
  induction 1 as [n f s Hn H | s fb ds tgt c s' fb' _ IH H | s Hr IH].
  - exists []. apply holds_empty; [by eapply new_wf|..];
      unfold new in H; destruct (n <? 0); try discriminate H; by injection H as <-.
  - destruct IH as [w Ht].
    destruct (batch_tracked _ _ _ _ _ _ _ _ Ht H) as (w' & Ht' & _). by exists w'.
  - exists []. apply holds_empty; [|done..]. apply resetRecords_wf. by apply reachable_wf.
Qed.

(** *** The getters *)

Lemma foldr_max x l :
  foldr Z.max x l ∈ x :: l /\ forall y, y ∈ x :: l -> y <= foldr Z.max x l.
Proof.
  induction l as [|z l [IHin IHle]]; cbn [foldr].
  - split; [left|]. intros y Hy. apply list_elem_of_singleton in Hy as ->. lia.
  - split.
    + destruct (Z.max_spec z (foldr Z.max x l)) as [[_ ->]|[_ ->]].
      * apply elem_of_cons in IHin as [->|Hin]; [left|right; by right].
      * right. left.
    + intros y Hy. pose proof (IHle x ltac:(left)).
      apply elem_of_cons in Hy as [->|Hy]; [lia|].
      apply elem_of_cons in Hy as [->|Hy]; [lia|].
      pose proof (IHle y ltac:(by right)). lia.
Qed.

Lemma maxOf_spec l m : m ∈ l -> (forall x, x ∈ l -> x <= m) -> maxOf l = Some m.
Proof.
  intros Hin Hle. destruct l as [|x l]; [by apply elem_of_nil in Hin|].
  cbn [maxOf]. f_equal. destruct (foldr_max x l) as [Hmin Hmle].
  specialize (Hle _ Hmin). specialize (Hmle _ Hin). lia.
Qed.

Lemma summary_kept w :
  summary (map kept w)
  = (Z.of_nat (length w), Some (maxOf (durations w)), averageOf (durations w), countMissed w).
Proof.
  unfold summary, durations, countMissed. rewrite length_map, map_map. cbn [kept fst].
  do 2 f_equal. clear. induction w as [|r w IH]; [reflexivity|].
  cbn [map]. rewrite !filter_cons. cbn [kept snd].
  destruct (decide (isMissedCycle r = true)); cbn [length]; lia.
Qed.

Lemma tracked_observe s w : tracked s w -> observe s = summary (map kept w).
Proof.
  intros [(Hwf & Hlen & Hring & Hall & Hsum & Hmiss & ps & Hq & Hasc & Hbnd & Hdec & Hdom)
          Havg].
  rewrite summary_kept. unfold observe, getNumOfRecords, getNumOfMissedCycles.
  rewrite <- Hlen, Hmiss. f_equal. f_equal; [f_equal|].
  - unfold getMaxDuration. rewrite Hq. destruct ps as [|p0 ps].
    + destruct w as [|r w]; [reflexivity|].
      destruct (Hdom 0%nat r eq_refl) as (p & _ & Hp & _). by apply elem_of_nil in Hp.
    + cbn [map]. destruct (lookup_lt_is_Some_2 w p0 (Hbnd p0 ltac:(left))) as [r0 Hr0].
      rewrite (Hring p0 r0 Hr0). cbn [mbind option_bind]. do 2 f_equal. symmetry.
      apply maxOf_spec.
      * unfold durations. apply list_elem_of_fmap. exists r0. split; [done|].
        by eapply list_elem_of_lookup_2.
      * intros x Hx. apply list_elem_of_fmap in Hx as (r & -> & Hr).
        apply list_elem_of_lookup in Hr as [j Hj].
        destruct (Hdom j r Hj) as (p & rp & Hp & _ & Hrp & Hle).
        apply elem_of_cons in Hp as [->|Hp].
        -- rewrite Hr0 in Hrp. injection Hrp as <-. lia.
        -- pose proof (ascending_head _ _ _ Hasc Hp) as Hlt.
           pose proof (Hdec p0 p r0 rp ltac:(left) ltac:(by right) Hlt Hr0 Hrp). lia.
  - unfold getAvgDuration, averageOf, durations. destruct w as [|r w].
    + cbn [length] in Hlen. rewrite <- Hlen. reflexivity.
    + cbn [length] in Hlen. destruct (mNumOfFrames s <=? 0) eqn:E; [lia|].
      rewrite Havg by done. unfold durations. cbn [map length]. by rewrite length_map.
Qed.

(** *** Where the code is defined *)

Lemma popBackWhile_defined records d q :
  Forall (fun i => 0 <= i < Z.of_nat (length records)) q ->
  is_Some (popBackWhile records d q).
Proof.
  induction 1 as [|i q Hi _ IH]; cbn [popBackWhile]; [done|].
  destruct (at_is_Some records i Hi) as [r ->]. cbn [mbind option_bind].
  by destruct (_ <=? _).
Qed.

Lemma evict_defined s w :
  holds s w -> 0 < kMaxNumOfRecords s -> kMaxNumOfRecords s <= mNumOfFrames s ->
  is_Some (evictOldest s).
Proof.
  intros (Hwf & Hlen & Hring & _ & _ & _ & ps & Hq & _ & _ & _ & Hdom) HK Hfull.
  destruct Hwf as (Hk & Hl & Hi & Hn & Hlatest).
  unfold evictOldest, rem32. destruct (kMaxNumOfRecords s =? 0) eqn:E; [lia|].
  cbn [mbind option_bind]. rewrite int32_id by range.
  pose proof (Z.rem_bound_pos (mLatestRecordIndex s + 1) (kMaxNumOfRecords s)
                ltac:(lia) HK) as Hb.
  destruct (at_is_Some (mRecords s)
              (Z.rem (mLatestRecordIndex s + 1) (kMaxNumOfRecords s))) as [old ->]; [lia|].
  cbn [mbind option_bind]. rewrite Hq.
  destruct w as [|r0 w]; [cbn [length] in Hlen; lia|].
  destruct (Hdom 0%nat r0 eq_refl) as (p & _ & Hp & _).
  destruct ps as [|p0 ps]; [by apply elem_of_nil in Hp|]. by cbn.
Qed.

Lemma push_defined tgt c s w fb d :
  holds s w -> mNumOfFrames s < kMaxNumOfRecords s ->
  3 <= kMaxNumOfRecords s \/ c = false ->
  is_Some (addReportedDuration tgt c (s, fb) d).
Proof.
  intros (Hwf & Hlen & Hring & _ & _ & _ & ps & Hq & _ & Hbnd & _) Hroom Hc.
  destruct Hwf as (Hk & Hl & Hi & Hn & Hlatest).
  unfold addReportedDuration.
  destruct (kMaxNumOfRecords s <=? mNumOfFrames s) eqn:E; [lia|].
  cbn [mbind option_bind]. unfold rem32.
  destruct (kMaxNumOfRecords s =? 0) eqn:E0; [lia|]. cbn [mbind option_bind].
  rewrite (int32_id (mLatestRecordIndex s + 1)) by range.
  rewrite rem_mod_nonneg by lia.
  rewrite (int32_id (mNumOfFrames s + 1)) by range.
  set (latest := (mLatestRecordIndex s + 1) mod kMaxNumOfRecords s).
  assert (Hlb : 0 <= latest < kMaxNumOfRecords s) by (apply Z.mod_pos_bound; lia).
  match goal with
  | |- is_Some (?x ≫= _) => assert (is_Some x) as [[[[j su] ji] ad] ->]
  end.
  { destruct c; [|done]. destruct Hc as [H3|Hf]; [|discriminate Hf].
    destruct (_ <? kTotalFramesForFPSCheck); [by destruct (0 <? _)|].
    unfold kTotalFramesForFPSCheck. rewrite (int32_id (latest - 3)) by range.
    match goal with
    | |- is_Some (at_ _ ?i ≫= _) =>
        destruct (at_is_Some (mRecords s) i) as [old ->]; [|done]
    end.
    destruct (latest - 3 <? 0) eqn:E3; [rewrite int32_id by range|]; lia. }
  cbn [mbind option_bind]. unfold store.
  destruct ((0 <=? latest) && (latest <? Z.of_nat (length (mRecords s)))) eqn:Eb; [|lia].
  cbn [mbind option_bind].
  match goal with
  | |- is_Some (popBackWhile ?r ?d ?q ≫= _) =>
      destruct (popBackWhile_defined r d q) as [queue ->]
  end.
  { rewrite length_insert, Hq. apply Forall_rev, Forall_fmap, Forall_forall.
    intros p _. cbn. pose proof (slotOf_range s p ltac:(lia)). lia. }
  cbn [mbind option_bind].
  destruct (mNumOfFrames s + 1 =? 0) eqn:Ez; [lia|]. done.
Qed.

Lemma step_defined tgt c s w fb d :
  holds s w ->
  3 <= kMaxNumOfRecords s \/ (1 <= kMaxNumOfRecords s /\ c = false) ->
  is_Some (addReportedDuration tgt c (s, fb) d).
Proof.
  intros Hh Hc.
  destruct (Z_lt_le_dec (mNumOfFrames s) (kMaxNumOfRecords s)) as [Hroom|Hfull].
  - eapply push_defined; [done..|]. destruct Hc as [?|[_ ?]]; [by left|by right].
  - destruct (evict_defined s w Hh ltac:(lia) Hfull) as [s1 Hev].
    destruct (evict_holds _ _ _ Hh Hfull Hev) as (Hh1 & HK1 & Hf1 & Hn1).
    pose proof Hh as ((_ & _ & _ & Hn & _) & _).
    rewrite (addReportedDuration_evicted _ _ _ _ _ s1) by (done || lia).
    eapply push_defined; [done|lia|]. rewrite HK1. destruct Hc as [?|[_ ?]]; [by left|by right].
Qed.

Lemma batch_defined ds : forall tgt c s w fb,
  holds s w ->
  3 <= kMaxNumOfRecords s \/ (1 <= kMaxNumOfRecords s /\ c = false) ->
  is_Some (addReportedDurations ds tgt c (s, fb)).
Proof.
  induction ds as [|d ds IH]; intros tgt c s w fb Hh Hc; cbn [addReportedDurations]; [done|].
  destruct (step_defined tgt c s w fb d Hh Hc) as [[s1 fb1] E]. rewrite E.
  cbn [mbind option_bind].
  destruct (step_tracked _ _ _ _ _ _ _ _ Hh E) as (r & [Hh1 _] & _ & HK1 & _).
  eapply IH; [exact Hh1|]. by rewrite HK1.
Qed.

(** *** The frame buckets *)

Lemma int64_add_idemp_r a c : int64 (a + int64 c) = int64 (a + c).
Proof.
  unfold int64, sint.
  replace (a + ((c + 2 ^ (64 - 1)) mod 2 ^ 64 - 2 ^ (64 - 1)) + 2 ^ (64 - 1))
    with (a + (c + 2 ^ (64 - 1)) mod 2 ^ 64) by lia.
  rewrite Zplus_mod_idemp_r. f_equal. f_equal. lia.
Qed.

Lemma int64_add_shift a b : int64 (int64 (a + b) + 1) = int64 (a + int64 (b + 1)).
Proof.
  rewrite int64_add_idemp_r. rewrite (Z.add_comm (int64 (a + b)) 1), int64_add_idemp_r.
  f_equal. lia.
Qed.

Lemma updateFrameBuckets_addUpNewFrames us missed a x :
  updateFrameBuckets us missed (FrameBuckets.addUpNewFrames a x)
  = FrameBuckets.addUpNewFrames a (updateFrameBuckets us missed x).
Proof.
  unfold updateFrameBuckets, FrameBuckets.addUpNewFrames.
  destruct (negb missed || (us <? 17000)); cbn; [by rewrite int64_add_shift|].
  destruct (us <? 25000); cbn; [by rewrite !int64_add_shift|].
  destruct (us <? 34000); cbn; [by rewrite !int64_add_shift|].
  destruct (us <? 67000); cbn; [by rewrite !int64_add_shift|].
  destruct (us <? 100000); cbn; [by rewrite !int64_add_shift|].
  destruct (100000 <=? us); cbn; by rewrite !int64_add_shift.
Qed.

Lemma bucketed_addUpNewFrames f tgt ds fb :
  FrameBuckets.well_typed fb ->
  bucketed f tgt ds fb
  = FrameBuckets.addUpNewFrames fb (bucketed f tgt ds FrameBuckets.init).
Proof.
  intros (H1 & H2 & H3 & H4 & H5 & H6).
  induction ds as [|d ds IH] using rev_ind.
  - unfold bucketed, FrameBuckets.addUpNewFrames. cbn. rewrite !Z.add_0_r.
    rewrite !int64_id by done. by destruct fb.
  - unfold bucketed in *. rewrite !foldl_snoc, IH.
    apply updateFrameBuckets_addUpNewFrames.
Qed.

(** The state a report leaves does not depend on the buckets passed. *)
Lemma addReportedDurations_any_buckets ds : forall tgt c s fb s' fb' fb2,
  addReportedDurations ds tgt c (s, fb) = Some (s', fb') ->
  exists fb2', addReportedDurations ds tgt c (s, fb2) = Some (s', fb2').
Proof.
  induction ds as [|d ds IH]; intros tgt c s fb s' fb' fb2 H; cbn [addReportedDurations] in *.
  - injection H as <- <-. by exists fb2.
  - destruct (addReportedDuration tgt c (s, fb) d) as [[s1 fb1]|] eqn:E;
      cbn [mbind option_bind] in H; [|discriminate H].
    assert (exists fb3, addReportedDuration tgt c (s, fb2) d = Some (s1, fb3)) as [fb3 ->].
    { unfold addReportedDuration in *.
      destruct (if kMaxNumOfRecords s <=? mNumOfFrames s then _ else _) as [s0|];
        cbn [mbind option_bind] in *; [|discriminate E].
      destruct (rem32 _ _) as [latest|]; cbn [mbind option_bind] in *; [|discriminate E].
      match type of E with
      | (?x ≫= _) = _ => destruct x as [[[[j su] ji] ad]|]
      end; cbn [mbind option_bind] in *; [|discriminate E].
      destruct (store _ _ _) as [records|]; cbn [mbind option_bind] in *; [|discriminate E].
      destruct (popBackWhile _ _ _) as [queue|]; cbn [mbind option_bind] in *;
        [|discriminate E].
      match type of E with
      | ((if ?b then None else _) ≫= _) = _ => destruct b
      end; cbn [mbind option_bind] in *; [discriminate E|].
      injection E as <- _. by eexists. }
    cbn [mbind option_bind]. by eapply IH.
Qed.

(** *** Statements *)

(** X12. Reporting a batch of durations to an object a client can have
    leaves it holding the last [kMaxNumOfRecords] of what it held
    followed by the batch: each record keeps the duration in
    microseconds and the jank flag computed at the report, oldest
    first. *)
Theorem window_slides s ds tgt c fb s' fb' :
  reachable s ->
  addReportedDurations ds tgt c (s, fb) = Some (s', fb') ->
  map kept (window s')
  = lastN (Z.to_nat (kMaxNumOfRecords s))
          (map kept (window s) ++ map (stored (kJankCheckTimeFactor s) tgt) ds).
Proof.
  intros Hr H. destruct (reachable_tracked s Hr) as [w Ht].
  destruct (batch_tracked _ _ _ _ _ _ _ _ Ht H) as (w' & Ht' & Hw' & _).
  by rewrite (window_holds _ _ (proj1 Ht)), (window_holds _ _ (proj1 Ht')).
Qed.

Lemma window_slides_witness :
  match new 3 1.5%float with
  | Some s0 =>
      match addReportedDurations (fakeWorkDurations [3; 9; 3; 2; 20]) (MS_TO_NS 3) false
              (s0, FrameBuckets.init) with
      | Some (s', _) => map kept (window s') = [(3000, false); (2000, false); (20000, true)]
      | None => False
      end
  | None => False
  end.
Proof.
  destruct (new 3 1.5%float) as [s0|] eqn:E0; [|vm_compute in E0; discriminate E0].
  assert (Hr : reachable s0) by (eapply reach_new; [|exact E0]; range).
  vm_compute in E0. injection E0 as <-.
  destruct (addReportedDurations _ _ _ _) as [[s' fb']|] eqn:E1;
    [|vm_compute in E1; discriminate E1].
  rewrite (window_slides _ _ _ _ _ _ _ Hr E1). vm_compute. reflexivity.
Defined.

(** X13. On every object a client can have, the four getters report
    the records it holds: their number, the largest duration (none when
    empty), the truncated mean of the durations (none when empty) and
    the number of records flagged as missed cycles. *)
Theorem getters_summarise_window s :
  reachable s -> observe s = summary (map kept (window s)).
Proof.
  intros Hr. destruct (reachable_tracked s Hr) as [w Ht].
  rewrite (window_holds _ _ (proj1 Ht)). by apply tracked_observe.
Qed.

Lemma getters_summarise_window_witness :
  match session 3 1.5%float [(fakeWorkDurations [3; 9; 3; 2; 20], MS_TO_NS 3, false)] with
  | Some s => observe s = (3, Some (Some 20000), Some 8333, 1)
  | None => False
  end.
Proof.
  destruct (session _ _ _) as [s|] eqn:E; [|vm_compute in E; discriminate E].
  assert (Hr : reachable s) by (eapply reachable_session; [|exact E]; range).
  rewrite (getters_summarise_window s Hr).
  vm_compute in E. injection E as <-. vm_compute. reflexivity.
Defined.

(** X14. On an object with room for at least three records every
    report is defined: no index leaves the ring, the deque is never read
    when empty and no division is by zero.  Without jitter tracking one
    record of room is enough. *)
Theorem addReportedDurations_defined s ds tgt c fb :
  reachable s ->
  3 <= kMaxNumOfRecords s \/ (1 <= kMaxNumOfRecords s /\ c = false) ->
  is_Some (addReportedDurations ds tgt c (s, fb)).
Proof.
  intros Hr Hc. destruct (reachable_tracked s Hr) as [w [Hh _]].
  by eapply batch_defined.
Qed.

Lemma addReportedDurations_defined_witness :
  match new 1 1.5%float with
  | Some s0 =>
      is_Some (addReportedDurations (fakeWorkDurations [3; 9; 3; 2; 20]) (MS_TO_NS 3) false
                 (s0, FrameBuckets.init))
  | None => False
  end.
Proof.
  destruct (new 1 1.5%float) as [s0|] eqn:E0; [|vm_compute in E0; discriminate E0].
  assert (Hr : reachable s0) by (eapply reach_new; [|exact E0]; range).
  apply (addReportedDurations_defined _ _ _ _ _ Hr).
  vm_compute in E0. injection E0 as <-. right. cbn. split; [lia|reflexivity].
Defined.

(** X15. An object constructed without room for any record cannot take
    a report: the first duration of any batch computes a remainder by
    zero. *)
Theorem zero_capacity_undefined s d ds tgt c fb :
  reachable s -> kMaxNumOfRecords s = 0 ->
  addReportedDurations (d :: ds) tgt c (s, fb) = None.
Proof.
  intros Hr HK. apply reachable_wf in Hr as (_ & _ & _ & Hn & _).
  cbn [addReportedDurations]. unfold addReportedDuration.
  destruct (kMaxNumOfRecords s <=? mNumOfFrames s) eqn:E; [|lia].
  unfold evictOldest, rem32. rewrite HK. reflexivity.
Qed.

Lemma zero_capacity_undefined_witness :
  match new 0 1.5%float with
  | Some s0 =>
      addReportedDurations (fakeWorkDurations [3]) (MS_TO_NS 3) false (s0, FrameBuckets.init)
      = None
  | None => False
  end.
Proof.
  destruct (new 0 1.5%float) as [s0|] eqn:E0; [|vm_compute in E0; discriminate E0].
  assert (Hr : reachable s0) by (eapply reach_new; [|exact E0]; range).
  apply (zero_capacity_undefined _ _ _ _ _ _ Hr).
  vm_compute in E0. by injection E0 as <-.
Defined.

(** X16. On an object of capacity at least 3, or of capacity at least
    1 when the batch is reported without jitter tracking, a report
    after [resetRecords] goes as on a newly constructed object of the
    same capacity and factor: the same batch is defined on both, the
    four getters then agree and the buckets come out the same. *)
Theorem resetRecords_like_new s s0 ds tgt c fb :
  reachable s ->
  new (kMaxNumOfRecords s) (kJankCheckTimeFactor s) = Some s0 ->
  3 <= kMaxNumOfRecords s \/ (1 <= kMaxNumOfRecords s /\ c = false) ->
  exists s1 s2 fb',
    addReportedDurations ds tgt c (resetRecords s, fb) = Some (s1, fb') /\
    addReportedDurations ds tgt c (s0, fb) = Some (s2, fb') /\
    observe s1 = observe s2.
Proof.
  intros Hr Hnew Hc.
  pose proof (reachable_wf s Hr) as (HK & _).
  assert (Hr0 : reachable s0) by (eapply reach_new; [|exact Hnew]; range).
  assert (kMaxNumOfRecords s0 = kMaxNumOfRecords s /\
          kJankCheckTimeFactor s0 = kJankCheckTimeFactor s /\
          mNumOfFrames s0 = 0) as (HK0 & Hf0 & Hn0).
  { unfold new in Hnew. destruct (_ <? 0); [discriminate Hnew|]. by injection Hnew as <-. }
  pose proof (reach_reset s Hr) as Hrr.
  destruct (reachable_tracked _ Hrr) as [wr Htr].
  destruct (reachable_tracked _ Hr0) as [w0 Ht0].
  destruct (batch_defined ds tgt c (resetRecords s) wr fb (proj1 Htr) Hc) as [[s1 fb1] E1].
  destruct (batch_defined ds tgt c s0 w0 fb (proj1 Ht0) ltac:(by rewrite HK0))
    as [[s2 fb2] E2].
  assert (wr = []) as ->.
  { destruct Htr as [(_ & Hlen & _) _]. cbn in Hlen. by destruct wr. }
  assert (w0 = []) as ->.
  { destruct Ht0 as [(_ & Hlen & _) _]. rewrite Hn0 in Hlen. by destruct w0. }
  destruct (batch_tracked _ _ _ _ _ _ _ _ Htr E1) as (w1 & Ht1 & Hw1 & _ & _ & Hfb1).
  destruct (batch_tracked _ _ _ _ _ _ _ _ Ht0 E2) as (w2 & Ht2 & Hw2 & _ & _ & Hfb2).
  rewrite HK0, Hf0 in Hw2. rewrite Hf0 in Hfb2.
  cbn [resetRecords kMaxNumOfRecords kJankCheckTimeFactor] in Hw1, Hfb1.
  exists s1, s2, fb1. split; [done|]. split; [by rewrite E2, Hfb2, Hfb1|].
  by rewrite (tracked_observe _ _ Ht1), (tracked_observe _ _ Ht2), Hw1, Hw2.
Qed.

Lemma resetRecords_like_new_witness :
  match session 3 1.5%float [(fakeWorkDurations [3; 9; 3; 2; 20], MS_TO_NS 3, false)],
        new 3 1.5%float with
  | Some s, Some s0 =>
      exists s1 s2 fb',
        addReportedDurations (fakeWorkDurations [7; 2]) (MS_TO_NS 3) false
          (resetRecords s, FrameBuckets.init) = Some (s1, fb') /\
        addReportedDurations (fakeWorkDurations [7; 2]) (MS_TO_NS 3) false
          (s0, FrameBuckets.init) = Some (s2, fb') /\
        observe s1 = observe s2
  | _, _ => False
  end.
Proof.
  destruct (session _ _ _) as [s|] eqn:E; [|vm_compute in E; discriminate E].
  assert (Hr : reachable s) by (eapply reachable_session; [|exact E]; range).
  vm_compute in E. injection E as <-.
  destruct (new 3 1.5%float) as [s0|] eqn:E0; [|vm_compute in E0; discriminate E0].
  refine (resetRecords_like_new _ s0 _ _ false _ Hr E0 _).
  left. cbn. lia.
Defined.

(** X17. The buckets a report leaves are the buckets it was given with
    the frames of the batch added by [addUpNewFrames]: reporting into
    the session's buckets, or into fresh ones that are added up
    afterwards, gives the same counters and the same object. *)
Theorem buckets_add_up s ds tgt c fb s' fb' :
  reachable s -> FrameBuckets.well_typed fb ->
  addReportedDurations ds tgt c (s, fb) = Some (s', fb') ->
  exists fresh,
    addReportedDurations ds tgt c (s, FrameBuckets.init) = Some (s', fresh) /\
    fb' = FrameBuckets.addUpNewFrames fb fresh.
Proof.
  intros Hr Hfb H.
  destruct (addReportedDurations_any_buckets _ _ _ _ _ _ _ FrameBuckets.init H)
    as [fresh Hfresh].
  exists fresh. split; [done|].
  destruct (reachable_tracked s Hr) as [w Ht].
  destruct (batch_tracked _ _ _ _ _ _ _ _ Ht H) as (_ & _ & _ & _ & _ & ->).
  destruct (batch_tracked _ _ _ _ _ _ _ _ Ht Hfresh) as (_ & _ & _ & _ & _ & ->).
  by apply bucketed_addUpNewFrames.
Qed.

Lemma buckets_add_up_witness :
  match new 3 1.5%float with
  | Some s0 =>
      match addReportedDurations (fakeWorkDurations [3; 9; 3; 2; 20]) (MS_TO_NS 3) false
              (s0, FrameBuckets.mk 10 1 0 2 0 0) with
      | Some (s', fb') =>
          exists fresh,
            addReportedDurations (fakeWorkDurations [3; 9; 3; 2; 20]) (MS_TO_NS 3) false
              (s0, FrameBuckets.init) = Some (s', fresh) /\
            fb' = FrameBuckets.addUpNewFrames (FrameBuckets.mk 10 1 0 2 0 0) fresh
      | None => False
      end
  | None => False
  end.
Proof.
  destruct (new 3 1.5%float) as [s0|] eqn:E0; [|vm_compute in E0; discriminate E0].
  assert (Hr : reachable s0) by (eapply reach_new; [|exact E0]; range).
  destruct (addReportedDurations _ _ _ _) as [[s' fb']|] eqn:E1.
  - apply (buckets_add_up _ _ _ _ _ _ _ Hr); [|exact E1].
    unfold FrameBuckets.well_typed. cbn. repeat split; range.
  - vm_compute in E0. injection E0 as <-. vm_compute in E1. discriminate E1.
Defined.

Lemma int64_succ z : int64 (int64 z + 1) = int64 (z + 1).
Proof. by rewrite (Z.add_comm (int64 z)), int64_add_idemp_r, Z.add_comm. Qed.

Lemma jankIn_snoc f tgt lo hi ds d :
  jankIn f tgt lo hi (ds ++ [d])
  = jankIn f tgt lo hi ds
    + (if cycleMissed f tgt d && (lo <=? durationUs d)
          && match hi with Some h => durationUs d <? h | None => true end
       then 1 else 0).
Proof.
  unfold jankIn. rewrite filter_app, length_app, filter_cons, filter_nil.
  destruct (decide _) as [->|Hn]; cbn [length]; [lia|].
  destruct (_ && _); [done|lia].
Qed.

Lemma bucketed_histogram f tgt ds :
  bucketed f tgt ds FrameBuckets.init = histogram f tgt ds.
Proof.
  induction ds as [|d ds IH] using rev_ind; [reflexivity|].
  unfold bucketed in *. rewrite foldl_snoc, IH. clear IH.
  unfold histogram. rewrite !jankIn_snoc, length_app. cbn [length].
  replace (Z.of_nat (length ds + 1)) with (Z.of_nat (length ds) + 1) by lia.
  unfold updateFrameBuckets. cbn [FrameBuckets.totalNumOfFrames
    FrameBuckets.numOfFrames17to25ms FrameBuckets.numOfFrames25to34ms
    FrameBuckets.numOfFrames34to67ms FrameBuckets.numOfFrames67to100ms
    FrameBuckets.numOfFramesOver100ms].
  rewrite !int64_succ.
  destruct (cycleMissed f tgt d); cbn [negb orb andb]; [|by rewrite !Z.add_0_r].
  destruct (durationUs d <? 17000) eqn:E1.
  { repeat (match goal with |- context [?a <=? durationUs d] =>
              destruct (Z.leb_spec a (durationUs d)); [lia|] end).
    cbn [andb]. by rewrite !Z.add_0_r. }
  destruct (durationUs d <? 25000) eqn:E2; [|destruct (durationUs d <? 34000) eqn:E3;
    [|destruct (durationUs d <? 67000) eqn:E4;
      [|destruct (durationUs d <? 100000) eqn:E5;
        [|destruct (100000 <=? durationUs d) eqn:E6; [|lia]]]]];
    repeat (match goal with |- context [?a <=? durationUs d] =>
              destruct (Z.leb_spec a (durationUs d)); try lia end);
    cbn [andb]; by rewrite !Z.add_0_r.
Qed.

(** X18. The buckets of a batch reported into fresh buckets are its
    histogram: the total counts every duration, and each duration that
    misses the cycle and lasts at least 17000 microseconds is counted in
    exactly the bucket whose range holds it; the others are counted in
    the total only. *)
Theorem buckets_are_histogram s ds tgt c s' fb' :
  reachable s ->
  addReportedDurations ds tgt c (s, FrameBuckets.init) = Some (s', fb') ->
  fb' = histogram (kJankCheckTimeFactor s) tgt ds.
Proof.
  intros Hr H. destruct (reachable_tracked s Hr) as [w Ht].
  destruct (batch_tracked _ _ _ _ _ _ _ _ Ht H) as (_ & _ & _ & _ & _ & ->).
  apply bucketed_histogram.
Qed.

Lemma buckets_are_histogram_witness :
  match new 3 1.5%float with
  | Some s0 =>
      match addReportedDurations (fakeWorkDurations [3; 9; 30; 2; 20; 120; 24]) (MS_TO_NS 3)
              false (s0, FrameBuckets.init) with
      | Some (_, fb') => fb' = FrameBuckets.mk 7 2 1 0 0 1
      | None => False
      end
  | None => False
  end.
Proof.
  destruct (new 3 1.5%float) as [s0|] eqn:E0; [|vm_compute in E0; discriminate E0].
  assert (Hr : reachable s0) by (eapply reach_new; [|exact E0]; range).
  destruct (addReportedDurations _ _ _ _) as [[s' fb']|] eqn:E1.
  - rewrite (buckets_are_histogram _ _ _ _ _ _ Hr E1).
    vm_compute in E0. injection E0 as <-. vm_compute. reflexivity.
  - vm_compute in E0. injection E0 as <-. vm_compute in E1. discriminate E1.
Defined.

End RecordWindowFacts.

(** ** BatteryEEPROMReporter: the history record format *)

Module BatteryHistoryFormatFacts.

Import CxxFacts BatteryEEPROMReporter BatteryEEPROMReporterFacts BatteryHistoryFormat.

Lemma land_ones_mod a n : 0 <= n -> Z.land a (2 ^ n - 1) = a mod 2 ^ n.
Proof.
  intros Hn. replace (2 ^ n - 1) with (Z.ones n) by (rewrite Z.ones_equiv; lia).
  by apply Z.land_ones.
Qed.

Lemma extract_fields tmp raw :
  let r := extract tmp raw in
  RawFormat.timer_h r = tmp mod 2 ^ 8 /\
  RawFormat.fullcapnom r = (tmp / 2 ^ 8) mod 2 ^ 10 /\
  RawFormat.fullcaprep r = (tmp / 2 ^ 18) mod 2 ^ 10 /\
  RawFormat.mixsoc r = (tmp / 2 ^ 28) mod 2 ^ 6 /\
  RawFormat.vfsoc r = (tmp / 2 ^ 34) mod 2 ^ 6 /\
  RawFormat.maxvolt r = (tmp / 2 ^ 40) mod 2 ^ 4 /\
  RawFormat.minvolt r = (tmp / 2 ^ 44) mod 2 ^ 4 /\
  RawFormat.maxtemp r = (tmp / 2 ^ 48) mod 2 ^ 4 /\
  RawFormat.mintemp r = (tmp / 2 ^ 52) mod 2 ^ 4 /\
  RawFormat.maxchgcurr r = (tmp / 2 ^ 56) mod 2 ^ 4 /\
  RawFormat.maxdischgcurr r = (tmp / 2 ^ 60) mod 2 ^ 4 /\
  RawFormat.tempco r = RawFormat.tempco raw /\
  RawFormat.rcomp0 r = RawFormat.rcomp0 raw.
Proof.
  unfold extract. cbn -[Z.pow Z.land Z.shiftr Z.div Z.modulo].
  rewrite !Z.shiftr_shiftr by lia. cbn [Z.add Pos.add Pos.succ].
  rewrite !Z.shiftr_div_pow2 by lia.
  change 255 with (2 ^ 8 - 1). change 1023 with (2 ^ 10 - 1).
  change 63 with (2 ^ 6 - 1). change 15 with (2 ^ 4 - 1).
  rewrite !land_ones_mod by lia.
  unfold uint. rewrite Z.mod_mod by lia. repeat split.
Qed.

Lemma extract_in_width tmp raw : in_width (extract tmp raw).
Proof.
  unfold in_width.
  destruct (extract_fields tmp raw)
    as (-> & -> & -> & -> & -> & -> & -> & -> & -> & -> & -> & _).
  repeat split; apply Z.mod_pos_bound; lia.
Qed.

(** X19. The chain of shifts and masks of [checkAndReport] cuts the
    64-bit word into eleven fields of 8, 10, 10, 6, 6, 4, 4, 4, 4, 4 and
    4 bits, lowest first, and loses nothing: the fields, put back at
    their places, give the word; [tempco] and [rcomp0] are not
    touched. *)
Theorem extract_recomposes (tmp : Z) (raw : RawFormat.t) :
  0 <= tmp < 2 ^ 64 ->
  compose (extract tmp raw) = tmp /\
  in_width (extract tmp raw) /\
  RawFormat.tempco (extract tmp raw) = RawFormat.tempco raw /\
  RawFormat.rcomp0 (extract tmp raw) = RawFormat.rcomp0 raw.
Proof.
  intros Ht. split; [|split; [apply extract_in_width|]].
  - unfold compose.
    destruct (extract_fields tmp raw)
      as (-> & -> & -> & -> & -> & -> & -> & -> & -> & -> & -> & _).
    assert (Hlast : (tmp / 2 ^ 60) mod 2 ^ 4 = tmp / 2 ^ 60).
    { apply Z.mod_small. split; [apply Z.div_pos; lia|].
      apply Z.div_lt_upper_bound; lia. }
    rewrite Hlast.
    pose proof (Z.div_mod tmp (2 ^ 8) ltac:(lia)) as H0.
    assert (Hstep : forall a b c, 0 <= a -> 0 <= b -> c = a + b ->
              tmp / 2 ^ a = 2 ^ b * (tmp / 2 ^ c) + (tmp / 2 ^ a) mod 2 ^ b).
    { intros a b c Ha Hb ->. rewrite Z.pow_add_r by lia.
      rewrite <- Z.div_div by lia. apply Z.div_mod. lia. }
    pose proof (Hstep 8 10 18 ltac:(lia) ltac:(lia) eq_refl) as H1.
    pose proof (Hstep 18 10 28 ltac:(lia) ltac:(lia) eq_refl) as H2.
    pose proof (Hstep 28 6 34 ltac:(lia) ltac:(lia) eq_refl) as H3.
    pose proof (Hstep 34 6 40 ltac:(lia) ltac:(lia) eq_refl) as H4.
    pose proof (Hstep 40 4 44 ltac:(lia) ltac:(lia) eq_refl) as H5.
    pose proof (Hstep 44 4 48 ltac:(lia) ltac:(lia) eq_refl) as H6.
    pose proof (Hstep 48 4 52 ltac:(lia) ltac:(lia) eq_refl) as H7.
    pose proof (Hstep 52 4 56 ltac:(lia) ltac:(lia) eq_refl) as H8.
    pose proof (Hstep 56 4 60 ltac:(lia) ltac:(lia) eq_refl) as H9.
    clear Hstep Hlast Ht.
    repeat match goal with
           | H : context [(tmp / ?d) mod ?m] |- _ =>
               let x := fresh "m" in set (x := (tmp / d) mod m) in *; clearbody x
           end.
    set (low := tmp mod 2 ^ 8) in *. clearbody low.
    repeat match goal with
           | H : context [tmp / ?d] |- _ =>
               let x := fresh "q" in set (x := tmp / d) in *; clearbody x
           end.
    lia.
  - destruct (extract_fields tmp raw) as (_ & _ & _ & _ & _ & _ & _ & _ & _ & _ & _ & ? & ?).
    done.
Qed.

Lemma extract_recomposes_witness :
  compose (extract 0x0102030405060708 (RawFormat.mk 1 2 0 0 0 0 0 0 0 0 0 0 0))
  = 0x0102030405060708.
Proof.
  destruct (extract_recomposes 0x0102030405060708
              (RawFormat.mk 1 2 0 0 0 0 0 0 0 0 0 0 0)) as [H _]; [lia|exact H].
Defined.

Lemma mapToHistory_in_units tmp raw i sparse h :
  in_units (mapToHistory (extract tmp raw) i sparse h).
Proof.
  pose proof (extract_in_width tmp raw) as Hw. unfold in_width in Hw.
  unfold in_units, mapToHistory. cbn [Pipeline.timer_h Pipeline.max_temp Pipeline.min_temp
    Pipeline.min_ibatt Pipeline.max_ibatt Pipeline.min_vbatt Pipeline.max_vbatt
    Pipeline.batt_soc Pipeline.msoc Pipeline.full_cap Pipeline.full_rep].
  set (r := extract tmp raw) in *. clearbody r.
  change (2 ^ 8) with 256 in Hw. change (2 ^ 10) with 1024 in Hw.
  change (2 ^ 6) with 64 in Hw. change (2 ^ 4) with 16 in Hw.
  rewrite !Z.quot_div_nonneg by lia.
  pose proof (Z.div_pos (RawFormat.fullcaprep r * 125) 1000 ltac:(lia) ltac:(lia)).
  pose proof (Z.div_pos (RawFormat.fullcapnom r * 125) 1000 ltac:(lia) ltac:(lia)).
  pose proof (Z.div_lt_upper_bound (RawFormat.fullcaprep r * 125) 1000 128
                ltac:(lia) ltac:(lia)).
  pose proof (Z.div_lt_upper_bound (RawFormat.fullcapnom r * 125) 1000 128
                ltac:(lia) ltac:(lia)).
  lia.
Qed.

(** The tail of the loop body leaves the frame alone or reports the
    record of slot [i] as mapped from the extracted fields. *)
Lemma decodeAndReport_atom E f i sparse vals :
  reported (decodeAndReport E f i sparse vals) = reported f \/
  exists tmp,
    reported (decodeAndReport E f i sparse vals)
    = reported f ++ [(i, mapToHistory (extract tmp (hist_raw f)) i sparse (hist f))].
Proof.
  unfold decodeAndReport.
  destruct (isErased (hist_raw f)); [by left|].
  destruct (packedData E vals i <=? 0); [by left|].
  right. by eexists.
Qed.

Lemma historyBody_atom E file_contents sparse i f :
  reported (historyBody E file_contents sparse i f) = reported f \/
  exists tmp raw h,
    reported (historyBody E file_contents sparse i f)
    = reported f ++ [(i, mapToHistory (extract tmp raw) i sparse h)].
Proof.
  unfold historyBody.
  destruct (decodeAndReport_atom E
              (withRaw f (scanInto (sscanf_history E
                                      (history_each file_contents (uint64 (i * LINESIZE))))
                                   (hist_raw f)))
              i sparse
              (sscanf_history E (history_each file_contents (uint64 (i * LINESIZE)))))
    as [H|[tmp H]]; [by left|right; by eexists _, _, _].
Qed.

Lemma pipelineBody_atom E file_contents i f :
  reported (pipelineBody E file_contents i f) = reported f \/
  exists tmp raw h,
    reported (pipelineBody E file_contents i f)
    = reported f ++ [(i, mapToHistory (extract tmp raw) i 0 h)].
Proof.
  unfold pipelineBody.
  destruct (int16 _ <=? 0); [by left|].
  match goal with
  | |- context [decodeAndReport E ?f' i 0 ?vals] =>
      destruct (decodeAndReport_atom E f' i 0 vals) as [H|[tmp H]]
  end; [by left|right; by eexists _, _, _].
Qed.

Lemma historyLoop_units E fuel file_contents sparse : forall i f,
  Forall (fun p => in_units p.2) (reported f) ->
  Forall (fun p => in_units p.2) (reported (historyLoop E fuel file_contents sparse i f)).
Proof.
  induction fuel as [|fuel IH]; intros i f Hf; cbn [historyLoop]; [done|].
  destruct (i <? BATT_HIST_NUM_MAX E); [|done].
  destruct (_ <? uint64 (i * LINESIZE)); [done|].
  apply IH.
  destruct (historyBody_atom E file_contents sparse i f) as [->|(tmp & raw & h & ->)];
    [done|].
  apply Forall_app. split; [done|]. apply Forall_singleton. apply mapToHistory_in_units.
Qed.

Lemma pipelineLoop_units E fuel file_contents len num : forall i f,
  Forall (fun p => in_units p.2) (reported f) ->
  Forall (fun p => in_units p.2) (reported (pipelineLoop E fuel file_contents len num i f)).
Proof.
  induction fuel as [|fuel IH]; intros i f Hf; cbn [pipelineLoop]; [done|].
  destruct (i <? num); [|done].
  destruct (_ <? _); [done|].
  apply IH.
  destruct (pipelineBody_atom E file_contents i f) as [->|(tmp & raw & h & ->)]; [done|].
  apply Forall_app. split; [done|]. apply Forall_singleton. apply mapToHistory_in_units.
Qed.

(** X20. Whatever the history file holds, every atom either
    [checkAndReport] hands to [reportEvent] carries values the mapping
    can give: [timer_h] from 0 to 1275, [max_temp] from 22 to 67,
    [min_temp] from -20 to 25, [min_ibatt] from -7500 to 0, [max_ibatt]
    from 0 to 7500, [min_vbatt] from 2500 to 2650, [max_vbatt] from 4200
    to 4500, both states of charge from 0 to 126 and both capacities
    from 0 to 127. *)
Theorem reported_atoms_in_units (E : env) (r : t) (reads : nat) (path : string) :
  Forall (fun p => in_units p.2) (reported (checkAndReport E r reads path)) /\
  Forall (fun p => in_units p.2) (reported (checkAndReport_pipeline E r reads path)).
Proof.
  split.
  - unfold checkAndReport. destruct (notUploadTime r _); [by apply Forall_nil|].
    destruct (ReadFileToString E path); [|by apply Forall_nil].
    apply historyLoop_units. by apply Forall_nil.
  - unfold checkAndReport_pipeline. destruct (notUploadTime r _); [by apply Forall_nil|].
    destruct (ReadFileToString E path); [|by apply Forall_nil].
    apply pipelineLoop_units. by apply Forall_nil.
Qed.

Lemma rising_cons_inv x l : rising (x :: l) -> rising l.
Proof. by intros [_ ?]. Qed.

Lemma rising_map_mono (g : Z -> Z) lo hi l :
  (forall a b, lo <= a -> a < b -> b < hi -> g a < g b) ->
  Forall (fun x => lo <= x < hi) l -> rising l -> rising (map g l).
Proof.
  intros Hg. induction l as [|x l IH]; intros Hb Hr; [done|].
  apply Forall_cons in Hb as [Hx Hb]. destruct Hr as [Hlt Hr].
  cbn [map rising]. split; [|by apply IH].
  apply Forall_fmap. rewrite Forall_forall in Hlt, Hb |- *.
  intros y Hy. cbn. apply Hg; [lia|by apply Hlt|]. by apply Hb.
Qed.

Lemma cycleOf_mono sparse a b : 0 <= sparse -> a < b -> cycleOf sparse a < cycleOf sparse b.
Proof.
  intros Hs Hab. unfold cycleOf.
  destruct (a <? sparse) eqn:Ea; destruct (b <? sparse) eqn:Eb; lia.
Qed.

(** The slots the history loop reports from slot [i] on, in order. *)
Lemma historyLoop_slots E fuel file_contents sparse : forall i f,
  BATT_HIST_NUM_MAX E <= 32767 -> 0 <= sparse < 32767 -> 0 <= i ->
  exists new,
    reported (historyLoop E fuel file_contents sparse i f) = reported f ++ new /\
    Forall (fun p => i <= p.1 < BATT_HIST_NUM_MAX E /\
                     Pipeline.cycle_cnt p.2 = cycleOf sparse p.1) new /\
    rising (map fst new).
Proof.
  induction fuel as [|fuel IH]; intros i f Hmax Hs Hi; cbn [historyLoop].
  { exists []. by rewrite app_nil_r. }
  destruct (i <? BATT_HIST_NUM_MAX E) eqn:Elt; [|exists []; by rewrite app_nil_r].
  destruct (_ <? uint64 (i * LINESIZE)); [exists []; by rewrite app_nil_r|].
  assert (Hnext : int16 (i + 1) = i + 1).
  { unfold int16, sint. change (2 ^ (16 - 1)) with 32768. change (2 ^ 16) with 65536.
    rewrite Z.mod_small; lia. }
  rewrite Hnext.
  destruct (IH (i + 1) (historyBody E file_contents sparse i f) Hmax Hs ltac:(lia))
    as (new & Hrep & Hall & Hrise).
  destruct (historyBody_atom E file_contents sparse i f) as [Hb|(tmp & raw & h & Hb)];
    rewrite Hb in Hrep.
  - exists new. split; [done|]. split; [|done].
    eapply Forall_impl; [exact Hall|]. cbn. intros p [? ?]. split; [lia|done].
  - exists ((i, mapToHistory (extract tmp raw) i sparse h) :: new).
    split; [by rewrite Hrep, <- app_assoc|]. split.
    + apply Forall_cons. split.
      * cbn [fst snd mapToHistory Pipeline.cycle_cnt]. split; [lia|].
        unfold cycleOf. destruct (i <? sparse); apply int32_id; range.
      * eapply Forall_impl; [exact Hall|]. cbn. intros p [? ?]. split; [lia|done].
    + cbn [map fst rising]. split; [|done].
      apply Forall_fmap. eapply Forall_impl; [exact Hall|]. cbn. intros p [? _]. lia.
Qed.

Lemma sparseIndexCount_range E :
  0 < BATT_HIST_NUM_MAX E -> 0 <= sparseIndexCount E < BATT_HIST_NUM_MAX E.
Proof.
  intros Hmax. unfold sparseIndexCount.
  destruct (ReadFileToString E BATTERY_CYCLE_COUNT_PATH) as [c|]; [|lia].
  destruct (ParseInt E (Trim E c)) as [cnt|]; [|lia].
  destruct (BATT_HIST_NUM_MAX E <? Z.quot cnt 10) eqn:Ec; [|lia].
  pose proof (Z.rem_bound_pos (Z.quot cnt 10) (BATT_HIST_NUM_MAX E) ltac:(lia) Hmax). lia.
Qed.

(** X21. With [BATT_HIST_NUM_MAX] at most 1638, so that neither the
    [int16_t] loop counter wraps nor a cycle count reaches [2 ^ 15],
    the first [checkAndReport] reports the records in slot order, each
    slot at most once, and gives slot [i] the cycle count [(i + 1) * 20]
    below the sparse index count and [(i + sparse_index_count + 1) * 10]
    from it on, a value below [2 ^ 15]; so the cycle counts of the
    reported atoms rise strictly. *)
Theorem cycle_counts_rise (E : env) (r : t) (reads : nat) (path : string) :
  BATT_HIST_NUM_MAX E <= 1638 ->
  rising (map fst (reported (checkAndReport E r reads path))) /\
  rising (map (fun p => Pipeline.cycle_cnt p.2) (reported (checkAndReport E r reads path))) /\
  Forall (fun p => 0 <= p.1 < BATT_HIST_NUM_MAX E /\
                   Pipeline.cycle_cnt p.2 = cycleOf (sparseIndexCount E) p.1 /\
                   0 < Pipeline.cycle_cnt p.2 < 2 ^ 15)
         (reported (checkAndReport E r reads path)).
Proof.
  intros Hmax. unfold checkAndReport.
  destruct (notUploadTime r _); [by repeat split|].
  destruct (ReadFileToString E path) as [file_contents|]; [|by repeat split].
  destruct (Z_le_gt_dec (BATT_HIST_NUM_MAX E) 0) as [Hle|Hpos].
  { destruct (Z.to_nat (BATT_HIST_NUM_MAX E)) as [|fuel]; cbn [historyLoop].
    - by repeat split.
    - destruct (0 <? BATT_HIST_NUM_MAX E) eqn:E0; [lia|]. by repeat split. }
  pose proof (sparseIndexCount_range E ltac:(lia)) as Hs.
  match goal with
  | |- context [historyLoop E ?fuel file_contents ?sc 0 ?f] =>
      destruct (historyLoop_slots E fuel file_contents sc 0 f ltac:(lia) ltac:(lia)
                                  ltac:(lia))
        as (new & -> & Hall & Hrise)
  end.
  cbn [reported app]. split; [done|]. split.
  2:{ eapply Forall_impl; [exact Hall|]. cbn. intros p [Hp Hc].
      split; [done|]. split; [done|]. rewrite Hc. unfold cycleOf.
      destruct (p.1 <? sparseIndexCount E); lia. }
  assert (map (fun p : Z * Pipeline.t => Pipeline.cycle_cnt p.2) new
          = map (cycleOf (sparseIndexCount E)) (map fst new)) as ->.
  { rewrite map_map. apply map_ext_Forall. eapply Forall_impl; [exact Hall|].
    cbn. by intros p [_ ?]. }
  apply (rising_map_mono _ 0 (BATT_HIST_NUM_MAX E)); [| |done].
  - intros a b _ Hab _. apply cycleOf_mono; lia.
  - apply Forall_fmap. eapply Forall_impl; [exact Hall|]. cbn. by intros p [? _].
Qed.

(** The hypothesis of X21 discharged on a history file of three written
    records and an erased one, which the pass at the end of the file
    takes over from the last record. *)
Lemma cycle_counts_rise_witness :
  map (fun p => Pipeline.cycle_cnt p.2)
      (reported (checkAndReport (sample_env written_history) new 0 sample_path))
  = [10; 20; 30] /\
  rising (map (fun p => Pipeline.cycle_cnt p.2)
              (reported (checkAndReport (sample_env written_history) new 0 sample_path))).
Proof.
  split; [vm_compute; reflexivity|].
  apply (cycle_counts_rise (sample_env written_history) new 0 sample_path).
  vm_compute. discriminate.
Defined.

End BatteryHistoryFormatFacts.

(** ** BatteryFGReporter: trigger times *)

Module BatteryFGEvents.

Import CxxFacts BatteryFGReporter.

Lemma uint32_small z : 0 <= z < 2 ^ 32 -> uint32 z = z.
Proof. intros H. unfold uint32, uint. by apply Z.mod_small. Qed.

Lemma at_store_eq {A} (l l' : list A) i x : store l i x = Some l' -> at_ l' i = Some x.
Proof.
  unfold store. destruct ((0 <=? i) && (i <? Z.of_nat (length l))) eqn:E; [|discriminate].
  intros [= <-]. rewrite at_nat by lia. apply list_lookup_insert_eq. lia.
Qed.

Lemma at_store_ne {A} (l l' : list A) i j x :
  store l i x = Some l' -> j <> i -> at_ l' j = at_ l j.
Proof.
  unfold store. destruct ((0 <=? i) && (i <? Z.of_nat (length l))) eqn:E; [|discriminate].
  intros [= <-] Hne. unfold at_. destruct (j <? 0) eqn:Ej; [done|].
  apply list_lookup_insert_ne. lia.
Qed.

(** X22. A trigger report (state 1) for an event whose trigger time is
    clear, made at a boot time of at least one second and below
    [2 ^ 32] seconds, stores the boot time and leaves the duration of
    the record as it came; the next report for that event, whatever its
    state, is reported with the seconds elapsed since the trigger as its
    duration and clears the trigger time again. *)
Theorem trigger_then_report (r r1 : t) (d1 d1' d2 : BatteryFGPipeline)
    (a1 : option BatteryFGPipeline) (t1 t2 : Z) :
  0 <= event d1 < kNumMaxEvents ->
  state d1 = 1 ->
  at_ (ab_trigger_time_ r) (event d1) = Some 0 ->
  0 < t1 < 2 ^ 32 ->
  event d2 = event d1 ->
  reportFGEvent r d1 t1 = Some (r1, d1', a1) ->
  duration d1' = duration d1 /\
  at_ (ab_trigger_time_ r1) (event d1) = Some t1 /\
  exists r2 d2',
    reportFGEvent r1 d2 t2 = Some (r2, d2', Some d2') /\
    duration d2' = int32 (int64 (t2 - t1)) /\
    state d2' = int32 (state d2 + 1) /\
    at_ (ab_trigger_time_ r2) (event d1) = Some 0.
Proof.
  unfold kNumMaxEvents. intros He Hs Hclear Ht Hsame H.
  assert (Hu : uint32 (event d1) = event d1) by (apply uint32_small; lia).
  unfold reportFGEvent, kNumMaxEvents in H. rewrite Hu, Hclear, Hs in H.
  destruct (8 <=? event d1) eqn:E8; [lia|]. cbn [mbind option_bind] in H.
  change ((1 =? 1) && (0 =? 0)) with true in H. cbn iota in H.
  destruct (store (ab_trigger_time_ r) (event d1) (uint32 t1)) as [times|] eqn:Est;
    cbn [mbind option_bind] in H; [|discriminate H].
  injection H as <- <- _. cbn [duration ab_trigger_time_].
  pose proof (at_store_eq _ _ _ _ Est) as Hat. rewrite uint32_small in Hat by lia.
  split; [done|]. split; [exact Hat|].
  unfold reportFGEvent, kNumMaxEvents. rewrite Hsame, Hu, E8.
  cbn [ab_trigger_time_ last_ab_check_]. rewrite Hat. cbn [mbind option_bind].
  assert ((state d2 =? 1) && (t1 =? 0) = false) as ->.
  { destruct (t1 =? 0) eqn:E0; [lia|]. by rewrite andb_false_r. }
  assert (exists times2, store times (event d1) 0 = Some times2) as [times2 Est2].
  { unfold store in *.
    destruct ((0 <=? event d1) && (event d1 <? Z.of_nat (length (ab_trigger_time_ r))))
      eqn:Eb; [|discriminate Est].
    injection Est as <-. rewrite length_insert, Eb. by eexists. }
  rewrite Est2. cbn [mbind option_bind].
  eexists _, _. split; [reflexivity|]. cbn [duration state ab_trigger_time_].
  split; [done|]. split; [done|]. by eapply at_store_eq.
Qed.

Lemma trigger_then_report_witness :
  exists r2 d2',
    reportFGEvent (mk 0 [0; 0; 0; 100; 0; 0; 0; 0]) (mkPipeline 3 0 0 []) 160
    = Some (r2, d2', Some d2') /\
    duration d2' = 60 /\ state d2' = 1 /\ at_ (ab_trigger_time_ r2) 3 = Some 0.
Proof.
  destruct (trigger_then_report new (mk 0 [0; 0; 0; 100; 0; 0; 0; 0])
              (mkPipeline 3 1 0 []) (mkPipeline 3 2 0 []) (mkPipeline 3 0 0 [])
              (Some (mkPipeline 3 2 0 [])) 100 160) as (_ & _ & r2 & d2' & H);
    [unfold kNumMaxEvents; cbn [event]; lia | reflexivity | reflexivity | lia
     | reflexivity | reflexivity |].
  exists r2, d2'. exact H.
Defined.

(** X23. On a reporter with its eight trigger times, [reportFGEvent] is
    defined for every record: it never indexes [ab_trigger_time_] out of
    range, keeps the eight entries and [last_ab_check_], and touches the
    trigger time of no event but the one of the record. *)
Theorem reportFGEvent_keeps_others (r : t) (data : BatteryFGPipeline) (now : Z) :
  length (ab_trigger_time_ r) = 8%nat ->
  in_int32 (event data) ->
  exists r' data' atom,
    reportFGEvent r data now = Some (r', data', atom) /\
    length (ab_trigger_time_ r') = 8%nat /\
    last_ab_check_ r' = last_ab_check_ r /\
    forall e, e <> event data ->
              at_ (ab_trigger_time_ r') e = at_ (ab_trigger_time_ r) e.
Proof.
  intros Hlen He. unfold reportFGEvent, kNumMaxEvents.
  destruct (8 <=? uint32 (event data)) eqn:E8; [by eexists _, _, _|].
  assert (Hr : 0 <= event data < 8).
  { unfold uint32, uint in E8. destruct (Z_lt_le_dec (event data) 0) as [Hn|Hn].
    - replace (event data) with (event data + 2 ^ 32 + (-1) * 2 ^ 32) in E8 by lia.
      rewrite Z_mod_plus_full, Z.mod_small in E8 by range. range.
    - rewrite Z.mod_small in E8 by range. lia. }
  destruct (at_is_Some (ab_trigger_time_ r) (event data) ltac:(lia)) as [trigger ->].
  cbn [mbind option_bind].
  assert (Hst : forall x, exists times,
             store (ab_trigger_time_ r) (event data) x = Some times).
  { intros x. unfold store.
    destruct ((0 <=? event data) && (event data <? Z.of_nat (length (ab_trigger_time_ r))))
      eqn:Eb; [by eexists|lia]. }
  destruct ((state data =? 1) && (trigger =? 0)).
  - destruct (Hst (uint32 now)) as [times Est]. rewrite Est. cbn [mbind option_bind].
    eexists _, _, _. split; [reflexivity|]. cbn [ab_trigger_time_ last_ab_check_].
    split; [by rewrite (store_length _ _ _ _ Est)|]. split; [done|].
    intros e Hne. by eapply at_store_ne.
  - destruct (Hst 0) as [times Est]. rewrite Est. cbn [mbind option_bind].
    eexists _, _, _. split; [reflexivity|]. cbn [ab_trigger_time_ last_ab_check_].
    split; [by rewrite (store_length _ _ _ _ Est)|]. split; [done|].
    intros e Hne. by eapply at_store_ne.
Qed.

Lemma reportFGEvent_keeps_others_witness :
  exists r' data' atom,
    reportFGEvent (mk 7 [0; 0; 0; 100; 0; 50; 0; 0]) (mkPipeline 3 0 0 []) 160
    = Some (r', data', atom) /\
    length (ab_trigger_time_ r') = 8%nat /\
    last_ab_check_ r' = 7 /\
    at_ (ab_trigger_time_ r') 5 = Some 50.
Proof.
  destruct (reportFGEvent_keeps_others (mk 7 [0; 0; 0; 100; 0; 50; 0; 0])
              (mkPipeline 3 0 0 []) 160) as (r' & data' & atom & H & Hl & Hc & Ho);
    [reflexivity|cbn [event]; range|].
  exists r', data', atom. split; [exact H|]. split; [exact Hl|]. split; [exact Hc|].
  rewrite Ho; [reflexivity|]. cbn. lia.
Defined.

End BatteryFGEvents.

(** ** ChannelGroup: one pass of the group thread *)

Module ChannelGroupLoopFacts.

Import CxxFacts ChannelGroupLoop.

(** *** The scan of the flag word *)

Lemma countr_zero_from_spec fuel x : forall k,
  0 <= k ->
  k <= countr_zero_from fuel x k <= k + Z.of_nat fuel /\
  (forall n, k <= n < countr_zero_from fuel x k -> Z.testbit x n = false) /\
  (countr_zero_from fuel x k < k + Z.of_nat fuel ->
   Z.testbit x (countr_zero_from fuel x k) = true).
Proof.
  induction fuel as [|fuel IH]; intros k Hk; cbn [countr_zero_from].
  - split; [lia|]. split; [intros n Hn; lia|lia].
  - destruct (Z.testbit x k) eqn:E.
    + split; [lia|]. split; [intros n Hn; lia|done].
    + destruct (IH (k + 1) ltac:(lia)) as (Hr & Hlow & Hset).
      split; [lia|]. split.
      * intros n Hn. destruct (Z.eq_dec n k) as [->|Hne]; [done|]. apply Hlow. lia.
      * intros Hlt. apply Hset. lia.
Qed.

Lemma countr_zero_spec x :
  0 <= countr_zero x <= 32 /\
  (forall n, 0 <= n < countr_zero x -> Z.testbit x n = false) /\
  (countr_zero x < 32 -> Z.testbit x (countr_zero x) = true).
Proof. exact (countr_zero_from_spec 32 x 0 ltac:(lia)). Qed.

Lemma clearbit_sub x c : 0 <= c -> Z.testbit x c = true -> Z.clearbit x c = x - 2 ^ c.
Proof.
  intros Hc Hset. rewrite Z.clearbit_spec'. symmetry. apply Z.sub_nocarry_ldiff.
  apply Z.bits_inj'. intros n Hn. rewrite Z.ldiff_spec, Z.bits_0.
  destruct (Z.eq_dec n c) as [->|Hne].
  - by rewrite Hset, andb_false_r.
  - by rewrite Z.pow2_bits_false by lia.
Qed.

(** [x & (x - 1)] clears the lowest set bit. *)
Lemma drop_lowest x c :
  0 <= c -> Z.testbit x c = true -> (forall n, 0 <= n < c -> Z.testbit x n = false) ->
  Z.land x (x - 1) = Z.clearbit x c.
Proof.
  intros Hc Hset Hlow.
  assert (Hdis : Z.land (Z.clearbit x c) (Z.ones c) = 0).
  { apply Z.bits_inj'. intros n Hn. rewrite Z.land_spec, Z.bits_0.
    destruct (Z_lt_le_dec n c) as [Hlt|Hge].
    - rewrite Z.clearbit_neq by lia. by rewrite Hlow by lia.
    - by rewrite Z.ones_spec_high, andb_false_r by lia. }
  assert (Hpred : x - 1 = Z.lor (Z.clearbit x c) (Z.ones c)).
  { rewrite <- Z.add_nocarry_lor by exact Hdis.
    rewrite clearbit_sub, Z.ones_equiv by done. lia. }
  rewrite Hpred. apply Z.bits_inj'. intros n Hn.
  rewrite Z.land_spec, Z.lor_spec.
  destruct (Z_lt_le_dec n c) as [Hlt|Hge].
  - rewrite Z.clearbit_neq by lia. by rewrite Hlow by lia.
  - rewrite Z.ones_spec_high, orb_false_r by lia.
    destruct (Z.eq_dec n c) as [->|Hne].
    + by rewrite Z.clearbit_eq, andb_false_r.
    + rewrite Z.clearbit_neq by lia. by destruct (Z.testbit x n).
Qed.

Lemma filter_ext_in {A} (P Q : A -> Prop) `{forall x, Decision (P x)}
    `{forall x, Decision (Q x)} (l : list A) :
  (forall x, x ∈ l -> P x <-> Q x) -> filter P l = filter Q l.
Proof.
  induction l as [|x l IH]; intros Hpq; [reflexivity|].
  rewrite !filter_cons. rewrite IH by (intros y Hy; apply Hpq; by right).
  destruct (decide (P x)) as [Hp|Hp]; destruct (decide (Q x)) as [Hq|Hq]; try done.
  - destruct Hq. by apply (Hpq x ltac:(left)).
  - destruct Hp. by apply (Hpq x ltac:(left)).
Qed.

(** Clear bits at the head of a range are not in the filtered list. *)
Lemma skip_clear_bits x (j : nat) : forall a,
  a + Z.of_nat j <= 16 ->
  (forall n, a <= n < a + Z.of_nat j -> Z.testbit x n = false) ->
  filter (fun n => Z.testbit x n = true) (seqZ a (16 - a))
  = filter (fun n => Z.testbit x n = true) (seqZ (a + Z.of_nat j) (16 - (a + Z.of_nat j))).
Proof.
  induction j as [|j IH]; intros a Hb Hz.
  - by replace (a + Z.of_nat 0) with a by lia.
  - rewrite (seqZ_cons a) by lia. rewrite filter_cons.
    rewrite decide_False by (rewrite Hz by lia; discriminate).
    replace (Z.succ a) with (a + 1) by lia.
    replace (Z.pred (16 - a)) with (16 - (a + 1)) by lia.
    rewrite (IH (a + 1)) by (try lia; intros n Hn; apply Hz; lia).
    do 2 f_equal; lia.
Qed.

Section Scan.

Context {State : Type}.
Variable body : Z -> State -> State.

Lemma forEachFlag_from fuel : forall x k s,
  0 <= x < 2 ^ 32 -> 0 <= k <= 16 ->
  (forall n, 0 <= n < k -> Z.testbit x n = false) ->
  16 - k <= Z.of_nat fuel ->
  forEachFlag body fuel x s
  = foldl (fun s c => body c s) s
          (filter (fun n => Z.testbit x n = true) (seqZ k (16 - k))).
Proof.
  induction fuel as [|fuel IH]; intros x k s Hx Hk Hlow Hfuel.
  { cbn [forEachFlag]. by replace (16 - k) with 0 by lia. }
  cbn [forEachFlag]. unfold ChannelGroup.kMaxChannels.
  destruct (countr_zero_spec x) as (Hc & Hclow & Hcset).
  set (c := countr_zero x) in *.
  assert (Hkc : k <= c).
  { destruct (Z_le_gt_dec k c) as [?|Hgt]; [done|].
    specialize (Hcset ltac:(lia)). rewrite Hlow in Hcset by lia. discriminate Hcset. }
  destruct (c <? 16) eqn:E.
  - assert (Hset : Z.testbit x c = true) by (apply Hcset; lia).
    assert (Hpos : 0 < x).
    { destruct (Z.eq_dec x 0) as [E0|?]; [by rewrite E0, Z.bits_0 in Hset|lia]. }
    rewrite BatteryFGEvents.uint32_small by lia.
    rewrite (drop_lowest x c) by (done || lia).
    assert (Hpow : 0 < 2 ^ c) by (apply Z.pow_pos_nonneg; lia).
    assert (Hle : 2 ^ c <= x).
    { pose proof (Z.ldiff_nonneg x (2 ^ c)) as Hn.
      pose proof (clearbit_sub x c ltac:(lia) Hset) as Hs.
      rewrite Z.clearbit_spec' in Hs. lia. }
    rewrite (IH _ (c + 1)).
    + rewrite (skip_clear_bits x (Z.to_nat (c - k)) k) by
        (try lia; intros n Hn; apply Hclow; lia).
      replace (k + Z.of_nat (Z.to_nat (c - k))) with c by lia.
      rewrite (seqZ_cons c) by lia. rewrite filter_cons, decide_True by done.
      cbn [foldl].
      replace (Z.succ c) with (c + 1) by lia.
      replace (Z.pred (16 - c)) with (16 - (c + 1)) by lia.
      f_equal. apply filter_ext_in. intros n Hn. apply elem_of_seqZ in Hn.
      by rewrite Z.clearbit_neq by lia.
    + rewrite clearbit_sub by (done || lia). lia.
    + lia.
    + intros n Hn. destruct (Z.eq_dec n c) as [->|Hne].
      * apply Z.clearbit_eq.
      * rewrite Z.clearbit_neq by lia. apply Hclow. lia.
    + lia.
  - rewrite (skip_clear_bits x (Z.to_nat (16 - k)) k) by
      (try lia; intros n Hn; apply Hclow; lia).
    by replace (k + Z.of_nat (Z.to_nat (16 - k))) with 16 by lia.
Qed.

End Scan.

(** X24. The scan of the flag word runs the body once for every
    channel whose write bit is set, in ascending channel order, and for
    no other: the bits from 16 up (the read bits) are not looked at, and
    sixteen passes are enough. *)
Theorem forEachFlag_visits_write_bits {State : Type} (body : Z -> State -> State)
    (fuel : nat) (flagState : Z) (s : State) :
  0 <= flagState < 2 ^ 32 -> (16 <= fuel)%nat ->
  forEachFlag body fuel flagState s
  = foldl (fun s channelNum => body channelNum s) s (writeBits flagState).
Proof.
  intros Hx Hfuel. unfold writeBits, ChannelGroup.kMaxChannels.
  rewrite (forEachFlag_from body fuel flagState 0 s Hx) by (lia || intros n Hn; lia).
  reflexivity.
Qed.

Lemma forEachFlag_visits_write_bits_witness :
  forEachFlag (fun channelNum visited => visited ++ [channelNum]) 16 0x00a50812 []
  = [1; 4; 11].
Proof.
  rewrite (forEachFlag_visits_write_bits _ 16 0x00a50812 []); [|lia|lia].
  vm_compute. reflexivity.
Defined.

(** *** The dispatch of the messages read *)

Section Dispatch.

Variable getSession : Z -> bool.

Lemma lookup_middle {A} (pre : list A) m rest : (pre ++ m :: rest) !! length pre = Some m.
Proof. by rewrite lookup_app_r, Nat.sub_diag by lia. Qed.

Lemma lookup_end {A} (pre : list A) : (pre ++ []) !! length pre = None.
Proof. apply lookup_ge_None_2. rewrite length_app. cbn. lia. Qed.

Lemma snoc_shift {A} (pre : list A) m rest :
  pre ++ m :: rest = (pre ++ [m]) ++ rest /\ S (length pre) = length (pre ++ [m]).
Proof. rewrite <- app_assoc, length_app. cbn. split; [done|lia]. Qed.

(** The loop from message [length pre] on makes the calls of the
    machine on the messages that are left. *)
Lemma dispatchFrom_machine n : forall l,
  (length l <= n)%nat ->
  forall pre fuel, (length l <= fuel)%nat ->
  dispatchFrom getSession fuel (pre ++ l) (length pre) = machine getSession Idle l.
Proof.
  induction n as [|n IH]; intros l Hn pre fuel Hfuel.
  { destruct l; [|cbn in Hn; lia]. destruct fuel; cbn [dispatchFrom machine]; [done|].
    by rewrite lookup_end. }
  destruct l as [|m rest].
  { destruct fuel; cbn [dispatchFrom machine]; [done|]. by rewrite lookup_end. }
  cbn [length] in Hn, Hfuel. destruct fuel as [|fuel]; [lia|].
  cbn [dispatchFrom machine]. rewrite lookup_middle.
  destruct (snoc_shift pre m rest) as [Happ Hlen].
  assert (Hnext : dispatchFrom getSession fuel (pre ++ m :: rest) (S (length pre))
                  = machine getSession Idle rest).
  { rewrite Happ, Hlen. apply IH; lia. }
  destruct (negb (getSession (ChannelMessage.sessionID m))); [exact Hnext|].
  destruct (ChannelMessage.data m) as [h|t|w|mi en|tag] eqn:Ed;
    try (by rewrite Hnext).
  (* the work durations of the session *)
  assert (Hgather : forall l' pre' ds fuelc,
             (length l' <= n)%nat -> (length l' <= fuelc)%nat ->
             (length l' <= S fuel)%nat ->
             (let '(next, durations) :=
                collectDurations fuelc (pre' ++ l') (ChannelMessage.sessionID m)
                                 (length pre') ds in
              reportActualWorkDuration (ChannelMessage.sessionID m) durations
                :: dispatchFrom getSession fuel (pre' ++ l') (S next))
             = machine getSession (Gathering (ChannelMessage.sessionID m) ds) l').
  { induction l' as [|m' rest' IHl]; intros pre' ds fuelc Hl' Hfc Hfl.
    - destruct fuelc; cbn [collectDurations machine].
      + destruct fuel; cbn [dispatchFrom]; [done|].
        rewrite lookup_ge_None_2; [done|]. rewrite length_app. cbn. lia.
      + rewrite lookup_end.
        destruct fuel; cbn [dispatchFrom]; [done|].
        rewrite lookup_ge_None_2; [done|]. rewrite length_app. cbn. lia.
    - cbn [length] in Hl', Hfc, Hfl. destruct fuelc as [|fuelc]; [lia|].
      cbn [collectDurations machine]. rewrite lookup_middle.
      destruct (snoc_shift pre' m' rest') as [Happ' Hlen'].
      assert (Hdrop : dispatchFrom getSession fuel (pre' ++ m' :: rest') (S (length pre'))
                      = machine getSession Idle rest').
      { rewrite Happ', Hlen'. apply IH; lia. }
      unfold isWorkOf, durationOf.
      destruct (ChannelMessage.data m') as [h'|t'|w'|mi' en'|tag'] eqn:Ed';
        try (by rewrite Hdrop).
      destruct (ChannelMessage.sessionID m' =? ChannelMessage.sessionID m);
        [|by rewrite Hdrop].
      rewrite Happ', Hlen'. cbn [option_list]. apply IHl; lia. }
  (* the gathering starts at the message itself *)
  rewrite length_app. cbn [length]. rewrite Nat.add_succ_r.
  cbn [collectDurations]. rewrite lookup_middle, Ed, Z.eqb_refl. cbn [app].
  rewrite Happ, Hlen. apply Hgather; lia.
Qed.

Lemma dispatch_machine messages :
  dispatch getSession messages = machine getSession Idle messages.
Proof.
  unfold dispatch. exact (dispatchFrom_machine (length messages) messages ltac:(lia) []
                            (length messages) ltac:(lia)).
Qed.

Lemma machine_gathers batch : forall sessionID ds rest,
  forallb (isWorkOf sessionID) batch = true ->
  machine getSession (Gathering sessionID ds) (batch ++ rest)
  = machine getSession (Gathering sessionID (ds ++ omap durationOf batch)) rest.
Proof.
  induction batch as [|m batch IH]; intros sessionID ds rest Hall.
  - by rewrite app_nil_r.
  - cbn [forallb] in Hall. apply andb_true_iff in Hall as [Hm Hall].
    cbn [app machine]. rewrite Hm, IH by done. cbn [omap list_omap].
    assert (exists d, durationOf m = Some d) as [d ->].
    { unfold isWorkOf in Hm. unfold durationOf.
      destruct (ChannelMessage.data m); try discriminate Hm. by eexists. }
    cbn [option_list]. by rewrite <- app_assoc.
Qed.

End Dispatch.

(** X25. The dispatch loop makes the calls of a machine that takes the
    messages one at a time: a message of an unknown session or with
    another tag gives no call; a hint, a target duration and a mode give
    one call each; a work duration starts a gathering that takes the
    following work durations of the same session and ends in one
    [reportActualWorkDuration] with all of them in order; and the
    message that ends a gathering is consumed without any call. *)
Theorem dispatch_is_machine (getSession : Z -> bool) (messages : list ChannelMessage.t) :
  dispatch getSession messages = machine getSession Idle messages.
Proof. apply dispatch_machine. Qed.

(** X26. A run of work durations of one known session is reported to
    it in a single call, with the time stamp of each message and the
    four durations of its data; and when a message that is not a work
    duration of that session follows the run, that message is dropped:
    it leads to no call, whatever it is, and the loop goes on with the
    message after it. *)
Theorem message_after_work_durations_dropped (getSession : Z -> bool)
    (first : ChannelMessage.t) (batch : list ChannelMessage.t) (next : ChannelMessage.t)
    (rest : list ChannelMessage.t) :
  getSession (ChannelMessage.sessionID first) = true ->
  forallb (isWorkOf (ChannelMessage.sessionID first)) (first :: batch) = true ->
  isWorkOf (ChannelMessage.sessionID first) next = false ->
  dispatch getSession (first :: batch ++ next :: rest)
  = reportActualWorkDuration (ChannelMessage.sessionID first)
      (omap durationOf (first :: batch))
    :: dispatch getSession rest.
Proof.
  intros Hs Hall Hnext. rewrite !dispatch_machine.
  cbn [forallb] in Hall. apply andb_true_iff in Hall as [Hfirst Hall].
  cbn [machine]. rewrite Hs. cbn [negb].
  unfold isWorkOf in Hfirst. cbn [omap list_omap]. unfold durationOf at 1.
  destruct (ChannelMessage.data first) as [| |w| |]; try discriminate Hfirst.
  rewrite machine_gathers by done. cbn [machine]. by rewrite Hnext.
Qed.

Lemma message_after_work_durations_dropped_witness :
  dispatch (fun _ => true)
    [ ChannelMessage.mk 7 100 (workDuration (WorkDurationFixedV1.mk 10 1 2 3));
      ChannelMessage.mk 7 200 (workDuration (WorkDurationFixedV1.mk 20 4 5 6));
      ChannelMessage.mk 7 300 (hint 2);
      ChannelMessage.mk 7 400 (targetDuration 16) ]
  = [ reportActualWorkDuration 7 [WorkDuration.mk 100 10 2 3 1; WorkDuration.mk 200 20 5 6 4];
      updateTargetWorkDuration 7 16 ].
Proof.
  exact (message_after_work_durations_dropped (fun _ => true)
           (ChannelMessage.mk 7 100 (workDuration (WorkDurationFixedV1.mk 10 1 2 3)))
           [ChannelMessage.mk 7 200 (workDuration (WorkDurationFixedV1.mk 20 4 5 6))]
           (ChannelMessage.mk 7 300 (hint 2))
           [ChannelMessage.mk 7 400 (targetDuration 16)]
           eq_refl eq_refl eq_refl).
Defined.

End ChannelGroupLoopFacts.

(** ** ThermalPredictionsHelper *)

Module ThermalPredictionsHelperFacts.

Import CxxFacts ThermalPredictionsHelper.

Lemma registerPredictorSensor_consistent h name sd n :
  consistent h -> in_int32 sd -> in_int32 n ->
  consistent (registerPredictorSensor h name sd n).1.
Proof.
  intros [Hp Hq] Hsd Hn. unfold registerPredictorSensor.
  destruct ((sd <=? 0) || (n <=? 0)) eqn:E; [done|].
  apply orb_false_iff in E as [E1 E2].
  destruct (bool_decide (is_Some (predictor_sensors_ h !! name))) eqn:Ein; [done|].
  apply bool_decide_eq_false in Ein. cbn [fst].
  split; cbn [predictor_sensors_ predicted_sensors_].
  - intros name' p Hl. destruct (decide (name' = name)) as [->|Hne].
    + rewrite lookup_insert_eq in Hl. injection Hl as <-.
      unfold predictor_ok. cbn. rewrite length_replicate.
      repeat split; try range; try lia.
      apply Forall_replicate. cbn. by rewrite length_replicate.
    + rewrite lookup_insert_ne in Hl by done. by eapply Hp.
  - intros name' q Hl. destruct (Hq name' q Hl) as (Hd & Hd0 & p & Hlp & Hidx).
    split; [done|]. split; [done|]. exists p. split; [|done].
    destruct (decide (PredictedSensorInfo.linked_sensor q = name)) as [Heq|Hne].
    + exfalso. apply Ein. rewrite <- Heq. by eexists.
    + by rewrite lookup_insert_ne.
Qed.

Lemma registerPredictedSensor_consistent h name linked d :
  consistent h -> in_int32 d ->
  consistent (registerPredictedSensor h name linked d).1.
Proof.
  intros [Hp Hq] Hd. unfold registerPredictedSensor.
  destruct (d <? 0) eqn:E0; [done|].
  destruct (bool_decide (is_Some (predicted_sensors_ h !! name))); [done|].
  destruct (predictor_sensors_ h !! linked) as [p|] eqn:Hl; [|done].
  destruct (int32 _ <? d) eqn:Emax; [done|]. cbn [fst].
  split; cbn [predictor_sensors_ predicted_sensors_]; [exact Hp|].
  intros name' q Hlq. destruct (decide (name' = name)) as [->|Hne].
  - rewrite lookup_insert_eq in Hlq. injection Hlq as <-. cbn.
    split; [done|]. split; [lia|]. exists p. split; [done|].
    destruct (Hp _ _ Hl) as (Hsd & Hn & _).
    set (sd := PredictorSensorInfo.sample_duration p) in *.
    set (n := PredictorSensorInfo.num_out_samples p) in *.
    assert (Hle : d <= (n - 1) * sd).
    { destruct (Z_le_gt_dec ((n - 1) * sd) INT32_MAX) as [Hfit|Hbig].
      - rewrite int32_id in Emax by (unfold in_int32, INT32_MIN, INT32_MAX in *; nia). lia.
      - unfold in_int32 in Hd. lia. }
    rewrite Z.quot_div_nonneg by lia. split; [apply Z.div_pos; lia|].
    apply Z.div_lt_upper_bound; [lia|]. nia.
  - rewrite lookup_insert_ne in Hlq by done. by eapply Hq.
Qed.

Lemma updateSensor_parts h name vals now h' ok :
  consistent h -> updateSensor h name vals now = Some (h', ok) ->
  (ok = false /\ h' = h) \/
  exists p,
    predictor_sensors_ h !! name = Some p /\ ok = true /\
    Z.of_nat (length vals) = PredictorSensorInfo.num_out_samples p /\
    predicted_sensors_ h' = predicted_sensors_ h /\
    predictor_sensors_ h'
    = <[name := PredictorSensorInfo.mk
                  (PredictorSensorInfo.sensor_name p)
                  (PredictorSensorInfo.sample_duration p)
                  (PredictorSensorInfo.num_out_samples p)
                  (<[Z.to_nat (PredictorSensorInfo.cur_index p) :=
                       PredictionSample.mk now vals]> (PredictorSensorInfo.samples p))
                  ((PredictorSensorInfo.cur_index p + 1)
                   mod PredictorSensorInfo.num_out_samples p)]> (predictor_sensors_ h).
Proof.
  intros [Hp _] H. unfold updateSensor in H.
  destruct (predictor_sensors_ h !! name) as [p|] eqn:Hl;
    [|injection H as <- <-; by left].
  destruct (Hp _ _ Hl) as (Hsd & Hn & Hlen & Hall & Hcur).
  assert (Hu : uint64 (PredictorSensorInfo.num_out_samples p)
               = PredictorSensorInfo.num_out_samples p).
  { unfold uint64, uint. apply Z.mod_small. range. }
  rewrite Hu in H.
  destruct (Z.of_nat (length vals) =? PredictorSensorInfo.num_out_samples p) eqn:El;
    cbn [negb] in H; [|injection H as <- <-; by left].
  unfold store in H.
  destruct ((0 <=? PredictorSensorInfo.cur_index p)
            && (PredictorSensorInfo.cur_index p
                <? Z.of_nat (length (PredictorSensorInfo.samples p)))) eqn:Eb; [|lia].
  cbn [mbind option_bind] in H. unfold SessionRecords.rem32 in H.
  destruct (PredictorSensorInfo.num_out_samples p =? 0) eqn:E0; [lia|].
  cbn [mbind option_bind] in H. rewrite int32_id in H by range.
  rewrite Z.rem_mod_nonneg in H by lia.
  injection H as <- <-. right. exists p. cbn. repeat split; try done. lia.
Qed.

Lemma updateSensor_consistent h name vals now h' ok :
  consistent h -> updateSensor h name vals now = Some (h', ok) -> consistent h'.
Proof.
  intros Hc H. pose proof Hc as [Hp Hq].
  destruct (updateSensor_parts _ _ _ _ _ _ Hc H)
    as [[_ ->]|(p & Hl & _ & Hlen & Hpred & Hmap)]; [done|].
  destruct (Hp _ _ Hl) as (Hsd & Hn & Hsl & Hall & Hcur).
  assert (Hok : predictor_ok
                  (PredictorSensorInfo.mk
                     (PredictorSensorInfo.sensor_name p)
                     (PredictorSensorInfo.sample_duration p)
                     (PredictorSensorInfo.num_out_samples p)
                     (<[Z.to_nat (PredictorSensorInfo.cur_index p) :=
                          PredictionSample.mk now vals]> (PredictorSensorInfo.samples p))
                     ((PredictorSensorInfo.cur_index p + 1)
                      mod PredictorSensorInfo.num_out_samples p))).
  { unfold predictor_ok. cbn. rewrite length_insert.
    split; [done|]. split; [done|]. split; [done|]. split.
    - apply Forall_insert; [done|]. cbn. lia.
    - apply Z.mod_pos_bound. lia. }
  split; rewrite ?Hmap, ?Hpred.
  - intros name' p' Hl'. destruct (decide (name' = name)) as [->|Hne].
    + rewrite lookup_insert_eq in Hl'. by injection Hl' as <-.
    + rewrite lookup_insert_ne in Hl' by done. by eapply Hp.
  - intros name' q Hlq. destruct (Hq _ _ Hlq) as (Hd & Hd0 & p0 & Hlp & Hidx).
    split; [done|]. split; [done|].
    destruct (decide (PredictedSensorInfo.linked_sensor q = name)) as [Heq|Hne].
    + eexists. rewrite Heq, lookup_insert_eq. split; [reflexivity|]. cbn.
      rewrite Heq, Hl in Hlp. by injection Hlp as <-.
    + exists p0. by rewrite lookup_insert_ne.
Qed.

Lemma new_consistent : consistent new.
Proof. split; intros name x H; cbn in H; by rewrite lookup_empty in H. Qed.

Lemma reachable_consistent h : reachable h -> consistent h.
Proof.
  induction 1 as [|h name sd n _ IH Hsd Hn|h name linked d _ IH Hd
                  |h name vals now h' ok _ IH Hu].
  - apply new_consistent.
  - by apply registerPredictorSensor_consistent.
  - by apply registerPredictedSensor_consistent.
  - by eapply updateSensor_consistent.
Qed.

Lemma updateSensor_defined h name vals now :
  consistent h -> is_Some (updateSensor h name vals now).
Proof.
  intros [Hp _]. unfold updateSensor.
  destruct (predictor_sensors_ h !! name) as [p|] eqn:Hl; [|done].
  destruct (Hp _ _ Hl) as (Hsd & Hn & Hlen & Hall & Hcur).
  destruct (negb _); [done|]. unfold store.
  destruct ((0 <=? PredictorSensorInfo.cur_index p)
            && (PredictorSensorInfo.cur_index p
                <? Z.of_nat (length (PredictorSensorInfo.samples p)))) eqn:Eb; [|lia].
  cbn [mbind option_bind]. unfold SessionRecords.rem32.
  destruct (PredictorSensorInfo.num_out_samples p =? 0) eqn:E0; [lia|]. done.
Qed.

(** The ring position the loop of [readSensor] looks at. *)
Lemma readLoop_index p lc :
  predictor_ok p -> 0 <= lc < PredictorSensorInfo.num_out_samples p ->
  (if int32 (PredictorSensorInfo.cur_index p - lc - 1) <? 0
   then int32 (int32 (PredictorSensorInfo.cur_index p - lc - 1)
               + PredictorSensorInfo.num_out_samples p)
   else int32 (PredictorSensorInfo.cur_index p - lc - 1))
  = (PredictorSensorInfo.cur_index p - lc - 1) mod PredictorSensorInfo.num_out_samples p.
Proof.
  intros (Hsd & Hn & Hlen & Hall & Hcur) Hlc.
  rewrite (int32_id (PredictorSensorInfo.cur_index p - lc - 1)) by range.
  destruct (PredictorSensorInfo.cur_index p - lc - 1 <? 0) eqn:E.
  - rewrite int32_id by range. symmetry.
    rewrite <- (Z_mod_plus_full _ 1), Z.mul_1_l. apply Z.mod_small. lia.
  - symmetry. apply Z.mod_small. lia.
Qed.

Lemma readLoop_defined p pidx mn mx now fuel : forall lc,
  predictor_ok p -> 0 <= pidx < PredictorSensorInfo.num_out_samples p ->
  0 <= lc < PredictorSensorInfo.num_out_samples p ->
  PredictorSensorInfo.num_out_samples p - lc <= Z.of_nat fuel ->
  is_Some (readLoop fuel p pidx mn mx now lc).
Proof.
  induction fuel as [|fuel IH]; intros lc Hok Hpidx Hlc Hfuel; [lia|].
  pose proof Hok as (Hsd & Hn & Hlen & Hall & Hcur).
  cbn [readLoop]. rewrite (readLoop_index p lc Hok Hlc).
  pose proof (Z.mod_pos_bound (PredictorSensorInfo.cur_index p - lc - 1)
                (PredictorSensorInfo.num_out_samples p) ltac:(lia)) as Hb.
  destruct (at_is_Some (PredictorSensorInfo.samples p)
              ((PredictorSensorInfo.cur_index p - lc - 1)
               mod PredictorSensorInfo.num_out_samples p) ltac:(lia)) as [sample Hs].
  rewrite Hs. cbn [mbind option_bind].
  destruct (_ && _).
  - assert (Hvl : length (PredictionSample.values sample)
                  = Z.to_nat (PredictorSensorInfo.num_out_samples p)).
    { rewrite Forall_forall in Hall. apply Hall.
      rewrite at_nat in Hs by lia. by eapply list_elem_of_lookup_2. }
    destruct (at_is_Some (PredictionSample.values sample) pidx ltac:(lia)) as [v ->].
    done.
  - rewrite int32_id by range.
    destruct (lc + 1 <? PredictorSensorInfo.num_out_samples p) eqn:E; [|done].
    apply IH; try done; lia.
Qed.

(** X27. On every helper a client can have, [updateSensor] and
    [readSensor] are defined for every sensor name, list of values and
    time: the sample written and the samples read are within
    [samples], the value read is within [values], and the remainder by
    [num_out_samples] is not by zero. *)
Theorem helper_never_out_of_range (h : t) (sensor_name : string) (values : list float)
    (now : Z) :
  reachable h ->
  is_Some (updateSensor h sensor_name values now) /\
  is_Some (readSensor h sensor_name now).
Proof.
  intros Hr. pose proof (reachable_consistent h Hr) as Hc. split.
  - by apply updateSensor_defined.
  - destruct Hc as [Hp Hq]. unfold readSensor.
    destruct (predicted_sensors_ h !! sensor_name) as [q|] eqn:Hlq; [|done].
    destruct (Hq _ _ Hlq) as (_ & _ & p & Hlp & Hidx). rewrite Hlp.
    apply readLoop_defined; [by eapply Hp|done| |lia].
    destruct (Hp _ _ Hlp) as (_ & Hn & _). lia.
Qed.

Lemma sample_helper_reachable : reachable sample_helper.
Proof.
  unfold sample_helper. apply reach_predicted; [|range].
  apply reach_predictor; [apply reach_new|range|range].
Qed.

Lemma helper_never_out_of_range_witness :
  is_Some (updateSensor sample_helper "skin_predictor" [1; 2; 3; 4; 5]%float 7000000000) /\
  is_Some (readSensor sample_helper "skin_2s" 7000000000).
Proof.
  split.
  - exact (proj1 (helper_never_out_of_range sample_helper "skin_predictor"
                    [1; 2; 3; 4; 5]%float 7000000000 sample_helper_reachable)).
  - exact (proj2 (helper_never_out_of_range sample_helper "skin_2s" [] 7000000000
                    sample_helper_reachable)).
Defined.



End ThermalPredictionsHelperFacts.

(** ** SysfsCollector: the interrupt statistics *)

Module IrqStatsFacts.

Import CxxFacts IrqStats.

Lemma scanPairs_length sscanf_pair fuel : forall offset acc,
  (length (scanPairs sscanf_pair fuel offset acc).2 <= length acc + fuel)%nat.
Proof.
  induction fuel as [|fuel IH]; intros offset acc; cbn [scanPairs]; [cbn; lia|].
  destruct (sscanf_pair offset) as [[[irq_num irq_data] bytes_read]|]; [|cbn; lia].
  etransitivity; [apply IH|]. rewrite length_app. cbn. lia.
Qed.

Lemma pushFive_firstFive irq_pair values :
  Z.of_nat (length irq_pair) <= INT32_MAX ->
  pushFive irq_pair values = Some (values ++ firstFive irq_pair).
Proof.
  intros Hlen. unfold pushFive, pushPair, firstFive.
  rewrite int32_id by range.
  destruct irq_pair as [|p0 [|p1 [|p2 [|p3 [|p4 rest]]]]]; cbn [length] in *.
  1-5: unfold at_; simpl; by rewrite <- ?app_assoc.
  assert ((Z.of_nat (S (S (S (S (S (length rest)))))) <? 5) = false) as ->
    by (apply Z.ltb_ge; lia).
  unfold at_. simpl. by rewrite <- !app_assoc.
Qed.

(** X29. [process_irqatom_values] always appends exactly ten values to
    the atom: the numbers and data of the first five pairs it scanned,
    in file order, and -1 and 0 for each pair that is missing; it never
    reads [irq_pair] out of range. *)
Theorem process_irqatom_values_ten (sscanf_pair : Z -> option (Z * Z * Z))
    (fuel : nat) (offset : Z) (values : list Z) :
  Z.of_nat fuel <= INT32_MAX ->
  exists offset' irq_pair,
    scanPairs sscanf_pair fuel offset [] = (offset', irq_pair) /\
    process_irqatom_values sscanf_pair fuel offset values
    = Some (offset', values ++ firstFive irq_pair) /\
    length (firstFive irq_pair) = 10%nat.
Proof.
  intros Hfuel. unfold process_irqatom_values.
  pose proof (scanPairs_length sscanf_pair fuel offset []) as Hlen.
  destruct (scanPairs sscanf_pair fuel offset []) as [offset' irq_pair].
  cbn [snd length] in Hlen.
  exists offset', irq_pair. split; [done|].
  rewrite pushFive_firstFive by lia. split; [done|].
  unfold firstFive.
  destruct irq_pair as [|p0 [|p1 [|p2 [|p3 [|p4 rest]]]]]; reflexivity.
Qed.

Lemma process_irqatom_values_ten_witness :
  process_irqatom_values (sample_scan [(11, 500); (7, 300)]) 100 0 [42]
  = Some (16, [42; 11; 500; 7; 300; -1; 0; -1; 0; -1; 0]).
Proof.
  destruct (process_irqatom_values_ten (sample_scan [(11, 500); (7, 300)]) 100 0 [42])
    as (offset' & irq_pair & Hscan & Hres & _); [vm_compute; discriminate|].
  vm_compute in Hscan. injection Hscan as <- <-. exact Hres.
Defined.

End IrqStatsFacts.
